(** * Sourcify-grabber: the acquisition pipeline, embedded and verified

    A shallow embedding of the parts of the repository that the
    specification's properties talk about:

    - [Address]   : [src/utils/address.js] (EIP-55 checksum addresses);
    - [Http]      : the [HttpClient] class (retry, backoff, ETag cache);
    - [Sourcify]  : the [SourcefyClient] class (metadata and source lookup);
    - [Archive]   : the [ArchiveManager] class and the provenance part of
                    the [fetch] command;
    - [Checksum]  : [generateChecksums] and [verifyChecksums].

    JavaScript strings are [string]s of 8-bit characters, objects used as
    dictionaries are [gmap]s of their own properties (read and assigned
    through [PlainObject]), exceptions are the [Throw] case of [Result],
    and the outside world (network, clock, random numbers, file system)
    is explicit state or an explicit oracle. *)

From Stdlib Require Import ZArith QArith Qround Qminmax Lqa Lia Bool Ascii String List.
From stdpp Require Import gmap strings list fin_maps pretty.

Set Warnings "-register-all".

Local Open Scope string_scope.

(** ** Results of computations that may throw *)

Module JS.

(** The response headers the pipeline reads. *)
Record Headers := mkHeaders {
  etag : option string;
  lastModified : option string;
  contentType : option string;
  contentLength : option string;
  retryAfter : option string
}.

Record Response := mkResponse {
  status : Z;
  headers : Headers;
  data : string
}.

(** A thrown JavaScript [Error]: its [message] and, for the errors of the
    HTTP layer that carry one, the [response] whose status callers
    inspect ([error.response] is undefined for network errors and for
    plain [Error]s). *)
Record Error := mkError {
  message : string;
  response : option Response
}.

Definition plainError (msg : string) : Error :=
  {| message := msg; response := None |}.

(** [error.response?.status] *)
Definition statusOf (e : Error) : option Z :=
  match response e with Some r => Some (status r) | None => None end.

Inductive Result (A : Type) : Type :=
| Ok (a : A)
| Throw (e : Error).
Arguments Ok {A} a.
Arguments Throw {A} e.

Definition isOk {A} (r : Result A) : bool :=
  match r with Ok _ => true | Throw _ => false end.

(** *** Characters and strings *)

Definition isUpperAscii (c : ascii) : bool :=
  (65 <=? nat_of_ascii c)%nat && (nat_of_ascii c <=? 90)%nat.

Definition isLowerAscii (c : ascii) : bool :=
  (97 <=? nat_of_ascii c)%nat && (nat_of_ascii c <=? 122)%nat.

Definition toLowerCaseChar (c : ascii) : ascii :=
  if isUpperAscii c then ascii_of_nat (nat_of_ascii c + 32) else c.

Definition toUpperCaseChar (c : ascii) : ascii :=
  if isLowerAscii c then ascii_of_nat (nat_of_ascii c - 32) else c.

Definition notUpper (c : ascii) : bool := negb (isUpperAscii c).

(** [String.prototype.toLowerCase], on the ASCII range. *)
Fixpoint toLowerCase (s : string) : string :=
  match s with
  | EmptyString => EmptyString
  | String c s' => String (toLowerCaseChar c) (toLowerCase s')
  end.

Fixpoint drop (n : nat) (s : string) : string :=
  match n, s with
  | O, _ => s
  | S n', String _ s' => drop n' s'
  | S _, EmptyString => EmptyString
  end.

(** Does [s] begin with [pat]? *)
Fixpoint startsWith (pat s : string) : bool :=
  match pat, s with
  | EmptyString, _ => true
  | String a pat', String b s' => Ascii.eqb a b && startsWith pat' s'
  | String _ _, EmptyString => false
  end.

(** [s.replace(pat, rep)] with a string pattern: only the first
    occurrence of [pat], wherever it is, is replaced. *)
Fixpoint replace (pat rep s : string) : string :=
  if startsWith pat s then rep ++ drop (String.length pat) s
  else match s with
       | EmptyString => EmptyString
       | String c s' => String c (replace pat rep s')
       end.

Fixpoint forallb (p : ascii -> bool) (s : string) : bool :=
  match s with
  | EmptyString => true
  | String c s' => p c && forallb p s'
  end.

(** The value of one hexadecimal digit, as [parseInt(c, 16)] reads it. *)
Definition hexDigitValue (c : ascii) : option nat :=
  let n := nat_of_ascii c in
  if (48 <=? n)%nat && (n <=? 57)%nat then Some (n - 48)%nat
  else if (97 <=? n)%nat && (n <=? 102)%nat then Some (n - 87)%nat
  else if (65 <=? n)%nat && (n <=? 70)%nat then Some (n - 55)%nat
  else None.

Definition isHexDigit (c : ascii) : bool :=
  match hexDigitValue c with Some _ => true | None => false end.

(** [parseInt(hash[i], 16)]: [hash[i]] is [undefined] past the end, and
    [parseInt] of [undefined] or of a non-digit is [NaN] ([None]). *)
Definition parseInt16At (hash : string) (i : nat) : option nat :=
  match String.get i hash with
  | Some c => hexDigitValue c
  | None => None
  end.

(** [x >= 8], which is false on [NaN]. *)
Definition geq8 (x : option nat) : bool :=
  match x with Some n => (8 <=? n)%nat | None => false end.

End JS.

Export JS.

(** ** src/utils/address.js *)

Module Address.

(** What a caller may pass where an address is expected. *)
Inductive value :=
| VString (s : string)
| VNull
| VNumber (n : Z).

Section WithHash.

(** [crypto.createHash('keccak256').update(s).digest('hex')]. *)
Variable keccak256_hex : string -> string.

(** [/^[0-9a-f]{40}$/i.test(s)] *)
Definition test40hex (s : string) : bool :=
  (String.length s =? 40)%nat && JS.forallb isHexDigit s.

(** The loop of [toChecksumAddress] from index [i] on, over the rest of
    [cleanAddress]. *)
Fixpoint checksumLoop (hash : string) (i : nat) (rest : string) : string :=
  match rest with
  | EmptyString => EmptyString
  | String c rest' =>
      String (if geq8 (parseInt16At hash i) then toUpperCaseChar c else c)
             (checksumLoop hash (S i) rest')
  end.

Definition toChecksumAddress (address : value) : Result string :=
  match address with
  | VString address =>
      let cleanAddress := JS.replace "0x" "" (toLowerCase address) in
      if negb (test40hex cleanAddress) then Throw (plainError "Invalid address format")
      else
        let hash := keccak256_hex cleanAddress in
        Ok ("0x" ++ checksumLoop hash 0 cleanAddress)
  | _ => Throw (plainError "Address must be a string")
  end.

(** [address === toChecksumAddress(address)] inside [try], [false] in
    the [catch]. *)
Definition isValidChecksumAddress (address : value) : bool :=
  match toChecksumAddress address with
  | Ok r => match address with
            | VString s => String.eqb s r
            | _ => false
            end
  | Throw _ => false
  end.

Definition isValidAddress (address : value) : bool :=
  match address with
  | VString address => test40hex (JS.replace "0x" "" address)
  | _ => false
  end.

End WithHash.

(** A syntactically valid address: forty hexadecimal digits of either
    case, with or without the prefix [0x]. *)
Definition validAddressSyntax (s : string) : bool :=
  test40hex s || (startsWith "0x" s && test40hex (JS.drop 2 s)).

End Address.

(** ** JavaScript numbers that may be [NaN], and [parseInt] *)

Module Num.

(** A delay in milliseconds; [None] is [NaN]. *)
Definition jsnum := option Q.

(** [Math.min(x, cap)]: [NaN] if [x] is. *)
Definition mathMin (x : jsnum) (cap : Q) : jsnum :=
  match x with Some q => Some (Qmin q cap) | None => None end.

(** [x > y] on numbers, which is false as soon as one side is [NaN]. *)
Definition exceeds (x : jsnum) (y : Q) : Prop :=
  match x with Some q => (y < q)%Q | None => False end.

Definition isWhiteSpace (c : ascii) : bool :=
  let n := nat_of_ascii c in
  (n =? 32)%nat || ((9 <=? n)%nat && (n <=? 13)%nat).

Fixpoint skipWhiteSpace (s : string) : string :=
  match s with
  | String c s' => if isWhiteSpace c then skipWhiteSpace s' else s
  | EmptyString => EmptyString
  end.

(** The longest prefix of digits of [radix], read left to right; [acc]
    is [None] as long as no digit was read. *)
Fixpoint readDigits (radix : nat) (s : string) (acc : option Z) : option Z :=
  match s with
  | String c s' =>
      match hexDigitValue c with
      | Some d =>
          if (d <? radix)%nat
          then readDigits radix s'
                 (Some (Z.of_nat radix * default 0%Z acc + Z.of_nat d)%Z)
          else acc
      | None => acc
      end
  | EmptyString => acc
  end.

(** [parseInt(s)] without a radix argument: leading white space, an
    optional sign, an optional [0x] that selects base sixteen, then
    digits; [NaN] when no digit follows. *)
Definition parseInt (s : string) : option Z :=
  let s1 := skipWhiteSpace s in
  let '(sign, s2) :=
    match s1 with
    | String "-" r => ((-1)%Z, r)
    | String "+" r => (1%Z, r)
    | _ => (1%Z, s1)
    end in
  let '(radix, s3) :=
    if startsWith "0x" s2 || startsWith "0X" s2
    then (16%nat, JS.drop 2 s2) else (10%nat, s2) in
  match readDigits radix s3 None with
  | Some n => Some (sign * n)%Z
  | None => None
  end.

(** JavaScript truthiness of a possibly missing string. *)
Definition truthy (o : option string) : bool :=
  match o with
  | Some s => negb (String.eqb s "")
  | None => false
  end.

End Num.

Export Num.

(** ** Plain objects used as dictionaries *)

Module PlainObject.

(** The property names that every plain object inherits from
    [Object.prototype]. *)
Definition prototypeNames : list string :=
  ["constructor"; "__defineGetter__"; "__defineSetter__"; "hasOwnProperty";
   "__lookupGetter__"; "__lookupSetter__"; "isPrototypeOf";
   "propertyIsEnumerable"; "toString"; "valueOf"; "__proto__";
   "toLocaleString"].

Definition inherited (key : string) : bool :=
  bool_decide (key ∈ prototypeNames).

(** What [obj[key]] evaluates to on an object whose own properties hold
    strings: the own property, else the member of [Object.prototype] of
    that name (a function, or the prototype itself for [__proto__]),
    else [undefined]. *)
Inductive Value :=
| Own (s : string)
| Inherited (name : string)
| Undefined.

Definition read (obj : gmap string string) (key : string) : Value :=
  match obj !! key with
  | Some s => Own s
  | None => if inherited key then Inherited key else Undefined
  end.

(** Truthiness: an empty string and [undefined] are falsy, functions and
    objects are truthy. *)
Definition truthyValue (v : Value) : bool :=
  match v with
  | Own s => negb (String.eqb s "")
  | Inherited _ => true
  | Undefined => false
  end.

(** [v !== s] for a string [s]. *)
Definition differs (v : Value) (s : string) : bool :=
  match v with
  | Own s' => negb (String.eqb s' s)
  | _ => true
  end.

(** The value inside a template literal. *)
Definition toText (v : Value) : string :=
  match v with
  | Own s => s
  | Inherited name =>
      if String.eqb name "__proto__" then "[object Object]"
      else if String.eqb name "constructor" then "function Object() { [native code] }"
      else "function " ++ name ++ "() { [native code] }"
  | Undefined => "undefined"
  end.

(** [obj[key] = value] for a string [value].  Without an own property of
    that name the assignment to [__proto__] goes to the setter inherited
    from [Object.prototype], which ignores a value that is neither an
    object nor [null]; every other assignment defines or updates an own
    property. *)
Definition assign (key value : string) (obj : gmap string string)
    : gmap string string :=
  if String.eqb key "__proto__" && negb (bool_decide (is_Some (obj !! key)))
  then obj
  else <[key := value]> obj.

End PlainObject.

(** ** The HTTP client (retry, backoff, cache) *)

Module Http.

Definition DEFAULT_TIMEOUT : Z := 30000.
Definition DEFAULT_MAX_RETRIES : nat := 3.
Definition DEFAULT_RETRY_DELAY : Q := 1000.
Definition DEFAULT_MAX_RETRY_DELAY : Q := 10000.

(** The [options] of the constructor; [None] is an absent key. *)
Record ClientOptions := mkClientOptions {
  optTimeout : option Z;
  optMaxRetries : option nat;
  optRetryDelay : option Q;
  optMaxRetryDelay : option Q
}.

Record HttpClient := mkHttpClient {
  timeout : Z;
  maxRetries : nat;
  retryDelay : Q;
  maxRetryDelay : Q
}.

(** [x || d]: the default also replaces a zero. *)
Definition orZ (x : option Z) (d : Z) : Z :=
  match x with Some v => if (v =? 0)%Z then d else v | None => d end.
Definition orNat (x : option nat) (d : nat) : nat :=
  match x with Some (S n) => S n | _ => d end.
Definition orQ (x : option Q) (d : Q) : Q :=
  match x with Some v => if Qeq_bool v 0 then d else v | None => d end.

Definition newHttpClient (options : ClientOptions) : HttpClient :=
  {| timeout := orZ (optTimeout options) DEFAULT_TIMEOUT;
     maxRetries := orNat (optMaxRetries options) DEFAULT_MAX_RETRIES;
     retryDelay := orQ (optRetryDelay options) DEFAULT_RETRY_DELAY;
     maxRetryDelay := orQ (optMaxRetryDelay options) DEFAULT_MAX_RETRY_DELAY |}.

Definition noOptions : ClientOptions :=
  {| optTimeout := None; optMaxRetries := None;
     optRetryDelay := None; optMaxRetryDelay := None |}.

(** The default instance exported by the module. *)
Definition defaultClient : HttpClient := newHttpClient noOptions.

(** The [options] of one call of [request]. *)
Record RequestOptions := mkRequestOptions {
  ignoreCache : bool;
  ignoreEtag : bool;
  ifNoneMatch : option string;   (* options.headers['If-None-Match'] *)
  body : option string           (* options.data *)
}.

Definition noRequestOptions : RequestOptions :=
  {| ignoreCache := false; ignoreEtag := false; ifNoneMatch := None; body := None |}.

(** What is handed to the underlying client: one network request. *)
Record Request := mkRequest {
  reqMethod : string;
  reqUrl : string;
  reqIfNoneMatch : option string;
  reqBody : option string
}.

(** The cache file of one URL. *)
Record CacheEntry := mkCacheEntry {
  entryUrl : string;
  timestamp : Z;
  entryHeaders : Headers;
  entryData : string
}.

(** One exchange with the network: how the underlying client settles
    (it resolves with a response or rejects with an error) and how many
    milliseconds that took. *)
Record Exchange := mkExchange {
  answer : Result Response;
  took : N
}.

(** The state the client works on: the clock, the cache directory
    (file name, without its extension, to parsed content), the requests
    that went out so far, the delays slept so far and the number of
    random numbers drawn. *)
Record World := mkWorld {
  now : Z;
  cache : gmap string CacheEntry;
  sent : list Request;
  slept : list jsnum;
  draws : nat
}.

Definition CACHE_VALIDITY : Z := 24 * 60 * 60 * 1000.

(** [setTimeout(resolve, ms)]: the timer of Node truncates the delay and
    uses one millisecond when it is [NaN], below one or above 2^31-1. *)
Definition timerMs (d : jsnum) : Z :=
  match d with
  | Some q =>
      let t := Qfloor q in
      if (t <? 1)%Z || (2147483647 <? t)%Z then 1%Z else t
  | None => 1%Z
  end.

Section WithEnvironment.

(** [crypto.createHash('sha256').update(url).digest('hex')] *)
Variable sha256_hex : string -> string.
(** The answer to the [n]-th request that goes out. *)
Variable network : nat -> Request -> Exchange.
(** The [n]-th value of [Math.random()]. *)
Variable random : nat -> Q.

Definition getCacheKey (url : string) : string := sha256_hex url.

Definition loadFromCache (url : string) (w : World) : option CacheEntry :=
  match cache w !! getCacheKey url with
  | Some cached =>
      let cacheAge := (now w - timestamp cached)%Z in
      if (CACHE_VALIDITY <? cacheAge)%Z then None else Some cached
  | None => None
  end.

Definition saveToCache (url : string) (responseData : string) (h : Headers)
    (w : World) : World :=
  let cacheData :=
    {| entryUrl := url;
       timestamp := now w;
       entryHeaders := {| etag := etag h; lastModified := lastModified h;
                          contentType := contentType h;
                          contentLength := contentLength h;
                          retryAfter := None |};
       entryData := responseData |} in
  {| now := now w; cache := <[getCacheKey url := cacheData]> (cache w);
     sent := sent w; slept := slept w; draws := draws w |}.

(** [calculateRetryDelay(attempt)], with the value [r] that
    [Math.random()] returns. *)
Definition calculateRetryDelay (c : HttpClient) (attempt : nat) (r : Q) : Q :=
  let exponentialDelay := (retryDelay c * inject_Z (2 ^ Z.of_nat attempt))%Q in
  let jitter := (r * (1 # 10) * exponentialDelay)%Q in
  Qmin (exponentialDelay + jitter) (maxRetryDelay c).

Definition isRetryableError (error : Error) : bool :=
  match response error with
  | None => true
  | Some resp => (500 <=? status resp)%Z || (status resp =? 429)%Z
  end.

(** [getRetryAfterDelay(response)]; [r] is used only on the path that
    calls [calculateRetryDelay]. *)
Definition getRetryAfterDelay (c : HttpClient) (resp : Response) (r : Q) : jsnum :=
  if truthy (retryAfter (headers resp)) then
    let delay :=
      match parseInt (default "" (retryAfter (headers resp))) with
      | Some n => Some (inject_Z n * 1000)%Q
      | None => None
      end in
    mathMin delay (maxRetryDelay c)
  else Some (calculateRetryDelay c 0 r).

(** Does the delay computation read [Math.random()]? *)
Definition usesRandom (error : Error) : bool :=
  match response error with
  | Some resp =>
      if (status resp =? 429)%Z then negb (truthy (retryAfter (headers resp)))
      else true
  | None => true
  end.

(** The delay chosen in the [catch] block of [request] after the failed
    attempt number [attempt]. *)
Definition retryDelayFor (c : HttpClient) (attempt : nat) (error : Error) (r : Q)
    : jsnum :=
  match response error with
  | Some resp =>
      if (status resp =? 429)%Z then getRetryAfterDelay c resp r
      else Some (calculateRetryDelay c attempt r)
  | None => Some (calculateRetryDelay c attempt r)
  end.

Definition sleep (ms : jsnum) (w : World) : World :=
  {| now := (now w + timerMs ms)%Z; cache := cache w; sent := sent w;
     slept := slept w ++ [ms]; draws := draws w |}.

(** [this.client.request({method, url, ...options})] *)
Definition clientRequest (req : Request) (w : World) : Result Response * World :=
  let ex := network (length (sent w)) req in
  (answer ex,
   {| now := (now w + Z.of_N (took ex))%Z; cache := cache w;
      sent := sent w ++ [req]; slept := slept w; draws := draws w |}).

Definition drawRandom (used : bool) (w : World) : World :=
  if used then
    {| now := now w; cache := cache w; sent := sent w; slept := slept w;
       draws := S (draws w) |}
  else w.

Definition isGet (method : string) : bool := String.eqb (toLowerCase method) "get".

(** The [for] loop of [request]; [remaining] is [maxRetries - attempt],
    so that [attempt === this.maxRetries] reads [remaining = 0]. *)
Fixpoint attemptLoop (c : HttpClient) (method url : string) (req : Request)
    (remaining attempt : nat) (w : World) : Result string * World :=
  let '(settled, w1) := clientRequest req w in
  match settled with
  | Ok resp =>
      match (if (status resp =? 304)%Z then loadFromCache url w1 else None) with
      | Some cached => (Ok (entryData cached), w1)
      | None =>
          let w2 := if isGet method && (status resp =? 200)%Z
                    then saveToCache url (data resp) (headers resp) w1
                    else w1 in
          (Ok (data resp), w2)
      end
  | Throw error =>
      match remaining with
      | O => (Throw error, w1)
      | S remaining' =>
          if negb (isRetryableError error) then (Throw error, w1)
          else
            let delay := retryDelayFor c attempt error (random (draws w1)) in
            let w2 := drawRandom (usesRandom error) w1 in
            attemptLoop c method url req remaining' (S attempt) (sleep delay w2)
      end
  end.

(** The cache check at the head of [request]: a fresh cached entry with
    an ETag adds the conditional header to [options]. *)
Definition withConditionalHeader (method url : string) (options : RequestOptions)
    (w : World) : RequestOptions :=
  if isGet method && negb (ignoreCache options) then
    match loadFromCache url w with
    | Some cached =>
        if truthy (etag (entryHeaders cached)) && negb (ignoreEtag options)
        then {| ignoreCache := ignoreCache options;
                ignoreEtag := ignoreEtag options;
                ifNoneMatch := etag (entryHeaders cached);
                body := body options |}
        else options
    | None => options
    end
  else options.

(** [{method, url, ...options}] *)
Definition requestOf (method url : string) (options : RequestOptions) : Request :=
  {| reqMethod := method; reqUrl := url;
     reqIfNoneMatch := ifNoneMatch options;
     reqBody := body options |}.

Definition request (c : HttpClient) (method url : string) (options : RequestOptions)
    (w : World) : Result string * World :=
  let options' := withConditionalHeader method url options w in
  attemptLoop c method url (requestOf method url options') (maxRetries c) 0 w.

Definition get (c : HttpClient) (url : string) (options : RequestOptions) :=
  request c "GET" url options.

Definition post (c : HttpClient) (url : string) (payload : string)
    (options : RequestOptions) :=
  request c "POST" url
    {| ignoreCache := ignoreCache options; ignoreEtag := ignoreEtag options;
       ifNoneMatch := ifNoneMatch options; body := Some payload |}.

End WithEnvironment.

(** [axios.create] is called without [validateStatus], whose default
    accepts the statuses from 200 to 299. *)
Definition validateStatus (status : Z) : bool :=
  (200 <=? status)%Z && (status <? 300)%Z.

(** The underlying client resolves with a response only if
    [validateStatus] accepts its status; every other answer is a
    rejection with an error that carries the response. *)
Definition Axios (network : nat -> Request -> Exchange) : Prop :=
  forall n req resp, answer (network n req) = Ok resp ->
    validateStatus (status resp) = true.

(** [ms] milliseconds pass during which the client does nothing. *)
Definition elapse (ms : N) (w : World) : World :=
  {| now := (now w + Z.of_N ms)%Z; cache := cache w; sent := sent w;
     slept := slept w; draws := draws w |}.

(** The first [k] requests that go out from request number [n0] on, all
    of them [req], are rejected with a retryable error. *)
Definition FailedRetryably (network : nat -> Request -> Exchange) (req : Request)
    (n0 k : nat) : Prop :=
  forall i, (i < k)%nat ->
    exists e, answer (network (n0 + i)%nat req) = Throw e /\ isRetryableError e = true.

End Http.

(** ** The Sourcify client *)

Module Sourcify.

Inductive MatchType := full | partial.

Definition matchTypeName (m : MatchType) : string :=
  match m with full => "full" | partial => "partial" end.

(** What [fetchMetadata] resolves to. *)
Record MetadataResult := mkMetadataResult {
  metadata : string;
  matchType : MatchType;
  sourceUrl : string;
  fetchedAt : Z
}.

(** How a loop body that may [return] from the enclosing function ends:
    with that return value, or by falling through to the next iteration
    with the current [lastError] ([None] while it is undefined). *)
Inductive Loop (A : Type) : Type :=
| Return (a : A)
| Next (lastError : option Error).
Arguments Return {A} a.
Arguments Next {A} lastError.

(** [lastError?.message] inside a template literal. *)
Definition messageOrUndefined (lastError : option Error) : string :=
  match lastError with Some e => message e | None => "undefined" end.

(** The parsed body [null]: reading a property of it throws. *)
Definition isNull (payload : string) : bool := String.eqb payload "null".

(** [error.response?.status === 404] *)
Definition is404 (error : Error) : bool :=
  match statusOf error with
  | Some st => (st =? 404)%Z
  | None => false
  end.

Definition nullPropertyError (prop : string) : Error :=
  plainError ("Cannot read properties of null (reading '" ++ prop ++ "')").

(** One of the closures that [fetchAllSources] maps over [sourceFiles],
    as it stands between two of its awaits: waiting for the answer of
    the first of the mirrors it has still to try, with its [lastError];
    or settled, its [fetchSourceFile] having returned or thrown. *)
Inductive Closure :=
| Waiting (filePath : string) (mirrors : list string) (lastError : option Error)
| Fulfilled (filePath content : string)
| Rejected (filePath : string) (error : Error).

Definition closureFile (c : Closure) : string :=
  match c with
  | Waiting filePath _ _ => filePath
  | Fulfilled filePath _ => filePath
  | Rejected filePath _ => filePath
  end.

Definition isWaiting (c : Closure) : bool :=
  match c with Waiting _ _ _ => true | _ => false end.

(** The number of answers that a closure may still wait for. *)
Definition mirrorsLeft (c : Closure) : nat :=
  match c with Waiting _ mirrors _ => length mirrors | _ => 0%nat end.

(** The positions of the closures that have not settled, from position
    [i] on. *)
Fixpoint waitingFrom (i : nat) (closures : list Closure) : list nat :=
  match closures with
  | [] => []
  | c :: rest =>
      if isWaiting c then i :: waitingFrom (S i) rest else waitingFrom (S i) rest
  end.

Section WithClient.

Variable keccak256_hex : string -> string.
Variable encodeURIComponent : string -> string.
(** The keys of [metadata.sources], in the order of [Object.keys];
    [None] when [metadata.sources] is missing. *)
Variable manifestOf : string -> option (list string).

(** The injected HTTP client ([options.httpClient || httpClient]): the
    state it works on, its [get], and the clock read by [new Date()]. *)
Variable W : Type.
Variable httpGet : string -> W -> Result string * W.
Variable clock : W -> Z.

(** The fields of the client object. *)
Variable baseUrls : list string.

Definition contractPath (baseUrl : string) (chainId : N) (checksumAddress : string)
    (m : MatchType) : string :=
  baseUrl ++ "/contracts/" ++ matchTypeName m ++ "_match/" ++ pretty chainId
          ++ "/" ++ checksumAddress.

Definition getMetadataUrl (baseUrl : string) (chainId : N) (address : string)
    (m : MatchType) : Result string :=
  match Address.toChecksumAddress keccak256_hex (Address.VString address) with
  | Ok checksumAddress =>
      Ok (contractPath baseUrl chainId checksumAddress m ++ "/metadata.json")
  | Throw e => Throw e
  end.

Definition getFileUrl (baseUrl : string) (chainId : N) (address filePath : string)
    (m : MatchType) : Result string :=
  match Address.toChecksumAddress keccak256_hex (Address.VString address) with
  | Ok checksumAddress =>
      Ok (contractPath baseUrl chainId checksumAddress m ++ "/sources/"
            ++ encodeURIComponent filePath)
  | Throw e => Throw e
  end.

(** The [try] block of [fetchMetadata] for one mirror and match type.
    The log call of the block reads [metadata.compiler], which throws on
    a [null] body. *)
Definition tryMetadata (chainId : N) (address : string) (m : MatchType)
    (baseUrl : string) (w : W) : Result MetadataResult * W :=
  match getMetadataUrl baseUrl chainId address m with
  | Throw e => (Throw e, w)
  | Ok url =>
      match httpGet url w with
      | (Ok md, w1) =>
          if isNull md then (Throw (nullPropertyError "compiler"), w1)
          else (Ok {| metadata := md; matchType := m; sourceUrl := baseUrl;
                      fetchedAt := clock w1 |}, w1)
      | (Throw e, w1) => (Throw e, w1)
      end
  end.

(** [for (const baseUrl of this.baseUrls)] of [fetchMetadata].  Both
    branches of the [catch] (status 404, logged at debug level, and any
    other error, logged as a warning) go on with the next mirror. *)
Fixpoint mirrorLoop (chainId : N) (address : string) (m : MatchType)
    (urls : list string) (lastError : option Error) (w : W)
    : Loop MetadataResult * W :=
  match urls with
  | [] => (Next lastError, w)
  | baseUrl :: urls' =>
      match tryMetadata chainId address m baseUrl w with
      | (Ok r, w1) => (Return r, w1)
      | (Throw error, w1) =>
          if is404 error
          then mirrorLoop chainId address m urls' (Some error) w1
          else mirrorLoop chainId address m urls' (Some error) w1
      end
  end.

(** [for (const matchType of ['full', 'partial'])] *)
Fixpoint matchTypeLoop (chainId : N) (address : string) (ms : list MatchType)
    (lastError : option Error) (w : W) : Loop MetadataResult * W :=
  match ms with
  | [] => (Next lastError, w)
  | m :: ms' =>
      match mirrorLoop chainId address m baseUrls lastError w with
      | (Return r, w1) => (Return r, w1)
      | (Next lastError', w1) => matchTypeLoop chainId address ms' lastError' w1
      end
  end.

Definition exhaustedMessage (chainId : N) (address : string)
    (lastError : option Error) : string :=
  "Failed to fetch metadata for " ++ address ++ " on chain " ++ pretty chainId
    ++ ": " ++ messageOrUndefined lastError.

Definition fetchMetadata (chainId : N) (address : string) (w : W)
    : Result MetadataResult * W :=
  if negb (Address.isValidChecksumAddress keccak256_hex (Address.VString address))
  then (Throw (plainError ("Invalid address format: " ++ address)), w)
  else
    match matchTypeLoop chainId address [full; partial] None w with
    | (Return r, w1) => (Ok r, w1)
    | (Next lastError, w1) =>
        (Throw (plainError (exhaustedMessage chainId address lastError)), w1)
    end.

(** The [try] block of [fetchSourceFile]; its log call reads
    [content.length]. *)
Definition trySourceFile (chainId : N) (address filePath : string)
    (m : MatchType) (baseUrl : string) (w : W) : Result string * W :=
  match getFileUrl baseUrl chainId address filePath m with
  | Throw e => (Throw e, w)
  | Ok url =>
      match httpGet url w with
      | (Ok content, w1) =>
          if isNull content then (Throw (nullPropertyError "length"), w1)
          else (Ok content, w1)
      | (Throw e, w1) => (Throw e, w1)
      end
  end.

Fixpoint sourceMirrorLoop (chainId : N) (address filePath : string)
    (m : MatchType) (urls : list string) (lastError : option Error) (w : W)
    : Loop string * W :=
  match urls with
  | [] => (Next lastError, w)
  | baseUrl :: urls' =>
      match trySourceFile chainId address filePath m baseUrl w with
      | (Ok content, w1) => (Return content, w1)
      | (Throw error, w1) =>
          if is404 error
          then sourceMirrorLoop chainId address filePath m urls' (Some error) w1
          else sourceMirrorLoop chainId address filePath m urls' (Some error) w1
      end
  end.

Definition fetchSourceFile (chainId : N) (address filePath : string)
    (m : MatchType) (w : W) : Result string * W :=
  match sourceMirrorLoop chainId address filePath m baseUrls None w with
  | (Return content, w1) => (Ok content, w1)
  | (Next lastError, w1) =>
      (Throw (plainError
         ("Failed to fetch source file " ++ filePath ++ " for " ++ address
            ++ " on chain " ++ pretty chainId ++ ": "
            ++ messageOrUndefined lastError)), w1)
  end.

Definition sourceFileError (chainId : N) (address filePath : string)
    (lastError : option Error) : Error :=
  plainError
    ("Failed to fetch source file " ++ filePath ++ " for " ++ address
       ++ " on chain " ++ pretty chainId ++ ": " ++ messageOrUndefined lastError).

(** *** The fan-out of [fetchAllSources]

    [sourceFiles.map(async ...)] starts one closure per file and
    [Promise.all] waits for all of them, so that the requests of
    different files overlap.  Each answer of the client is taken as one
    step on its state; [settles k] tells which of the closures still
    waiting receives the answer number [k] and goes on to its next
    await. *)

Variable settles : nat -> nat.

(** The closure of [filePath] when it is started. *)
Definition startClosure (chainId : N) (address filePath : string) : Closure :=
  match baseUrls with
  | [] => Rejected filePath (sourceFileError chainId address filePath None)
  | _ => Waiting filePath baseUrls None
  end.

(** A waiting closure receives its answer.  On success [fetchSourceFile]
    returns and the closure stores the content under its key; otherwise
    the loop of [fetchSourceFile] goes on with the next mirror, and past
    the last one it throws an error that the closure swallows. *)
Definition resume (chainId : N) (address : string) (m : MatchType)
    (c : Closure) (sources : gmap string string) (w : W)
    : Closure * gmap string string * W :=
  match c with
  | Waiting filePath (baseUrl :: rest) _ =>
      match trySourceFile chainId address filePath m baseUrl w with
      | (Ok content, w1) =>
          (Fulfilled filePath content,
           PlainObject.assign filePath content sources, w1)
      | (Throw error, w1) =>
          (match rest with
           | [] => Rejected filePath
                     (sourceFileError chainId address filePath (Some error))
           | _ => Waiting filePath rest (Some error)
           end, sources, w1)
      end
  | _ => (c, sources, w)
  end.

(** The run of the closures from answer number [k] on, for at most
    [fuel] answers; it ends when no closure is waiting. *)
Fixpoint promiseAll (chainId : N) (address : string) (m : MatchType)
    (fuel k : nat) (closures : list Closure) (sources : gmap string string)
    (w : W) : list Closure * gmap string string * W :=
  match fuel with
  | O => (closures, sources, w)
  | S fuel' =>
      let waiting := waitingFrom 0 closures in
      match waiting !! (settles k mod length waiting)%nat with
      | None => (closures, sources, w)
      | Some i =>
          match closures !! i with
          | None => (closures, sources, w)
          | Some c =>
              let '(c', sources', w') := resume chainId address m c sources w in
              promiseAll chainId address m fuel' (S k) (<[i := c']> closures)
                sources' w'
          end
      end
  end.

(** The closures of [sourceFiles] run to the end: every closure waits
    for at most one answer per mirror. *)
Definition settleAll (chainId : N) (address : string) (m : MatchType)
    (sourceFiles : list string) (w : W)
    : list Closure * gmap string string * W :=
  promiseAll chainId address m (length sourceFiles * length baseUrls) 0
    (map (startClosure chainId address) sourceFiles) ∅ w.

(** What holds of the closures and of the map from the start to the end
    of the fan-out over [files]: there is one closure per file; the map
    has no property [__proto__] of its own; it holds the contents of the
    fulfilled closures, but for a file of that name; a closure that
    waits has mirrors left; and a closure is fulfilled with what one of
    the mirrors served. *)
Definition Fanned (chainId : N) (address : string) (m : MatchType)
    (files : list string) (closures : list Closure)
    (sources : gmap string string) : Prop :=
  map closureFile closures = files /\
  sources !! "__proto__" = None /\
  (forall f content, sources !! f = Some content <->
     f <> "__proto__" /\ Fulfilled f content ∈ closures) /\
  (forall f mirrors le, Waiting f mirrors le ∈ closures ->
     mirrors <> [] /\ mirrors ⊆ baseUrls) /\
  (forall f content, Fulfilled f content ∈ closures ->
     exists baseUrl w', baseUrl ∈ baseUrls /\
       fst (trySourceFile chainId address f m baseUrl w') = Ok content).

(** [fetchAllSources].  Reading [metadata.sources] throws when
    [metadata] itself is [null]. *)
Definition fetchAllSources (chainId : N) (address : string) (md : string)
    (m : MatchType) (w : W) : Result (gmap string string) * W :=
  if isNull md then (Throw (nullPropertyError "sources"), w)
  else
    match manifestOf md with
    | None => (Ok ∅, w)
    | Some sourceFiles =>
        let '(_, sources, w1) := settleAll chainId address m sourceFiles w in
        (Ok sources, w1)
    end.

(** *** The scan as the specification describes it *)

(** The (match quality, mirror) pairs in the order of the scan: every
    mirror for an exact match, then every mirror for an approximate
    one. *)
Definition candidatesOf (ms : list MatchType) : list (MatchType * string) :=
  flat_map (fun m => map (pair m) baseUrls) ms.

Definition candidates : list (MatchType * string) := candidatesOf [full; partial].

(** One pass over an ordered list of candidates that returns at the
    first success and remembers the last error. *)
Fixpoint scanCandidates (chainId : N) (address : string)
    (cands : list (MatchType * string)) (lastError : option Error) (w : W)
    : Loop MetadataResult * W :=
  match cands with
  | [] => (Next lastError, w)
  | (m, baseUrl) :: rest =>
      match tryMetadata chainId address m baseUrl w with
      | (Ok r, w1) => (Return r, w1)
      | (Throw e, w1) => scanCandidates chainId address rest (Some e) w1
      end
  end.

(** The candidates of [cands] are tried one after the other from the
    state [w] and every one of them fails, whatever the status of its
    error: the last error and the state reached. *)
Fixpoint failAll (chainId : N) (address : string)
    (cands : list (MatchType * string)) (lastError : option Error) (w : W)
    : option (option Error * W) :=
  match cands with
  | [] => Some (lastError, w)
  | (m, baseUrl) :: rest =>
      match tryMetadata chainId address m baseUrl w with
      | (Ok _, _) => None
      | (Throw e, w1) => failAll chainId address rest (Some e) w1
      end
  end.

(** The client answers a URL in the same way in every state. *)
Definition Stateless : Prop :=
  forall url w w', fst (httpGet url w) = fst (httpGet url w').

(** The content of [filePath] if its fetch from the state [w] succeeds. *)
Definition fetched (chainId : N) (address : string) (m : MatchType)
    (filePath : string) (w : W) : option string :=
  match fst (fetchSourceFile chainId address filePath m w) with
  | Ok content => Some content
  | Throw _ => None
  end.

End WithClient.

(** A closure agrees with what the mirrors serve for its file from the
    state [w0]: the mirrors it has left serve what all of them do, it is
    fulfilled with that content, or it is rejected and they serve
    nothing. *)
Definition Served (keccak256_hex encodeURIComponent : string -> string)
    (W : Type) (httpGet : string -> W -> Result string * W)
    (baseUrls : list string) (chainId : N) (address : string) (m : MatchType)
    (w0 : W) (c : Closure) : Prop :=
  match c with
  | Waiting f mirrors _ =>
      fetched keccak256_hex encodeURIComponent W httpGet mirrors chainId address m f w0
      = fetched keccak256_hex encodeURIComponent W httpGet baseUrls chainId address m f w0
  | Fulfilled f content =>
      fetched keccak256_hex encodeURIComponent W httpGet baseUrls chainId address m f w0
      = Some content
  | Rejected f _ =>
      fetched keccak256_hex encodeURIComponent W httpGet baseUrls chainId address m f w0
      = None
  end.

End Sourcify.

(** ** The archive manager and the per-address body of the fetch command *)

Module Archive.

Definition ARCHIVE_DIR : string := "archive".

Record Tools := mkTools { toolName : string; toolVersion : string }.

(** A [provenance.json] that validates against its schema.  The two time
    stamps are ISO-8601 strings written by [toISOString]; each is
    represented by the epoch millisecond it denotes, which is what
    [new Date(s).getTime()] reads back.  [None] is an absent key. *)
Record Provenance := mkProvenance {
  firstSeenAt : Z;
  lastUpdatedAt : Z;
  tools : Tools;
  sourcesUsed : list string;
  fetchRunId : option string;
  commitHash : option string;
  operator : option string;
  orphaned : option bool
}.

(** A property of a JSON object as its schema sees it: absent, there
    with a value of the type the schema asks for, or there with a value
    of another type. *)
Inductive Field (A : Type) : Type :=
| Absent
| Present (a : A)
| IllTyped.
Arguments Absent {A}.
Arguments Present {A} a.
Arguments IllTyped {A}.

(** A JSON object in the place of a [provenance.json], by the
    properties that the schema names. *)
Record Draft := mkDraft {
  draftFirstSeenAt : Field Z;
  draftLastUpdatedAt : Field Z;
  draftTools : Field Tools;
  draftSourcesUsed : Field (list string);
  draftFetchRunId : Field string;
  draftCommitHash : Field string;
  draftOperator : Field string;
  draftOrphaned : Field bool
}.

(** An optional property validates when it is absent or well typed. *)
Definition optional {A} (f : Field A) : option (option A) :=
  match f with
  | Absent => Some None
  | Present a => Some (Some a)
  | IllTyped => None
  end.

(** [validateProvenance]: the four required properties are there and
    every property has its type. *)
Definition validated (d : Draft) : option Provenance :=
  match draftFirstSeenAt d, draftLastUpdatedAt d, draftTools d, draftSourcesUsed d,
        optional (draftFetchRunId d), optional (draftCommitHash d),
        optional (draftOperator d), optional (draftOrphaned d) with
  | Present first, Present last, Present t, Present used,
    Some runId, Some commit, Some op, Some orph =>
      Some {| firstSeenAt := first; lastUpdatedAt := last; tools := t;
              sourcesUsed := used; fetchRunId := runId; commitHash := commit;
              operator := op; orphaned := orph |}
  | _, _, _, _, _, _, _, _ => None
  end.

Definition fieldOf {A} (o : option A) : Field A :=
  match o with Some a => Present a | None => Absent end.

(** The JSON object of a record. *)
Definition draftOf (p : Provenance) : Draft :=
  {| draftFirstSeenAt := Present (firstSeenAt p);
     draftLastUpdatedAt := Present (lastUpdatedAt p);
     draftTools := Present (tools p);
     draftSourcesUsed := Present (sourcesUsed p);
     draftFetchRunId := fieldOf (fetchRunId p);
     draftCommitHash := fieldOf (commitHash p);
     draftOperator := fieldOf (operator p);
     draftOrphaned := fieldOf (orphaned p) |}.

(** The content of a [provenance.json] on disk: a JSON object, or
    anything else, with the error that [JSON.parse] or the validation
    throws on it (text that does not parse, a JSON value that is not an
    object). *)
Inductive Stored :=
| Document (d : Draft)
| Corrupt (e : Error).

(** A file that holds the record [p]. *)
Definition Valid (p : Provenance) : Stored := Document (draftOf p).
Arguments Valid : simpl never.

(** The clock and the files of the archive by path: the
    [provenance.json] files, and the text of every other file. *)
Record World := mkWorld {
  now : Z;
  files : gmap string Stored;
  artifacts : gmap string string
}.

(** The [options] of [createProvenance]. *)
Record ProvenanceOptions := mkProvenanceOptions {
  optFirstSeenAt : option Z;
  optToolVersion : option string;
  optSourcesUsed : option (list string);
  optFetchRunId : option string;
  optCommitHash : option string;
  optOperator : option string
}.

(** The [options] of [checkProvenance]. *)
Record CheckOptions := mkCheckOptions {
  staleThreshold : option Z;
  force : bool
}.

(** The result of [checkProvenance]. *)
Record ProvenanceCheck := mkProvenanceCheck {
  exists_ : bool;
  provenance : option Provenance;
  isStale : bool;
  shouldSkip : bool
}.

Definition DAY_MS : Z := 24 * 60 * 60 * 1000.

(** [s || d] on strings: the default also replaces the empty string. *)
Definition orString (s : option string) (d : string) : string :=
  if truthy s then default d s else d.

(** A document handed to [validateData] with the text that
    [JSON.stringify] gives for it and the errors that the validator of
    its schema reports, if any. *)
Record Json := mkJson {
  jsonText : string;
  jsonErrors : option string
}.

(** The error of [validateData]. *)
Definition invalidData (schemaName errors : string) : Error :=
  plainError ("Invalid " ++ schemaName ++ ": " ++ errors).

(** [validateData(data, validator, schemaName)] *)
Definition validateData (data : Json) (schemaName : string) : Result unit :=
  match jsonErrors data with
  | Some errors => Throw (invalidData schemaName errors)
  | None => Ok tt
  end.

(** An entry of [contractData.sources]: a string, or an object with or
    without a [content] string. *)
Inductive Source :=
| SourceText (content : string)
| SourceObject (content : option string).

(** The [contractData] handed to [persistContract], without its
    provenance record: [metadata], [abi] unless it is falsy, the entries
    of [sources], [bytecode.deployed] and [hashes] when they are set.
    The [fetch] command sets no [labels] and no [bytecode.creation]. *)
Record ContractData := mkContractData {
  cdMetadata : Json;
  cdAbi : option string;
  cdSources : list (string * Source);
  cdDeployedBytecode : option string;
  cdHashes : option Json
}.

(** What [--verify-bytecode] adds to contract data of the explorer: the
    on-chain bytecode if there is any, and the record of
    [createHashesRecord].  Explorer metadata has no
    [output.deployedBytecode], which leaves [metadataDeployedHash] of
    that record [null], so that the record never validates:
    [hashesErrors] is what [validateHashes] reports. *)
Record Verified := mkVerified {
  onChainBytecode : option string;
  hashesText : string;
  hashesErrors : string
}.

(** What the explorer branch of the command assembles.  [verified] is
    [None] without [--verify-bytecode], and when the verification
    threw. *)
Record ExplorerData := mkExplorerData {
  explorerMetadata : Json;
  explorerAbi : option string;
  explorerSources : list (string * Source);
  verified : option Verified
}.

Definition contractDataOf (d : ExplorerData) : ContractData :=
  {| cdMetadata := explorerMetadata d;
     cdAbi := explorerAbi d;
     cdSources := explorerSources d;
     cdDeployedBytecode :=
       match verified d with
       | Some v => onChainBytecode v
       | None => None
       end;
     cdHashes :=
       match verified d with
       | Some v => Some {| jsonText := hashesText v;
                           jsonErrors := Some (hashesErrors v) |}
       | None => None
       end |}.

Section WithHash.

Variable keccak256_hex : string -> string.
(** The text of [validator.errors] for a JSON object that
    [validateProvenance] rejects. *)
Variable provenanceErrors : Draft -> string.

(** [path.join] of segments that need no normalisation. *)
Definition pathJoin (a b : string) : string := a ++ "/" ++ b.

Definition getArchiveDir (chainName address : string) : Result string :=
  match Address.toChecksumAddress keccak256_hex (Address.VString address) with
  | Ok checksumAddress => Ok (pathJoin (pathJoin ARCHIVE_DIR chainName) checksumAddress)
  | Throw e => Throw e
  end.

Definition provenancePathOf (archiveDir : string) : string :=
  pathJoin archiveDir "provenance.json".

Definition checkProvenance (chainName address : string) (options : CheckOptions)
    (w : World) : Result ProvenanceCheck :=
  match getArchiveDir chainName address with
  | Throw e => Throw e
  | Ok archiveDir =>
      match files w !! provenancePathOf archiveDir with
      | Some (Document d) =>
          match validated d with
          | Some p =>
              let lastUpdated := lastUpdatedAt p in
              let threshold := Http.orZ (staleThreshold options) DAY_MS in
              let stale := (threshold <? now w - lastUpdated)%Z in
              Ok {| exists_ := true; provenance := Some p; isStale := stale;
                    shouldSkip := negb stale && negb (force options) |}
          | None =>
              Throw (invalidData "provenance" (provenanceErrors d))
          end
      | Some (Corrupt e) => Throw e
      | None =>
          Ok {| exists_ := false; provenance := None; isStale := true;
                shouldSkip := false |}
      end
  end.

(** [generateRunId()]; [suffix] is the text derived from [Math.random()]. *)
Definition generateRunId (t : Z) (suffix : string) : string :=
  "run-" ++ pretty t ++ "-" ++ suffix.

(** [createProvenance(options)] at time [t]. *)
Definition createProvenance (t : Z) (suffix : string) (options : ProvenanceOptions)
    : Provenance :=
  {| firstSeenAt := default t (optFirstSeenAt options);
     lastUpdatedAt := t;
     tools := {| toolName := "sourcify-grabber";
                 toolVersion := orString (optToolVersion options) "2.0.0" |};
     sourcesUsed := default [] (optSourcesUsed options);
     fetchRunId := Some (if truthy (optFetchRunId options)
                         then default "" (optFetchRunId options)
                         else generateRunId t suffix);
     commitHash := optCommitHash options;
     operator := Some (orString (optOperator options) "automated");
     orphaned := None |}.

(** [fs.writeFile(path, content)] for a file other than a
    [provenance.json]. *)
Definition writeArtifact (path content : string) (w : World) : World :=
  {| now := now w; files := files w;
     artifacts := <[path := content]> (artifacts w) |}.

(** The body of the loop over [Object.entries(sources)]. *)
Definition writeSource (sourceDir : string) (w : World) (entry : string * Source)
    : World :=
  let fullPath := pathJoin sourceDir entry.1 in
  match entry.2 with
  | SourceText content => writeArtifact fullPath content w
  | SourceObject content =>
      if truthy content then writeArtifact fullPath (default "" content) w else w
  end.

(** The files that [persistContract] writes before it comes to
    [hashes]: [metadata.json], [abi.json], the sources and the deployed
    bytecode. *)
Definition writeArtifacts (archiveDir : string) (data : ContractData) (w : World)
    : World :=
  let w1 := writeArtifact (pathJoin archiveDir "metadata.json")
              (jsonText (cdMetadata data)) w in
  let w2 := match cdAbi data with
            | Some abi => writeArtifact (pathJoin archiveDir "abi.json") abi w1
            | None => w1
            end in
  let w3 := foldl (writeSource (pathJoin archiveDir "source")) w2 (cdSources data) in
  match cdDeployedBytecode data with
  | Some deployed =>
      writeArtifact (pathJoin (pathJoin archiveDir "bytecode") "deployed.hex")
        deployed w3
  | None => w3
  end.

(** [writeJsonFile] of [provenance.json]. *)
Definition writeProvenance (archiveDir : string) (p : Provenance) (w : World)
    : World :=
  {| now := now w;
     files := <[provenancePathOf archiveDir := Valid p]> (files w);
     artifacts := artifacts w |}.

(** [persistContract(chainName, address, contractData)], with
    [contractData.provenance] as [p].  The files are written in the
    order of the source; a document that does not validate throws after
    the files before it have been written. *)
Definition persistContract (chainName address : string) (data : ContractData)
    (p : Provenance) (w : World) : Result unit * World :=
  match getArchiveDir chainName address with
  | Throw e => (Throw e, w)
  | Ok archiveDir =>
      match validateData (cdMetadata data) "metadata" with
      | Throw e => (Throw e, w)
      | Ok _ =>
          let w1 := writeArtifacts archiveDir data w in
          match cdHashes data with
          | Some hashes =>
              match validateData hashes "hashes" with
              | Throw e => (Throw e, w1)
              | Ok _ =>
                  let w2 := writeArtifact
                              (pathJoin (pathJoin archiveDir "bytecode") "hashes.json")
                              (jsonText hashes) w1 in
                  (Ok tt, writeProvenance archiveDir p w2)
              end
          | None => (Ok tt, writeProvenance archiveDir p w1)
          end
      end
  end.

(** [draft.orphaned = true; draft.lastUpdatedAt = now] *)
Definition markedAt (t : Z) (d : Draft) : Draft :=
  {| draftFirstSeenAt := draftFirstSeenAt d;
     draftLastUpdatedAt := Present t;
     draftTools := draftTools d;
     draftSourcesUsed := draftSourcesUsed d;
     draftFetchRunId := draftFetchRunId d;
     draftCommitHash := draftCommitHash d;
     draftOperator := draftOperator d;
     draftOrphaned := Present true |}.

(** [markOrphaned]: the file is parsed, not validated, and written back
    with the two properties set.  Content that does not parse, or on
    which the assignments throw or have no effect, stays as it is; the
    error is logged. *)
Definition markOrphaned (chainName address : string) (w : World)
    : Result unit * World :=
  match getArchiveDir chainName address with
  | Throw e => (Throw e, w)
  | Ok archiveDir =>
      match files w !! provenancePathOf archiveDir with
      | Some (Document d) =>
          (Ok tt, {| now := now w;
                     files := <[provenancePathOf archiveDir
                                := Document (markedAt (now w) d)]> (files w);
                     artifacts := artifacts w |})
      | _ => (Ok tt, w)
      end
  end.

(** *** The per-address body of the [fetch] command *)

(** What the body has in hand when it comes to
    [validateData(contractData.metadata, ...)]: contract data built from
    Sourcify, contract data built from the explorer fallback, or the
    error thrown before (both sources failed).  The Sourcify branch sets
    [metadata.sourcify.commit] to [null] where the schema asks for a
    string, so that its metadata never validates: [errors] is what
    [validateMetadata] reports. *)
Inductive Acquired :=
| FromSourcify (errors : string)
| FromExplorer (data : ExplorerData)
| Failed (e : Error).

Inductive Processed :=
| DryRun
| Skipped
| Persisted (p : Provenance).

Record FetchOptions := mkFetchOptions {
  optForce : bool;
  optDryRun : bool
}.

Definition provenanceOptionsFor (source : string) (check : ProvenanceCheck)
    : ProvenanceOptions :=
  {| optFirstSeenAt := match provenance check with
                       | Some prior => Some (firstSeenAt prior)
                       | None => None
                       end;
     optToolVersion := None;
     optSourcesUsed := Some [source];
     optFetchRunId := None;
     optCommitHash := None;
     optOperator := None |}.

Definition fetchAddress (options : FetchOptions) (chainName address : string)
    (acquired : Acquired) (suffix : string) (w : World) : Result Processed * World :=
  if optDryRun options then (Ok DryRun, w)
  else
    match checkProvenance chainName address
            {| staleThreshold := None; force := optForce options |} w with
    | Throw e => (Throw e, w)
    | Ok provenanceCheck =>
        if shouldSkip provenanceCheck then (Ok Skipped, w)
        else
          match acquired with
          | FromSourcify errors => (Throw (invalidData "metadata" errors), w)
          | FromExplorer data =>
              let p := createProvenance (now w) suffix
                         (provenanceOptionsFor "explorer" provenanceCheck) in
              match validateData (explorerMetadata data) "metadata" with
              | Throw e => (Throw e, w)
              | Ok _ =>
                  match persistContract chainName address (contractDataOf data) p w with
                  | (Ok _, w1) => (Ok (Persisted p), w1)
                  | (Throw e, w1) => (Throw e, w1)
                  end
              end
          | Failed e => (Throw e, w)
          end
    end.

(** *** Runs of the archive *)

(** The operations that touch the archive, and the passing of time. *)
Inductive Op :=
| Tick (ms : N)
| Fetch (options : FetchOptions) (chainName address : string)
        (acquired : Acquired) (suffix : string)
| Orphan (chainName address : string).

Definition exec (op : Op) (w : World) : World :=
  match op with
  | Tick ms => {| now := (now w + Z.of_N ms)%Z; files := files w;
                  artifacts := artifacts w |}
  | Fetch options chainName address acquired suffix =>
      snd (fetchAddress options chainName address acquired suffix w)
  | Orphan chainName address => snd (markOrphaned chainName address w)
  end.

Definition run (ops : list Op) (w : World) : World :=
  foldl (fun w op => exec op w) w ops.

Definition emptyArchive (t : Z) : World :=
  {| now := t; files := ∅; artifacts := ∅ |}.

End WithHash.

(** The invariant of the records of an archive. *)
Definition Invariant (w : World) : Prop :=
  forall path p, files w !! path = Some (Valid p) ->
    (firstSeenAt p <= lastUpdatedAt p)%Z.

(** No document of the archive, valid or not, carries a date after the
    present. *)
Definition Timely (w : World) : Prop :=
  forall path d, files w !! path = Some (Document d) ->
    (forall t, draftFirstSeenAt d = Present t -> (t <= now w)%Z) /\
    (forall t, draftLastUpdatedAt d = Present t -> (t <= now w)%Z).

(** The fields of a record other than [lastUpdatedAt] and [orphaned]. *)
Definition sameHistory (p p' : Provenance) : Prop :=
  firstSeenAt p' = firstSeenAt p /\ tools p' = tools p /\
  sourcesUsed p' = sourcesUsed p /\ fetchRunId p' = fetchRunId p /\
  commitHash p' = commitHash p /\ operator p' = operator p.

(** The same for JSON objects. *)
Definition sameProperties (d d' : Draft) : Prop :=
  draftFirstSeenAt d' = draftFirstSeenAt d /\ draftTools d' = draftTools d /\
  draftSourcesUsed d' = draftSourcesUsed d /\
  draftFetchRunId d' = draftFetchRunId d /\
  draftCommitHash d' = draftCommitHash d /\ draftOperator d' = draftOperator d.

(** The record [p] marked as orphaned at time [t]. *)
Definition orphanedAt (t : Z) (p : Provenance) : Provenance :=
  {| firstSeenAt := firstSeenAt p; lastUpdatedAt := t; tools := tools p;
     sourcesUsed := sourcesUsed p; fetchRunId := fetchRunId p;
     commitHash := commitHash p; operator := operator p;
     orphaned := Some true |}.

(** [sourcesUsed] of the new record is the union of the prior sources and
    the sources of the current fetch. *)
Definition unionOfSources (prior new : Provenance) (used : list string) : Prop :=
  forall s, s ∈ sourcesUsed new <-> s ∈ sourcesUsed prior \/ s ∈ used.

End Archive.

(** ** Checksums of an archive directory *)

Module Checksum.

(** A directory entry as [readdir] with [withFileTypes] reports it: a
    regular file with its content, a directory with its entries, or
    something that is neither. *)
Inductive Entry :=
| File (name : string) (content : string)
| Directory (name : string) (entries : list Entry)
| Other (name : string).

(** Induction on directory trees. *)
Fixpoint Entry_tree_ind (P : Entry -> Prop)
    (HFile : forall name content, P (File name content))
    (HDirectory : forall name entries, Forall P entries -> P (Directory name entries))
    (HOther : forall name, P (Other name))
    (entry : Entry) : P entry :=
  match entry with
  | File name content => HFile name content
  | Directory name entries =>
      HDirectory name entries
        ((fix all (es : list Entry) : Forall P es :=
            match es with
            | [] => @List.Forall_nil _ P
            | e :: es' =>
                @List.Forall_cons _ P e es'
                  (Entry_tree_ind P HFile HDirectory HOther e) (all es')
            end) entries)
  | Other name => HOther name
  end.

(** An entry of [mismatchedFiles]; [expected] is whatever
    [expectedChecksums[currentFile]] evaluated to. *)
Record Mismatch := mkMismatch {
  file : string;
  expected : PlainObject.Value;
  actual : string
}.

Record Results := mkResults {
  valid : bool;
  missingFiles : list string;
  extraFiles : list string;
  mismatchedFiles : list Mismatch
}.

(** [path.relative(relativeTo, path.join(dirPath, name))] where [rel] is
    [dirPath] relative to [relativeTo]; empty at the root. *)
Definition joinRel (rel name : string) : string :=
  if String.eqb rel "" then name else rel ++ "/" ++ name.

Section WithHash.

(** [hashFile]: the SHA-256 of the content, in hexadecimal. *)
Variable hashFile : string -> string.

(** The body of the [for] loop of [scanDirectory] for one entry; the
    inner [fix] is the recursive call on a sub-directory. *)
Fixpoint scanEntry (rel : string) (entry : Entry) (checksums : gmap string string)
    : gmap string string :=
  match entry with
  | File name content =>
      PlainObject.assign (joinRel rel name) (hashFile content) checksums
  | Directory name entries =>
      (fix scan (es : list Entry) (acc : gmap string string) :=
         match es with
         | [] => acc
         | e :: es' => scan es' (scanEntry (joinRel rel name) e acc)
         end) entries checksums
  | Other _ => checksums
  end.

Fixpoint scanDirectory (rel : string) (entries : list Entry)
    (checksums : gmap string string) : gmap string string :=
  match entries with
  | [] => checksums
  | e :: es => scanDirectory rel es (scanEntry rel e checksums)
  end.

(** [generateChecksums(directoryPath)], with [relativeTo] left at its
    default [directoryPath] as every caller does. *)
Definition generateChecksums (directory : list Entry) : gmap string string :=
  scanDirectory "" directory ∅.

Definition initialResults : Results :=
  {| valid := true; missingFiles := []; extraFiles := []; mismatchedFiles := [] |}.

(** First loop of [verifyChecksums]. *)
Definition checkMissing (currentChecksums : gmap string string)
    (results : Results) (expectedFile : string) : Results :=
  if negb (PlainObject.truthyValue (PlainObject.read currentChecksums expectedFile))
  then {| valid := false;
          missingFiles := missingFiles results ++ [expectedFile];
          extraFiles := extraFiles results;
          mismatchedFiles := mismatchedFiles results |}
  else results.

(** Second loop of [verifyChecksums]. *)
Definition checkCurrent (expectedChecksums : gmap string string)
    (results : Results) (entry : string * string) : Results :=
  let '(currentFile, currentHash) := entry in
  let expectedHash := PlainObject.read expectedChecksums currentFile in
  if negb (PlainObject.truthyValue expectedHash)
  then {| valid := valid results;
          missingFiles := missingFiles results;
          extraFiles := extraFiles results ++ [currentFile];
          mismatchedFiles := mismatchedFiles results |}
  else if PlainObject.differs expectedHash currentHash
  then {| valid := false;
          missingFiles := missingFiles results;
          extraFiles := extraFiles results;
          mismatchedFiles :=
            mismatchedFiles results ++
              [{| file := currentFile;
                  expected := expectedHash;
                  actual := currentHash |}] |}
  else results.

(** The checksums are plain objects: a [gmap] holds the own properties,
    which [Object.keys] and [Object.entries] enumerate in the order of
    [map_to_list], and a property is read with [PlainObject.read]. *)
Definition verifyChecksums (directory : list Entry)
    (expectedChecksums : gmap string string) : Results :=
  let currentChecksums := generateChecksums directory in
  let results :=
    foldl (checkMissing currentChecksums) initialResults
          (map fst (map_to_list expectedChecksums)) in
  foldl (checkCurrent expectedChecksums) results (map_to_list currentChecksums).

(** [checksums[path] = hash] for the listed files, in order. *)
Definition assignAll (checksums : gmap string string) (l : list (string * string))
    : gmap string string :=
  foldl (fun acc kc => PlainObject.assign kc.1 (hashFile kc.2) acc) checksums l.

End WithHash.

(** An entry of the current checksums that the second loop passes over:
    the expected hash is an own property and equal. *)
Definition agrees (expected : gmap string string) (entry : string * string) : Prop :=
  expected !! entry.1 = Some entry.2 /\ entry.2 <> "".

(** [valid] is true exactly when nothing is missing and nothing differs. *)
Definition Coherent (results : Results) : Prop :=
  valid results = true <-> missingFiles results = [] /\ mismatchedFiles results = [].

(** [directory'] is [directory] with the content of the one file at
    relative path [path] changed from [content] to [content']. *)
Inductive Mutated (content content' : string)
    : string -> list Entry -> list Entry -> string -> Prop :=
| MutatedHere rel before name after :
    Mutated content content' rel
      (before ++ File name content :: after)
      (before ++ File name content' :: after)
      (joinRel rel name)
| MutatedBelow rel before name entries entries' after path :
    Mutated content content' (joinRel rel name) entries entries' path ->
    Mutated content content' rel
      (before ++ Directory name entries :: after)
      (before ++ Directory name entries' :: after)
      path.

(** The regular files that the scan meets below one entry, in its order,
    with their relative paths and contents. *)
Fixpoint filesOfEntry (rel : string) (entry : Entry) : list (string * string) :=
  match entry with
  | File name content => [(joinRel rel name, content)]
  | Directory name entries =>
      (fix go (es : list Entry) : list (string * string) :=
         match es with
         | [] => []
         | e :: es' => (filesOfEntry (joinRel rel name) e ++ go es')%list
         end) entries
  | Other _ => []
  end.

Fixpoint listFiles (rel : string) (entries : list Entry) : list (string * string) :=
  match entries with
  | [] => []
  | e :: es => (filesOfEntry rel e ++ listFiles rel es)%list
  end.

End Checksum.

(** ** src/validate.js: [validateAddress] *)

Module Validator.

(** The [{valid, errors, warnings}] objects that the validators return. *)
Record Validation := mkValidation {
  valid : bool;
  errors : list string;
  warnings : list string
}.

Section WithHash.

Variable keccak256_hex : string -> string.

(** [!address || typeof address !== 'string'] *)
Definition notNonEmptyString (address : Address.value) : bool :=
  match address with
  | Address.VString s => String.eqb s ""
  | _ => true
  end.

Definition validateAddress (address : Address.value) : Validation :=
  if notNonEmptyString address
  then {| valid := false; errors := ["Address must be a non-empty string"];
          warnings := [] |}
  else
    match address with
    | Address.VString s =>
        if negb (startsWith "0x" s)
        then {| valid := false; errors := ["Address must start with 0x"];
                warnings := [] |}
        else
          let cleanAddress := JS.drop 2 s in
          if negb (Address.test40hex cleanAddress)
          then {| valid := false;
                  errors := ["Address must be 40 hexadecimal characters after 0x"];
                  warnings := [] |}
          else
            {| valid := true; errors := [];
               warnings :=
                 if negb (Address.isValidChecksumAddress keccak256_hex address)
                 then ["Address is not in EIP-55 checksum format"] else [] |}
    | _ => {| valid := false; errors := ["Address must be a non-empty string"];
              warnings := [] |}
    end.

End WithHash.

End Validator.

(** ** The other lookups of the Sourcify client *)

Module SourcifyLookup.

Import Sourcify.

(** What [checkContractExists] resolves to when the contract is found;
    [null] is [None]. *)
Record Existence := mkExistence {
  exists_ : bool;
  foundMatchType : MatchType;
  foundSourceUrl : string
}.

Section WithClient.

Variable keccak256_hex : string -> string.

(** The injected HTTP client: the state it works on, its [get], and its
    [request] called with the method [HEAD]. *)
Variable W : Type.
Variable httpGet : string -> W -> Result string * W.
Variable httpHead : string -> W -> Result string * W.

(** The fields of the client object. *)
Variable baseUrls : list string.
Variable ipfsGateways : list string.

(** The [try] block of [checkContractExists]. *)
Definition tryExists (chainId : N) (address : string) (m : MatchType)
    (baseUrl : string) (w : W) : Result Existence * W :=
  match getMetadataUrl keccak256_hex baseUrl chainId address m with
  | Throw e => (Throw e, w)
  | Ok url =>
      match httpHead url w with
      | (Ok _, w1) =>
          (Ok {| exists_ := true; foundMatchType := m; foundSourceUrl := baseUrl |}, w1)
      | (Throw e, w1) => (Throw e, w1)
      end
  end.

(** The same try, for a (match type, mirror) pair. *)
Definition tryCandidate (chainId : N) (address : string)
    (c : MatchType * string) : W -> Result Existence * W :=
  tryExists chainId address (fst c) (snd c).

(** [return null] after the loops forgets the errors. *)
Definition forget {A : Type} (out : Loop A * W) : option A * W :=
  match out with
  | (Return r, w) => (Some r, w)
  | (Next _, w) => (None, w)
  end.

(** The inner loop of [checkContractExists]; the [catch] only logs. *)
Fixpoint existsMirrorLoop (chainId : N) (address : string) (m : MatchType)
    (urls : list string) (w : W) : option Existence * W :=
  match urls with
  | [] => (None, w)
  | baseUrl :: urls' =>
      match tryExists chainId address m baseUrl w with
      | (Ok r, w1) => (Some r, w1)
      | (Throw error, w1) => existsMirrorLoop chainId address m urls' w1
      end
  end.

Fixpoint existsMatchTypeLoop (chainId : N) (address : string)
    (ms : list MatchType) (w : W) : option Existence * W :=
  match ms with
  | [] => (None, w)
  | m :: ms' =>
      match existsMirrorLoop chainId address m baseUrls w with
      | (Some r, w1) => (Some r, w1)
      | (None, w1) => existsMatchTypeLoop chainId address ms' w1
      end
  end.

Definition checkContractExists (chainId : N) (address : string) (w : W)
    : Result (option Existence) * W :=
  if negb (Address.isValidChecksumAddress keccak256_hex (Address.VString address))
  then (Throw (plainError ("Invalid address format: " ++ address)), w)
  else
    let '(found, w1) := existsMatchTypeLoop chainId address [full; partial] w in
    (Ok found, w1).

(** The [for] loop of [fetchFromIpfs]. *)
Fixpoint gatewayLoop (cid : string) (gateways : list string)
    (lastError : option Error) (w : W) : Loop string * W :=
  match gateways with
  | [] => (Next lastError, w)
  | gateway :: gateways' =>
      match httpGet (gateway ++ "/" ++ cid) w with
      | (Ok payload, w1) => (Return payload, w1)
      | (Throw error, w1) => gatewayLoop cid gateways' (Some error) w1
      end
  end.

Definition fetchFromIpfs (cid : string) (w : W) : Result string * W :=
  match gatewayLoop cid ipfsGateways None w with
  | (Return payload, w1) => (Ok payload, w1)
  | (Next lastError, w1) =>
      (Throw (plainError ("Failed to fetch CID " ++ cid ++ " from IPFS: "
                            ++ messageOrUndefined lastError)), w1)
  end.

End WithClient.

Arguments forget {W A} out.

(** *** Runs of tries *)

Section Tries.

Context {W A B : Type}.
Variable try : A -> W -> Result B * W.

(** The items of [items] are tried one after the other from the state
    [w] and every one fails: the last error and the state reached. *)
Fixpoint allFail (items : list A) (lastError : option Error) (w : W)
    : option (option Error * W) :=
  match items with
  | [] => Some (lastError, w)
  | x :: rest =>
      match try x w with
      | (Ok _, _) => None
      | (Throw e, w1) => allFail rest (Some e) w1
      end
  end.

(** One pass over [items] that returns at the first success and
    remembers the last error. *)
Fixpoint firstSuccess (items : list A) (lastError : option Error) (w : W)
    : Loop B * W :=
  match items with
  | [] => (Next lastError, w)
  | x :: rest =>
      match try x w with
      | (Ok r, w1) => (Return r, w1)
      | (Throw e, w1) => firstSuccess rest (Some e) w1
      end
  end.

End Tries.

(** *** The client as the module exports it: wired to the HTTP client *)

Section Wired.

Variable keccak256_hex : string -> string.
Variable encodeURIComponent : string -> string.
Variable manifestOf : string -> option (list string).
Variable sha256_hex : string -> string.
Variable network : nat -> Http.Request -> Http.Exchange.
Variable random : nat -> Q.

(** [this.http], [this.baseUrls] and [this.ipfsGateways]. *)
Variable http : Http.HttpClient.
Variable baseUrls : list string.
Variable ipfsGateways : list string.
(** The order in which the closures of [fetchAllSources] receive their
    answers. *)
Variable settles : nat -> nat.

(** [this.http.get(url)] *)
Definition httpGet (url : string) : Http.World -> Result string * Http.World :=
  Http.get sha256_hex network random http url Http.noRequestOptions.

(** [this.http.request('HEAD', url)] *)
Definition httpHead (url : string) : Http.World -> Result string * Http.World :=
  Http.request sha256_hex network random http "HEAD" url Http.noRequestOptions.

Definition wiredFetchMetadata :=
  fetchMetadata keccak256_hex Http.World httpGet Http.now baseUrls.

Definition wiredFetchSourceFile :=
  fetchSourceFile keccak256_hex encodeURIComponent Http.World httpGet baseUrls.

Definition wiredFetchAllSources :=
  fetchAllSources keccak256_hex encodeURIComponent manifestOf Http.World httpGet baseUrls
    settles.

Definition wiredCheckContractExists :=
  checkContractExists keccak256_hex Http.World httpHead baseUrls.

Definition wiredFetchFromIpfs :=
  fetchFromIpfs Http.World httpGet ipfsGateways.

End Wired.

(** From [w] to [w'] at most [n] requests went out, all of them with the
    method [method] and without a body, and none that went out before is
    forgotten. *)
Definition Sends (method : string) (n : nat) (w w' : Http.World) : Prop :=
  exists new,
    Http.sent w' = (Http.sent w ++ new)%list /\
    (length new <= n)%nat /\
    Forall (fun r => Http.reqMethod r = method /\ Http.reqBody r = None) new.

End SourcifyLookup.

(** ** The address lists of the chains and the commands that walk them *)

Module Cli.

Import Archive.

Definition CHAINS_DIR : string := "chains".

(** How [fs.readFile] settles: with the content, with the error whose
    [code] is [ENOENT], or with another error. *)
Inductive ReadFile :=
| Content (content : string)
| NoEntry
| ReadFailure (e : Error).

(** [content.split('\n')] *)
Fixpoint splitLines (s : string) : list string :=
  match s with
  | EmptyString => [EmptyString]
  | String c rest =>
      if Ascii.eqb c "010"%char then EmptyString :: splitLines rest
      else match splitLines rest with
           | line :: lines => String c line :: lines
           | [] => [String c EmptyString]
           end
  end.

(** [line && !line.startsWith('#')] *)
Definition keepLine (line : string) : bool :=
  negb (String.eqb line "") && negb (startsWith "#" line).

(** What the loop of [validate-input] prints for an address. *)
Inductive Report :=
| InvalidFormat (address : string)
| Duplicate (address : string).

(** The options of the [fetch] command that select addresses.  An
    absent option is [None]; the value of a given one is what [parseInt]
    made of it, [None] for [NaN]. *)
Record Selection := mkSelection {
  optAddress : option string;
  optFrom : option (option Z);
  optTo : option (option Z);
  optLimit : option (option Z)
}.

(** [ToIntegerOrInfinity] on the result of [parseInt]. *)
Definition toInteger (x : option Z) : Z := default 0%Z x.

(** The clamping of a relative index of [Array.prototype.slice]. *)
Definition relativeIndex (len i : Z) : Z :=
  if (i <? 0)%Z then Z.max (len + i) 0 else Z.min i len.

(** [l.slice(start, end)]; [end] is [None] when it is not given. *)
Definition slice {A : Type} (l : list A) (start : option Z)
    (end_ : option (option Z)) : list A :=
  let len := Z.of_nat (length l) in
  let k := relativeIndex len (toInteger start) in
  let final := match end_ with
               | None => len
               | Some e => relativeIndex len (toInteger e)
               end in
  firstn (Z.to_nat (final - k)) (skipn (Z.to_nat k) l).

(** [x || 0] on a number that may be missing: zero for [undefined],
    [NaN] and [0]. *)
Definition orZero (x : option (option Z)) : Z :=
  match x with Some (Some z) => z | _ => 0%Z end.

(** [options.to - (options.from || 0)] *)
Definition minus (x : option Z) (y : Z) : option Z :=
  match x with Some z => Some (z - y)%Z | None => None end.

(** The truthiness of a number that may be missing. *)
Definition truthyNumber (x : option (option Z)) : bool :=
  match x with Some (Some z) => negb (z =? 0)%Z | _ => false end.

(** The counters of a run of [fetch]. *)
Record Totals := mkTotals {
  totalProcessed : nat;
  totalSuccessful : nat;
  totalFailed : nat
}.

(** [totalProcessed > 0 ? totalFailed / totalProcessed : 0] *)
Definition failureRate (t : Totals) : Q :=
  if (0 <? totalProcessed t)%nat
  then (inject_Z (Z.of_nat (totalFailed t)) / inject_Z (Z.of_nat (totalProcessed t)))%Q
  else 0%Q.

(** The exit status of [fetch]: [process.exit(1)] in the [catch] of the
    command and for a failure rate above one half. *)
Definition exitStatus (outcome : Result Totals) : Z :=
  match outcome with
  | Throw _ => 1%Z
  | Ok t =>
      match Qlt_le_dec (1 # 2) (failureRate t) with
      | left _ => 1%Z
      | right _ => 0%Z
      end
  end.

Section WithEnvironment.

Variable keccak256_hex : string -> string.
(** [String.prototype.trim] *)
Variable trim : string -> string.
(** The file system as [readAddresses] sees it. *)
Variable readFile : string -> ReadFile.
(** What the stages between the staleness check and the validation of
    the metadata produce for the [n]-th address of the run, and the
    random part of its run identifier. *)
Variable acquire : nat -> Acquired.
Variable suffix : nat -> string.
(** The text of the errors of [validateProvenance]. *)
Variable provenanceErrors : Draft -> string.

Definition getAddressesFilePath (chainName : string) : string :=
  pathJoin (pathJoin CHAINS_DIR chainName) "addresses.txt".

(** [.map(addr => toChecksumAddress(addr))]: the first address that does
    not convert throws. *)
Fixpoint mapChecksum (lines : list string) : Result (list string) :=
  match lines with
  | [] => Ok []
  | addr :: rest =>
      match Address.toChecksumAddress keccak256_hex (Address.VString addr) with
      | Throw e => Throw e
      | Ok r =>
          match mapChecksum rest with
          | Ok rs => Ok (r :: rs)
          | Throw e => Throw e
          end
      end
  end.

(** [readAddresses]: an error of the conversion has no [code] and is
    thrown again by the [catch]. *)
Definition readAddresses (chainName : string) : Result (list string) :=
  match readFile (getAddressesFilePath chainName) with
  | Content content =>
      mapChecksum (List.filter keepLine (map trim (splitLines content)))
  | NoEntry => Ok []
  | ReadFailure e => Throw e
  end.

(** The loop of [validate-input] over the addresses of one chain. *)
Fixpoint validateLoop (addresses : list string) (seen : gset string)
    (chainErrors : nat) (printed : list Report) : nat * list Report :=
  match addresses with
  | [] => (chainErrors, printed)
  | address :: rest =>
      if negb (Address.isValidChecksumAddress keccak256_hex (Address.VString address))
      then validateLoop rest seen (S chainErrors) (printed ++ [InvalidFormat address])
      else if bool_decide (address ∈ seen)
      then validateLoop rest seen (S chainErrors) (printed ++ [Duplicate address])
      else validateLoop rest ({[address]} ∪ seen) chainErrors printed
  end.

(** [validate-input] for one chain: the number of addresses, the number
    of errors and what was printed. *)
Definition validateChain (chainName : string) : Result (nat * nat * list Report) :=
  match readAddresses chainName with
  | Ok addresses =>
      let '(chainErrors, printed) := validateLoop addresses ∅ 0 [] in
      Ok (length addresses, chainErrors, printed)
  | Throw e => Throw e
  end.

(** The filtering of the addresses of a chain at the head of [fetch]. *)
Definition selectAddresses (options : Selection) (addresses : list string)
    : Result (list string) :=
  let filtered :=
    if truthy (optAddress options) then
      match Address.toChecksumAddress keccak256_hex
              (Address.VString (default "" (optAddress options))) with
      | Ok targetAddress => Ok (filter (fun addr => addr = targetAddress) addresses)
      | Throw e => Throw e
      end
    else Ok addresses in
  match filtered with
  | Throw e => Throw e
  | Ok a0 =>
      let a1 := match optFrom options with
                | Some from => slice a0 from None
                | None => a0
                end in
      let a2 := match optTo options with
                | Some to => slice a1 (Some 0%Z) (Some (minus to (orZero (optFrom options))))
                | None => a1
                end in
      let a3 := if truthyNumber (optLimit options)
                then slice a2 (Some 0%Z) (optLimit options)
                else a2 in
      Ok a3
  end.

(** The loop of [fetch] over the selected addresses of one chain.  With
    [--strict] the error of a failed address is thrown again and ends
    the command. *)
Fixpoint addressLoop (options : FetchOptions) (strict : bool) (chainName : string)
    (addresses : list string) (t : Totals) (w : World) : Result Totals * World :=
  match addresses with
  | [] => (Ok t, w)
  | address :: rest =>
      let n := totalProcessed t in
      match fetchAddress keccak256_hex provenanceErrors options chainName address
              (acquire n) (suffix n) w with
      | (Ok (Persisted _), w1) =>
          addressLoop options strict chainName rest
            {| totalProcessed := S n;
               totalSuccessful := S (totalSuccessful t);
               totalFailed := totalFailed t |} w1
      | (Ok _, w1) =>
          addressLoop options strict chainName rest
            {| totalProcessed := S n;
               totalSuccessful := totalSuccessful t;
               totalFailed := totalFailed t |} w1
      | (Throw e, w1) =>
          if strict then (Throw e, w1)
          else
            addressLoop options strict chainName rest
              {| totalProcessed := S n;
                 totalSuccessful := totalSuccessful t;
                 totalFailed := S (totalFailed t) |} w1
      end
  end.

End WithEnvironment.

End Cli.

(** ** The contract verifier *)

Module Verification.

Record ChainConfig := mkChainConfig {
  chainId : N;
  rpcUrl : option string
}.

(** One entry of [metadata.sources]; [None] is a missing [urls]. *)
Record SourceInfo := mkSourceInfo {
  urls : option (list string)
}.

(** What the verifier reads of a metadata document.  A missing value is
    [None]; the byte codes, the match type and the address are strings
    where they are present. *)
Record Metadata := mkMetadata {
  deployedBytecodeObject : option string;  (* output?.deployedBytecode?.object *)
  bytecodeObject : option string;          (* output?.bytecode?.object *)
  compilationTarget : bool;                (* its truthiness *)
  sources : option (list (string * SourceInfo));  (* Object.entries(sources) *)
  sourcifyMatchType : option string;       (* sourcify?.matchType *)
  metadataAddress : option string          (* address *)
}.

(** The body of a JSON-RPC answer: the [message] of its [error], if it
    has an error, and its [result]. *)
Record RpcResponse := mkRpcResponse {
  rpcError : option (option string);
  rpcResult : option string
}.

(** The result object of [verifyContract]. *)
Record VerificationResult := mkVerificationResult {
  address : string;
  resultChainId : N;
  verified : bool;
  onChainBytecode : option string;
  onChainHash : option string;
  metadataHash : option string;
  hashMatch : bool;
  errors : list string;
  warnings : list string
}.

(** The record made by [createHashesRecord]; [None] is a key that is not
    set, [Some None] a key set to [null]. *)
Record Hashes := mkHashes {
  onChainDeployedHash : option string;
  metadataDeployedHash : option string;
  match_ : bool;
  verifiedAt : Z;
  creationHash : option (option string);
  ipfsCids : option (list string);
  hashesMatchType : option string
}.

(** The provenance as [validateContractIntegrity] reads it:
    [lastUpdatedAt] is [None] when missing or empty, [Some None] when
    [new Date] makes an invalid date of it. *)
Record ProvenanceDoc := mkProvenanceDoc {
  docLastUpdatedAt : option (option Z)
}.

(** The [archiveData] of [validateContractIntegrity]. *)
Record ArchiveData := mkArchiveData {
  dataMetadata : option Metadata;
  dataAbi : bool;                          (* its truthiness *)
  dataSources : option (list string);      (* Object.keys(sources) *)
  dataProvenance : option ProvenanceDoc
}.

Record Checks := mkChecks {
  hasMetadata : bool;
  hasAbi : bool;
  hasSources : bool;                       (* its truthiness *)
  hasProvenance : bool;
  validSchemas : bool
}.

Record Integrity := mkIntegrity {
  valid : bool;
  integrityErrors : list string;
  integrityWarnings : list string;
  checks : Checks
}.

(** The truthiness of an object that may be missing. *)
Definition present {A : Type} (x : option A) : bool :=
  match x with Some _ => true | None => false end.

Definition pushWarning (msg : string) (r : VerificationResult) : VerificationResult :=
  {| address := address r; resultChainId := resultChainId r; verified := verified r;
     onChainBytecode := onChainBytecode r; onChainHash := onChainHash r;
     metadataHash := metadataHash r; hashMatch := hashMatch r;
     errors := errors r; warnings := warnings r ++ [msg] |}.

Definition pushError (msg : string) (r : VerificationResult) : VerificationResult :=
  {| address := address r; resultChainId := resultChainId r; verified := verified r;
     onChainBytecode := onChainBytecode r; onChainHash := onChainHash r;
     metadataHash := metadataHash r; hashMatch := hashMatch r;
     errors := errors r ++ [msg]; warnings := warnings r |}.

(** [bytecode.startsWith('0x') ? bytecode.slice(2) : bytecode] *)
Definition stripPrefix (bytecode : string) : string :=
  if startsWith "0x" bytecode then JS.drop 2 bytecode else bytecode.

(** [!bytecode || bytecode === '0x'] *)
Definition noBytecode (bytecode : option string) : bool :=
  negb (truthy bytecode) || String.eqb (default "" bytecode) "0x".

Section WithEnvironment.

(** The hexadecimal SHA-256 digest of [Buffer.from(s, 'hex')]. *)
Variable digestOfHex : string -> string.

(** The HTTP client of the verifier: the state it works on and the body
    that [post] resolves with for an [eth_getCode] of an address at an
    endpoint ([None] for the body [null]). *)
Variable W : Type.
Variable ethGetCode : string -> string -> W -> Result (option RpcResponse) * W.

Definition fetchDeployedBytecode (url : option string) (addr : string) (w : W)
    : Result (option string) * W :=
  if negb (truthy url)
  then (Throw (plainError "RPC URL is required for bytecode verification"), w)
  else
    match ethGetCode (default "" url) addr w with
    | (Throw e, w1) => (Throw e, w1)
    | (Ok None, w1) => (Throw (Sourcify.nullPropertyError "error"), w1)
    | (Ok (Some response), w1) =>
        match rpcError response with
        | Some msg =>
            (Throw (plainError ("RPC error: " ++ default "undefined" msg)), w1)
        | None =>
            if noBytecode (rpcResult response) then (Ok None, w1)
            else (Ok (rpcResult response), w1)
        end
    end.

Definition calculateBytecodeHash (bytecode : option string) : option string :=
  if noBytecode bytecode then None
  else Some (toLowerCase (digestOfHex (stripPrefix (default "" bytecode)))).

(** The first block of the [try] of [verifyContract]. *)
Definition fetchOnChain (chainConfig : ChainConfig) (r : VerificationResult) (w : W)
    : Result VerificationResult * W :=
  if truthy (rpcUrl chainConfig) then
    match fetchDeployedBytecode (rpcUrl chainConfig) (address r) w with
    | (Throw e, w1) => (Throw e, w1)
    | (Ok bytecode, w1) =>
        if truthy bytecode then
          (Ok {| address := address r; resultChainId := resultChainId r;
                 verified := verified r;
                 onChainBytecode := bytecode;
                 onChainHash := calculateBytecodeHash bytecode;
                 metadataHash := metadataHash r; hashMatch := hashMatch r;
                 errors := errors r; warnings := warnings r |}, w1)
        else
          (Ok (pushWarning "No bytecode found on-chain - may not be a contract"
                 {| address := address r; resultChainId := resultChainId r;
                    verified := verified r;
                    onChainBytecode := bytecode;
                    onChainHash := onChainHash r;
                    metadataHash := metadataHash r; hashMatch := hashMatch r;
                    errors := errors r; warnings := warnings r |}), w1)
    end
  else
    (Ok (pushWarning "No RPC URL configured - skipping on-chain verification" r), w).

(** The second block: the hash of the byte code of the metadata. *)
Definition readMetadata (metadata : Metadata) (r : VerificationResult)
    : VerificationResult :=
  if truthy (deployedBytecodeObject metadata) then
    {| address := address r; resultChainId := resultChainId r; verified := verified r;
       onChainBytecode := onChainBytecode r; onChainHash := onChainHash r;
       metadataHash := calculateBytecodeHash (deployedBytecodeObject metadata);
       hashMatch := hashMatch r;
       errors := errors r; warnings := warnings r |}
  else if compilationTarget metadata && present (sources metadata) then
    pushWarning "Metadata contains sources but no deployed bytecode for verification" r
  else r.

(** The third block: the comparison. *)
Definition compareHashes (r : VerificationResult) : VerificationResult :=
  if truthy (onChainHash r) && truthy (metadataHash r) then
    let same := String.eqb (default "" (onChainHash r)) (default "" (metadataHash r)) in
    let r1 := {| address := address r; resultChainId := resultChainId r;
                 verified := verified r;
                 onChainBytecode := onChainBytecode r; onChainHash := onChainHash r;
                 metadataHash := metadataHash r; hashMatch := same;
                 errors := errors r; warnings := warnings r |} in
    if same then
      {| address := address r1; resultChainId := resultChainId r1; verified := true;
         onChainBytecode := onChainBytecode r1; onChainHash := onChainHash r1;
         metadataHash := metadataHash r1; hashMatch := hashMatch r1;
         errors := errors r1; warnings := warnings r1 |}
    else
      pushError "Bytecode hash mismatch - on-chain bytecode does not match metadata" r1
  else
    pushWarning "Cannot verify bytecode - missing on-chain data or metadata bytecode" r.

(** [verifyContract]; [metadata] is [None] for [null], on which the read
    of [metadata.output] throws.  The [catch] adds the error to the
    result as it is when the exception is thrown. *)
Definition verifyContract (chainConfig : ChainConfig) (addr : string)
    (metadata : option Metadata) (w : W) : VerificationResult * W :=
  let result :=
    {| address := addr; resultChainId := chainId chainConfig; verified := false;
       onChainBytecode := None; onChainHash := None; metadataHash := None;
       hashMatch := false; errors := []; warnings := [] |} in
  match fetchOnChain chainConfig result w with
  | (Throw e, w1) => (pushError ("Verification failed: " ++ message e) result, w1)
  | (Ok r1, w1) =>
      match metadata with
      | None =>
          (pushError ("Verification failed: "
                        ++ message (Sourcify.nullPropertyError "output")) r1, w1)
      | Some md => (compareHashes (readMetadata md r1), w1)
      end
  end.

(** The loop of [createHashesRecord] over the entries of
    [metadata.sources]. *)
Fixpoint collectCids (entries : list (string * SourceInfo)) (cids : list string)
    : list string :=
  match entries with
  | [] => cids
  | (fileName, sourceInfo) :: rest =>
      match urls sourceInfo with
      | Some us =>
          let ipfsUrls := List.filter (startsWith "ipfs://") us in
          collectCids rest (cids ++ map (JS.replace "ipfs://" "") ipfsUrls)
      | None => collectCids rest cids
      end
  end.

(** [createHashesRecord] at the time [t]. *)
Definition createHashesRecord (t : Z) (r : VerificationResult) (metadata : Metadata)
    : Hashes :=
  {| onChainDeployedHash := onChainHash r;
     metadataDeployedHash := metadataHash r;
     match_ := hashMatch r;
     verifiedAt := t;
     creationHash := if truthy (bytecodeObject metadata)
                     then Some (calculateBytecodeHash (bytecodeObject metadata))
                     else None;
     ipfsCids := match sources metadata with
                 | Some entries => Some (collectCids entries [])
                 | None => None
                 end;
     hashesMatchType := if truthy (sourcifyMatchType metadata)
                        then sourcifyMatchType metadata else None |}.

End WithEnvironment.

Definition THIRTY_DAYS : Z := 30 * 24 * 60 * 60 * 1000.

(** [Date.now() - lastUpdated.getTime() > staleThreshold], false on an
    invalid date. *)
Definition olderThanThirtyDays (now : Z) (lastUpdated : option Z) : bool :=
  match lastUpdated with
  | Some t => (THIRTY_DAYS <? now - t)%Z
  | None => false
  end.

(** [validateContractIntegrity] at the time [now]: [valid] and [errors]
    are updated check by check.  Nothing in its [try] throws on data of
    this shape. *)
Definition validateContractIntegrity (now : Z) (chainName addr : string)
    (archiveData : ArchiveData) : Integrity :=
  let c := {| hasMetadata := present (dataMetadata archiveData);
              hasAbi := dataAbi archiveData;
              hasSources := match dataSources archiveData with
                            | Some keys => (0 <? length keys)%nat
                            | None => false
                            end;
              hasProvenance := present (dataProvenance archiveData);
              validSchemas := false |} in
  let '(valid1, errors1) :=
    if negb (hasMetadata c) then (false, ["Missing metadata.json"]) else (true, []) in
  let '(valid2, errors2) :=
    if negb (hasProvenance c)
    then (false, (errors1 ++ ["Missing provenance.json"])%list)
    else (valid1, errors1) in
  let mismatch :=
    match dataMetadata archiveData with
    | Some md =>
        truthy (metadataAddress md)
        && negb (String.eqb (toLowerCase (default "" (metadataAddress md)))
                            (toLowerCase addr))
    | None => false
    end in
  let '(valid3, errors3) :=
    if mismatch
    then (false,
          (errors2 ++ ["Address mismatch between metadata and archive location"])%list)
    else (valid2, errors2) in
  let stale :=
    match dataProvenance archiveData with
    | Some p =>
        match docLastUpdatedAt p with
        | Some lastUpdated => olderThanThirtyDays now lastUpdated
        | None => false
        end
    | None => false
    end in
  {| valid := valid3;
     integrityErrors := errors3;
     integrityWarnings := if stale then ["Data is stale (>30 days old)"] else [];
     checks := c |}.

End Verification.

(** ** The checksums of a contract directory: writing and validating *)

Module ChecksumValidation.

Import Checksum.

Definition entryName (entry : Entry) : string :=
  match entry with
  | File name _ => name
  | Directory name _ => name
  | Other name => name
  end.

(** The entry of a directory with a given name. *)
Fixpoint findEntry (name : string) (entries : list Entry) : option Entry :=
  match entries with
  | [] => None
  | entry :: rest =>
      if String.eqb (entryName entry) name then Some entry else findEntry name rest
  end.

(** What reading and parsing [checksums.json] gives: an error of
    [JSON.parse] or of the read of [checksums.files], a document
    without a [files] object, or its [files]. *)
Inductive ChecksumsJson :=
| Unparsable (e : Error)
| NoFiles
| Files (files : gmap string string).

Definition missingMessage (f : string) : string := "Missing file: " ++ f.

Definition mismatchMessage (m : Mismatch) : string :=
  "Checksum mismatch: " ++ file m ++ " (expected: "
    ++ PlainObject.toText (expected m) ++ ", actual: " ++ actual m ++ ")".

Definition extraMessage (f : string) : string := "Extra file: " ++ f.

Section WithEnvironment.

Variable hashFile : string -> string.
(** [JSON.parse] of the content of [checksums.json], and
    [JSON.stringify({ files: checksums }, null, 2)]. *)
Variable parseChecksums : string -> ChecksumsJson.
Variable stringify : gmap string string -> string.
(** The error of reading or writing, as a file, an entry that is not a
    regular file. *)
Variable notAFile : Entry -> Error.

(** [validateChecksums] of src/validate.js. *)
Definition validateChecksums (contractDir : list Entry) : Validator.Validation :=
  match findEntry "checksums.json" contractDir with
  | None =>
      {| Validator.valid := false;
         Validator.errors := ["Checksums file not found"];
         Validator.warnings := [] |}
  | Some (File _ checksumsData) =>
      match parseChecksums checksumsData with
      | Unparsable e =>
          {| Validator.valid := false;
             Validator.errors := ["Checksum validation failed: " ++ message e];
             Validator.warnings := [] |}
      | NoFiles =>
          {| Validator.valid := false;
             Validator.errors := ["Invalid checksums format"];
             Validator.warnings := [] |}
      | Files files =>
          let verification := verifyChecksums hashFile contractDir files in
          if negb (valid verification) then
            {| Validator.valid := valid verification;
               Validator.errors :=
                 map missingMessage (missingFiles verification)
                 ++ map mismatchMessage (mismatchedFiles verification);
               Validator.warnings := map extraMessage (extraFiles verification) |}
          else
            {| Validator.valid := valid verification;
               Validator.errors := [];
               Validator.warnings := [] |}
      end
  | Some entry =>
      {| Validator.valid := false;
         Validator.errors := ["Checksum validation failed: " ++ message (notAFile entry)];
         Validator.warnings := [] |}
  end.

(** [fs.writeFile(path.join(contractDir, name), content)]: a regular
    file of that name is overwritten where it is, a new file is added to
    the directory. *)
Fixpoint writeFile (name content : string) (entries : list Entry)
    : Result (list Entry) :=
  match entries with
  | [] => Ok [File name content]
  | entry :: rest =>
      if String.eqb (entryName entry) name then
        match entry with
        | File _ _ => Ok (File name content :: rest)
        | _ => Throw (notAFile entry)
        end
      else
        match writeFile name content rest with
        | Ok rest' => Ok (entry :: rest')
        | Throw e => Throw e
        end
  end.

(** The end of the per-contract body of the [fetch] command of
    src/cli.js: the checksums of the directory are taken, then
    [checksums.json] and [provenance.json] are written into it. *)
Definition sealContract (contractDir : list Entry) (provenanceJson : string)
    : Result (list Entry) :=
  let checksums := generateChecksums hashFile contractDir in
  match writeFile "checksums.json" (stringify checksums) contractDir with
  | Ok dir1 => writeFile "provenance.json" provenanceJson dir1
  | Throw e => Throw e
  end.

End WithEnvironment.

End ChecksumValidation.

(** ** The explorer client: the name of an explorer *)

Module Explorer.

(** [s.includes(pat)] *)
Fixpoint includes (pat s : string) : bool :=
  startsWith pat s ||
  match s with
  | EmptyString => false
  | String _ rest => includes pat rest
  end.

Definition getExplorerName (apiBase : string) : string :=
  if includes "etherscan.io" apiBase then "Etherscan"
  else if includes "polygonscan.com" apiBase then "Polygonscan"
  else if includes "arbiscan.io" apiBase then "Arbiscan"
  else if includes "optimistic.etherscan.io" apiBase then "Optimism Etherscan"
  else if includes "basescan.org" apiBase then "Basescan"
  else "Unknown Explorer".

End Explorer.

(** ** The explorer client: fetching and normalising *)

Module ExplorerClient.

Import Explorer.

Record ChainConfig := mkChainConfig {
  chainId : N;
  chainName : string;
  explorerApiBase : option string;
  explorerApiKeyRef : option string
}.

(** One element of [response.result], with the fields that
    [normalizeExplorerResponse] takes from it; all of them are
    strings. *)
Record ExplorerResult := mkExplorerResult {
  SourceCode : string;
  ABI : string;
  ContractName : string;
  CompilerVersion : string;
  OptimizationUsed : string;
  Runs : string;
  ConstructorArguments : string;
  EVMVersion : string;
  Library : string;
  LicenseType : string;
  Proxy : string;
  Implementation : string;
  SwarmSource : string
}.

(** The body of the answer of the explorer: [result] is an array. *)
Record ExplorerResponse := mkExplorerResponse {
  status : string;
  message : option string;
  result : list ExplorerResult
}.

(** The [sources] of the normalised metadata: the [sources] of a parsed
    multi-file document (a JSON value, kept as text), one file made of
    the whole source code, or the empty object. *)
Inductive Sources :=
| FromJson (json : string)
| SingleFile (name content : string)
| NoSources.

Record ExplorerInfo := mkExplorerInfo {
  name : string;
  apiBase : string;
  contractName : string;
  verified : bool;
  sourceLicense : string;
  proxy : bool;
  implementation : string
}.

(** What [normalizeExplorerResponse] returns; JSON values are kept as
    text. *)
Record Normalized := mkNormalized {
  compilerVersion : string;       (* metadata.compiler.version *)
  language : string;
  abi : string;                   (* metadata.output.abi and abi *)
  optimizerEnabled : bool;
  optimizerRuns : Z;
  evmVersion : string;
  libraries : string;
  sources : Sources;
  version : Z;
  matchType : string;
  sourceUrl : string;
  fetchedAt : Z;
  explorerRaw : ExplorerResult;
  explorer : ExplorerInfo
}.

(** [s.slice(1, -1)] *)
Fixpoint dropLast (s : string) : string :=
  match s with
  | EmptyString => EmptyString
  | String c EmptyString => EmptyString
  | String c rest => String c (dropLast rest)
  end.

Definition sliceInner (s : string) : string := dropLast (JS.drop 1 s).

(** [parseInt(Runs) || 200] *)
Definition runsOr200 (runs : string) : Z :=
  match parseInt runs with
  | Some n => if (n =? 0)%Z then 200%Z else n
  | None => 200%Z
  end.

(** [s || d] on strings. *)
Definition orDefault (s d : string) : string :=
  if String.eqb s "" then d else s.

Section WithEnvironment.

Variable keccak256_hex : string -> string.
(** [process.env] *)
Variable env : string -> option string.
(** [new URLSearchParams(...).toString()] *)
Variable encodeParams : list (string * string) -> string.
(** [JSON.parse(text).sources]: the parse or the read throws, or the
    value is missing, or it is there (as text). *)
Variable parseSources : string -> Result (option string).
(** [JSON.parse(text)], with the value as text. *)
Variable parseJson : string -> Result string.

(** The HTTP client of the explorer client and the clock. *)
Variable W : Type.
Variable httpGet : string -> W -> Result ExplorerResponse * W.
Variable clock : W -> Z.

(** The [try] block that reads the sources. *)
Definition readSources (r : ExplorerResult) : Result Sources :=
  let sourceCode := SourceCode r in
  if startsWith "{" sourceCode && includes "sources" sourceCode then
    match parseSources sourceCode with
    | Throw e => Throw e
    | Ok (Some s) => Ok (FromJson s)
    | Ok None =>
        match parseSources (sliceInner sourceCode) with
        | Throw e => Throw e
        | Ok (Some s) => Ok (FromJson s)
        | Ok None => Ok NoSources
        end
    end
  else Ok (SingleFile (ContractName r ++ ".sol") sourceCode).

Definition normalizeExplorerResponse (r : ExplorerResult) (chainConfig : ChainConfig)
    (address : string) (w : W) : Result Normalized :=
  let sources :=
    match readSources r with
    | Ok s => s
    | Throw _ => SingleFile (ContractName r ++ ".sol") (SourceCode r)
    end in
  let abi := match parseJson (ABI r) with Ok a => a | Throw _ => "[]" end in
  let libraries :=
    if negb (String.eqb (Library r) "") then parseJson (Library r) else Ok "{}" in
  match libraries with
  | Throw e => Throw e
  | Ok libs =>
      let base := default "" (explorerApiBase chainConfig) in
      Ok {| compilerVersion := CompilerVersion r;
            language := "Solidity";
            abi := abi;
            optimizerEnabled := String.eqb (OptimizationUsed r) "1";
            optimizerRuns := runsOr200 (Runs r);
            evmVersion := orDefault (EVMVersion r) "default";
            libraries := libs;
            sources := sources;
            version := 1;
            matchType := "explorer";
            sourceUrl := base;
            fetchedAt := clock w;
            explorerRaw := r;
            explorer := {| name := getExplorerName base;
                           apiBase := base;
                           contractName := ContractName r;
                           verified := true;
                           sourceLicense := LicenseType r;
                           proxy := String.eqb (Proxy r) "1";
                           implementation := Implementation r |} |}
  end.

(** The parameters of the query. *)
Definition queryOf (chainConfig : ChainConfig) (address : string)
    : list (string * string) :=
  let apiKey :=
    if truthy (explorerApiKeyRef chainConfig)
    then env (default "" (explorerApiKeyRef chainConfig))
    else Some ""%string in
  let params := [("module", "contract"); ("action", "getsourcecode");
                 ("address", address)]%string in
  if truthy apiKey then (params ++ [("apikey"%string, default "" apiKey)])%list
  else params.

Definition fetchContractSource (chainConfig : ChainConfig) (address : string) (w : W)
    : Result Normalized * W :=
  if negb (Address.isValidChecksumAddress keccak256_hex (Address.VString address))
  then (Throw (plainError ("Invalid address format: " ++ address)), w)
  else if negb (truthy (explorerApiBase chainConfig))
  then (Throw (plainError ("No explorer API configured for chain "
                             ++ chainName chainConfig)), w)
  else
    let url := default "" (explorerApiBase chainConfig) ++ "?"
                 ++ encodeParams (queryOf chainConfig address) in
    match httpGet url w with
    | (Throw e, w1) => (Throw e, w1)
    | (Ok response, w1) =>
        if negb (String.eqb (status response) "1")
        then (Throw (plainError
                ("Explorer API error: "
                   ++ (if truthy (message response)
                       then default "" (message response)
                       else "Unknown error"))), w1)
        else
          match result response with
          | [] =>
              (Throw (plainError "Contract source code not found or not verified"), w1)
          | first :: _ =>
              if String.eqb (SourceCode first) ""
              then (Throw (plainError
                      "Contract source code not found or not verified"), w1)
              else (normalizeExplorerResponse first chainConfig address w1, w1)
          end
    end.

End WithEnvironment.

End ExplorerClient.

(** ** Concrete environments used by the examples *)

Module Scenario.

Import Http.

Definition noHeaders : Headers :=
  {| etag := None; lastModified := None; contentType := None;
     contentLength := None; retryAfter := None |}.

Definition serverError : Error :=
  {| message := "Request failed with status code 500";
     response := Some {| status := 500; headers := noHeaders; data := "" |} |}.

(** A server that answers every request with status 500. *)
Definition alwaysFailing (n : nat) (req : Request) : Exchange :=
  {| answer := Throw serverError; took := 5 |}.

Definition tooManyRequests : Response :=
  {| status := 429;
     headers := {| etag := None; lastModified := None; contentType := None;
                   contentLength := None; retryAfter := Some "2" |};
     data := "" |}.

Definition freshWorld : World :=
  {| now := 1700000000000; cache := ∅; sent := []; slept := []; draws := 0 |}.

Definition noJitter (n : nat) : Q := 0.

(** A stand-in for the hash of a URL: the URL itself. *)
Definition urlKey (url : string) : string := url.

Definition metadataUrl : string :=
  "https://repo.sourcify.dev/contracts/full_match/1/0xC02aaA39b223FE8D0A0e5C4F27eAD9083C756Cc2/metadata.json".

Definition okWithEtag : Response :=
  {| status := 200;
     headers := {| etag := Some "v1"; lastModified := None;
                   contentType := Some "application/json";
                   contentLength := None; retryAfter := None |};
     data := "{}" |}.

Definition notModified : Response :=
  {| status := 304; headers := noHeaders; data := "" |}.

(** The error with which the axios instance of the client, whose
    [validateStatus] accepts the statuses from 200 to 299, rejects an
    answer 304. *)
Definition notModifiedError : Error :=
  {| message := "Request failed with status code 304";
     response := Some notModified |}.

(** A server that holds one version of every document, tagged [v1]: it
    answers 304 to a request conditional on that tag, which the
    underlying client turns into a rejection, and 200 to any other. *)
Definition etagServer (n : nat) (req : Request) : Exchange :=
  {| answer := if truthy (reqIfNoneMatch req) then Throw notModifiedError
               else Ok okWithEtag;
     took := 40 |}.

(** *** Addresses *)

(** A stand-in for Keccak-256 without a digit of eight or more: under it
    the checksummed form of an address is its lower-case form. *)
Definition lowHash (s : string) : string := "".

Definition weth : string := "0xc02aaa39b223fe8d0a0e5c4f27ead9083c756cc2".

(** Forty hexadecimal digits around an embedded [0x]. *)
Definition embeddedPrefix : string := "c00x2aaa39b223fe8d0a0e5c4f27ead9083c756cc2".

(** *** A primary source with two mirrors *)

Definition mirrors : list string :=
  ["https://repo.sourcify.dev"; "https://mirror.example"].

Definition notFound : Error :=
  {| message := "Request failed with status code 404";
     response := Some {| status := 404; headers := noHeaders; data := "" |} |}.

(** A client that records the URLs it is asked for. *)
Definition loggingGet (answerOf : string -> Result string) (url : string)
    (log : list string) : Result string * list string :=
  (answerOf url, (log ++ [url])%list).

Definition partialAtMirror : string :=
  "https://mirror.example/contracts/partial_match/1/0xc02aaa39b223fe8d0a0e5c4f27ead9083c756cc2/metadata.json".

(** Only the second mirror has the contract, as a partial match; the
    first mirror answers 404 and the second 500 for anything else. *)
Definition partialOnly (url : string) : Result string :=
  if String.eqb url partialAtMirror then Ok "{}"
  else if startsWith "https://repo.sourcify.dev" url then Throw notFound
  else Throw serverError.

Definition noClock (log : list string) : Z := 0.

(** The source [A.sol] is served by the first mirror, [B.sol] by none. *)
Definition onlyA (url : string) : Result string :=
  if String.eqb url
       "https://repo.sourcify.dev/contracts/full_match/1/0xc02aaa39b223fe8d0a0e5c4f27ead9083c756cc2/sources/A.sol"
  then Ok "contract A {}"
  else Throw notFound.

Definition twoSources (md : string) : option (list string) := Some ["A.sol"; "B.sol"].

Definition noEncoding (s : string) : string := s.

(** A manifest with a key [__proto__], and a mirror that serves every
    file. *)
Definition protoManifest (md : string) : option (list string) :=
  Some ["A.sol"; "__proto__"].

Definition anySource (url : string) : Result string := Ok "contract {}".

(** The answers arrive in turn: the closures still waiting are served
    round robin. *)
Definition inTurn (k : nat) : nat := k.

(** ... or the first closure still waiting is always served first. *)
Definition firstWaiting (k : nat) : nat := 0.

(** *** An archive *)

Definition viaExplorer : Archive.Provenance :=
  {| Archive.firstSeenAt := 1700000000000;
     Archive.lastUpdatedAt := 1700000000000;
     Archive.tools := {| Archive.toolName := "sourcify-grabber";
                         Archive.toolVersion := "2.0.0" |};
     Archive.sourcesUsed := ["explorer"];
     Archive.fetchRunId := Some "run-1700000000000-k3j9x2m1q";
     Archive.commitHash := None;
     Archive.operator := Some "automated";
     Archive.orphaned := None |}.

Definition wethDir : string :=
  "archive/ethereum/0xc02aaa39b223fe8d0a0e5c4f27ead9083c756cc2".

Definition wethProvenancePath : string :=
  "archive/ethereum/0xc02aaa39b223fe8d0a0e5c4f27ead9083c756cc2/provenance.json".

(** Two days after the explorer fallback recorded the contract. *)
Definition twoDaysLater : Archive.World :=
  {| Archive.now := 1700172800000;
     Archive.files := {[ wethProvenancePath := Archive.Valid viaExplorer ]};
     Archive.artifacts := ∅ |}.

(** A record that names Sourcify as its source, and the archive that
    holds it two days later. *)
Definition namingSourcify : Archive.Provenance :=
  {| Archive.firstSeenAt := 1700000000000;
     Archive.lastUpdatedAt := 1700000000000;
     Archive.tools := {| Archive.toolName := "sourcify-grabber";
                         Archive.toolVersion := "2.0.0" |};
     Archive.sourcesUsed := ["sourcify"];
     Archive.fetchRunId := Some "run-1700000000000-k3j9x2m1q";
     Archive.commitHash := None;
     Archive.operator := Some "automated";
     Archive.orphaned := None |}.

Definition sourcifyRecorded : Archive.World :=
  {| Archive.now := 1700172800000;
     Archive.files := {[ wethProvenancePath := Archive.Valid namingSourcify ]};
     Archive.artifacts := ∅ |}.

(** The record that a fetch through the explorer writes over either of
    them at that time. *)
Definition refetched : Archive.Provenance :=
  {| Archive.firstSeenAt := 1700000000000;
     Archive.lastUpdatedAt := 1700172800000;
     Archive.tools := {| Archive.toolName := "sourcify-grabber";
                         Archive.toolVersion := "2.0.0" |};
     Archive.sourcesUsed := ["explorer"];
     Archive.fetchRunId := Some "run-1700172800000-p0o9i8u7y";
     Archive.commitHash := None;
     Archive.operator := Some "automated";
     Archive.orphaned := None |}.

Definition plainFetch : Archive.FetchOptions :=
  {| Archive.optForce := false; Archive.optDryRun := false |}.

Definition forcedFetch : Archive.FetchOptions :=
  {| Archive.optForce := true; Archive.optDryRun := false |}.

(** The errors of the validators, as texts. *)
Definition missingProperty (d : Archive.Draft) : string :=
  " must have required property".

Definition commitIsNull : string := "/sourcify/commit must be string".

(** Contract data of the explorer for the contract, without and with
    [--verify-bytecode]. *)
Definition wethFromExplorer : Archive.ExplorerData :=
  {| Archive.explorerMetadata :=
       {| Archive.jsonText := "{ metadata of WETH9 }"; Archive.jsonErrors := None |};
     Archive.explorerAbi := Some "[]";
     Archive.explorerSources :=
       [("WETH9.sol", Archive.SourceObject (Some "contract WETH9 {}"))];
     Archive.verified := None |}.

Definition wethVerified : Archive.ExplorerData :=
  {| Archive.explorerMetadata :=
       {| Archive.jsonText := "{ metadata of WETH9 }"; Archive.jsonErrors := None |};
     Archive.explorerAbi := Some "[]";
     Archive.explorerSources :=
       [("WETH9.sol", Archive.SourceObject (Some "contract WETH9 {}"))];
     Archive.verified :=
       Some {| Archive.onChainBytecode := Some "0x6060";
               Archive.hashesText := "{ hashes }";
               Archive.hashesErrors := "/metadataDeployedHash must be string" |} |}.

(** A [provenance.json] without [lastUpdatedAt] whose [firstSeenAt] lies
    a day ahead of the clock of [twoDaysLater]. *)
Definition postDated : Archive.Draft :=
  {| Archive.draftFirstSeenAt := Archive.Present 1700259200000%Z;
     Archive.draftLastUpdatedAt := Archive.Absent;
     Archive.draftTools := Archive.Present {| Archive.toolName := "sourcify-grabber";
                                              Archive.toolVersion := "2.0.0" |};
     Archive.draftSourcesUsed := Archive.Present ["explorer"];
     Archive.draftFetchRunId := Archive.Absent;
     Archive.draftCommitHash := Archive.Absent;
     Archive.draftOperator := Archive.Absent;
     Archive.draftOrphaned := Archive.Absent |}.

Definition withPostDated : Archive.World :=
  {| Archive.now := 1700172800000;
     Archive.files := {[ wethProvenancePath := Archive.Document postDated ]};
     Archive.artifacts := ∅ |}.

(** *** A directory *)

(** A stand-in for SHA-256 that keeps contents apart. *)
Definition tagHash (content : string) : string := "sha256:" ++ content.

Definition contractDir : list Checksum.Entry :=
  [Checksum.File "abi.json" "[]";
   Checksum.Directory "source" [Checksum.File "Token.sol" "contract Token {}"];
   Checksum.File "metadata.json" "{}"].

Definition tamperedDir : list Checksum.Entry :=
  [Checksum.File "abi.json" "[]";
   Checksum.Directory "source" [Checksum.File "Token.sol" "contract Token { }"];
   Checksum.File "metadata.json" "{}"].

(** The directory with one more file, named as a member of
    [Object.prototype] is. *)
Definition withConstructor : list Checksum.Entry :=
  [Checksum.File "abi.json" "[]";
   Checksum.Directory "source" [Checksum.File "Token.sol" "contract Token {}"];
   Checksum.File "metadata.json" "{}";
   Checksum.File "constructor" "notes"].

(** A directory with a file named [__proto__], and the same after that
    file has been edited. *)
Definition withProto : list Checksum.Entry :=
  [Checksum.File "abi.json" "[]"; Checksum.File "__proto__" "one"].

Definition withProtoEdited : list Checksum.Entry :=
  [Checksum.File "abi.json" "[]"; Checksum.File "__proto__" "two"].

(** The directory without its [abi.json], and a manifest that lists a
    file [toString]. *)
Definition listingToString : gmap string string :=
  {[ "toString" := "sha256:text" ]}.

End Scenario.

(** ** Further concrete environments *)

Module ScenarioMore.

Import Http Scenario.

(** *** Addresses *)

(** A stand-in for Keccak-256 with no digit below eight: under it the
    checksummed form of an address has every letter in upper case. *)
Definition highHash (s : string) : string :=
  "ffffffffffffffffffffffffffffffffffffffff".

Definition wethDigits : string := "C02AAA39B223FE8D0A0E5C4F27EAD9083C756CC2".

Definition wethUpper : string := "0xC02AAA39B223FE8D0A0E5C4F27EAD9083C756CC2".

Definition tooShort : string := "0x123".

(** *** The HTTP client *)

(** Two days after the document was cached. *)
Definition staleCacheWorld : World :=
  {| now := 1700172800000;
     cache := {[ metadataUrl :=
                   {| entryUrl := metadataUrl; timestamp := 1700000000000;
                      entryHeaders := headers okWithEtag; entryData := "{}" |} ]};
     sent := []; slept := []; draws := 0 |}.

(** A server on which nothing has changed: every request is answered
    304, which the underlying client turns into a rejection. *)
Definition unchangedServer (n : nat) (req : Request) : Exchange :=
  {| answer := Throw notModifiedError; took := 40 |}.

(** A 429 whose [retry-after] is an HTTP date. *)
Definition retryAtDate : Response :=
  {| status := 429;
     headers := {| etag := None; lastModified := None; contentType := None;
                   contentLength := None;
                   retryAfter := Some "Wed, 21 Oct 2015 07:28:00 GMT" |};
     data := "" |}.

(** *** The Sourcify client *)

(** The mirrors, the one that has the sources last. *)
Definition mirrorFirst : list string :=
  ["https://mirror.example"; "https://repo.sourcify.dev"].

Definition sourceA : string :=
  "https://repo.sourcify.dev/contracts/full_match/1/0xc02aaa39b223fe8d0a0e5c4f27ead9083c756cc2/sources/A.sol".

Definition gateways : list string :=
  ["https://ipfs.io/ipfs"; "https://gateway.example/ipfs"].

(** Only the second gateway has the document. *)
Definition secondGateway (url : string) : Result string :=
  if String.eqb url "https://gateway.example/ipfs/QmYwAPJzv5CZsnA"
  then Ok "null" else Throw serverError.

(** *** The address list of a chain *)

Definition newline : string := String "010"%char EmptyString.

(** [trim] on strings of ASCII characters. *)
Fixpoint trimEnd (s : string) : string :=
  match s with
  | EmptyString => EmptyString
  | String c rest =>
      match trimEnd rest with
      | EmptyString => if isWhiteSpace c then EmptyString else String c EmptyString
      | kept => String c kept
      end
  end.

Definition trimAscii (s : string) : string := trimEnd (skipWhiteSpace s).

(** A comment, the contract in upper case with white space around it,
    an empty line, and the same contract in lower case. *)
Definition addressesTxt : string :=
  "# wrapped ether" ++ newline
    ++ "  0xC02AAA39B223FE8D0A0E5C4F27EAD9083C756CC2 " ++ newline
    ++ newline
    ++ weth ++ newline.

Definition chainsDirectory (path : string) : Cli.ReadFile :=
  if String.eqb path "chains/ethereum/addresses.txt" then Cli.Content addressesTxt
  else Cli.NoEntry.

Definition fiveAddresses : list string := ["a0"; "a1"; "a2"; "a3"; "a4"].

(** The first address of a run is served by the explorer, the others
    by nobody. *)
Definition firstOnly (n : nat) : Archive.Acquired :=
  match n with
  | O => Archive.FromExplorer wethFromExplorer
  | S _ => Archive.Failed notFound
  end.

Definition sameSuffix (n : nat) : string := "p0o9i8u7y".

Definition noTotals : Cli.Totals :=
  {| Cli.totalProcessed := 0; Cli.totalSuccessful := 0; Cli.totalFailed := 0 |}.

(** *** The verifier *)

Definition mainnet : Verification.ChainConfig :=
  {| Verification.chainId := 1; Verification.rpcUrl := Some "https://rpc.example" |}.

Definition withoutRpc : Verification.ChainConfig :=
  {| Verification.chainId := 1; Verification.rpcUrl := None |}.

(** A node that answers every [eth_getCode] with the same byte code. *)
Definition node (url addr : string) (log : list string)
    : Result (option Verification.RpcResponse) * list string :=
  (Ok (Some {| Verification.rpcError := None;
               Verification.rpcResult := Some "0x6080" |}),
   (log ++ [url])%list).

Definition wethMetadata : Verification.Metadata :=
  {| Verification.deployedBytecodeObject := Some "6080";
     Verification.bytecodeObject := Some "0x";
     Verification.compilationTarget := true;
     Verification.sources :=
       Some [("WETH9.sol",
              {| Verification.urls := Some ["bzz-raw://8b3f"; "ipfs://QmYwAPJzv5CZsnA"] |});
             ("Lib.sol", {| Verification.urls := None |})];
     Verification.sourcifyMatchType := Some "full";
     Verification.metadataAddress := Some wethUpper |}.

Definition archived : Verification.ArchiveData :=
  {| Verification.dataMetadata := Some wethMetadata;
     Verification.dataAbi := false;
     Verification.dataSources := None;
     Verification.dataProvenance :=
       Some {| Verification.docLastUpdatedAt := Some (Some 1700000000000%Z) |} |}.

(** *** A contract directory with its checksums *)

Definition manifestJson : string := "{ files: ... }".

Definition writeManifest (m : gmap string string) : string := manifestJson.

(** The one manifest that is on disk. *)
Definition readManifest (content : string) : ChecksumValidation.ChecksumsJson :=
  if String.eqb content manifestJson
  then ChecksumValidation.Files (Checksum.generateChecksums tagHash contractDir)
  else ChecksumValidation.NoFiles.

Definition isADirectory (entry : Checksum.Entry) : Error :=
  plainError "EISDIR: illegal operation on a directory".

Definition sealedDir : list Checksum.Entry :=
  (contractDir ++ [Checksum.File "checksums.json" manifestJson;
                   Checksum.File "provenance.json" "{ records: [] }"])%list.

(** The same directory after the source was edited. *)
Definition editedDir : list Checksum.Entry :=
  (tamperedDir ++ [Checksum.File "checksums.json" manifestJson;
                   Checksum.File "provenance.json" "{ records: [] }"])%list.

(** The sealed directory with a note beside the contract, in a file
    named as a member of [Object.prototype] is. *)
Definition annotatedDir : list Checksum.Entry :=
  (sealedDir ++ [Checksum.File "constructor" "notes"])%list.

(** *** An explorer *)

Definition etherscan : ExplorerClient.ChainConfig :=
  {| ExplorerClient.chainId := 1; ExplorerClient.chainName := "ethereum";
     ExplorerClient.explorerApiBase := Some "https://api.etherscan.io/api";
     ExplorerClient.explorerApiKeyRef := Some "ETHERSCAN_API_KEY" |}.

Definition environment (ref : string) : option string :=
  if String.eqb ref "ETHERSCAN_API_KEY" then Some "K3Y" else None.

Fixpoint queryString (params : list (string * string)) : string :=
  match params with
  | [] => ""
  | [(k, v)] => k ++ "=" ++ v
  | (k, v) :: rest => k ++ "=" ++ v ++ "&" ++ queryString rest
  end.

(** A parser that accepts nothing. *)
Definition noJson (text : string) : Result (option string) :=
  Throw (plainError "Unexpected token { in JSON at position 1").

Definition asText (text : string) : Result string := Ok text.

(** A multi-file source in double braces, as explorers send it. *)
Definition wethAtExplorer : ExplorerClient.ExplorerResult :=
  {| ExplorerClient.SourceCode := "{{ sources: { WETH9.sol: {} } }}";
     ExplorerClient.ABI := "[]";
     ExplorerClient.ContractName := "WETH9";
     ExplorerClient.CompilerVersion := "v0.4.19+commit.c4cbbb05";
     ExplorerClient.OptimizationUsed := "0";
     ExplorerClient.Runs := "0";
     ExplorerClient.ConstructorArguments := "";
     ExplorerClient.EVMVersion := "";
     ExplorerClient.Library := "";
     ExplorerClient.LicenseType := "GPL-3.0";
     ExplorerClient.Proxy := "0";
     ExplorerClient.Implementation := "";
     ExplorerClient.SwarmSource := "" |}.

Definition explorerApi (url : string) (log : list string)
    : Result ExplorerClient.ExplorerResponse * list string :=
  (Ok {| ExplorerClient.status := "1"; ExplorerClient.message := Some "OK";
         ExplorerClient.result := [wethAtExplorer] |},
   (log ++ [url])%list).

End ScenarioMore.

(** * Properties of the address utilities *)

Module AddressFacts.

Import Address.

Local Ltac by_cases_on_char c :=
  destruct c as [[] [] [] [] [] [] [] []]; try reflexivity; try discriminate.

Lemma toLowerCaseChar_not_upper c : isUpperAscii (toLowerCaseChar c) = false.
Proof. by_cases_on_char c. Qed.

Lemma toLowerCaseChar_fixed c : isUpperAscii c = false -> toLowerCaseChar c = c.
Proof. unfold toLowerCaseChar. intros ->. reflexivity. Qed.

Lemma toLowerCaseChar_upper c : toLowerCaseChar (toUpperCaseChar c) = toLowerCaseChar c.
Proof. by_cases_on_char c. Qed.

Lemma isHexDigit_lower c : isHexDigit (toLowerCaseChar c) = isHexDigit c.
Proof. by_cases_on_char c. Qed.

Lemma isHexDigit_upper c : isHexDigit (toUpperCaseChar c) = isHexDigit c.
Proof. by_cases_on_char c. Qed.

Lemma isHexDigit_not_x c : isHexDigit c = true -> c <> "x"%char.
Proof. intros H ->. discriminate. Qed.

Lemma forallb_weaken (p q : ascii -> bool) s :
  (forall c, p c = true -> q c = true) ->
  JS.forallb p s = true -> JS.forallb q s = true.
Proof.
  intros Hpq. induction s as [|c s IH]; simpl; [reflexivity|].
  rewrite !andb_true_iff. intros [Hc Hs]. auto.
Qed.

Lemma toLowerCase_length s : String.length (toLowerCase s) = String.length s.
Proof. induction s as [|c s IH]; simpl; congruence. Qed.

Lemma toLowerCase_notUpper s : JS.forallb notUpper (toLowerCase s) = true.
Proof.
  induction s as [|c s IH]; simpl; [reflexivity|].
  unfold notUpper at 1. rewrite toLowerCaseChar_not_upper. exact IH.
Qed.

Lemma toLowerCase_fixed s : JS.forallb notUpper s = true -> toLowerCase s = s.
Proof.
  induction s as [|c s IH]; simpl; [reflexivity|].
  rewrite andb_true_iff. intros [Hc Hs]. unfold notUpper in Hc.
  apply negb_true_iff in Hc. rewrite toLowerCaseChar_fixed, IH; auto.
Qed.

Lemma toLowerCase_hex s :
  JS.forallb isHexDigit (toLowerCase s) = JS.forallb isHexDigit s.
Proof.
  induction s as [|c s IH]; simpl; [reflexivity|].
  rewrite isHexDigit_lower, IH. reflexivity.
Qed.

Lemma test40hex_lower s : test40hex (toLowerCase s) = test40hex s.
Proof. unfold test40hex. rewrite toLowerCase_length, toLowerCase_hex. reflexivity. Qed.

Lemma forallb_drop p n s : JS.forallb p s = true -> JS.forallb p (JS.drop n s) = true.
Proof.
  revert s. induction n as [|n IH]; intros [|c s]; simpl; auto.
  rewrite andb_true_iff. intros [_ Hs]. auto.
Qed.

(** Removing the first [0x] keeps a property that all characters have. *)
Lemma forallb_replace_0x p s :
  JS.forallb p s = true -> JS.forallb p (JS.replace "0x" "" s) = true.
Proof.
  induction s as [|c s IH]; intros H.
  - reflexivity.
  - cbn [JS.replace]. destruct (startsWith "0x" (String c s)).
    + cbn [append]. apply forallb_drop. exact H.
    + simpl in H |- *. apply andb_true_iff in H as [Hc Hs].
      rewrite Hc. simpl. auto.
Qed.

Lemma startsWith_0x_cons c d s :
  startsWith "0x" (String c (String d s)) = Ascii.eqb "0" c && Ascii.eqb "x" d.
Proof. cbn [startsWith]. rewrite andb_true_r. reflexivity. Qed.

Lemma startsWith_0x_short c : startsWith "0x" (String c "") = false.
Proof. cbn [startsWith]. apply andb_false_r. Qed.

(** A string of hexadecimal digits contains no [0x] to remove. *)
Lemma replace_0x_hex s :
  JS.forallb isHexDigit s = true -> JS.replace "0x" "" s = s.
Proof.
  induction s as [|c s IH]; intros H; [reflexivity|].
  simpl in H. apply andb_true_iff in H as [Hc Hs].
  cbn [JS.replace].
  assert (startsWith "0x" (String c s) = false) as ->.
  { destruct s as [|d s'].
    - apply startsWith_0x_short.
    - rewrite startsWith_0x_cons. simpl in Hs.
      apply andb_true_iff in Hs as [Hd _].
      destruct (Ascii.eqb_spec "x" d) as [<-|]; [discriminate|].
      apply andb_false_r. }
  rewrite IH; auto.
Qed.

Lemma checksumLoop_lower hash i s :
  toLowerCase (checksumLoop hash i s) = toLowerCase s.
Proof.
  revert i. induction s as [|c s IH]; intros i; simpl; [reflexivity|].
  rewrite IH. destruct (geq8 _); [rewrite toLowerCaseChar_upper|]; reflexivity.
Qed.

Lemma checksumLoop_length hash i s :
  String.length (checksumLoop hash i s) = String.length s.
Proof. revert i. induction s as [|c s IH]; intros i; simpl; auto. Qed.

Lemma checksumLoop_hex hash i s :
  JS.forallb isHexDigit (checksumLoop hash i s) = JS.forallb isHexDigit s.
Proof.
  revert i. induction s as [|c s IH]; intros i; simpl; [reflexivity|].
  rewrite IH. destruct (geq8 _); [rewrite isHexDigit_upper|]; reflexivity.
Qed.

Lemma test40hex_checksumLoop hash i s :
  test40hex (checksumLoop hash i s) = test40hex s.
Proof. unfold test40hex. rewrite checksumLoop_length, checksumLoop_hex. reflexivity. Qed.

Section WithHash.

Variable keccak256_hex : string -> string.

(** The shape of every result: [0x] and the case-adjusted clean address. *)
Lemma toChecksumAddress_Ok a r :
  toChecksumAddress keccak256_hex (VString a) = Ok r ->
  let clean := JS.replace "0x" "" (toLowerCase a) in
  test40hex clean = true /\
  r = "0x" ++ checksumLoop (keccak256_hex clean) 0 clean.
Proof.
  unfold toChecksumAddress. cbv zeta.
  destruct (test40hex _) eqn:Ht; simpl; intros H; inversion H; auto.
Qed.

Lemma clean_is_lower a :
  toLowerCase (JS.replace "0x" "" (toLowerCase a)) = JS.replace "0x" "" (toLowerCase a).
Proof.
  apply toLowerCase_fixed, forallb_replace_0x, toLowerCase_notUpper.
Qed.

(** Idempotence: a checksummed address is its own checksummed form. *)
Lemma toChecksumAddress_idempotent a r :
  toChecksumAddress keccak256_hex (VString a) = Ok r ->
  toChecksumAddress keccak256_hex (VString r) = Ok r.
Proof.
  intros H. apply toChecksumAddress_Ok in H as [Ht ->].
  set (clean := JS.replace "0x" "" (toLowerCase a)) in *.
  unfold toChecksumAddress.
  assert (JS.replace "0x" "" (toLowerCase ("0x" ++ checksumLoop (keccak256_hex clean) 0 clean))
          = clean) as ->.
  { change (toLowerCase ("0x" ++ ?s)) with ("0x" ++ toLowerCase s).
    rewrite checksumLoop_lower. unfold clean. rewrite clean_is_lower.
    reflexivity. }
  rewrite Ht. reflexivity.
Qed.

(** The output of [toChecksumAddress] passes [isValidChecksumAddress]. *)
Lemma toChecksumAddress_output_valid a r :
  toChecksumAddress keccak256_hex (VString a) = Ok r ->
  isValidChecksumAddress keccak256_hex (VString r) = true.
Proof.
  intros H. unfold isValidChecksumAddress.
  rewrite (toChecksumAddress_idempotent _ _ H). apply String.eqb_refl.
Qed.

(** Every syntactically valid address is converted. *)
Lemma toChecksumAddress_accepts_valid a :
  validAddressSyntax a = true ->
  exists r, toChecksumAddress keccak256_hex (VString a) = Ok r.
Proof.
  unfold validAddressSyntax. intros H.
  assert (test40hex (JS.replace "0x" "" (toLowerCase a)) = true) as Ht.
  { apply orb_true_iff in H as [H|H].
    - rewrite replace_0x_hex.
      + rewrite test40hex_lower. exact H.
      + rewrite toLowerCase_hex. unfold test40hex in H.
        apply andb_true_iff in H as [_ H]. exact H.
    - apply andb_true_iff in H as [Hp Hr].
      destruct a as [|c0 [|c1 a']]; [discriminate| |].
      + rewrite startsWith_0x_short in Hp. discriminate.
      + rewrite startsWith_0x_cons in Hp. apply andb_true_iff in Hp as [H0 Hx].
        apply Ascii.eqb_eq in H0, Hx. subst c0 c1.
        simpl in Hr. change (toLowerCase (String "0" (String "x" a')))
          with ("0x" ++ toLowerCase a').
        change (JS.replace "0x" "" ("0x" ++ toLowerCase a')) with (toLowerCase a').
        rewrite test40hex_lower. exact Hr. }
  unfold toChecksumAddress. rewrite Ht. simpl. eauto.
Qed.

(** Only syntactically valid (prefixed) addresses pass
    [isValidChecksumAddress]; on everything else it returns [false]. *)
Lemma isValidChecksumAddress_syntax v :
  isValidChecksumAddress keccak256_hex v = true ->
  exists s, v = VString s /\ validAddressSyntax s = true.
Proof.
  unfold isValidChecksumAddress.
  destruct (toChecksumAddress keccak256_hex v) as [r|e] eqn:Hr; [|discriminate].
  destruct v as [s| |n]; try discriminate.
  intros Heq. apply String.eqb_eq in Heq. subst r.
  exists s. split; [reflexivity|].
  apply toChecksumAddress_Ok in Hr as [Ht Hs].
  unfold validAddressSyntax. apply orb_true_iff. right.
  remember (checksumLoop _ 0 _) as t eqn:Et in Hs.
  rewrite Hs.
  change (test40hex t = true).
  rewrite Et, test40hex_checksumLoop. exact Ht.
Qed.

Lemma isValidChecksumAddress_rejects_invalid s :
  validAddressSyntax s = false ->
  isValidChecksumAddress keccak256_hex (VString s) = false.
Proof.
  intros H. destruct (isValidChecksumAddress _ _) eqn:Hv; [|reflexivity].
  apply isValidChecksumAddress_syntax in Hv as (s' & [= <-] & Hs). congruence.
Qed.

End WithHash.

End AddressFacts.

(** * Properties of the HTTP client *)

Module HttpFacts.

Import Http.

(** ** Backoff *)

Lemma pow2_pos k : (0 < inject_Z (2 ^ Z.of_nat k))%Q.
Proof.
  change 0%Q with (inject_Z 0). rewrite <- Zlt_Qlt.
  apply Z.pow_pos_nonneg; lia.
Qed.

Lemma pow2_succ k :
  (inject_Z (2 ^ Z.of_nat (S k)) == 2 * inject_Z (2 ^ Z.of_nat k))%Q.
Proof.
  rewrite Nat2Z.inj_succ, Z.pow_succ_r by lia.
  rewrite inject_Z_mult. reflexivity.
Qed.

Lemma Qmin_le_compat_l (a b cap : Q) : (a <= b -> Qmin a cap <= Qmin b cap)%Q.
Proof.
  intros Hab. apply Q.min_glb.
  - eapply Qle_trans; [apply Q.le_min_l | exact Hab].
  - apply Q.le_min_r.
Qed.

Lemma Qmin_eq_compat_l (a b cap : Q) : (a == b -> Qmin a cap == Qmin b cap)%Q.
Proof.
  intros Hab. apply Qle_antisym; apply Qmin_le_compat_l; rewrite Hab; apply Qle_refl.
Qed.

(** The delay as the specification writes it. *)
Lemma calculateRetryDelay_formula c k r :
  (calculateRetryDelay c k r ==
   Qmin (retryDelay c * inject_Z (2 ^ Z.of_nat k) * (1 + (1 # 10) * r))
        (maxRetryDelay c))%Q.
Proof.
  unfold calculateRetryDelay. apply Qmin_eq_compat_l. ring.
Qed.

Lemma calculateRetryDelay_capped c k r :
  (calculateRetryDelay c k r <= maxRetryDelay c)%Q.
Proof. unfold calculateRetryDelay. apply Q.le_min_r. Qed.

Lemma calculateRetryDelay_monotone c k :
  (0 <= retryDelay c)%Q ->
  (calculateRetryDelay c k 0 <= calculateRetryDelay c (S k) 0)%Q.
Proof.
  intros Hbase. unfold calculateRetryDelay. apply Qmin_le_compat_l.
  rewrite pow2_succ.
  pose proof (pow2_pos k) as Hp.
  assert (0 <= retryDelay c * inject_Z (2 ^ Z.of_nat k))%Q as HE.
  { apply Qmult_le_0_compat; [exact Hbase | apply Qlt_le_weak, Hp]. }
  set (E := (retryDelay c * inject_Z (2 ^ Z.of_nat k))%Q) in *.
  assert (retryDelay c * (2 * inject_Z (2 ^ Z.of_nat k)) == 2 * E)%Q as -> by (unfold E; ring).
  lra.
Qed.

Lemma mathMin_not_exceeds x cap : ~ exceeds (mathMin x cap) cap.
Proof.
  destruct x as [q|]; simpl; [|tauto].
  intros H. apply (Qlt_not_le _ _ H), Q.le_min_r.
Qed.

Lemma getRetryAfterDelay_capped c resp r :
  ~ exceeds (getRetryAfterDelay c resp r) (maxRetryDelay c).
Proof.
  unfold getRetryAfterDelay. destruct (truthy _).
  - apply mathMin_not_exceeds.
  - simpl. intros H. apply (Qlt_not_le _ _ H), calculateRetryDelay_capped.
Qed.

Lemma retryDelayFor_capped c k error r :
  ~ exceeds (retryDelayFor c k error r) (maxRetryDelay c).
Proof.
  unfold retryDelayFor.
  destruct (response error) as [resp|];
    [destruct (status resp =? 429)%Z; [apply getRetryAfterDelay_capped|]|];
    simpl; intros H; apply (Qlt_not_le _ _ H), calculateRetryDelay_capped.
Qed.

Lemma truthy_Some s : s <> "" -> truthy (Some s) = true.
Proof.
  intros Hs. unfold truthy. destruct (String.eqb_spec s ""); [contradiction|reflexivity].
Qed.

(** ** Retries *)

Section WithEnvironment.

Variable sha256_hex : string -> string.
Variable network : nat -> Request -> Exchange.
Variable random : nat -> Q.

Lemma isRetryableError_iff error :
  isRetryableError error = true <->
  response error = None \/
  exists resp, response error = Some resp /\
    (500 <= status resp \/ status resp = 429)%Z.
Proof.
  unfold isRetryableError. destruct (response error) as [resp|].
  - rewrite orb_true_iff, Z.leb_le, Z.eqb_eq. split.
    + intros H. right. exists resp. auto.
    + intros [H|(resp' & [= <-] & H)]; [discriminate|exact H].
  - split; auto.
Qed.

Lemma sent_saveToCache url d h w : sent (saveToCache sha256_hex url d h w) = sent w.
Proof. reflexivity. Qed.

Lemma sent_sleep ms w : sent (sleep ms w) = sent w.
Proof. reflexivity. Qed.

Lemma sent_drawRandom b w : sent (drawRandom b w) = sent w.
Proof. destruct b; reflexivity. Qed.

(** One iteration of the loop, by the way the underlying client settles. *)
Lemma attemptLoop_unfold c method url req remaining attempt w :
  attemptLoop sha256_hex network random c method url req remaining attempt w =
  let '(settled, w1) := clientRequest network req w in
  match settled with
  | Ok resp =>
      match (if (status resp =? 304)%Z then loadFromCache sha256_hex url w1 else None) with
      | Some cached => (Ok (entryData cached), w1)
      | None =>
          let w2 := if isGet method && (status resp =? 200)%Z
                    then saveToCache sha256_hex url (data resp) (headers resp) w1
                    else w1 in
          (Ok (data resp), w2)
      end
  | Throw error =>
      match remaining with
      | O => (Throw error, w1)
      | S remaining' =>
          if negb (isRetryableError error) then (Throw error, w1)
          else
            let delay := retryDelayFor c attempt error (random (draws w1)) in
            let w2 := drawRandom (usesRandom error) w1 in
            attemptLoop sha256_hex network random c method url req remaining'
              (S attempt) (sleep delay w2)
      end
  end.
Proof. destruct remaining; reflexivity. Qed.

(** Every call sends the same request between one and [remaining + 1]
    times, and nothing else. *)
Lemma attemptLoop_sent c method url req remaining :
  forall attempt w,
  exists n, (1 <= n <= remaining + 1)%nat /\
    sent (snd (attemptLoop sha256_hex network random c method url req
                 remaining attempt w))
    = (sent w ++ replicate n req)%list.
Proof.
  induction remaining as [|remaining IH]; intros attempt w;
    rewrite attemptLoop_unfold; unfold clientRequest; cbv zeta;
    destruct (answer (network (length (sent w)) req)) as [resp|error].
  1, 3: exists 1%nat; split; [lia|];
        destruct (if (status resp =? 304)%Z then _ else None); simpl;
        [reflexivity|]; destruct (isGet method && _); reflexivity.
  - exists 1%nat. split; [lia|]. reflexivity.
  - destruct (negb (isRetryableError error)).
    + exists 1%nat. split; [lia|]. reflexivity.
    + cbv zeta.
      match goal with |- context [attemptLoop _ _ _ _ _ _ _ _ ?a ?w'] =>
        destruct (IH a w') as (n & Hn & ->) end.
      exists (S n). split; [lia|].
      rewrite sent_sleep, sent_drawRandom. simpl.
      rewrite <- app_assoc. reflexivity.
Qed.

Lemma FailedRetryably_shift req n0 k :
  FailedRetryably network req n0 (S k) -> FailedRetryably network req (S n0) k.
Proof.
  intros H i Hi. destruct (H (S i)) as (e & He & Hr); [lia|].
  exists e. replace (S n0 + i)%nat with (n0 + S i)%nat by lia. auto.
Qed.

(** What the loop does at the attempt [k], given that every attempt
    before it was rejected with a retryable error. *)
Lemma attemptLoop_run c method url req :
  forall k remaining attempt w,
  (k <= remaining)%nat ->
  FailedRetryably network req (length (sent w)) k ->
  let out := attemptLoop sha256_hex network random c method url req
               remaining attempt w in
  match answer (network (length (sent w) + k)%nat req) with
  | Ok resp =>
      length (sent (snd out)) = (length (sent w) + k + 1)%nat /\
      exists d, fst out = Ok d
  | Throw error =>
      if (k <? remaining)%nat && isRetryableError error
      then (length (sent w) + k + 1 < length (sent (snd out)))%nat
      else fst out = Throw error /\
           length (sent (snd out)) = (length (sent w) + k + 1)%nat
  end.
Proof.
  induction k as [|k IH]; intros remaining attempt w Hk Hfail; cbv zeta.
  - rewrite Nat.add_0_r, attemptLoop_unfold. unfold clientRequest. cbv zeta.
    destruct (answer (network (length (sent w)) req)) as [resp|error].
    + destruct (if (status resp =? 304)%Z then _ else None); simpl.
      * rewrite length_app. simpl. split; [lia|eauto].
      * destruct (isGet method && _); simpl; rewrite length_app; simpl;
          (split; [lia|eauto]).
    + destruct remaining as [|remaining]; simpl.
      * rewrite length_app. simpl. split; [reflexivity|lia].
      * destruct (isRetryableError error); simpl.
        -- match goal with |- context [attemptLoop _ _ _ _ _ _ _ _ ?a ?w'] =>
             destruct (attemptLoop_sent c method url req remaining a w')
               as (n & Hn & ->) end.
           rewrite sent_sleep, sent_drawRandom. simpl.
           rewrite !length_app, length_replicate. simpl. lia.
        -- rewrite length_app. simpl. split; [reflexivity|lia].
  - destruct remaining as [|remaining]; [lia|].
    destruct (Hfail 0%nat) as (e & He & Hr); [lia|].
    rewrite Nat.add_0_r in He.
    rewrite attemptLoop_unfold. unfold clientRequest. cbv zeta.
    rewrite He, Hr. simpl negb. cbv iota zeta.
    match goal with |- context [attemptLoop _ _ _ _ _ _ _ _ ?a ?w'] =>
      specialize (IH remaining a w'); set (w1 := w') in * end.
    assert (length (sent w1) = S (length (sent w))) as Hlen.
    { unfold w1. rewrite sent_sleep, sent_drawRandom. simpl.
      rewrite length_app. simpl. lia. }
    rewrite Hlen in IH. cbv zeta in IH.
    replace (length (sent w) + S k)%nat with (S (length (sent w)) + k)%nat by lia.
    specialize (IH ltac:(lia) (FailedRetryably_shift _ _ _ Hfail)).
    destruct (answer (network (S (length (sent w)) + k)%nat req)) as [resp|error].
    + destruct IH as [IH1 IH2]. split; [lia|exact IH2].
    + change (S k <? S remaining)%nat with (k <? remaining)%nat.
      destruct ((k <? remaining)%nat && isRetryableError error).
      * lia.
      * destruct IH as [IH1 IH2]. split; [exact IH1|lia].
Qed.

Lemma attemptLoop_slept_prefix c method url req remaining :
  forall attempt w,
  exists rest,
    slept (snd (attemptLoop sha256_hex network random c method url req
                  remaining attempt w))
    = (slept w ++ rest)%list.
Proof.
  induction remaining as [|remaining IH]; intros attempt w;
    rewrite attemptLoop_unfold; unfold clientRequest; cbv zeta;
    destruct (answer (network (length (sent w)) req)) as [resp|error].
  1, 3: exists []; rewrite app_nil_r;
        destruct (if (status resp =? 304)%Z then _ else None); simpl;
        [reflexivity|]; destruct (isGet method && _); reflexivity.
  - exists []. rewrite app_nil_r. reflexivity.
  - destruct (negb (isRetryableError error)).
    + exists []. rewrite app_nil_r. reflexivity.
    + cbv zeta.
      match goal with |- context [attemptLoop _ _ _ _ _ _ _ _ ?a ?w'] =>
        destruct (IH a w') as (rest & ->) end.
      eexists. unfold sleep at 1. cbn [slept].
      rewrite <- app_assoc. f_equal.
      destruct (usesRandom error); reflexivity.
Qed.

(** The delay slept after the failed attempt [k] of a call is the one
    that [retryDelayFor] computes for the attempt number [k]. *)
Lemma attemptLoop_sleeps c method url req :
  forall k remaining attempt w,
  (k < remaining)%nat ->
  FailedRetryably network req (length (sent w)) (S k) ->
  exists error j,
    answer (network (length (sent w) + k)%nat req) = Throw error /\
    slept (snd (attemptLoop sha256_hex network random c method url req
                  remaining attempt w)) !! (length (slept w) + k)%nat
    = Some (retryDelayFor c (attempt + k) error (random j)).
Proof.
  induction k as [|k IH]; intros remaining attempt w Hk Hfail;
    (destruct remaining as [|remaining]; [lia|]);
    destruct (Hfail 0%nat) as (e & He & Hr); try lia;
    rewrite Nat.add_0_r in He;
    rewrite attemptLoop_unfold; unfold clientRequest; cbv zeta;
    rewrite He, Hr; simpl negb; cbv iota zeta;
    match goal with |- context [attemptLoop _ _ _ _ _ _ _ _ ?a ?w'] =>
      set (w1 := w') in * end;
    assert (slept w1 = slept w
              ++ [retryDelayFor c attempt e (random (draws w))])%list as Hslept
      by (unfold w1; simpl; destruct (usesRandom e); reflexivity).
  - exists e, (draws w). rewrite !Nat.add_0_r. split; [exact He|].
    destruct (attemptLoop_slept_prefix c method url req remaining (S attempt) w1)
      as (rest & ->).
    rewrite Hslept, <- app_assoc. simpl.
    rewrite lookup_app_r by lia. rewrite Nat.sub_diag. reflexivity.
  - assert (length (sent w1) = S (length (sent w))) as Hlen.
    { unfold w1. rewrite sent_sleep, sent_drawRandom. simpl.
      rewrite length_app. simpl. lia. }
    destruct (IH remaining (S attempt) w1) as (error & j & Hans & Hlook).
    + lia.
    + rewrite Hlen. apply FailedRetryably_shift, Hfail.
    + exists error, j. rewrite Hlen in Hans.
      replace (length (sent w) + S k)%nat with (S (length (sent w)) + k)%nat by lia.
      split; [exact Hans|].
      rewrite Hslept, length_app in Hlook. simpl in Hlook.
      replace (length (slept w) + S k)%nat with (length (slept w) + 1 + k)%nat by lia.
      replace (attempt + S k)%nat with (S attempt + k)%nat by lia.
      exact Hlook.
Qed.

(** C3.  The delay that [request] sleeps after its failed attempt
    number [k], counted from 0, that is before its retry number [k], is
    [retryDelayFor] at [k]; for an error other than a 429 it is
    [min(base * 2^k * (1 + jitter), cap)] for a jitter fraction between 0
    and 10%; without jitter these delays never decrease from one attempt
    to the next; no delay chosen exceeds the cap; and after a 429 whose
    [retry-after] header reads as the integer [n] the delay is [n]
    seconds, capped by the same cap, whatever the attempt number. *)
Theorem backoff_delay (c : HttpClient) :
  (forall method url options w k,
     (k < maxRetries c)%nat ->
     FailedRetryably network
       (requestOf method url (withConditionalHeader sha256_hex method url options w))
       (length (sent w)) (S k) ->
     exists error j,
       answer (network (length (sent w) + k)%nat
                 (requestOf method url
                    (withConditionalHeader sha256_hex method url options w)))
         = Throw error /\
       slept (snd (request sha256_hex network random c method url options w))
         !! (length (slept w) + k)%nat
       = Some (retryDelayFor c k error (random j))) /\
  (forall k error r,
     (forall resp, response error = Some resp -> status resp <> 429%Z) ->
     retryDelayFor c k error r = Some (calculateRetryDelay c k r)) /\
  (forall k r, (0 <= r)%Q -> (r < 1)%Q ->
     exists jitter, (0 <= jitter)%Q /\ (jitter <= 1 # 10)%Q /\
       (calculateRetryDelay c k r ==
        Qmin (retryDelay c * inject_Z (2 ^ Z.of_nat k) * (1 + jitter))
             (maxRetryDelay c))%Q) /\
  ((0 <= retryDelay c)%Q ->
     forall k, (calculateRetryDelay c k 0 <= calculateRetryDelay c (S k) 0)%Q) /\
  (forall k error r, ~ exceeds (retryDelayFor c k error r) (maxRetryDelay c)) /\
  (forall k msg resp r s n,
     status resp = 429%Z ->
     retryAfter (headers resp) = Some s -> s <> "" -> parseInt s = Some n ->
     retryDelayFor c k {| message := msg; response := Some resp |} r
       = Some (Qmin (inject_Z n * 1000) (maxRetryDelay c))).
Proof.
  split; [|split; [|split; [|split; [|split]]]].
  - intros method url options w k Hk Hfail. unfold request.
    destruct (attemptLoop_sleeps c method url _ k (maxRetries c) 0%nat w Hk Hfail)
      as (error & j & Hans & Hlook).
    exists error, j. split; [exact Hans|exact Hlook].
  - intros k error r Hnot. unfold retryDelayFor.
    destruct (response error) as [resp|]; [|reflexivity].
    destruct (Z.eqb_spec (status resp) 429) as [E|_]; [|reflexivity].
    destruct (Hnot resp eq_refl E).
  - intros k r Hr0 Hr1. exists ((1 # 10) * r)%Q. repeat split; try lra.
    apply calculateRetryDelay_formula.
  - intros Hbase k. apply calculateRetryDelay_monotone, Hbase.
  - intros k error r. apply retryDelayFor_capped.
  - intros k msg resp r s n Hst Hh Hs Hn.
    unfold retryDelayFor. simpl. rewrite Hst. simpl.
    unfold getRetryAfterDelay. rewrite Hh, (truthy_Some _ Hs). simpl.
    rewrite Hn. reflexivity.
Qed.

(** C2, amended.  One call of [request] sends the same request between
    one and [maxRetries + 1] times, which is four times for the default
    client; [maxRetries] is the configured number when one is given.
    After an attempt rejected with [error], all attempts before
    it having been rejected with retryable errors, a further attempt is
    made iff retries are left and [error] has no response or a status of
    at least 500 or equal to 429; a non-retryable error is thrown to the
    caller with no further attempt; when the last attempt fails its
    error is thrown; and an attempt that the client resolves ends the
    call with a result. *)
Theorem request_retry_policy (c : HttpClient) (method url : string)
    (options : RequestOptions) (w : World) :
  let req := requestOf method url
               (withConditionalHeader sha256_hex method url options w) in
  let n0 := length (sent w) in
  let out := request sha256_hex network random c method url options w in
  (exists n, (1 <= n <= maxRetries c + 1)%nat /\
     sent (snd out) = (sent w ++ replicate n req)%list) /\
  (maxRetries defaultClient + 1 = 4)%nat /\
  (forall configured n, optMaxRetries configured = Some (S n) ->
     maxRetries (newHttpClient configured) = S n) /\
  (forall k error,
     (k <= maxRetries c)%nat ->
     FailedRetryably network req n0 k ->
     answer (network (n0 + k)%nat req) = Throw error ->
     ((n0 + k + 1 < length (sent (snd out)))%nat <->
      (k < maxRetries c)%nat /\
      (response error = None \/
       exists resp, response error = Some resp /\
         (500 <= status resp \/ status resp = 429)%Z)) /\
     (isRetryableError error = false ->
      fst out = Throw error /\ length (sent (snd out)) = (n0 + k + 1)%nat) /\
     (k = maxRetries c ->
      fst out = Throw error /\ length (sent (snd out)) = (n0 + k + 1)%nat)) /\
  (forall k resp,
     (k <= maxRetries c)%nat ->
     FailedRetryably network req n0 k ->
     answer (network (n0 + k)%nat req) = Ok resp ->
     (exists payload, fst out = Ok payload) /\
     length (sent (snd out)) = (n0 + k + 1)%nat).
Proof.
  cbv zeta. unfold request. split; [apply attemptLoop_sent|].
  split; [reflexivity|].
  split; [intros configured n Hn; unfold newHttpClient; simpl; rewrite Hn; reflexivity|].
  split.
  2: { intros k resp Hk Hfail Hans.
       pose proof (attemptLoop_run c method url _ k (maxRetries c) 0%nat w Hk Hfail) as H.
       cbv zeta in H. rewrite Hans in H. destruct H as [H1 H2]. auto. }
  intros k error Hk Hfail Hans.
  pose proof (attemptLoop_run c method url _ k (maxRetries c) 0%nat w Hk Hfail) as H.
  cbv zeta in H. rewrite Hans in H.
  rewrite <- isRetryableError_iff.
  destruct (Nat.ltb_spec k (maxRetries c)) as [Hlt|Hge];
    destruct (isRetryableError error) eqn:Hr; simpl in H.
  - split; [|split]; [tauto|discriminate|lia].
  - destruct H as [H1 H2]. split; [|split]; [|auto|auto].
    rewrite H2. split; [lia|intros [_ ?]; discriminate].
  - destruct H as [H1 H2]. split; [|split]; [|discriminate|auto].
    rewrite H2. split; lia.
  - destruct H as [H1 H2]. split; [|split]; [|auto|auto].
    rewrite H2. split; lia.
Qed.

(** ** The cache *)

Lemma loadFromCache_saved url d h w w' :
  cache w' = cache (saveToCache sha256_hex url d h w) ->
  (now w' - now w <= CACHE_VALIDITY)%Z ->
  exists cached, loadFromCache sha256_hex url w' = Some cached /\
    entryData cached = d /\ etag (entryHeaders cached) = etag h.
Proof.
  intros Hc Hage. unfold loadFromCache. rewrite Hc.
  unfold saveToCache at 1. cbn [cache]. rewrite lookup_insert_eq.
  cbn [timestamp].
  destruct (Z.ltb_spec CACHE_VALIDITY (now w' - now w)); [lia|].
  eexists. split; [reflexivity|]. split; reflexivity.
Qed.

(** An answer 304 reaches [request] as a rejection of the underlying
    client.  The error is not retryable: it is thrown after that one
    attempt, and the cached payload is not returned. *)
Lemma request_rejected_304 (c : HttpClient) (method url : string)
    (options : RequestOptions) (w : World) (error : Error) (resp : Response) :
  let req := requestOf method url
               (withConditionalHeader sha256_hex method url options w) in
  answer (network (length (sent w)) req) = Throw error ->
  response error = Some resp -> status resp = 304%Z ->
  request sha256_hex network random c method url options w
  = (Throw error, snd (clientRequest network req w)).
Proof.
  cbv zeta. intros Hans Hresp Hstatus.
  unfold request. rewrite attemptLoop_unfold. unfold clientRequest. cbv zeta.
  rewrite Hans.
  assert (isRetryableError error = false) as Hnot
    by (unfold isRetryableError; rewrite Hresp, Hstatus; reflexivity).
  rewrite Hnot. destruct (maxRetries c); reflexivity.
Qed.

(** With an underlying client that resolves the statuses from 200 to 299
    only, the branch of [request] for a 304 is never taken: what a call
    returns is the body of the response to one of its own requests. *)
Lemma attemptLoop_returns_response (c : HttpClient) (method url : string)
    (req : Request) :
  Axios network ->
  forall remaining attempt w payload w',
    attemptLoop sha256_hex network random c method url req remaining attempt w
    = (Ok payload, w') ->
    exists n resp, answer (network n req) = Ok resp /\ payload = data resp /\
      validateStatus (status resp) = true.
Proof.
  intros Haxios. induction remaining as [|remaining IH];
    intros attempt w payload w'; rewrite attemptLoop_unfold;
    unfold clientRequest; cbv zeta;
    destruct (answer (network (length (sent w)) req)) as [resp|error] eqn:Hans.
  - pose proof (Haxios _ _ _ Hans) as Hvalid.
    assert ((status resp =? 304)%Z = false) as ->
      by (unfold validateStatus in Hvalid; lia).
    intros [= <- _]. eauto.
  - discriminate.
  - pose proof (Haxios _ _ _ Hans) as Hvalid.
    assert ((status resp =? 304)%Z = false) as ->
      by (unfold validateStatus in Hvalid; lia).
    intros [= <- _]. eauto.
  - destruct (negb (isRetryableError error)); [discriminate|]. apply IH.
Qed.

(** C7.  A GET answered 200 with an ETag, followed within the validity
    window by a second GET of the same URL to which the server answers
    304.  The second GET is sent to the network, conditional on the
    cached ETag, so that the two GETs make two requests; the underlying
    client rejects the answer 304, and the second GET throws that error
    instead of returning the payload, which is still in the cache. *)
Theorem conditional_get_throws (c : HttpClient) (url : string)
    (options : RequestOptions) (w0 : World) (resp1 resp2 : Response)
    (error : Error) (tag : string) (dt : N) :
  let req1 := requestOf "GET" url
                (withConditionalHeader sha256_hex "GET" url options w0) in
  let req2 := {| reqMethod := "GET"; reqUrl := url;
                 reqIfNoneMatch := Some tag; reqBody := body options |} in
  let n0 := length (sent w0) in
  let first := get sha256_hex network random c url options w0 in
  let second := get sha256_hex network random c url options
                  (elapse dt (snd first)) in
  ignoreCache options = false -> ignoreEtag options = false ->
  answer (network n0 req1) = Ok resp1 ->
  status resp1 = 200%Z -> etag (headers resp1) = Some tag -> tag <> "" ->
  answer (network (S n0) req2) = Throw error ->
  response error = Some resp2 -> status resp2 = 304%Z ->
  (Z.of_N dt + Z.of_N (took (network (S n0) req2)) <= CACHE_VALIDITY)%Z ->
  fst first = Ok (data resp1) /\
  fst second = Throw error /\
  sent (snd second) = (sent w0 ++ [req1; req2])%list /\
  exists cached, loadFromCache sha256_hex url (snd second) = Some cached /\
    entryData cached = data resp1.
Proof.
  cbv zeta. intros Hic Hie H1 Hs1 He1 Htag H2 Hr2 Hs2 Hwin.
  set (req1 := requestOf "GET" url _) in *.
  (* the first GET *)
  assert (get sha256_hex network random c url options w0 =
          (Ok (data resp1),
           saveToCache sha256_hex url (data resp1) (headers resp1)
             (snd (clientRequest network req1 w0)))) as Hfirst.
  { unfold get, request. fold req1. rewrite attemptLoop_unfold.
    unfold clientRequest. cbv zeta. rewrite H1, Hs1. reflexivity. }
  rewrite Hfirst. cbn [fst snd].
  set (w1 := saveToCache _ _ _ _ _).
  split; [reflexivity|].
  (* the second GET finds the entry and becomes conditional *)
  assert (withConditionalHeader sha256_hex "GET" url options (elapse dt w1) =
          {| ignoreCache := ignoreCache options; ignoreEtag := ignoreEtag options;
             ifNoneMatch := Some tag; body := body options |}) as Hcond.
  { unfold withConditionalHeader. rewrite Hic, Hie. simpl.
    destruct (loadFromCache_saved url (data resp1) (headers resp1)
                (snd (clientRequest network req1 w0)) (elapse dt w1))
      as (cached & -> & _ & Het);
      [reflexivity | unfold w1; simpl; lia |].
    rewrite Het, He1, (truthy_Some _ Htag). reflexivity. }
  set (req2 := {| reqMethod := "GET"; reqUrl := url;
                  reqIfNoneMatch := Some tag; reqBody := body options |}) in *.
  assert (length (sent (elapse dt w1)) = S (length (sent w0))) as Hlen.
  { unfold w1. simpl. rewrite length_app. simpl. lia. }
  assert (get sha256_hex network random c url options (elapse dt w1) =
          (Throw error, snd (clientRequest network req2 (elapse dt w1))))
    as Hsecond.
  { unfold get.
    pose proof (request_rejected_304 c "GET" url options (elapse dt w1) error resp2)
      as H. cbv zeta in H. rewrite Hcond in H.
    change (requestOf "GET" url _) with req2 in H.
    rewrite Hlen in H. exact (H H2 Hr2 Hs2). }
  rewrite Hsecond. cbn [fst snd]. split; [reflexivity|]. split.
  - unfold w1. simpl. rewrite <- app_assoc. reflexivity.
  - destruct (loadFromCache_saved url (data resp1) (headers resp1)
                (snd (clientRequest network req1 w0))
                (snd (clientRequest network req2 (elapse dt w1))))
      as (cached & Hload & Hd & _).
    + reflexivity.
    + unfold clientRequest. cbn [snd now]. rewrite Hlen.
      unfold w1. simpl. lia.
    + exists cached. split; [exact Hload|exact Hd].
Qed.

End WithEnvironment.

End HttpFacts.

(** * Properties of the Sourcify client *)

Module SourcifyFacts.

Import Sourcify.

Section WithClient.

Variable keccak256_hex : string -> string.
Variable encodeURIComponent : string -> string.
Variable manifestOf : string -> option (list string).
Variable W : Type.
Variable httpGet : string -> W -> Result string * W.
Variable clock : W -> Z.
Variable baseUrls : list string.

Local Abbreviation tryMetadata := (tryMetadata keccak256_hex W httpGet clock).
Local Abbreviation mirrorLoop := (mirrorLoop keccak256_hex W httpGet clock).
Local Abbreviation matchTypeLoop := (matchTypeLoop keccak256_hex W httpGet clock baseUrls).
Local Abbreviation fetchMetadata := (fetchMetadata keccak256_hex W httpGet clock baseUrls).
Local Abbreviation scanCandidates := (scanCandidates keccak256_hex W httpGet clock).
Local Abbreviation failAll := (failAll keccak256_hex W httpGet clock).
Local Abbreviation fetchSourceFile :=
  (fetchSourceFile keccak256_hex encodeURIComponent W httpGet baseUrls).
Local Abbreviation trySourceFile :=
  (trySourceFile keccak256_hex encodeURIComponent W httpGet).
Local Abbreviation sourceMirrorLoop :=
  (sourceMirrorLoop keccak256_hex encodeURIComponent W httpGet).

(** ** The nested loops are one pass over the ordered candidates *)

Lemma mirrorLoop_scan chainId address m urls :
  forall lastError w,
    mirrorLoop chainId address m urls lastError w =
    scanCandidates chainId address (map (pair m) urls) lastError w.
Proof.
  induction urls as [|baseUrl urls IH]; intros lastError w; simpl; [reflexivity|].
  destruct (tryMetadata chainId address m baseUrl w) as [[r|e] w1]; [reflexivity|].
  destruct (is404 e); apply IH.
Qed.

Lemma scanCandidates_app chainId address l1 l2 :
  forall lastError w,
    scanCandidates chainId address (l1 ++ l2) lastError w =
    match scanCandidates chainId address l1 lastError w with
    | (Return r, w1) => (Return r, w1)
    | (Next lastError1, w1) => scanCandidates chainId address l2 lastError1 w1
    end.
Proof.
  induction l1 as [|[m b] l1 IH]; intros lastError w; simpl; [reflexivity|].
  destruct (tryMetadata chainId address m b w) as [[r|e] w1]; [reflexivity|apply IH].
Qed.

Lemma matchTypeLoop_scan chainId address ms :
  forall lastError w,
    matchTypeLoop chainId address ms lastError w =
    scanCandidates chainId address (candidatesOf baseUrls ms) lastError w.
Proof.
  induction ms as [|m ms IH]; intros lastError w; simpl; [reflexivity|].
  rewrite scanCandidates_app, mirrorLoop_scan.
  destruct (scanCandidates chainId address (map (pair m) baseUrls) lastError w)
    as [[r|lastError1] w1]; [reflexivity|apply IH].
Qed.

Lemma scanCandidates_failAll chainId address pre rest :
  forall lastError w lastError1 w1,
    failAll chainId address pre lastError w = Some (lastError1, w1) ->
    scanCandidates chainId address (pre ++ rest) lastError w =
    scanCandidates chainId address rest lastError1 w1.
Proof.
  induction pre as [|[m b] pre IH]; intros lastError w lastError1 w1; simpl.
  - intros [= -> ->]. reflexivity.
  - destruct (tryMetadata chainId address m b w) as [[r|e] w']; [discriminate|].
    apply IH.
Qed.

(** Every scan either stops at a first success or fails throughout. *)
Lemma scanCandidates_cases chainId address cands :
  forall lastError w,
    (exists pre m b post lastError1 w1 r w2,
        cands = (pre ++ (m, b) :: post)%list /\
        failAll chainId address pre lastError w = Some (lastError1, w1) /\
        tryMetadata chainId address m b w1 = (Ok r, w2)) \/
    (exists lastError1 w1,
        failAll chainId address cands lastError w = Some (lastError1, w1)).
Proof.
  induction cands as [|[m b] cands IH]; intros lastError w.
  - right. simpl. eauto.
  - destruct (tryMetadata chainId address m b w) as [[r|e] w'] eqn:Htry.
    + left. exists [], m, b, cands, lastError, w, r, w'. auto.
    + destruct (IH (Some e) w')
        as [(pre & m' & b' & post & le1 & w1 & r & w2 & -> & Hf & Ht)
           |(le1 & w1 & Hf)].
      * left. exists ((m, b) :: pre), m', b', post, le1, w1, r, w2.
        simpl. rewrite Htry. auto.
      * right. exists le1, w1. simpl. rewrite Htry. exact Hf.
Qed.

(** The last error of a failed scan is the error of its last candidate. *)
Lemma failAll_last chainId address pre m b :
  forall lastError w lastError1 w1,
    failAll chainId address (pre ++ [(m, b)]) lastError w = Some (lastError1, w1) ->
    exists lastError0 w0 e,
      failAll chainId address pre lastError w = Some (lastError0, w0) /\
      tryMetadata chainId address m b w0 = (Throw e, w1) /\
      lastError1 = Some e.
Proof.
  induction pre as [|[m' b'] pre IH]; intros lastError w lastError1 w1; simpl.
  - destruct (tryMetadata chainId address m b w) as [[r|e] w'] eqn:Htry;
      [discriminate|].
    intros [= <- <-]. exists lastError, w, e. auto.
  - destruct (tryMetadata chainId address m' b' w) as [[r|e] w']; [discriminate|].
    apply IH.
Qed.

(** For a checksummed address the lookup URL is the canonical one, built
    from the address as it stands. *)
Lemma getMetadataUrl_checksummed baseUrl chainId address m :
  Address.isValidChecksumAddress keccak256_hex (Address.VString address) = true ->
  getMetadataUrl keccak256_hex baseUrl chainId address m =
  Ok (contractPath baseUrl chainId address m ++ "/metadata.json").
Proof.
  unfold Address.isValidChecksumAddress, getMetadataUrl.
  destruct (Address.toChecksumAddress keccak256_hex (Address.VString address))
    as [r|e]; [|discriminate].
  intros H. apply String.eqb_eq in H. subst r. reflexivity.
Qed.

Lemma tryMetadata_checksummed chainId address m baseUrl w0 :
  Address.isValidChecksumAddress keccak256_hex (Address.VString address) = true ->
  tryMetadata chainId address m baseUrl w0 =
  match httpGet (contractPath baseUrl chainId address m ++ "/metadata.json") w0 with
  | (Ok md, w1) =>
      if isNull md then (Throw (nullPropertyError "compiler"), w1)
      else (Ok {| metadata := md; matchType := m; sourceUrl := baseUrl;
                  fetchedAt := clock w1 |}, w1)
  | (Throw e, w1) => (Throw e, w1)
  end.
Proof.
  intros Hv. unfold Sourcify.tryMetadata.
  rewrite (getMetadataUrl_checksummed _ _ _ _ Hv). reflexivity.
Qed.


End WithClient.

(** ** Source files *)

Section Closures.

(** Replacing one closure of a list in which every file has one
    closure. *)
Lemma closure_unique (closures : list Closure) i j c x :
  NoDup (map closureFile closures) ->
  closures !! i = Some c -> closures !! j = Some x ->
  closureFile x = closureFile c -> j = i.
Proof.
  intros Hnd Hi Hj Hfile.
  apply (NoDup_lookup (map closureFile closures) j i (closureFile c) Hnd).
  - change (map closureFile closures) with (closureFile <$> closures).
    rewrite list_lookup_fmap, Hj. simpl. congruence.
  - change (map closureFile closures) with (closureFile <$> closures).
    rewrite list_lookup_fmap, Hi. reflexivity.
Qed.

Lemma closure_replaced (closures : list Closure) i c c' x :
  NoDup (map closureFile closures) ->
  closures !! i = Some c -> closureFile c' = closureFile c ->
  x ∈ <[i := c']> closures <->
  x = c' \/ (x ∈ closures /\ closureFile x <> closureFile c).
Proof.
  intros Hnd Hi Hfile. split.
  - intros Hx. apply list_elem_of_lookup in Hx as [j Hj].
    apply list_lookup_insert_Some in Hj as [(<- & <- & _)|[Hne Hj]]; [auto|].
    right. split; [apply (list_elem_of_lookup_2 _ _ _ Hj)|].
    intros Hsame. apply Hne. symmetry.
    apply (closure_unique closures i j c x Hnd Hi Hj Hsame).
  - intros [->|[Hx Hne]].
    + apply list_elem_of_lookup. exists i. apply list_lookup_insert_eq.
      apply (lookup_lt_Some _ _ _ Hi).
    + apply list_elem_of_lookup in Hx as [j Hj].
      apply list_elem_of_lookup. exists j.
      rewrite list_lookup_insert_ne; [exact Hj|].
      intros <-. rewrite Hi in Hj. injection Hj as <-. contradiction.
Qed.

Lemma closureFile_insert (closures : list Closure) i c c' :
  closures !! i = Some c -> closureFile c' = closureFile c ->
  map closureFile (<[i := c']> closures) = map closureFile closures.
Proof.
  intros Hi Hfile.
  change (closureFile <$> <[i := c']> closures = closureFile <$> closures).
  rewrite list_fmap_insert, Hfile. apply list_insert_id.
  rewrite list_lookup_fmap, Hi. reflexivity.
Qed.

Lemma waitingFrom_spec (closures : list Closure) :
  forall j i, i ∈ waitingFrom j closures ->
    (j <= i)%nat /\ exists c, closures !! (i - j)%nat = Some c /\ isWaiting c = true.
Proof.
  induction closures as [|c rest IH]; intros j i; cbn [waitingFrom].
  - intros H. apply elem_of_nil in H as [].
  - assert (i ∈ waitingFrom (S j) rest ->
            (j <= i)%nat /\
            exists c0, (c :: rest) !! (i - j)%nat = Some c0 /\ isWaiting c0 = true)
      as Hrest.
    { intros H. apply IH in H as (Hle & c0 & Hc0 & Hw).
      split; [lia|]. exists c0. split; [|exact Hw].
      replace (i - j)%nat with (S (i - S j)) by lia. exact Hc0. }
    destruct (isWaiting c) eqn:Hc; [|exact Hrest].
    intros H. apply elem_of_cons in H as [->|H]; [|exact (Hrest H)].
    split; [lia|]. exists c. rewrite Nat.sub_diag. auto.
Qed.

Lemma waitingFrom_nil (closures : list Closure) :
  forall j, waitingFrom j closures = [] ->
    Forall (fun c => isWaiting c = false) closures.
Proof.
  induction closures as [|c rest IH]; intros j; cbn [waitingFrom]; [constructor|].
  destruct (isWaiting c) eqn:Hc; [discriminate|].
  intros H. constructor; [exact Hc|apply (IH _ H)].
Qed.

(** The closure that receives the next answer is one that waits; if
    there is none, every closure has settled. *)
Lemma settles_waiting (closures : list Closure) x i :
  waitingFrom 0 closures !! (x mod length (waitingFrom 0 closures))%nat = Some i ->
  exists c, closures !! i = Some c /\ isWaiting c = true.
Proof.
  intros H. apply list_elem_of_lookup_2, waitingFrom_spec in H as (_ & c & Hc & Hw).
  rewrite Nat.sub_0_r in Hc. eauto.
Qed.

Lemma settles_none (closures : list Closure) x :
  waitingFrom 0 closures !! (x mod length (waitingFrom 0 closures))%nat = None ->
  Forall (fun c => isWaiting c = false) closures.
Proof.
  intros H. apply lookup_ge_None in H.
  destruct (waitingFrom 0 closures) as [|i l] eqn:Hw.
  - apply (waitingFrom_nil _ _ Hw).
  - pose proof (Nat.mod_upper_bound x (length (i :: l))) as Hlt.
    cbn [length] in *. lia.
Qed.

Lemma mirrorsLeft_insert (closures : list Closure) :
  forall i c c', closures !! i = Some c ->
    (sum_list (map mirrorsLeft (<[i := c']> closures)) + mirrorsLeft c
     = sum_list (map mirrorsLeft closures) + mirrorsLeft c')%nat.
Proof.
  induction closures as [|x rest IH]; intros [|i] c c' H; try discriminate H.
  - injection H as ->.
    change ((mirrorsLeft c' + sum_list (map mirrorsLeft rest) + mirrorsLeft c
             = mirrorsLeft c + sum_list (map mirrorsLeft rest) + mirrorsLeft c')%nat).
    lia.
  - specialize (IH i c c' H).
    change ((mirrorsLeft x + sum_list (map mirrorsLeft (<[i := c']> rest))
             + mirrorsLeft c
             = mirrorsLeft x + sum_list (map mirrorsLeft rest) + mirrorsLeft c')%nat).
    lia.
Qed.

Lemma mirrorsLeft_settled (closures : list Closure) :
  (forall f le, Waiting f [] le ∉ closures) ->
  sum_list (map mirrorsLeft closures) = 0%nat ->
  Forall (fun c => isWaiting c = false) closures.
Proof.
  induction closures as [|c rest IH]; intros Hwf Hsum; [constructor|].
  cbn in Hsum. constructor.
  - destruct c as [f [|b l] le| |]; cbn in *; try reflexivity; [|lia].
    exfalso. apply (Hwf f le). left.
  - apply IH; [|lia]. intros f le Hin. apply (Hwf f le). right. exact Hin.
Qed.

Variable keccak256_hex : string -> string.
Variable encodeURIComponent : string -> string.
Variable manifestOf : string -> option (list string).
Variable W : Type.
Variable httpGet : string -> W -> Result string * W.
Variable baseUrls : list string.
Variable settles : nat -> nat.

Local Abbreviation trySourceFile :=
  (trySourceFile keccak256_hex encodeURIComponent W httpGet).
Local Abbreviation sourceMirrorLoop :=
  (sourceMirrorLoop keccak256_hex encodeURIComponent W httpGet).
Local Abbreviation fetchSourceFile :=
  (fetchSourceFile keccak256_hex encodeURIComponent W httpGet baseUrls).
Local Abbreviation startClosure := (startClosure baseUrls).
Local Abbreviation resume := (resume keccak256_hex encodeURIComponent W httpGet).
Local Abbreviation promiseAll :=
  (promiseAll keccak256_hex encodeURIComponent W httpGet settles).
Local Abbreviation settleAll :=
  (settleAll keccak256_hex encodeURIComponent W httpGet baseUrls settles).
Local Abbreviation fetchAllSources :=
  (fetchAllSources keccak256_hex encodeURIComponent manifestOf W httpGet baseUrls settles).
Local Abbreviation fetched :=
  (fetched keccak256_hex encodeURIComponent W httpGet).

Lemma fetchSourceFile_error chainId address filePath m w e w1 :
  fetchSourceFile chainId address filePath m w = (Throw e, w1) ->
  exists lastError, e = sourceFileError chainId address filePath lastError.
Proof.
  unfold Sourcify.fetchSourceFile.
  destruct (sourceMirrorLoop chainId address filePath m baseUrls None w)
    as [[c|lastError] w2]; [discriminate|].
  intros [= <- _]. exists lastError. reflexivity.
Qed.

Lemma resume_file chainId address m c sources w :
  closureFile (resume chainId address m c sources w).1.1 = closureFile c.
Proof.
  destruct c as [f [|b rest] le|f content|f e]; cbn [Sourcify.resume]; try reflexivity.
  destruct (trySourceFile chainId address f m b w) as [[content|e] w1];
    [reflexivity|]. destruct rest; reflexivity.
Qed.

(** A property of the closures, the map and the state of the client
    that every answer preserves holds when [Promise.all] is through. *)
Lemma promiseAll_preserves chainId address m
    (P : list Closure -> gmap string string -> W -> Prop) :
  (forall closures sources w i c,
     P closures sources w -> closures !! i = Some c -> isWaiting c = true ->
     P (<[i := (resume chainId address m c sources w).1.1]> closures)
       (resume chainId address m c sources w).1.2
       (resume chainId address m c sources w).2) ->
  forall fuel k closures sources w,
    P closures sources w ->
    P (promiseAll chainId address m fuel k closures sources w).1.1
      (promiseAll chainId address m fuel k closures sources w).1.2
      (promiseAll chainId address m fuel k closures sources w).2.
Proof.
  intros Hstep. induction fuel as [|fuel IH]; intros k closures sources w HP;
    cbn [Sourcify.promiseAll]; [exact HP|]. cbv zeta.
  destruct (waitingFrom 0 closures !! _) as [i|] eqn:Hpick; [|exact HP].
  destruct (settles_waiting _ _ _ Hpick) as (c & Hc & Hw). rewrite Hc.
  pose proof (Hstep closures sources w i c HP Hc Hw) as HP'.
  destruct (resume chainId address m c sources w) as [[c' sources'] w'].
  apply IH. exact HP'.
Qed.

(** [Promise.all] is through when every closure has settled: each
    answer takes at least one mirror from the closure that receives
    it. *)
Lemma promiseAll_settles chainId address m :
  forall fuel k closures sources w,
    (forall f le, Waiting f [] le ∉ closures) ->
    (sum_list (map mirrorsLeft closures) <= fuel)%nat ->
    Forall (fun c => isWaiting c = false)
      (promiseAll chainId address m fuel k closures sources w).1.1.
Proof.
  induction fuel as [|fuel IH]; intros k closures sources w Hwf Hfuel;
    cbn [Sourcify.promiseAll].
  - cbn [fst]. apply mirrorsLeft_settled; [exact Hwf|lia].
  - cbv zeta.
    destruct (waitingFrom 0 closures !! _) as [i|] eqn:Hpick;
      [|apply (settles_none _ _ Hpick)].
    destruct (settles_waiting _ _ _ Hpick) as (c & Hc & Hw). rewrite Hc.
    destruct c as [f [|b rest] le|f content|f e]; try discriminate Hw.
    { exfalso. apply (Hwf f le). apply (list_elem_of_lookup_2 _ _ _ Hc). }
    pose proof (mirrorsLeft_insert closures i (Waiting f (b :: rest) le)) as Hsum.
    cbn [Sourcify.resume].
    destruct (trySourceFile chainId address f m b w) as [[content|e] w1].
    + apply IH.
      * intros f' le' Hin. apply list_elem_of_lookup in Hin as [j Hj].
        apply list_lookup_insert_Some in Hj as [(_ & [=] & _)|[_ Hj]].
        apply (Hwf f' le'), (list_elem_of_lookup_2 _ _ _ Hj).
      * specialize (Hsum (Fulfilled f content) Hc). cbn [mirrorsLeft length] in Hsum.
        lia.
    + apply IH.
      * intros f' le' Hin. apply list_elem_of_lookup in Hin as [j Hj].
        apply list_lookup_insert_Some in Hj as [(_ & Heq & _)|[_ Hj]].
        -- destruct rest; discriminate Heq.
        -- apply (Hwf f' le'), (list_elem_of_lookup_2 _ _ _ Hj).
      * specialize (Hsum (match rest with
                          | [] => Rejected f (sourceFileError chainId address f (Some e))
                          | _ :: _ => Waiting f rest (Some e)
                          end) Hc).
        cbn [mirrorsLeft length] in Hsum.
        assert (mirrorsLeft (match rest with
                             | [] => Rejected f (sourceFileError chainId address f (Some e))
                             | _ :: _ => Waiting f rest (Some e)
                             end) = length rest) as Hrest
          by (destruct rest; reflexivity).
        lia.
Qed.

Lemma startClosure_mirrorsLeft chainId address files :
  sum_list (map mirrorsLeft (map (startClosure chainId address) files))
  = (length files * length baseUrls)%nat.
Proof.
  induction files as [|f files IH]; [reflexivity|].
  cbn [map sum_list length Nat.mul]. rewrite IH. f_equal.
  unfold Sourcify.startClosure. destruct baseUrls; reflexivity.
Qed.

Lemma startClosure_files chainId address files :
  map closureFile (map (startClosure chainId address) files) = files.
Proof.
  induction files as [|f files IH]; [reflexivity|].
  cbn [map]. rewrite IH. f_equal.
  unfold Sourcify.startClosure. destruct baseUrls; reflexivity.
Qed.

Lemma startClosure_cases chainId address files c :
  c ∈ map (startClosure chainId address) files ->
  (baseUrls = [] /\
   c = Rejected (closureFile c) (sourceFileError chainId address (closureFile c) None)) \/
  (baseUrls <> [] /\ c = Waiting (closureFile c) baseUrls None).
Proof.
  intros H. apply list_elem_of_fmap in H as (f & -> & _).
  unfold Sourcify.startClosure.
  destruct baseUrls; [left; auto|right; split; [discriminate|reflexivity]].
Qed.

(** The content that the mirrors of [mirrors], asked in order from the
    state [w], serve for a file. *)
Lemma fetched_cons chainId address m f b rest w :
  fetched (b :: rest) chainId address m f w =
  match trySourceFile chainId address f m b w with
  | (Ok content, _) => Some content
  | (Throw _, w1) => fetched rest chainId address m f w1
  end.
Proof.
  assert (forall l le le' w0,
            match fst (sourceMirrorLoop chainId address f m l le w0) with
            | Return c => Some c | Next _ => None
            end =
            match fst (sourceMirrorLoop chainId address f m l le' w0) with
            | Return c => Some c | Next _ => None
            end) as Hle.
  { induction l as [|b0 l IH]; intros le le' w0; cbn [Sourcify.sourceMirrorLoop];
      [reflexivity|].
    destruct (trySourceFile chainId address f m b0 w0) as [[c|e] w1]; [reflexivity|].
    destruct (is404 e); apply IH. }
  assert (forall l le w0,
            fetched l chainId address m f w0 =
            match fst (sourceMirrorLoop chainId address f m l le w0) with
            | Return c => Some c | Next _ => None
            end) as Hloop.
  { intros l le w0. unfold Sourcify.fetched, Sourcify.fetchSourceFile.
    rewrite (Hle l le None).
    destruct (sourceMirrorLoop chainId address f m l None w0) as [[c|le0] w1];
      reflexivity. }
  rewrite (Hloop (b :: rest) None w). cbn [Sourcify.sourceMirrorLoop].
  destruct (trySourceFile chainId address f m b w) as [[c|e] w1]; [reflexivity|].
  rewrite (Hloop rest (Some e) w1). destruct (is404 e); reflexivity.
Qed.

Lemma trySourceFile_stateless chainId address m f b w w' :
  Stateless W httpGet ->
  fst (trySourceFile chainId address f m b w) = fst (trySourceFile chainId address f m b w').
Proof.
  intros Hst. unfold Sourcify.trySourceFile.
  destruct (getFileUrl _ _ _ _ _ _ _) as [url|e]; [|reflexivity].
  specialize (Hst url w w').
  destruct (httpGet url w) as [[c|e] w1], (httpGet url w') as [[c'|e'] w1'];
    cbn [fst] in Hst; try discriminate; injection Hst as <-; [|reflexivity].
  destruct (isNull c); reflexivity.
Qed.

Lemma fetched_stateless chainId address m f w w' :
  Stateless W httpGet ->
  forall mirrors,
    fetched mirrors chainId address m f w = fetched mirrors chainId address m f w'.
Proof.
  intros Hst mirrors. revert w w'.
  induction mirrors as [|b rest IH]; intros w w'; [reflexivity|].
  rewrite !fetched_cons.
  pose proof (trySourceFile_stateless chainId address m f b w w' Hst) as Hfst.
  destruct (trySourceFile chainId address f m b w) as [[c|e] w1],
           (trySourceFile chainId address f m b w') as [[c'|e'] w1'];
    cbn [fst] in Hfst; try discriminate; [congruence|apply IH].
Qed.

Local Abbreviation Fanned :=
  (Fanned keccak256_hex encodeURIComponent W httpGet baseUrls).
Local Abbreviation Served :=
  (Served keccak256_hex encodeURIComponent W httpGet baseUrls).

Lemma assign_fresh (sources : gmap string string) f content :
  sources !! "__proto__" = None ->
  PlainObject.assign f content sources =
  (if String.eqb f "__proto__" then sources else <[f := content]> sources) /\
  PlainObject.assign f content sources !! "__proto__" = None.
Proof.
  intros Hproto. unfold PlainObject.assign.
  destruct (String.eqb_spec f "__proto__") as [->|Hne]; cbn [andb].
  - rewrite Hproto. rewrite bool_decide_eq_false_2 by (intros [v Hv]; discriminate).
    cbn [negb]. auto.
  - split; [reflexivity|]. rewrite lookup_insert_ne by exact Hne. exact Hproto.
Qed.

Lemma Fanned_start chainId address m files :
  Fanned chainId address m files (map (startClosure chainId address) files) ∅.
Proof.
  split; [apply startClosure_files|]. split; [apply lookup_empty|].
  split; [|split].
  - intros f content. rewrite lookup_empty. split; [discriminate|].
    intros [_ Hin]. apply startClosure_cases in Hin as [[_ H]|[_ H]]; discriminate H.
  - intros f mirrors le Hin.
    apply startClosure_cases in Hin as [[_ H]|[Hne H]]; [discriminate H|].
    injection H as -> _. split; [exact Hne|]. intros x Hx. exact Hx.
  - intros f content Hin.
    apply startClosure_cases in Hin as [[_ H]|[_ H]]; discriminate H.
Qed.

Lemma Fanned_step chainId address m files closures sources w i c :
  NoDup files ->
  Fanned chainId address m files closures sources ->
  closures !! i = Some c -> isWaiting c = true ->
  Fanned chainId address m files
    (<[i := (resume chainId address m c sources w).1.1]> closures)
    (resume chainId address m c sources w).1.2.
Proof.
  intros Hnd (Hfiles & Hproto & Hsrc & Hwait & Hful) Hc Hw.
  assert (NoDup (map closureFile closures)) as Hnd' by (rewrite Hfiles; exact Hnd).
  pose proof (resume_file chainId address m c sources w) as Hfile.
  pose proof (fun x => closure_replaced closures i c
                         (resume chainId address m c sources w).1.1 x
                         Hnd' Hc Hfile) as Hin.
  assert (forall x, x ∈ closures -> closureFile x = closureFile c -> x = c) as Hone.
  { intros x Hx Hsame. apply list_elem_of_lookup in Hx as [j Hj].
    rewrite (closure_unique closures i j c x Hnd' Hc Hj Hsame) in Hj. congruence. }
  split; [rewrite (closureFile_insert closures i c _ Hc Hfile); exact Hfiles|].
  destruct c as [f [|b rest] le|f content|f e]; try discriminate Hw.
  { destruct (Hwait f [] le (list_elem_of_lookup_2 _ _ _ Hc)) as [Hne _].
    contradiction. }
  destruct (Hwait f (b :: rest) le (list_elem_of_lookup_2 _ _ _ Hc)) as [_ Hsub].
  cbn [Sourcify.resume closureFile] in *.
  destruct (trySourceFile chainId address f m b w) as [[content|e] w1] eqn:Htry;
    cbn [fst snd] in *.
  - destruct (assign_fresh sources f content Hproto) as [Hassign Hproto'].
    split; [exact Hproto'|]. split; [|split].
    + intros f' content'. rewrite Hin, Hassign.
      destruct (String.eqb_spec f "__proto__") as [->|Hne].
      * rewrite Hsrc. split.
        -- intros [Hf' H]. split; [exact Hf'|]. right. split; [exact H|exact Hf'].
        -- intros [Hf' [[= -> _]|[H _]]]; [contradiction|]. auto.
      * destruct (decide (f = f')) as [<-|Hff'].
        -- rewrite lookup_insert_eq. split.
           ++ intros [= <-]. auto.
           ++ intros [_ [[= <-]|[_ H]]]; [reflexivity|contradiction].
        -- rewrite lookup_insert_ne by exact Hff'. rewrite Hsrc. split.
           ++ intros [Hf' H]. split; [exact Hf'|]. right.
              split; [exact H|cbn [closureFile]; congruence].
           ++ intros [Hf' [[= -> _]|[H _]]]; [contradiction|]. auto.
    + intros f' mirrors le' H. apply Hin in H as [[=]|[H _]]. apply (Hwait _ _ _ H).
    + intros f' content' H. apply Hin in H as [[= -> ->]|[H _]]; [|apply (Hful _ _ H)].
      exists b, w. split; [apply Hsub; left|rewrite Htry; reflexivity].
  - split; [exact Hproto|]. split; [|split].
    + intros f' content'. rewrite Hin, Hsrc. split.
      * intros [Hf' H]. split; [exact Hf'|]. right. split; [exact H|].
        cbn [closureFile]. intros ->.
        specialize (Hone _ H eq_refl). discriminate Hone.
      * intros [Hf' [H|[H _]]]; [destruct rest; discriminate H|auto].
    + intros f' mirrors le' H. apply Hin in H as [H|[H _]]; [|apply (Hwait _ _ _ H)].
      destruct rest as [|b' rest']; [discriminate H|]. injection H as -> -> ->.
      split; [discriminate|]. intros x Hx. apply Hsub. right. exact Hx.
    + intros f' content' H. apply Hin in H as [H|[H _]]; [|apply (Hful _ _ H)].
      destruct rest; discriminate H.
Qed.

Lemma Served_start chainId address m w0 files c :
  c ∈ map (startClosure chainId address) files -> Served chainId address m w0 c.
Proof.
  intros H. apply startClosure_cases in H as [[Hnil ->]|[_ ->]];
    cbn [Sourcify.Served]; [|reflexivity].
  rewrite Hnil. reflexivity.
Qed.

Lemma Served_step chainId address m w0 c sources w :
  Stateless W httpGet ->
  Served chainId address m w0 c ->
  Served chainId address m w0 (resume chainId address m c sources w).1.1.
Proof.
  intros Hst Hc. destruct c as [f [|b rest] le|f content|f e];
    cbn [Sourcify.resume fst]; try exact Hc.
  cbn [Sourcify.Served] in Hc.
  rewrite (fetched_stateless chainId address m f w0 w Hst (b :: rest)) in Hc.
  rewrite fetched_cons in Hc.
  destruct (trySourceFile chainId address f m b w) as [[content|e] w1];
    cbn [fst Sourcify.Served]; [congruence|].
  destruct rest as [|b' rest']; cbn [Sourcify.Served].
  - rewrite <- Hc. reflexivity.
  - rewrite <- Hc. apply (fetched_stateless chainId address m f w0 w1 Hst).
Qed.

(** C8.  For a metadata document, [fetchAllSources] always returns a
    map and never throws, in whatever order the answers for the
    different files arrive.  Without a manifest the map is empty.  With
    one, of distinct keys, every closure settles, one per file and in
    the order of the manifest; a file is in the map, with its content,
    iff its closure was fulfilled with that content and the file is not
    named [__proto__]: the assignment of the content fetched for a file
    of that name stores nothing, so that this file is missing from the
    map although its fetch succeeded.  A content in the map was served
    by one of the mirrors; a file that no mirror serves is rejected and
    absent, without effect on the others; and with a client whose
    answers do not depend on its state the fulfilled closures are those
    of the files whose own [fetchSourceFile] succeeds. *)
Theorem fetchAllSources_partial (chainId : N) (address md : string)
    (m : MatchType) (w : W) :
  isNull md = false ->
  exists sources w1,
    fetchAllSources chainId address md m w = (Ok sources, w1) /\
    (manifestOf md = None -> sources = ∅ /\ w1 = w) /\
    (forall files, manifestOf md = Some files -> NoDup files ->
       exists closures,
         settleAll chainId address m files w = (closures, sources, w1) /\
         map closureFile closures = files /\
         Forall (fun c => isWaiting c = false) closures /\
         (forall f content, sources !! f = Some content <->
            f <> "__proto__" /\ Fulfilled f content ∈ closures) /\
         (forall content, Fulfilled "__proto__" content ∈ closures ->
            sources !! "__proto__" = None) /\
         (forall f content, Fulfilled f content ∈ closures ->
            exists baseUrl w', baseUrl ∈ baseUrls /\
              fst (trySourceFile chainId address f m baseUrl w') = Ok content) /\
         (forall f, f ∈ files ->
            (forall baseUrl w', baseUrl ∈ baseUrls ->
               isOk (fst (trySourceFile chainId address f m baseUrl w')) = false) ->
            sources !! f = None /\ exists e, Rejected f e ∈ closures) /\
         (Stateless W httpGet ->
          forall f content, Fulfilled f content ∈ closures <->
            f ∈ files /\ fetched baseUrls chainId address m f w = Some content)).
Proof.
  intros Hdoc. unfold Sourcify.fetchAllSources. rewrite Hdoc.
  destruct (manifestOf md) as [files|];
    [|exists ∅, w; split; [reflexivity|]; split; [auto|discriminate]].
  destruct (settleAll chainId address m files w) as [[closures sources] w1] eqn:Hrun.
  exists sources, w1. split; [reflexivity|]. split; [discriminate|].
  intros files' [= <-] Hnd. exists closures. split; [exact Hrun|].
  unfold Sourcify.settleAll in Hrun.
  (* what every answer preserves *)
  pose proof (promiseAll_preserves chainId address m
                (fun closures sources _ => Fanned chainId address m files closures sources)
                (fun closures sources w i c H Hc Hw =>
                   Fanned_step chainId address m files closures sources w i c Hnd H Hc Hw)
                (length files * length baseUrls) 0
                (map (startClosure chainId address) files) ∅ w
                (Fanned_start chainId address m files)) as Hfanned.
  cbv beta in Hfanned. rewrite Hrun in Hfanned. cbn [fst snd] in Hfanned.
  destruct Hfanned as (Hfiles & Hproto & Hsrc & Hwait & Hful).
  (* every closure settles *)
  assert (Forall (fun c => isWaiting c = false) closures) as Hsettled.
  { pose proof (promiseAll_settles chainId address m
                  (length files * length baseUrls) 0
                  (map (startClosure chainId address) files) ∅ w) as H.
    rewrite Hrun in H. apply H.
    - intros f le Hin.
      apply startClosure_cases in Hin as [[_ Heq]|[Hne Heq]]; [discriminate Heq|].
      injection Heq as Heq _. congruence.
    - rewrite startClosure_mirrorsLeft. reflexivity. }
  assert (forall f, f ∈ files ->
            exists c, c ∈ closures /\ closureFile c = f /\ isWaiting c = false)
    as Hclosure.
  { intros f Hf. rewrite <- Hfiles in Hf.
    apply list_elem_of_fmap in Hf as (c & -> & Hc). exists c.
    split; [exact Hc|]. split; [reflexivity|].
    rewrite Forall_forall in Hsettled. apply Hsettled, Hc. }
  split; [exact Hfiles|]. split; [exact Hsettled|]. split; [exact Hsrc|].
  split; [intros; exact Hproto|]. split; [exact Hful|]. split.
  - intros f Hf Hnone.
    assert (forall content, Fulfilled f content ∉ closures) as Hnot.
    { intros content Hin. destruct (Hful _ _ Hin) as (baseUrl & w' & Hb & Htry).
      specialize (Hnone baseUrl w' Hb). rewrite Htry in Hnone. discriminate. }
    split.
    + destruct (sources !! f) as [content|] eqn:Hl; [|reflexivity].
      apply Hsrc in Hl as [_ Hin]. destruct (Hnot _ Hin).
    + destruct (Hclosure f Hf) as (c & Hc & Hcf & Hcw).
      destruct c as [f' l le|f' content|f' e]; cbn in Hcf, Hcw; subst f';
        [discriminate|destruct (Hnot _ Hc)|eauto].
  - intros Hst.
    pose proof (promiseAll_preserves chainId address m
                  (fun closures _ _ => Forall (Served chainId address m w) closures)
                  (fun closures sources w' i c H Hc Hw =>
                     Forall_insert _ closures i _ H
                       (Served_step chainId address m w c sources w' Hst
                          (Forall_lookup_1 _ closures i c H Hc)))
                  (length files * length baseUrls) 0
                  (map (startClosure chainId address) files) ∅ w) as Hserved.
    cbv beta in Hserved. rewrite Hrun in Hserved. cbn [fst snd] in Hserved.
    assert (Forall (Served chainId address m w) closures) as Hall.
    { apply Hserved. apply Forall_forall. intros c Hc.
      apply (Served_start _ _ _ _ _ _ Hc). }
    rewrite Forall_forall in Hall.
    intros f content. split.
    + intros Hin. split.
      * rewrite <- Hfiles. apply list_elem_of_fmap. exists (Fulfilled f content). auto.
      * apply (Hall _ Hin).
    + intros [Hf Hfetched]. destruct (Hclosure f Hf) as (c & Hc & Hcf & Hcw).
      pose proof (Hall _ Hc) as Hs.
      destruct c as [f' l le|f' content'|f' e]; cbn in Hcf, Hcw, Hs; subst f';
        [discriminate| |congruence].
      assert (content' = content) as -> by congruence. exact Hc.
Qed.

End Closures.

End SourcifyFacts.

(** * Properties of the provenance tracker *)

Module ArchiveFacts.

Import Archive.

(** ** Documents and records *)

Lemma validated_draftOf p : validated (draftOf p) = Some p.
Proof.
  destruct p as [first last t used [runId|] [commit|] [op|] [orph|]]; reflexivity.
Qed.

Lemma validated_Some d p : validated d = Some p -> d = draftOf p.
Proof.
  destruct d as [first last t used runId commit op orph]. unfold validated.
  cbn [draftFirstSeenAt draftLastUpdatedAt draftTools draftSourcesUsed
       draftFetchRunId draftCommitHash draftOperator draftOrphaned].
  destruct first as [|first|]; try discriminate.
  destruct last as [|last|]; try discriminate.
  destruct t as [|t|]; try discriminate.
  destruct used as [|used|]; try discriminate.
  destruct runId as [|runId|]; try discriminate;
    destruct commit as [|commit|]; try discriminate;
    destruct op as [|op|]; try discriminate;
    destruct orph as [|orph|]; try discriminate;
    intros [= <-]; reflexivity.
Qed.

Lemma Valid_Document d p : Document d = Valid p <-> validated d = Some p.
Proof.
  split.
  - intros [= ->]. apply validated_draftOf.
  - intros H. rewrite (validated_Some _ _ H). reflexivity.
Qed.

Lemma Valid_inj p p' : Valid p = Valid p' -> p = p'.
Proof.
  intros H. apply Valid_Document in H. rewrite validated_draftOf in H. congruence.
Qed.

Lemma stored_Valid_inj p p' : Some (Valid p) = Some (Valid p') -> p = p'.
Proof. intros H. apply Valid_inj. congruence. Qed.

Lemma stored_Document_Valid d p : Some (Document d) = Some (Valid p) -> d = draftOf p.
Proof. unfold Valid. congruence. Qed.

Lemma markedAt_draftOf t p : markedAt t (draftOf p) = draftOf (orphanedAt t p).
Proof. reflexivity. Qed.

Section WithHash.

Variable keccak256_hex : string -> string.
Variable provenanceErrors : Draft -> string.

Local Abbreviation getArchiveDir := (getArchiveDir keccak256_hex).
Local Abbreviation checkProvenance := (checkProvenance keccak256_hex provenanceErrors).
Local Abbreviation persistContract := (persistContract keccak256_hex).
Local Abbreviation markOrphaned := (markOrphaned keccak256_hex).
Local Abbreviation fetchAddress := (fetchAddress keccak256_hex provenanceErrors).
Local Abbreviation exec := (exec keccak256_hex provenanceErrors).
Local Abbreviation run := (run keccak256_hex provenanceErrors).

(** ** The staleness check *)

(** The check on a stored record. *)
Lemma checkProvenance_stored chainName address options w dir p :
  getArchiveDir chainName address = Ok dir ->
  files w !! provenancePathOf dir = Some (Valid p) ->
  checkProvenance chainName address options w =
  Ok {| exists_ := true; provenance := Some p;
        isStale := (Http.orZ (staleThreshold options) DAY_MS
                      <? now w - lastUpdatedAt p)%Z;
        shouldSkip := negb (Http.orZ (staleThreshold options) DAY_MS
                              <? now w - lastUpdatedAt p)%Z
                      && negb (force options) |}.
Proof.
  intros Hdir Hp. unfold Archive.checkProvenance. rewrite Hdir, Hp.
  unfold Valid. rewrite validated_draftOf. reflexivity.
Qed.

Lemma checkProvenance_absent chainName address options w dir :
  getArchiveDir chainName address = Ok dir ->
  files w !! provenancePathOf dir = None ->
  checkProvenance chainName address options w =
  Ok {| exists_ := false; provenance := None; isStale := true; shouldSkip := false |}.
Proof.
  intros Hdir Hnone. unfold Archive.checkProvenance. rewrite Hdir, Hnone. reflexivity.
Qed.

(** The two ways in which [checkProvenance] returns. *)
Lemma checkProvenance_Ok chainName address options w r :
  checkProvenance chainName address options w = Ok r ->
  exists dir, getArchiveDir chainName address = Ok dir /\
    ((files w !! provenancePathOf dir = None /\
      r = {| exists_ := false; provenance := None; isStale := true;
             shouldSkip := false |}) \/
     (exists p, files w !! provenancePathOf dir = Some (Valid p) /\
        r = {| exists_ := true; provenance := Some p;
               isStale := (Http.orZ (staleThreshold options) DAY_MS
                             <? now w - lastUpdatedAt p)%Z;
               shouldSkip :=
                 negb (Http.orZ (staleThreshold options) DAY_MS
                         <? now w - lastUpdatedAt p)%Z
                 && negb (force options) |})).
Proof.
  unfold Archive.checkProvenance.
  destruct (getArchiveDir chainName address) as [dir|e]; [|discriminate].
  intros H. exists dir. split; [reflexivity|].
  destruct (files w !! provenancePathOf dir) as [[d|e]|]; [| discriminate |].
  - destruct (validated d) as [p|] eqn:Hd; [|discriminate].
    right. exists p. rewrite (validated_Some _ _ Hd). inversion H. auto.
  - left. inversion H. auto.
Qed.

(** ** Writing a contract *)

Lemma writeArtifact_files path content w :
  now (writeArtifact path content w) = now w /\
  files (writeArtifact path content w) = files w.
Proof. split; reflexivity. Qed.

Lemma writeSources_files sourceDir sources :
  forall w,
    now (foldl (writeSource sourceDir) w sources) = now w /\
    files (foldl (writeSource sourceDir) w sources) = files w.
Proof.
  induction sources as [|[path source] sources IH]; intros w; cbn [foldl];
    [split; reflexivity|].
  destruct (IH (writeSource sourceDir w (path, source))) as [-> ->].
  unfold writeSource. cbn [fst snd].
  destruct source as [c|c]; [split; reflexivity|].
  destruct (truthy c); split; reflexivity.
Qed.

(** The artifacts of a contract are written without a change of the
    clock or of a [provenance.json]. *)
Lemma writeArtifacts_files dir data w :
  now (writeArtifacts dir data w) = now w /\
  files (writeArtifacts dir data w) = files w.
Proof.
  unfold writeArtifacts.
  destruct (cdDeployedBytecode data); cbn [writeArtifact now files];
    destruct (writeSources_files (pathJoin dir "source") (cdSources data)
                (match cdAbi data with
                 | Some abi =>
                     writeArtifact (pathJoin dir "abi.json") abi
                       (writeArtifact (pathJoin dir "metadata.json")
                          (jsonText (cdMetadata data)) w)
                 | None =>
                     writeArtifact (pathJoin dir "metadata.json")
                       (jsonText (cdMetadata data)) w
                 end)) as [-> ->];
    destruct (cdAbi data); split; reflexivity.
Qed.

(** What [persistContract] does to the clock and to the provenance
    files: it leaves them alone when it throws, and writes the one record
    when it returns. *)
Lemma persistContract_files chainName address data p w :
  now (snd (persistContract chainName address data p w)) = now w /\
  match fst (persistContract chainName address data p w) with
  | Ok _ =>
      exists dir, getArchiveDir chainName address = Ok dir /\
        jsonErrors (cdMetadata data) = None /\
        (forall hashes, cdHashes data = Some hashes -> jsonErrors hashes = None) /\
        files (snd (persistContract chainName address data p w))
        = <[provenancePathOf dir := Valid p]> (files w)
  | Throw _ => files (snd (persistContract chainName address data p w)) = files w
  end.
Proof.
  unfold Archive.persistContract.
  destruct (getArchiveDir chainName address) as [dir|e]; [|split; reflexivity].
  unfold validateData.
  destruct (jsonErrors (cdMetadata data)) as [errs|] eqn:Hmeta; [split; reflexivity|].
  destruct (writeArtifacts_files dir data w) as [Hnow Hfiles].
  destruct (cdHashes data) as [hashes|] eqn:Hhashes.
  - destruct (jsonErrors hashes) as [errs|] eqn:Herrs; cbn [fst snd].
    + split; [exact Hnow|exact Hfiles].
    + split; [exact Hnow|]. exists dir. split; [reflexivity|]. split; [reflexivity|].
      split; [intros h [= <-]; exact Herrs|].
      cbn [writeProvenance writeArtifact files]. rewrite Hfiles. reflexivity.
  - cbn [fst snd]. split; [exact Hnow|]. exists dir.
    split; [reflexivity|]. split; [reflexivity|]. split; [discriminate|].
    cbn [writeProvenance files]. rewrite Hfiles. reflexivity.
Qed.

(** ** Recording a fetch *)

(** A fetch records its success only on contract data of the explorer
    that validates and carries no hashes: the metadata that the Sourcify
    branch builds never validates, and neither do the hashes that
    [--verify-bytecode] adds to explorer data. *)
Lemma fetchAddress_Persisted options chainName address acquired suffix w p w1 :
  fetchAddress options chainName address acquired suffix w = (Ok (Persisted p), w1) ->
  exists dir check data,
    getArchiveDir chainName address = Ok dir /\
    checkProvenance chainName address
      {| staleThreshold := None; force := optForce options |} w = Ok check /\
    shouldSkip check = false /\
    optDryRun options = false /\
    acquired = FromExplorer data /\
    jsonErrors (explorerMetadata data) = None /\ verified data = None /\
    p = createProvenance (now w) suffix (provenanceOptionsFor "explorer" check) /\
    w1 = writeProvenance dir p (writeArtifacts dir (contractDataOf data) w).
Proof.
  unfold Archive.fetchAddress.
  destruct (optDryRun options) eqn:Hdry; [discriminate|].
  destruct (checkProvenance chainName address _ w) as [check|e] eqn:Hcheck;
    [|discriminate].
  destruct (shouldSkip check) eqn:Hskip; [discriminate|].
  destruct (checkProvenance_Ok _ _ _ _ _ Hcheck) as (dir & Hdir & _).
  destruct acquired as [errs|data|e]; try discriminate.
  unfold validateData at 1.
  destruct (jsonErrors (explorerMetadata data)) as [errs|] eqn:Hmeta; [discriminate|].
  unfold Archive.persistContract. rewrite Hdir.
  unfold validateData at 1. cbn [contractDataOf cdMetadata cdHashes]. rewrite Hmeta.
  destruct (verified data) as [v|] eqn:Hv.
  - unfold validateData. cbn [jsonErrors]. discriminate.
  - intros [= <- <-]. exists dir, check, data. auto 12.
Qed.

(** Whatever happens, [fetchAddress] leaves the clock alone, and the
    provenance files too unless it stores the one record it returns. *)
Lemma fetchAddress_world options chainName address acquired suffix w :
  now (snd (fetchAddress options chainName address acquired suffix w)) = now w /\
  (files (snd (fetchAddress options chainName address acquired suffix w)) = files w \/
   exists p, fetchAddress options chainName address acquired suffix w
             = (Ok (Persisted p), snd (fetchAddress options chainName address
                                         acquired suffix w))).
Proof.
  unfold Archive.fetchAddress.
  destruct (optDryRun options); [auto|].
  destruct (checkProvenance chainName address _ w) as [check|e]; [|auto].
  destruct (shouldSkip check); [auto|].
  destruct acquired as [errs|data|e]; [auto| |auto].
  destruct (validateData (explorerMetadata data) "metadata"); [|auto].
  pose proof (persistContract_files chainName address (contractDataOf data)
                (createProvenance (now w) suffix
                   (provenanceOptionsFor "explorer" check)) w) as [Hnow Hfiles].
  destruct (persistContract chainName address (contractDataOf data) _ w)
    as [[u|e] w1]; cbn [fst snd] in *; split; eauto.
Qed.

(** A fetch that does not record a success changes no provenance
    file. *)
Lemma fetchAddress_unrecorded options chainName address acquired suffix w :
  (forall p, fst (fetchAddress options chainName address acquired suffix w)
             <> Ok (Persisted p)) ->
  files (snd (fetchAddress options chainName address acquired suffix w)) = files w.
Proof.
  intros Hnot.
  destruct (fetchAddress_world options chainName address acquired suffix w)
    as [_ [H|[p Hp]]]; [exact H|].
  destruct (Hnot p). rewrite Hp. reflexivity.
Qed.

Lemma markOrphaned_world chainName address w :
  snd (markOrphaned chainName address w) = w \/
  exists dir d,
    getArchiveDir chainName address = Ok dir /\
    files w !! provenancePathOf dir = Some (Document d) /\
    snd (markOrphaned chainName address w) =
    {| now := now w;
       files := <[provenancePathOf dir := Document (markedAt (now w) d)]> (files w);
       artifacts := artifacts w |}.
Proof.
  unfold Archive.markOrphaned.
  destruct (getArchiveDir chainName address) as [dir|e]; [|auto].
  destruct (files w !! provenancePathOf dir) as [[d|e]|] eqn:Hf; auto.
  right. exists dir, d. auto.
Qed.

(** ** The invariant *)

Lemma exec_preserves op w :
  Invariant w -> Timely w -> Invariant (exec op w) /\ Timely (exec op w).
Proof.
  intros Hinv Htime. destruct op as [ms|options chainName address acquired suffix
                                       |chainName address]; cbn [Archive.exec].
  - split; [exact Hinv|].
    intros path d Hd. cbn [files now] in *. destruct (Htime path d Hd) as [H1 H2].
    split; intros t Ht; [specialize (H1 t Ht)|specialize (H2 t Ht)]; lia.
  - destruct (fetchAddress_world options chainName address acquired suffix w)
      as [Hnow [Hfiles|[p Hp]]].
    { split.
      - intros path p Hl. rewrite Hfiles in Hl. exact (Hinv _ _ Hl).
      - intros path d Hl. rewrite Hfiles in Hl. rewrite Hnow. exact (Htime _ _ Hl). }
    destruct (fetchAddress_Persisted _ _ _ _ _ _ _ _ Hp)
      as (dir & check & data & Hdir & Hcheck & _ & _ & _ & _ & _ & Hrec & Hw1).
    rewrite Hw1. clear Hw1 Hp Hnow.
    destruct (writeArtifacts_files dir (contractDataOf data) w) as [Hnow' Hfiles'].
    assert (firstSeenAt p <= now w /\ lastUpdatedAt p = now w)%Z as [Hfirst Hlast].
    { rewrite Hrec.
      apply checkProvenance_Ok in Hcheck
        as (dir' & Hdir' & [[Hnone ->]|(prior & Hprior & ->)]);
        cbn; [lia|].
      destruct (Htime _ _ Hprior) as [H1 _]. split; [|reflexivity].
      apply H1. reflexivity. }
    split.
    + intros path p0 Hl. cbn [writeProvenance files] in Hl. rewrite Hfiles' in Hl.
      destruct (decide (provenancePathOf dir = path)) as [<-|Hne];
        [rewrite lookup_insert_eq in Hl|rewrite lookup_insert_ne in Hl by exact Hne].
      * apply stored_Valid_inj in Hl as <-. lia.
      * exact (Hinv _ _ Hl).
    + intros path d Hl. cbn [writeProvenance files now] in *. rewrite Hfiles' in Hl.
      rewrite Hnow'.
      destruct (decide (provenancePathOf dir = path)) as [<-|Hne];
        [rewrite lookup_insert_eq in Hl|rewrite lookup_insert_ne in Hl by exact Hne].
      * symmetry in Hl. apply stored_Document_Valid in Hl as ->.
        cbn [draftOf draftFirstSeenAt draftLastUpdatedAt].
        split; intros t [= <-]; lia.
      * exact (Htime _ _ Hl).
  - destruct (markOrphaned_world chainName address w)
      as [->|(dir & d0 & Hdir & Hd0 & ->)]; [auto|].
    destruct (Htime _ _ Hd0) as [Hfirst0 _].
    split.
    + intros path p Hl. cbn [files] in Hl.
      destruct (decide (provenancePathOf dir = path)) as [<-|Hne];
        [rewrite lookup_insert_eq in Hl|rewrite lookup_insert_ne in Hl by exact Hne].
      * apply stored_Document_Valid in Hl.
        assert (draftFirstSeenAt d0 = Present (firstSeenAt p)) as Hf
          by (apply (f_equal draftFirstSeenAt) in Hl; exact Hl).
        assert (Present (now w) = Present (lastUpdatedAt p)) as Hu
          by (apply (f_equal draftLastUpdatedAt) in Hl; exact Hl).
        injection Hu as <-. apply Hfirst0, Hf.
      * exact (Hinv _ _ Hl).
    + intros path d Hl. cbn [files now] in *.
      destruct (decide (provenancePathOf dir = path)) as [<-|Hne];
        [rewrite lookup_insert_eq in Hl|rewrite lookup_insert_ne in Hl by exact Hne].
      * injection Hl as <-. cbn [markedAt draftFirstSeenAt draftLastUpdatedAt].
        split; [exact Hfirst0|]. intros t [= <-]. lia.
      * exact (Htime _ _ Hl).
Qed.

Lemma run_preserves ops :
  forall w, Invariant w -> Timely w -> Invariant (run ops w) /\ Timely (run ops w).
Proof.
  induction ops as [|op ops IH]; intros w Hinv Htime; simpl; [auto|].
  destruct (exec_preserves op w Hinv Htime) as [Hinv' Htime'].
  apply IH; assumption.
Qed.

Lemma emptyArchive_invariant t : Invariant (emptyArchive t) /\ Timely (emptyArchive t).
Proof. split; intros path p H; simpl in H; rewrite lookup_empty in H; discriminate. Qed.

(** C4.  Whenever the staleness check returns, [shouldSkip] is
    [exists && !isStale && !force].  For the record stored for the
    contract the check returns that record with [exists = true], and
    [isStale] holds iff the age of its [lastUpdatedAt], measured against
    the clock, exceeds the threshold, which is 24 hours unless
    configured.  The check returns for every address that converts and
    every record that is absent or valid; without a record the result is
    [exists = false], [isStale = true], [shouldSkip = false].  A
    contract recorded by a fetch at time T is skipped by a check one
    hour later without [force]; in general it is skipped for 24 hours
    and stale after that. *)
Theorem checkProvenance_staleness (chainName address : string)
    (options : CheckOptions) (w : World) :
  (forall r, checkProvenance chainName address options w = Ok r ->
     shouldSkip r = exists_ r && negb (isStale r) && negb (force options) /\
     (forall p, provenance r = Some p ->
        exists_ r = true /\
        (isStale r = true <->
         (Http.orZ (staleThreshold options) DAY_MS < now w - lastUpdatedAt p)%Z)) /\
     (provenance r = None -> exists_ r = false)) /\
  (staleThreshold options = None ->
     Http.orZ (staleThreshold options) DAY_MS = 86400000%Z) /\
  (forall dir p, getArchiveDir chainName address = Ok dir ->
     files w !! provenancePathOf dir = Some (Valid p) ->
     exists r, checkProvenance chainName address options w = Ok r /\
       exists_ r = true /\ provenance r = Some p /\
       (isStale r = true <->
        (Http.orZ (staleThreshold options) DAY_MS < now w - lastUpdatedAt p)%Z) /\
       (isStale r = false <->
        (now w - lastUpdatedAt p <= Http.orZ (staleThreshold options) DAY_MS)%Z) /\
       shouldSkip r = negb (isStale r) && negb (force options)) /\
  (forall dir, getArchiveDir chainName address = Ok dir ->
     (files w !! provenancePathOf dir = None \/
      exists p, files w !! provenancePathOf dir = Some (Valid p)) ->
     exists r, checkProvenance chainName address options w = Ok r /\
       (exists_ r = true <-> exists p, files w !! provenancePathOf dir = Some (Valid p))) /\
  (forall dir, getArchiveDir chainName address = Ok dir ->
     files w !! provenancePathOf dir = None ->
     checkProvenance chainName address options w =
     Ok {| exists_ := false; provenance := None; isStale := true;
           shouldSkip := false |}) /\
  (forall fetchOptions acquired suffix p w1,
     fetchAddress fetchOptions chainName address acquired suffix w
       = (Ok (Persisted p), w1) ->
     staleThreshold options = None -> force options = false ->
     (exists r,
        checkProvenance chainName address options (exec (Tick 3600000) w1) = Ok r /\
        exists_ r = true /\ isStale r = false /\ shouldSkip r = true) /\
     (forall ms : N,
        checkProvenance chainName address options (exec (Tick ms) w1) =
        Ok {| exists_ := true; provenance := Some p;
              isStale := (86400000 <? Z.of_N ms)%Z;
              shouldSkip := negb (86400000 <? Z.of_N ms)%Z |})).
Proof.
  split; [|split; [|split; [|split; [|split]]]].
  - intros r Hr.
    apply checkProvenance_Ok in Hr as (dir & Hdir & [[Hnone ->]|(p & Hp & ->)]); simpl.
    + split; [reflexivity|]. split; [discriminate|reflexivity].
    + split; [reflexivity|]. split; [|discriminate].
      intros p' [= <-]. split; [reflexivity|]. apply Z.ltb_lt.
  - intros ->. reflexivity.
  - intros dir p Hdir Hp. eexists. split; [apply (checkProvenance_stored _ _ _ _ _ _ Hdir Hp)|].
    cbn [exists_ provenance isStale shouldSkip].
    split; [reflexivity|]. split; [reflexivity|].
    split; [apply Z.ltb_lt|]. split; [apply Z.ltb_ge|reflexivity].
  - intros dir Hdir [Hnone|[p Hp]].
    + rewrite (checkProvenance_absent _ _ _ _ _ Hdir Hnone). eexists.
      split; [reflexivity|]. cbn [exists_]. split; [discriminate|].
      intros [p Hp]. congruence.
    + rewrite (checkProvenance_stored _ _ _ _ _ _ Hdir Hp). eexists.
      split; [reflexivity|]. cbn [exists_]. split; eauto.
  - intros dir Hdir Hnone. apply (checkProvenance_absent _ _ _ _ _ Hdir Hnone).
  - intros fetchOptions acquired suffix p w1 Hfetch Hthr Hforce.
    apply fetchAddress_Persisted in Hfetch
      as (dir & check & data & Hdir & _ & _ & _ & _ & _ & _ & Hp & ->).
    destruct (writeArtifacts_files dir (contractDataOf data) w) as [Hnow' Hfiles'].
    assert (lastUpdatedAt p = now w) as Hlast by (rewrite Hp; reflexivity).
    assert (forall ms : N,
              checkProvenance chainName address options
                (exec (Tick ms)
                   (writeProvenance dir p (writeArtifacts dir (contractDataOf data) w))) =
              Ok {| exists_ := true; provenance := Some p;
                    isStale := (86400000 <? Z.of_N ms)%Z;
                    shouldSkip := negb (86400000 <? Z.of_N ms)%Z |}) as Hlater.
    { intros ms.
      rewrite (checkProvenance_stored chainName address options _ dir p Hdir)
        by (cbn [Archive.exec writeProvenance files]; apply lookup_insert_eq).
      cbn [Archive.exec writeProvenance now]. rewrite Hnow', Hlast, Hthr, Hforce.
      cbn [Http.orZ negb]. rewrite andb_true_r.
      replace (now w + Z.of_N ms - now w)%Z with (Z.of_N ms) by lia. reflexivity. }
    split; [|exact Hlater].
    eexists. split; [apply Hlater|]. cbn. auto.
Qed.



End WithHash.

End ArchiveFacts.

(** * Properties of the checksum verifier *)

Module ChecksumFacts.

Import Checksum.

Section WithHash.

Variable hashFile : string -> string.

Local Abbreviation scanEntry := (scanEntry hashFile).
Local Abbreviation scanDirectory := (scanDirectory hashFile).
Local Abbreviation generateChecksums := (generateChecksums hashFile).
Local Abbreviation verifyChecksums := (verifyChecksums hashFile).
Local Abbreviation assignAll := (assignAll hashFile).

(** ** The scan as a sequence of assignments *)

Lemma scanEntry_Directory rel name entries checksums :
  scanEntry rel (Directory name entries) checksums =
  scanDirectory (joinRel rel name) entries checksums.
Proof.
  simpl. revert checksums. induction entries as [|e es IH]; intros checksums;
    simpl; [reflexivity|apply IH].
Qed.

Lemma filesOfEntry_Directory rel name entries :
  filesOfEntry rel (Directory name entries) = listFiles (joinRel rel name) entries.
Proof.
  simpl. induction entries as [|e es IH]; simpl; [reflexivity|]. rewrite IH. reflexivity.
Qed.

Lemma assignAll_app checksums l1 l2 :
  assignAll checksums (l1 ++ l2) = assignAll (assignAll checksums l1) l2.
Proof. apply foldl_app. Qed.

Lemma scanEntry_assign entry :
  forall rel checksums,
    scanEntry rel entry checksums = assignAll checksums (filesOfEntry rel entry).
Proof.
  induction entry as [name content|name entries IH|name] using Entry_tree_ind;
    intros rel checksums; [reflexivity| |reflexivity].
  rewrite scanEntry_Directory, filesOfEntry_Directory.
  generalize (joinRel rel name) as rel'. intros rel'. revert checksums.
  induction IH as [|e es He _ IHes]; intros checksums; simpl; [reflexivity|].
  rewrite assignAll_app, He. apply IHes.
Qed.

Lemma scanDirectory_assign entries :
  forall rel checksums,
    scanDirectory rel entries checksums = assignAll checksums (listFiles rel entries).
Proof.
  induction entries as [|e es IH]; intros rel checksums; simpl; [reflexivity|].
  rewrite assignAll_app, scanEntry_assign. apply IH.
Qed.

Lemma generateChecksums_assign directory :
  generateChecksums directory = assignAll ∅ (listFiles "" directory).
Proof. apply scanDirectory_assign. Qed.

(** An assignment is an insertion, but for the name [__proto__] on an
    object without a property of that name. *)
Lemma assign_cases key value (obj : gmap string string) :
  (key = "__proto__" /\ obj !! "__proto__" = None /\
   PlainObject.assign key value obj = obj) \/
  ((key <> "__proto__" \/ is_Some (obj !! "__proto__")) /\
   PlainObject.assign key value obj = <[key := value]> obj).
Proof.
  unfold PlainObject.assign.
  destruct (String.eqb_spec key "__proto__") as [->|Hne]; cbn [andb]; [|auto].
  destruct (obj !! "__proto__") as [v|] eqn:Hv.
  - rewrite bool_decide_eq_true_2 by eauto. cbn [negb]. right. eauto.
  - rewrite bool_decide_eq_false_2 by (intros [v Hv']; discriminate). auto.
Qed.

Lemma assign_ne key value (obj : gmap string string) :
  key <> "__proto__" -> PlainObject.assign key value obj = <[key := value]> obj.
Proof.
  intros Hne. destruct (assign_cases key value obj) as [[-> _]|[_ ->]];
    [contradiction|reflexivity].
Qed.

Lemma assign_proto value (obj : gmap string string) :
  obj !! "__proto__" = None -> PlainObject.assign "__proto__" value obj = obj.
Proof.
  intros Hnone. destruct (assign_cases "__proto__" value obj)
    as [(_ & _ & ->)|[[Hne|[v Hv]] _]]; [reflexivity|contradiction|congruence].
Qed.

Lemma assign_keeps_proto key value (obj : gmap string string) :
  obj !! "__proto__" = None ->
  PlainObject.assign key value obj !! "__proto__" = None.
Proof.
  intros Hnone. destruct (assign_cases key value obj) as [(_ & _ & ->)|[[Hne|[v Hv]] ->]];
    [exact Hnone|rewrite lookup_insert_ne by exact Hne; exact Hnone|congruence].
Qed.

Lemma assignAll_keeps_proto l :
  forall checksums,
    checksums !! "__proto__" = None -> assignAll checksums l !! "__proto__" = None.
Proof.
  induction l as [|[k0 c0] l IH]; intros checksums Hnone; cbn [Checksum.assignAll foldl];
    [exact Hnone|].
  apply IH, assign_keeps_proto, Hnone.
Qed.

(** No checksum is ever recorded under the name [__proto__]. *)
Lemma generateChecksums_proto directory :
  generateChecksums directory !! "__proto__" = None.
Proof.
  rewrite generateChecksums_assign. apply assignAll_keeps_proto, lookup_empty.
Qed.

Lemma assignAll_lookup l :
  forall checksums k v,
    assignAll checksums l !! k = Some v ->
    checksums !! k = Some v \/ exists c, v = hashFile c.
Proof.
  induction l as [|[k0 c0] l IH]; intros checksums k v; simpl; [auto|].
  intros H. apply IH in H as [H|H]; [|auto].
  destruct (assign_cases k0 (hashFile c0) checksums) as [(_ & _ & Heq)|[_ Heq]];
    rewrite Heq in H; [auto|].
  destruct (decide (k0 = k)) as [->|Hne].
  - rewrite lookup_insert_eq in H. injection H as <-. eauto.
  - rewrite lookup_insert_ne in H by exact Hne. auto.
Qed.

Lemma generateChecksums_hash directory k v :
  generateChecksums directory !! k = Some v -> exists c, v = hashFile c.
Proof.
  rewrite generateChecksums_assign. intros H.
  apply assignAll_lookup in H as [H|H]; [|exact H].
  rewrite lookup_empty in H. discriminate.
Qed.

Lemma assign_insert_ne k0 v0 k v (checksums : gmap string string) :
  k <> k0 ->
  PlainObject.assign k0 v0 (<[k := v]> checksums)
  = <[k := v]> (PlainObject.assign k0 v0 checksums).
Proof.
  intros Hne. unfold PlainObject.assign.
  rewrite lookup_insert_ne by exact Hne.
  destruct (String.eqb k0 "__proto__" && negb (bool_decide (is_Some (checksums !! k0))));
    [reflexivity|].
  apply insert_insert_ne. congruence.
Qed.

Lemma assignAll_insert_fresh l :
  forall checksums k v,
    k ∉ l.*1 ->
    assignAll (<[k := v]> checksums) l = <[k := v]> (assignAll checksums l).
Proof.
  induction l as [|[k0 c0] l IH]; intros checksums k v Hk; simpl; [reflexivity|].
  simpl in Hk. apply not_elem_of_cons in Hk as [Hne Hk].
  rewrite assign_insert_ne by exact Hne. apply IH, Hk.
Qed.

(** ** The two loops of [verifyChecksums] *)

Lemma read_own (obj : gmap string string) k v :
  obj !! k = Some v -> PlainObject.read obj k = PlainObject.Own v.
Proof. intros H. unfold PlainObject.read. rewrite H. reflexivity. Qed.

Lemma read_inherited (obj : gmap string string) k :
  obj !! k = None -> PlainObject.inherited k = true ->
  PlainObject.read obj k = PlainObject.Inherited k.
Proof. intros H Hk. unfold PlainObject.read. rewrite H, Hk. reflexivity. Qed.

Lemma read_undefined (obj : gmap string string) k :
  obj !! k = None -> PlainObject.inherited k = false ->
  PlainObject.read obj k = PlainObject.Undefined.
Proof. intros H Hk. unfold PlainObject.read. rewrite H, Hk. reflexivity. Qed.

Lemma truthy_own v : v <> "" -> PlainObject.truthyValue (PlainObject.Own v) = true.
Proof.
  intros Hv. cbn [PlainObject.truthyValue].
  destruct (String.eqb_spec v ""); [contradiction|reflexivity].
Qed.

Lemma differs_own v : PlainObject.differs (PlainObject.Own v) v = false.
Proof. cbn [PlainObject.differs]. rewrite String.eqb_refl. reflexivity. Qed.

Lemma checkMissing_present current l :
  forall results,
    (forall k, k ∈ l ->
       PlainObject.truthyValue (PlainObject.read current k) = true) ->
    foldl (checkMissing current) results l = results.
Proof.
  induction l as [|k l IH]; intros results Hl; simpl; [reflexivity|].
  unfold checkMissing at 2. rewrite (Hl k) by left. simpl.
  apply IH. intros k' Hk'. apply Hl. right. exact Hk'.
Qed.

Lemma checkCurrent_agrees expected results entry :
  agrees expected entry -> checkCurrent expected results entry = results.
Proof.
  destruct entry as [k v]. intros [Hk Hv]. simpl in Hk, Hv.
  unfold checkCurrent. rewrite (read_own _ _ _ Hk), (truthy_own _ Hv), differs_own.
  reflexivity.
Qed.

Lemma foldl_checkCurrent_agrees expected l :
  forall results,
    (forall entry, entry ∈ l -> agrees expected entry) ->
    foldl (checkCurrent expected) results l = results.
Proof.
  induction l as [|entry l IH]; intros results Hl; simpl; [reflexivity|].
  rewrite checkCurrent_agrees by (apply Hl; left).
  apply IH. intros e He. apply Hl. right. exact He.
Qed.

Lemma checkMissing_coherent current results k :
  Coherent results -> Coherent (checkMissing current results k).
Proof.
  unfold Coherent, checkMissing. intros H.
  destruct (negb (PlainObject.truthyValue (PlainObject.read current k)));
    [|exact H]. simpl.
  split; [discriminate|]. intros [Hm _]. destruct (missingFiles results); discriminate.
Qed.

Lemma checkCurrent_coherent expected results entry :
  Coherent results -> Coherent (checkCurrent expected results entry).
Proof.
  unfold Coherent, checkCurrent. intros H. destruct entry as [k v]. cbv zeta.
  destruct (negb (PlainObject.truthyValue (PlainObject.read expected k)));
    [exact H|].
  destruct (PlainObject.differs _ v); [|exact H]. simpl.
  split; [discriminate|]. intros [_ Hm]. destruct (mismatchedFiles results); discriminate.
Qed.

Lemma foldl_coherent {A} (f : Results -> A -> Results) l :
  (forall results x, Coherent results -> Coherent (f results x)) ->
  forall results, Coherent results -> Coherent (foldl f results l).
Proof.
  intros Hf. induction l as [|x l IH]; intros results H; simpl; auto.
Qed.

Lemma verifyChecksums_coherent directory expected :
  Coherent (verifyChecksums directory expected).
Proof.
  unfold Checksum.verifyChecksums.
  apply foldl_coherent; [intros; apply checkCurrent_coherent; assumption|].
  apply foldl_coherent; [intros; apply checkMissing_coherent; assumption|].
  unfold Coherent. simpl. tauto.
Qed.

(** ** One file changed *)

Lemma listFiles_app rel es1 es2 :
  listFiles rel (es1 ++ es2) = (listFiles rel es1 ++ listFiles rel es2)%list.
Proof.
  induction es1 as [|e es1 IH]; simpl; [reflexivity|].
  rewrite IH, app_assoc. reflexivity.
Qed.

Lemma Mutated_listFiles content content' rel directory directory' path :
  Mutated content content' rel directory directory' path ->
  exists l1 l2,
    listFiles rel directory = (l1 ++ (path, content) :: l2)%list /\
    listFiles rel directory' = (l1 ++ (path, content') :: l2)%list.
Proof.
  induction 1 as [rel before name after
                 |rel before name entries entries' after path _ (l1 & l2 & H1 & H2)].
  - exists (listFiles rel before), (listFiles rel after).
    rewrite !listFiles_app. simpl. auto.
  - exists (listFiles rel before ++ l1)%list, (l2 ++ listFiles rel after)%list.
    rewrite !listFiles_app.
    change (listFiles rel (Directory name ?es :: after))
      with (filesOfEntry rel (Directory name es) ++ listFiles rel after)%list.
    rewrite !filesOfEntry_Directory, H1, H2.
    rewrite <- !app_assoc. simpl. auto.
Qed.

(** With distinct paths, changing one file changes its checksum and no
    other. *)
Lemma generateChecksums_Mutated content content' directory directory' path :
  Mutated content content' "" directory directory' path ->
  NoDup (listFiles "" directory).*1 ->
  path <> "__proto__" ->
  exists others : gmap string string,
    generateChecksums directory = <[path := hashFile content]> others /\
    generateChecksums directory' = <[path := hashFile content']> others.
Proof.
  intros Hmut Hnd Hpath.
  destruct (Mutated_listFiles _ _ _ _ _ _ Hmut) as (l1 & l2 & H1 & H2).
  rewrite !generateChecksums_assign, H1, H2.
  rewrite H1, fmap_app in Hnd. apply NoDup_app in Hnd as (_ & _ & Hnd).
  simpl in Hnd. apply NoDup_cons in Hnd as [Hfresh _].
  exists (assignAll (assignAll ∅ l1) l2).
  rewrite !assignAll_app. simpl. rewrite !(assign_ne path) by exact Hpath.
  split; apply assignAll_insert_fresh, Hfresh.
Qed.

(** A change of a file named [__proto__] changes no checksum. *)
Lemma generateChecksums_Mutated_proto content content' directory directory' :
  Mutated content content' "" directory directory' "__proto__" ->
  generateChecksums directory' = generateChecksums directory.
Proof.
  intros Hmut.
  destruct (Mutated_listFiles _ _ _ _ _ _ Hmut) as (l1 & l2 & H1 & H2).
  rewrite !generateChecksums_assign, H1, H2, !assignAll_app. simpl.
  rewrite !assign_proto by (apply assignAll_keeps_proto, lookup_empty).
  reflexivity.
Qed.

Lemma foldl_checkCurrent_single expected l entry :
  NoDup l -> entry ∈ l ->
  (forall e, e ∈ l -> e <> entry -> agrees expected e) ->
  forall results,
    foldl (checkCurrent expected) results l = checkCurrent expected results entry.
Proof.
  intros Hnd Hin Hothers results.
  apply list_elem_of_split in Hin as (l1 & l2 & ->).
  apply NoDup_app in Hnd as (_ & Hdisj & Hnd2).
  apply NoDup_cons in Hnd2 as [Hfresh _].
  rewrite foldl_app. simpl.
  rewrite (foldl_checkCurrent_agrees expected l1).
  - apply foldl_checkCurrent_agrees. intros e He. apply Hothers.
    + rewrite elem_of_app, elem_of_cons. auto.
    + intros ->. contradiction.
  - intros e He. apply Hothers.
    + rewrite elem_of_app. auto.
    + intros ->. apply (Hdisj entry He). left.
Qed.

Section WithNonEmptyHashes.

(** A digest is never the empty string. *)
Hypothesis hashFile_nonempty : forall content, hashFile content <> "".

Lemma generateChecksums_truthy directory k v :
  generateChecksums directory !! k = Some v -> v <> "".
Proof.
  intros H. apply generateChecksums_hash in H as [c ->]. apply hashFile_nonempty.
Qed.

Lemma verifyChecksums_roundtrip directory :
  verifyChecksums directory (generateChecksums directory) = initialResults.
Proof.
  unfold Checksum.verifyChecksums.
  rewrite checkMissing_present.
  - apply foldl_checkCurrent_agrees. intros [k v] Hkv.
    apply elem_of_map_to_list in Hkv. split; [exact Hkv|].
    apply (generateChecksums_truthy _ _ _ Hkv).
  - intros k Hk. apply list_elem_of_fmap in Hk as ([k' v] & -> & Hkv).
    apply elem_of_map_to_list in Hkv. simpl. rewrite (read_own _ _ _ Hkv).
    apply truthy_own, (generateChecksums_truthy _ _ _ Hkv).
Qed.

Lemma verifyChecksums_Mutated content content' directory directory' path :
  Mutated content content' "" directory directory' path ->
  NoDup (listFiles "" directory).*1 ->
  path <> "__proto__" ->
  hashFile content' <> hashFile content ->
  verifyChecksums directory' (generateChecksums directory) =
  {| valid := false; missingFiles := []; extraFiles := [];
     mismatchedFiles := [{| file := path;
                            expected := PlainObject.Own (hashFile content);
                            actual := hashFile content' |}] |}.
Proof.
  intros Hmut Hnd Hpath Hdiff.
  destruct (generateChecksums_Mutated _ _ _ _ _ Hmut Hnd Hpath) as (others & Hold & Hnew).
  assert (forall k v, k <> path -> others !! k = Some v -> v <> "") as Hothers.
  { intros k v Hk Hv. apply (generateChecksums_truthy directory k).
    rewrite Hold, lookup_insert_ne by congruence. exact Hv. }
  unfold Checksum.verifyChecksums. rewrite Hnew, Hold.
  rewrite checkMissing_present.
  - rewrite (foldl_checkCurrent_single _ _ (path, hashFile content')).
    + unfold checkCurrent. cbv zeta.
      rewrite (read_own _ _ (hashFile content)) by apply lookup_insert_eq.
      rewrite (truthy_own _ (hashFile_nonempty content)).
      cbn [negb PlainObject.differs].
      destruct (String.eqb_spec (hashFile content) (hashFile content')) as [E|_];
        [destruct Hdiff; auto|]. reflexivity.
    + apply NoDup_map_to_list.
    + apply elem_of_map_to_list, lookup_insert_eq.
    + intros [k v] Hkv Hne. apply elem_of_map_to_list in Hkv.
      destruct (decide (path = k)) as [<-|Hk].
      * rewrite lookup_insert_eq in Hkv. congruence.
      * rewrite lookup_insert_ne in Hkv by exact Hk. split; simpl.
        -- rewrite lookup_insert_ne by exact Hk. exact Hkv.
        -- apply (Hothers k v); [congruence|exact Hkv].
  - intros k Hk. apply list_elem_of_fmap in Hk as ([k' v] & -> & Hkv).
    apply elem_of_map_to_list in Hkv. simpl.
    destruct (decide (path = k')) as [<-|Hk].
    + rewrite (read_own _ _ (hashFile content')) by apply lookup_insert_eq.
      apply truthy_own, hashFile_nonempty.
    + rewrite lookup_insert_ne in Hkv by exact Hk.
      rewrite (read_own _ _ v) by (rewrite lookup_insert_ne by exact Hk; exact Hkv).
      apply truthy_own, (Hothers k' v); [congruence|exact Hkv].
Qed.

(** The change of a file named [__proto__] goes unnoticed. *)
Lemma verifyChecksums_Mutated_proto content content' directory directory' :
  Mutated content content' "" directory directory' "__proto__" ->
  verifyChecksums directory' (generateChecksums directory) = initialResults.
Proof.
  intros Hmut. unfold Checksum.verifyChecksums.
  rewrite (generateChecksums_Mutated_proto _ _ _ _ Hmut).
  apply verifyChecksums_roundtrip.
Qed.

Lemma foldl_step {A B} (f : A -> B -> A) a x l :
  foldl f a (x :: l) = foldl f (f a x) l.
Proof. reflexivity. Qed.

(** A directory that holds every expected file with the expected hash
    is valid, whatever else it holds that is not named as a member of
    [Object.prototype] is; the other files are the extra ones. *)
Lemma foldl_checkCurrent_extra expected l :
  (forall k v, (k, v) ∈ l -> v <> "" /\
     ((expected !! k = None /\ PlainObject.inherited k = false)
      \/ expected !! k = Some v)) ->
  forall results,
    let r := foldl (checkCurrent expected) results l in
    valid r = valid results /\ missingFiles r = missingFiles results /\
    mismatchedFiles r = mismatchedFiles results /\
    (forall k, k ∈ extraFiles r <->
       k ∈ extraFiles results \/ (k ∈ l.*1 /\ expected !! k = None)).
Proof.
  induction l as [|[k0 v0] l IH]; intros Hl results; cbv zeta.
  - simpl. repeat (split; [reflexivity|]). intros k. split; [auto|].
    intros [H|[H _]]; [exact H|]. apply elem_of_nil in H. destruct H.
  - rewrite foldl_step. destruct (Hl k0 v0) as [Hv [[Hnone Hown]|Hsome]]; [left|..].
    + assert (checkCurrent expected results (k0, v0) =
              {| valid := valid results; missingFiles := missingFiles results;
                 extraFiles := extraFiles results ++ [k0];
                 mismatchedFiles := mismatchedFiles results |}) as ->
        by (unfold checkCurrent; cbv zeta;
            rewrite (read_undefined _ _ Hnone Hown); reflexivity).
      destruct (IH (fun k v H => Hl k v (list_elem_of_further _ _ _ H))
                  {| valid := valid results; missingFiles := missingFiles results;
                     extraFiles := extraFiles results ++ [k0];
                     mismatchedFiles := mismatchedFiles results |})
        as (Hval & Hmiss & Hmism & Hextra).
      cbv zeta in Hextra.
      cbn [valid missingFiles mismatchedFiles extraFiles] in *.
      repeat (split; [assumption|]). intros k. rewrite Hextra.
      rewrite fmap_cons, elem_of_app, list_elem_of_singleton, elem_of_cons.
      cbn [fst].
      split.
      * intros [[H| ->]|[H1 H2]]; auto.
      * intros [H|[[->|H1] H2]]; auto.
    + rewrite checkCurrent_agrees by (split; assumption).
      destruct (IH (fun k v H => Hl k v (list_elem_of_further _ _ _ H)) results)
        as (Hval & Hmiss & Hmism & Hextra).
      cbv zeta in Hextra.
      repeat (split; [assumption|]). intros k. rewrite Hextra.
      rewrite fmap_cons, elem_of_cons. cbn [fst]. split.
      * intros [H|[H1 H2]]; auto.
      * intros [H|[[->|H1] H2]]; auto. congruence.
Qed.

End WithNonEmptyHashes.

(** ** What the second loop never takes back *)

Lemma checkCurrent_grows expected results entry :
  (valid (checkCurrent expected results entry) = true -> valid results = true) /\
  (forall m, m ∈ mismatchedFiles results ->
     m ∈ mismatchedFiles (checkCurrent expected results entry)) /\
  (forall k, k ∈ extraFiles (checkCurrent expected results entry) ->
     k ∈ extraFiles results \/ (k = entry.1 /\
       PlainObject.truthyValue (PlainObject.read expected k) = false)).
Proof.
  destruct entry as [k v]. unfold checkCurrent. cbv zeta.
  destruct (PlainObject.truthyValue (PlainObject.read expected k)) eqn:Ht;
    cbn [negb].
  - destruct (PlainObject.differs _ v);
      cbn [valid mismatchedFiles extraFiles]; split; try discriminate; auto.
    split; [|auto]. intros m Hm. apply elem_of_app. auto.
  - cbn [valid mismatchedFiles extraFiles fst]. split; [auto|]. split; [auto|].
    intros k' Hk'. apply elem_of_app in Hk' as [H|H]; [auto|].
    apply list_elem_of_singleton in H as ->. auto.
Qed.

Lemma foldl_checkCurrent_grows expected l :
  forall results,
    (valid (foldl (checkCurrent expected) results l) = true -> valid results = true) /\
    (forall m, m ∈ mismatchedFiles results ->
       m ∈ mismatchedFiles (foldl (checkCurrent expected) results l)) /\
    (forall k, k ∈ extraFiles (foldl (checkCurrent expected) results l) ->
       k ∈ extraFiles results \/
       PlainObject.truthyValue (PlainObject.read expected k) = false).
Proof.
  induction l as [|entry l IH]; intros results; cbn [foldl]; [auto|].
  destruct (IH (checkCurrent expected results entry)) as (Hv & Hm & Hx).
  destruct (checkCurrent_grows expected results entry) as (Hv' & Hm' & Hx').
  split; [auto|]. split; [auto|].
  intros k Hk. apply Hx in Hk as [Hk|Hk]; [|auto].
  apply Hx' in Hk as [Hk|[_ Hk]]; auto.
Qed.

Lemma foldl_checkMissing_extra current l :
  forall results,
    extraFiles (foldl (checkMissing current) results l) = extraFiles results /\
    mismatchedFiles (foldl (checkMissing current) results l) = mismatchedFiles results.
Proof.
  induction l as [|k l IH]; intros results; cbn [foldl]; [auto|].
  destruct (IH (checkMissing current results k)) as [-> ->].
  unfold checkMissing. destruct (negb _); auto.
Qed.

(** A file of the directory that the manifest does not list, under a
    name that every object inherits, is held against the directory: it
    is compared with the inherited member and reported as a mismatch. *)
Lemma verifyChecksums_inherited directory expected name hash :
  generateChecksums directory !! name = Some hash ->
  expected !! name = None ->
  PlainObject.inherited name = true ->
  let r := verifyChecksums directory expected in
  valid r = false /\
  {| file := name; expected := PlainObject.Inherited name; actual := hash |}
    ∈ mismatchedFiles r /\
  name ∉ extraFiles r.
Proof.
  intros Hcur Hexp Hinh. cbv zeta. unfold Checksum.verifyChecksums.
  set (r0 := foldl (checkMissing (generateChecksums directory)) initialResults _).
  assert ((name, hash) ∈ map_to_list (generateChecksums directory)) as Hin
    by (apply elem_of_map_to_list, Hcur).
  apply list_elem_of_split in Hin as (l1 & l2 & ->).
  rewrite foldl_app. cbn [foldl].
  set (r1 := foldl (checkCurrent expected) r0 l1).
  assert (checkCurrent expected r1 (name, hash) =
          {| valid := false; missingFiles := missingFiles r1;
             extraFiles := extraFiles r1;
             mismatchedFiles :=
               mismatchedFiles r1 ++
                 [{| file := name; expected := PlainObject.Inherited name;
                     actual := hash |}] |}) as ->
    by (unfold checkCurrent; cbv zeta;
        rewrite (read_inherited _ _ Hexp Hinh); reflexivity).
  match goal with |- context [foldl _ ?r l2] => set (r2 := r) end.
  destruct (foldl_checkCurrent_grows expected l2 r2) as (Hv & Hm & Hx).
  split; [|split].
  - destruct (valid (foldl (checkCurrent expected) r2 l2)); [|reflexivity].
    specialize (Hv eq_refl). discriminate Hv.
  - apply Hm. unfold r2. cbn [mismatchedFiles]. apply elem_of_app. right. left.
  - intros Hk.
    assert (PlainObject.truthyValue (PlainObject.read expected name) = true) as Ht
      by (rewrite (read_inherited _ _ Hexp Hinh); reflexivity).
    apply Hx in Hk as [Hk|Hk]; [|congruence].
    unfold r2 in Hk. cbn [extraFiles] in Hk.
    destruct (foldl_checkCurrent_grows expected l1 r0) as (_ & _ & Hx1).
    apply Hx1 in Hk as [Hk|Hk]; [|congruence].
    unfold r0 in Hk.
    rewrite (proj1 (foldl_checkMissing_extra _ _ _)) in Hk.
    apply elem_of_nil in Hk as [].
Qed.

(** A file that the manifest lists under such a name is not missed when
    it is gone. *)
Lemma checkMissing_inherited current results name :
  current !! name = None -> PlainObject.inherited name = true ->
  checkMissing current results name = results.
Proof.
  intros Hnone Hinh. unfold checkMissing.
  rewrite (read_inherited _ _ Hnone Hinh). reflexivity.
Qed.

(** C6.  What holds of the claim: verifying a directory against its own
    checksums reports nothing missing, nothing mismatched and a valid
    result; after the content of exactly one file has changed, the
    verification against the checksums taken before reports exactly that
    file as mismatched, with the expected and the actual hash, unless
    the file is named [__proto__]; the result is valid iff
    [missingFiles] and [mismatchedFiles] are both empty; and a directory
    that holds every expected file unchanged is valid whatever other
    files it holds, unless one of them is named as a member of
    [Object.prototype] is.  What fails: no checksum is recorded for a
    file named [__proto__], so that a change of it goes unnoticed; and a
    file that the manifest does not list, named [constructor],
    [toString] or the like, is not an extra file but a mismatch against
    the inherited member, which makes the result invalid. *)
Theorem verifyChecksums_correct (directory : list Entry) :
  ((forall content, hashFile content <> "") ->
   let r := verifyChecksums directory (generateChecksums directory) in
   valid r = true /\ missingFiles r = [] /\ mismatchedFiles r = [] /\
   extraFiles r = []) /\
  ((forall content, hashFile content <> "") ->
   forall content content' directory' path,
     Mutated content content' "" directory directory' path ->
     NoDup (listFiles "" directory).*1 ->
     hashFile content' <> hashFile content ->
     let r := verifyChecksums directory' (generateChecksums directory) in
     (path <> "__proto__" ->
      mismatchedFiles r = [{| file := path;
                              expected := PlainObject.Own (hashFile content);
                              actual := hashFile content' |}] /\
      missingFiles r = [] /\ valid r = false) /\
     (path = "__proto__" ->
      mismatchedFiles r = [] /\ missingFiles r = [] /\ valid r = true)) /\
  (forall expected,
     let r := verifyChecksums directory expected in
     valid r = true <-> missingFiles r = [] /\ mismatchedFiles r = []) /\
  ((forall content, hashFile content <> "") ->
   forall expected,
     (forall k v, expected !! k = Some v ->
        generateChecksums directory !! k = Some v) ->
     let r := verifyChecksums directory expected in
     ((forall k, is_Some (generateChecksums directory !! k) -> expected !! k = None ->
         PlainObject.inherited k = false) ->
      valid r = true /\ missingFiles r = [] /\ mismatchedFiles r = [] /\
      (forall k, k ∈ extraFiles r <->
         is_Some (generateChecksums directory !! k) /\ expected !! k = None)) /\
     (forall name hash,
        generateChecksums directory !! name = Some hash ->
        expected !! name = None ->
        PlainObject.inherited name = true ->
        valid r = false /\
        {| file := name; expected := PlainObject.Inherited name; actual := hash |}
          ∈ mismatchedFiles r /\
        name ∉ extraFiles r)).
Proof.
  split; [|split; [|split]].
  - intros Hne. cbv zeta. rewrite (verifyChecksums_roundtrip Hne). auto.
  - intros Hne content content' directory' path Hmut Hnd Hdiff. cbv zeta. split.
    + intros Hpath.
      rewrite (verifyChecksums_Mutated Hne _ _ _ _ _ Hmut Hnd Hpath Hdiff). auto.
    + intros ->. rewrite (verifyChecksums_Mutated_proto Hne _ _ _ _ Hmut). auto.
  - intros expected. apply verifyChecksums_coherent.
  - intros Hne expected Hheld. cbv zeta. split.
    + intros Hnames. unfold Checksum.verifyChecksums.
      rewrite checkMissing_present.
      * destruct (foldl_checkCurrent_extra expected
                    (map_to_list (generateChecksums directory))) with
          (results := initialResults) as (Hval & Hmiss & Hmism & Hextra).
        { intros k v Hkv. apply elem_of_map_to_list in Hkv.
          split; [apply (generateChecksums_truthy Hne _ _ _ Hkv)|].
          destruct (expected !! k) as [v'|] eqn:Hexp.
          - right. apply Hheld in Hexp. congruence.
          - left. split; [reflexivity|]. apply Hnames; eauto. }
        cbv zeta in Hextra. repeat (split; [assumption|]).
        intros k. rewrite Hextra. simpl. split.
        -- intros [H|[H1 H2]]; [apply elem_of_nil in H; destruct H|].
           split; [|exact H2].
           apply list_elem_of_fmap in H1 as ([k' v] & -> & Hkv).
           apply elem_of_map_to_list in Hkv. eauto.
        -- intros [[v Hv] Hnone]. right. split; [|exact Hnone].
           apply list_elem_of_fmap. exists (k, v). split; [reflexivity|].
           apply elem_of_map_to_list, Hv.
      * intros k Hk. apply list_elem_of_fmap in Hk as ([k' v] & -> & Hkv).
        apply elem_of_map_to_list in Hkv. simpl.
        rewrite (read_own _ _ _ (Hheld _ _ Hkv)).
        apply truthy_own.
        apply (generateChecksums_truthy Hne directory k' v), Hheld, Hkv.
    + intros name hash Hcur Hexp Hinh.
      apply (verifyChecksums_inherited directory expected name hash Hcur Hexp Hinh).
Qed.

End WithHash.

End ChecksumFacts.

(** * The properties at concrete inputs *)

Module Examples.

Import Scenario.

(** ** Addresses *)

(** C10.  [toChecksumAddress] removes the first [0x] wherever it stands:
    a string with forty hexadecimal digits around an embedded [0x] is
    not a valid address, and yet it is converted, to the same result as
    the address without the [0x], instead of being rejected. *)
Theorem toChecksumAddress_embedded_prefix (keccak256_hex : string -> string) :
  Address.validAddressSyntax embeddedPrefix = false /\
  Address.test40hex (JS.replace "0x" "" (toLowerCase embeddedPrefix)) = true /\
  Address.toChecksumAddress keccak256_hex (Address.VString embeddedPrefix) =
  Address.toChecksumAddress keccak256_hex
    (Address.VString "c02aaa39b223fe8d0a0e5c4f27ead9083c756cc2") /\
  isOk (Address.toChecksumAddress keccak256_hex (Address.VString embeddedPrefix)) = true.
Proof. repeat split; reflexivity. Qed.

(** ** The HTTP client *)

Lemma backoff_delay_witness :
  Http.slept (snd (Http.request urlKey alwaysFailing noJitter Http.defaultClient
                     "GET" metadataUrl Http.noRequestOptions freshWorld))
    !! 2%nat
  = Some (Http.retryDelayFor Http.defaultClient 2 serverError 0) /\
  (exists jitter, (0 <= jitter)%Q /\ (jitter <= 1 # 10)%Q /\
     (Http.calculateRetryDelay Http.defaultClient 2 (1 # 2) ==
      Qmin (Http.retryDelay Http.defaultClient * inject_Z (2 ^ Z.of_nat 2) * (1 + jitter))
           (Http.maxRetryDelay Http.defaultClient))%Q) /\
  (Http.calculateRetryDelay Http.defaultClient 1 0 <=
   Http.calculateRetryDelay Http.defaultClient 2 0)%Q /\
  Http.retryDelayFor Http.defaultClient 1
    {| message := "Request failed with status code 429";
       response := Some tooManyRequests |} 0
  = Some (Qmin (inject_Z 2 * 1000) (Http.maxRetryDelay Http.defaultClient)).
Proof.
  destruct (HttpFacts.backoff_delay urlKey alwaysFailing noJitter Http.defaultClient)
    as (Hslept & _ & Hformula & Hmono & _ & H429).
  split; [|split; [|split]].
  - destruct (Hslept "GET" metadataUrl Http.noRequestOptions freshWorld 2%nat)
      as (error & j & Hans & Hlook).
    + repeat constructor.
    + intros i Hi. exists serverError. split; reflexivity.
    + injection Hans as <-. exact Hlook.
  - apply Hformula; [discriminate | reflexivity].
  - apply Hmono. discriminate.
  - apply (H429 1%nat _ tooManyRequests 0%Q "2" 2%Z);
      [reflexivity | reflexivity | discriminate | reflexivity].
Defined.

(** The default client sends a fourth request to a server that keeps
    answering 500. *)
Lemma default_client_fourth_attempt :
  ~ (length (Http.sent (snd (Http.request urlKey alwaysFailing noJitter
                               Http.defaultClient "GET" metadataUrl
                               Http.noRequestOptions freshWorld))) <= 3)%nat.
Proof. vm_compute. lia. Qed.

Lemma request_retry_policy_witness :
  fst (Http.request urlKey alwaysFailing noJitter Http.defaultClient "GET"
         metadataUrl Http.noRequestOptions freshWorld) = Throw serverError /\
  length (Http.sent (snd (Http.request urlKey alwaysFailing noJitter
                            Http.defaultClient "GET" metadataUrl
                            Http.noRequestOptions freshWorld))) = 4%nat.
Proof.
  pose proof (HttpFacts.request_retry_policy urlKey alwaysFailing noJitter
                Http.defaultClient "GET" metadataUrl Http.noRequestOptions
                freshWorld) as H.
  cbv zeta in H. destruct H as (_ & _ & _ & H & _).
  destruct (H 3%nat serverError) as (_ & _ & Hlast).
  - apply Nat.le_refl.
  - intros i Hi. exists serverError. split; reflexivity.
  - reflexivity.
  - apply Hlast. reflexivity.
Defined.

Lemma conditional_get_throws_witness :
  fst (Http.get urlKey etagServer noJitter Http.defaultClient metadataUrl
         Http.noRequestOptions freshWorld) = Ok "{}" /\
  fst (Http.get urlKey etagServer noJitter Http.defaultClient metadataUrl
         Http.noRequestOptions
         (Http.elapse 3600000
            (snd (Http.get urlKey etagServer noJitter Http.defaultClient
                    metadataUrl Http.noRequestOptions freshWorld))))
  = Throw notModifiedError /\
  Http.sent (snd (Http.get urlKey etagServer noJitter Http.defaultClient metadataUrl
         Http.noRequestOptions
         (Http.elapse 3600000
            (snd (Http.get urlKey etagServer noJitter Http.defaultClient
                    metadataUrl Http.noRequestOptions freshWorld)))))
  = [{| Http.reqMethod := "GET"; Http.reqUrl := metadataUrl;
        Http.reqIfNoneMatch := None; Http.reqBody := None |};
     {| Http.reqMethod := "GET"; Http.reqUrl := metadataUrl;
        Http.reqIfNoneMatch := Some "v1"; Http.reqBody := None |}] /\
  exists cached,
    Http.loadFromCache urlKey metadataUrl
      (snd (Http.get urlKey etagServer noJitter Http.defaultClient metadataUrl
              Http.noRequestOptions
              (Http.elapse 3600000
                 (snd (Http.get urlKey etagServer noJitter Http.defaultClient
                         metadataUrl Http.noRequestOptions freshWorld)))))
    = Some cached /\
    Http.entryData cached = "{}".
Proof.
  pose proof (HttpFacts.conditional_get_throws urlKey etagServer noJitter
                Http.defaultClient metadataUrl Http.noRequestOptions freshWorld
                okWithEtag notModified notModifiedError "v1" 3600000) as H.
  cbv zeta in H.
  destruct H as (Hfirst & Hsecond & Hsent & Hcache);
    [reflexivity | reflexivity | reflexivity | reflexivity | reflexivity
    | discriminate | reflexivity | reflexivity | reflexivity
    | vm_compute; discriminate |].
  split; [exact Hfirst|]. split; [exact Hsecond|]. split; [exact Hsent|exact Hcache].
Defined.

(** ** The Sourcify client *)


Lemma fetchAllSources_partial_witness :
  (exists sources w1 closures,
     Sourcify.fetchAllSources lowHash noEncoding protoManifest (list string)
       (loggingGet anySource) mirrors inTurn 1 weth "{}" Sourcify.full []
     = (Ok sources, w1) /\
     Sourcify.settleAll lowHash noEncoding (list string) (loggingGet anySource)
       mirrors inTurn 1 weth Sourcify.full ["A.sol"; "__proto__"] []
     = (closures, sources, w1) /\
     closures = [Sourcify.Fulfilled "A.sol" "contract {}";
                 Sourcify.Fulfilled "__proto__" "contract {}"] /\
     sources !! "A.sol" = Some "contract {}" /\
     sources !! "__proto__" = None) /\
  (exists sources w1,
     Sourcify.fetchAllSources lowHash noEncoding twoSources (list string)
       (loggingGet onlyA) mirrors inTurn 1 weth "{}" Sourcify.full []
     = (Ok sources, w1) /\
     sources !! "A.sol" = Some "contract A {}" /\
     sources !! "B.sol" = None).
Proof.
  assert (forall a b : string, a <> b -> NoDup [a; b]) as Hnd.
  { intros a b Hab. apply NoDup_cons. split; [|apply NoDup_singleton].
    intros H. apply list_elem_of_singleton in H. contradiction. }
  split.
  - destruct (SourcifyFacts.fetchAllSources_partial lowHash noEncoding protoManifest
                (list string) (loggingGet anySource) mirrors inTurn 1 weth "{}"
                Sourcify.full [] eq_refl)
      as (sources & w1 & Heq & _ & Hfiles).
    destruct (Hfiles ["A.sol"; "__proto__"] eq_refl
                (Hnd "A.sol" "__proto__" ltac:(discriminate)))
      as (closures & Hrun & _ & _ & Hsrc & Hproto & _).
    exists sources, w1, closures. split; [exact Heq|]. split; [exact Hrun|].
    assert (closures = [Sourcify.Fulfilled "A.sol" "contract {}";
                        Sourcify.Fulfilled "__proto__" "contract {}"]) as Hclosures
      by (vm_compute in Hrun; injection Hrun as Hc _ _; rewrite <- Hc; reflexivity).
    split; [exact Hclosures|]. split.
    + apply Hsrc. split; [discriminate|]. rewrite Hclosures. left.
    + apply (Hproto "contract {}"). rewrite Hclosures. right. left.
  - destruct (SourcifyFacts.fetchAllSources_partial lowHash noEncoding twoSources
                (list string) (loggingGet onlyA) mirrors inTurn 1 weth "{}"
                Sourcify.full [] eq_refl)
      as (sources & w1 & Heq & _ & Hfiles).
    destruct (Hfiles ["A.sol"; "B.sol"] eq_refl
                (Hnd "A.sol" "B.sol" ltac:(discriminate)))
      as (closures & Hrun & _ & _ & Hsrc & _ & _ & Hnone & _).
    exists sources, w1. split; [exact Heq|].
    assert (closures = [Sourcify.Fulfilled "A.sol" "contract A {}";
                        Sourcify.Rejected "B.sol"
                          (Sourcify.sourceFileError 1 weth "B.sol" (Some notFound))])
      as Hclosures
      by (vm_compute in Hrun; injection Hrun as Hc _ _; rewrite <- Hc; reflexivity).
    split.
    + apply Hsrc. split; [discriminate|]. rewrite Hclosures. left.
    + apply Hnone.
      * right. left.
      * intros baseUrl w' Hb. apply elem_of_cons in Hb as [->|Hb]; [reflexivity|].
        apply list_elem_of_singleton in Hb as ->. reflexivity.
Defined.

(** ** The provenance tracker *)

Lemma checkProvenance_staleness_witness :
  (exists r,
     Archive.checkProvenance lowHash missingProperty "ethereum" weth
       {| Archive.staleThreshold := None; Archive.force := false |} twoDaysLater
     = Ok r /\
     Archive.provenance r = Some viaExplorer /\
     Archive.isStale r = true /\ Archive.shouldSkip r = false) /\
  (exists r,
     Archive.checkProvenance lowHash missingProperty "ethereum" weth
       {| Archive.staleThreshold := None; Archive.force := false |}
       (Archive.exec lowHash missingProperty (Archive.Tick 3600000)
          (snd (Archive.fetchAddress lowHash missingProperty plainFetch "ethereum"
                  weth (Archive.FromExplorer wethFromExplorer) "p0o9i8u7y"
                  twoDaysLater))) = Ok r /\
     Archive.exists_ r = true /\ Archive.isStale r = false /\
     Archive.shouldSkip r = true).
Proof.
  destruct (ArchiveFacts.checkProvenance_staleness lowHash missingProperty "ethereum"
              weth {| Archive.staleThreshold := None; Archive.force := false |}
              twoDaysLater) as (_ & _ & Hstored & _ & _ & Hlater).
  split.
  - destruct (Hstored wethDir viaExplorer eq_refl eq_refl)
      as (r & Hr & _ & Hprov & Hstale & _ & Hskip).
    exists r. split; [exact Hr|]. split; [exact Hprov|].
    assert (Archive.isStale r = true) as His by (apply Hstale; reflexivity).
    split; [exact His|]. rewrite Hskip, His. reflexivity.
  - apply (Hlater plainFetch (Archive.FromExplorer wethFromExplorer) "p0o9i8u7y"
             refetched
             (snd (Archive.fetchAddress lowHash missingProperty plainFetch "ethereum"
                     weth (Archive.FromExplorer wethFromExplorer) "p0o9i8u7y"
                     twoDaysLater)));
      reflexivity.
Defined.



Lemma twoDaysLater_invariant :
  Archive.Invariant twoDaysLater /\ Archive.Timely twoDaysLater.
Proof.
  split.
  - intros path p H.
    change (({[wethProvenancePath := Archive.Valid viaExplorer]}
               : gmap string Archive.Stored) !! path = Some (Archive.Valid p)) in H.
    apply lookup_singleton_Some in H as [_ H].
    apply ArchiveFacts.Valid_inj in H as <-. simpl. lia.
  - intros path d H.
    change (({[wethProvenancePath := Archive.Valid viaExplorer]}
               : gmap string Archive.Stored) !! path = Some (Archive.Document d)) in H.
    apply lookup_singleton_Some in H as [_ [= <-]].
    split; intros t [= <-]; cbn; lia.
Defined.


(** [markOrphaned] validates nothing: a JSON object that is not a record
    for want of a [lastUpdatedAt] becomes one by the mark, and when its
    [firstSeenAt] lies ahead of the clock the record it becomes has
    [firstSeenAt] after [lastUpdatedAt]. *)
Lemma markOrphaned_completes_a_document :
  Archive.validated postDated = None /\
  ~ Archive.Timely withPostDated /\
  exists p,
    Archive.files (snd (Archive.markOrphaned lowHash "ethereum" weth withPostDated))
      !! wethProvenancePath = Some (Archive.Valid p) /\
    Archive.orphaned p = Some true /\
    (Archive.lastUpdatedAt p < Archive.firstSeenAt p)%Z.
Proof.
  split; [reflexivity|]. split.
  - intros H. destruct (H wethProvenancePath postDated eq_refl) as [Hfirst _].
    specialize (Hfirst _ eq_refl). revert Hfirst. cbn. lia.
  - eexists {| Archive.firstSeenAt := 1700259200000;
               Archive.lastUpdatedAt := 1700172800000;
               Archive.tools := {| Archive.toolName := "sourcify-grabber";
                                   Archive.toolVersion := "2.0.0" |};
               Archive.sourcesUsed := ["explorer"];
               Archive.fetchRunId := None; Archive.commitHash := None;
               Archive.operator := None; Archive.orphaned := Some true |}.
    split; [reflexivity|]. split; [reflexivity|]. cbn. lia.
Qed.

(** ** The checksum verifier *)

Lemma tagHash_nonempty content : tagHash content <> "".
Proof. discriminate. Qed.

Lemma verifyChecksums_correct_witness :
  Checksum.valid
    (Checksum.verifyChecksums tagHash contractDir
       (Checksum.generateChecksums tagHash contractDir)) = true /\
  Checksum.mismatchedFiles
    (Checksum.verifyChecksums tagHash tamperedDir
       (Checksum.generateChecksums tagHash contractDir))
  = [{| Checksum.file := "source/Token.sol";
        Checksum.expected := PlainObject.Own "sha256:contract Token {}";
        Checksum.actual := "sha256:contract Token { }" |}] /\
  (Checksum.valid
     (Checksum.verifyChecksums tagHash withConstructor
        (Checksum.generateChecksums tagHash contractDir)) = false /\
   {| Checksum.file := "constructor";
      Checksum.expected := PlainObject.Inherited "constructor";
      Checksum.actual := "sha256:notes" |}
     ∈ Checksum.mismatchedFiles
         (Checksum.verifyChecksums tagHash withConstructor
            (Checksum.generateChecksums tagHash contractDir)) /\
   "constructor" ∉ Checksum.extraFiles
         (Checksum.verifyChecksums tagHash withConstructor
            (Checksum.generateChecksums tagHash contractDir))) /\
  Checksum.valid
    (Checksum.verifyChecksums tagHash withProtoEdited
       (Checksum.generateChecksums tagHash withProto)) = true.
Proof.
  split; [|split; [|split]].
  - destruct (ChecksumFacts.verifyChecksums_correct tagHash contractDir)
      as (Hsame & _).
    apply Hsame, tagHash_nonempty.
  - destruct (ChecksumFacts.verifyChecksums_correct tagHash contractDir)
      as (_ & Hchanged & _).
    apply (Hchanged tagHash_nonempty "contract Token {}" "contract Token { }"
             tamperedDir "source/Token.sol").
    + apply (Checksum.MutatedBelow _ _ "" [Checksum.File "abi.json" "[]"] "source"
               [Checksum.File "Token.sol" "contract Token {}"]
               [Checksum.File "Token.sol" "contract Token { }"]
               [Checksum.File "metadata.json" "{}"]).
      apply (Checksum.MutatedHere _ _ "source" [] "Token.sol" []).
    + apply (bool_decide_unpack _). vm_compute. exact I.
    + discriminate.
    + discriminate.
  - destruct (ChecksumFacts.verifyChecksums_correct tagHash withConstructor)
      as (_ & _ & _ & Hextra).
    apply (Hextra tagHash_nonempty (Checksum.generateChecksums tagHash contractDir)).
    + intros k v Hk.
      change (Checksum.generateChecksums tagHash withConstructor)
        with (<["constructor" := "sha256:notes"]>
                (Checksum.generateChecksums tagHash contractDir)).
      rewrite lookup_insert_ne; [exact Hk|].
      intros <-. vm_compute in Hk. discriminate Hk.
    + reflexivity.
    + reflexivity.
    + reflexivity.
  - destruct (ChecksumFacts.verifyChecksums_correct tagHash withProto)
      as (_ & Hchanged & _).
    apply (Hchanged tagHash_nonempty "one" "two" withProtoEdited "__proto__").
    + apply (Checksum.MutatedHere _ _ "" [Checksum.File "abi.json" "[]"]
               "__proto__" []).
    + apply (bool_decide_unpack _). vm_compute. exact I.
    + discriminate.
    + reflexivity.
Defined.

End Examples.

(** * Further properties of the address utilities *)

Module AddressMore.

Import Address.

Local Ltac by_cases_on_char c :=
  destruct c as [[] [] [] [] [] [] [] []]; try reflexivity; try discriminate.

Lemma toLowerCaseChar_idempotent c :
  toLowerCaseChar (toLowerCaseChar c) = toLowerCaseChar c.
Proof. by_cases_on_char c. Qed.

Lemma toLowerCase_idempotent s : toLowerCase (toLowerCase s) = toLowerCase s.
Proof.
  induction s as [|c s IH]; simpl; [reflexivity|].
  rewrite toLowerCaseChar_idempotent, IH. reflexivity.
Qed.

Lemma toLowerCaseChar_zero c : toLowerCaseChar c = "0"%char -> c = "0"%char.
Proof. by_cases_on_char c. Qed.

Lemma toLowerCaseChar_x c :
  toLowerCaseChar c = "x"%char -> c = "x"%char \/ c = "X"%char.
Proof. by_cases_on_char c; auto. Qed.

(** Where the text without its first [0x] is hexadecimal, removing the
    [0x] and lowering the case commute. *)
Lemma replace_0x_lower s :
  JS.forallb isHexDigit (JS.replace "0x" "" s) = true ->
  JS.replace "0x" "" (toLowerCase s) = toLowerCase (JS.replace "0x" "" s).
Proof.
  induction s as [|c s IH]; [reflexivity|].
  cbn [JS.replace]. destruct (startsWith "0x" (String c s)) eqn:Hp.
  - destruct s as [|d s']; [rewrite AddressFacts.startsWith_0x_short in Hp; discriminate|].
    rewrite AddressFacts.startsWith_0x_cons in Hp.
    apply andb_true_iff in Hp as [H0 Hx]. apply Ascii.eqb_eq in H0, Hx. subst c d.
    intros _. reflexivity.
  - cbn [JS.forallb]. intros H. apply andb_true_iff in H as [Hc Hs].
    cbn [toLowerCase JS.replace].
    assert (startsWith "0x" (String (toLowerCaseChar c) (toLowerCase s)) = false) as ->.
    { destruct s as [|d s']; [apply AddressFacts.startsWith_0x_short|].
      cbn [toLowerCase]. rewrite AddressFacts.startsWith_0x_cons.
      rewrite AddressFacts.startsWith_0x_cons in Hp.
      destruct (Ascii.eqb_spec "0" (toLowerCaseChar c)) as [E0|]; [|reflexivity].
      destruct (Ascii.eqb_spec "x" (toLowerCaseChar d)) as [Ex|]; [|reflexivity].
      symmetry in E0, Ex. apply toLowerCaseChar_zero in E0. subst c.
      apply toLowerCaseChar_x in Ex as [->| ->]; [discriminate Hp|].
      (* the text keeps an [X], so it is not hexadecimal *)
      exfalso. revert Hs. clear.
      destruct s' as [|e s'']; cbn; discriminate. }
    rewrite IH by exact Hs. reflexivity.
Qed.

Lemma startsWith_0x_inv s :
  startsWith "0x" s = true -> s = "0x" ++ JS.drop 2 s.
Proof.
  destruct s as [|c [|d s']]; [discriminate| |].
  - rewrite AddressFacts.startsWith_0x_short. discriminate.
  - rewrite AddressFacts.startsWith_0x_cons. intros H.
    apply andb_true_iff in H as [H0 Hx]. apply Ascii.eqb_eq in H0, Hx.
    subst c d. reflexivity.
Qed.

Lemma test40hex_length s : test40hex s = true -> String.length s = 40%nat.
Proof.
  unfold test40hex. intros H. apply andb_true_iff in H as [H _].
  apply Nat.eqb_eq, H.
Qed.

Lemma test40hex_hex s : test40hex s = true -> JS.forallb isHexDigit s = true.
Proof. unfold test40hex. intros H. apply andb_true_iff in H as [_ H]. exact H. Qed.

Section WithHash.

Variable keccak256_hex : string -> string.

(** X1.  Whatever [toChecksumAddress] returns is a fixed point of it and
    passes [isValidChecksumAddress]; it has 42 characters, begins with
    [0x], and differs from the cleaned lower-case input only in the case
    of its letters. *)
Theorem toChecksumAddress_normal_form (a r : string) :
  toChecksumAddress keccak256_hex (VString a) = Ok r ->
  toChecksumAddress keccak256_hex (VString r) = Ok r /\
  isValidChecksumAddress keccak256_hex (VString r) = true /\
  String.length r = 42%nat /\
  startsWith "0x" r = true /\
  toLowerCase r = "0x" ++ JS.replace "0x" "" (toLowerCase a).
Proof.
  intros H.
  split; [apply (AddressFacts.toChecksumAddress_idempotent _ _ _ H)|].
  split; [apply (AddressFacts.toChecksumAddress_output_valid _ _ _ H)|].
  apply AddressFacts.toChecksumAddress_Ok in H as [Ht ->].
  split; [|split].
  - change (String.length ("0x" ++ ?s)) with (S (S (String.length s))).
    rewrite AddressFacts.checksumLoop_length.
    rewrite (test40hex_length _ Ht). reflexivity.
  - reflexivity.
  - change (toLowerCase ("0x" ++ ?s)) with ("0x" ++ toLowerCase s).
    rewrite AddressFacts.checksumLoop_lower, AddressFacts.clean_is_lower.
    reflexivity.
Qed.

(** X2.  The result of [toChecksumAddress] depends only on the forty
    digits: lowering the case of the input changes nothing, and neither
    does putting [0x] before forty hexadecimal digits. *)
Theorem toChecksumAddress_case_and_prefix (a : string) :
  toChecksumAddress keccak256_hex (VString (toLowerCase a))
    = toChecksumAddress keccak256_hex (VString a) /\
  (test40hex a = true ->
   toChecksumAddress keccak256_hex (VString ("0x" ++ a))
     = toChecksumAddress keccak256_hex (VString a)).
Proof.
  split.
  - unfold toChecksumAddress. rewrite AddressMore.toLowerCase_idempotent. reflexivity.
  - intros Ht. unfold toChecksumAddress.
    change (toLowerCase ("0x" ++ a)) with ("0x" ++ toLowerCase a).
    change (JS.replace "0x" "" ("0x" ++ toLowerCase a)) with (toLowerCase a).
    rewrite AddressFacts.replace_0x_hex; [reflexivity|].
    rewrite AddressFacts.toLowerCase_hex. apply test40hex_hex, Ht.
Qed.

(** X3.  The three validators are ordered: an address that
    [isValidChecksumAddress] accepts is accepted by [isValidAddress], and
    an address that [isValidAddress] accepts is converted by
    [toChecksumAddress] without an exception. *)
Theorem validators_ordered (v : value) :
  (isValidChecksumAddress keccak256_hex v = true -> isValidAddress v = true) /\
  (isValidAddress v = true ->
   exists r, toChecksumAddress keccak256_hex v = Ok r).
Proof.
  split.
  - intros H. apply AddressFacts.isValidChecksumAddress_syntax in H as (s & -> & Hs).
    unfold isValidAddress. unfold validAddressSyntax in Hs.
    apply orb_true_iff in Hs as [Hs|Hs].
    + rewrite AddressFacts.replace_0x_hex; [exact Hs|apply test40hex_hex, Hs].
    + apply andb_true_iff in Hs as [Hp Hr].
      rewrite (startsWith_0x_inv _ Hp).
      change (JS.replace "0x" "" ("0x" ++ JS.drop 2 s)) with (JS.drop 2 s).
      exact Hr.
  - destruct v as [s| |n]; try discriminate. unfold isValidAddress. intros H.
    unfold toChecksumAddress.
    rewrite replace_0x_lower by (apply test40hex_hex, H).
    rewrite AddressFacts.test40hex_lower, H. simpl. eauto.
Qed.

(** X4.  [validateAddress] reports a valid address exactly for [0x]
    followed by forty hexadecimal digits of either case.  A valid
    address has no error, is converted by [toChecksumAddress], and has
    no warning iff it is in checksum form; an invalid one has exactly
    one error and no warning. *)
Theorem validateAddress_spec (v : value) :
  let result := Validator.validateAddress keccak256_hex v in
  (Validator.valid result = true <->
   exists digits, v = VString ("0x" ++ digits) /\ test40hex digits = true) /\
  (Validator.valid result = true ->
   Validator.errors result = [] /\
   (exists r, toChecksumAddress keccak256_hex v = Ok r) /\
   (Validator.warnings result = [] <->
    isValidChecksumAddress keccak256_hex v = true)) /\
  (Validator.valid result = false ->
   length (Validator.errors result) = 1%nat /\ Validator.warnings result = []).
Proof.
  cbv zeta. unfold Validator.validateAddress. cbv zeta.
  destruct v as [s| |n]; simpl Validator.notNonEmptyString.
  2, 3: (cbn; split; [split; [discriminate|intros (d & Hd & _); discriminate]|];
         split; [discriminate|auto]).
  destruct (String.eqb_spec s "") as [->|Hne].
  { cbn. split; [split; [discriminate|intros (d & Hd & _); discriminate]|].
    split; [discriminate|auto]. }
  destruct (startsWith "0x" s) eqn:Hp; cbn [negb].
  2: { split; [split; [discriminate|]|split; [discriminate|auto]].
       intros (d & [= ->] & _). discriminate Hp. }
  destruct (test40hex (JS.drop 2 s)) eqn:Ht; cbn [negb].
  2: { split; [split; [discriminate|]|split; [discriminate|auto]].
       intros (d & [= ->] & Hd). change (test40hex d = false) in Ht. congruence. }
  simpl. split; [|split; [|discriminate]].
  - split; [|reflexivity]. intros _. exists (JS.drop 2 s).
    split; [f_equal; apply startsWith_0x_inv, Hp|exact Ht].
  - intros _. split; [reflexivity|]. split.
    + apply AddressFacts.toChecksumAddress_accepts_valid.
      unfold validAddressSyntax. rewrite Hp, Ht. apply orb_true_r.
    + destruct (isValidChecksumAddress keccak256_hex (VString s));
        simpl; split; congruence.
Qed.

End WithHash.

End AddressMore.

(** * Further properties of the HTTP client *)

Module HttpMore.

Import Http.

Section WithEnvironment.

Variable sha256_hex : string -> string.
Variable network : nat -> Request -> Exchange.
Variable random : nat -> Q.

Local Abbreviation loadFromCache := (loadFromCache sha256_hex).
Local Abbreviation saveToCache := (saveToCache sha256_hex).
Local Abbreviation attemptLoop := (attemptLoop sha256_hex network random).
Local Abbreviation request := (request sha256_hex network random).

(** X5.  An entry saved to the cache is read back, with its payload, its
    ETag and the time of saving, as long as no more than 24 hours have
    passed; later it reads as absent; the [retry-after] header is not
    kept; and saving under one key leaves the entries of other keys as
    they are. *)
Theorem cache_round_trip (url payload : string) (h : Headers) (w w' : World) :
  cache w' = cache (saveToCache url payload h w) ->
  ((now w' - now w <= 24 * 60 * 60 * 1000)%Z ->
   loadFromCache url w' =
   Some {| entryUrl := url; timestamp := now w;
           entryHeaders := {| etag := etag h; lastModified := lastModified h;
                              contentType := contentType h;
                              contentLength := contentLength h;
                              retryAfter := None |};
           entryData := payload |}) /\
  ((24 * 60 * 60 * 1000 < now w' - now w)%Z -> loadFromCache url w' = None) /\
  (forall other, sha256_hex other <> sha256_hex url -> now w' = now w ->
     loadFromCache other w' = loadFromCache other w).
Proof.
  intros Hc. unfold Http.loadFromCache, Http.getCacheKey. rewrite Hc.
  unfold Http.saveToCache at 1 2. unfold Http.getCacheKey. cbn [cache].
  rewrite lookup_insert_eq. cbn [timestamp]. split; [|split].
  - intros Hage. destruct (Z.ltb_spec CACHE_VALIDITY (now w' - now w)) as [Hlt|_];
      [unfold CACHE_VALIDITY in Hlt; lia|reflexivity].
  - intros Hage. destruct (Z.ltb_spec CACHE_VALIDITY (now w' - now w)) as [_|Hge];
      [reflexivity|unfold CACHE_VALIDITY in Hge; lia].
  - intros other Hne Hnow. unfold Http.saveToCache, Http.getCacheKey. cbn [cache].
    rewrite lookup_insert_ne by congruence. rewrite Hnow. reflexivity.
Qed.

(** ** What a call does to the cache, the log of sleeps and the clock *)

(** The ways in which one call ends. *)
Lemma attemptLoop_effects c method url req remaining :
  forall attempt w,
  let out := attemptLoop c method url req remaining attempt w in
  exists n delays,
    (n <= remaining)%nat /\
    sent (snd out) = (sent w ++ replicate (S n) req)%list /\
    slept (snd out) = (slept w ++ delays)%list /\
    length delays = n /\
    Forall (fun d => ~ exceeds d (maxRetryDelay c)) delays /\
    (now w <= now (snd out))%Z /\
    (cache (snd out) = cache w \/
     exists resp,
       isGet method = true /\ status resp = 200%Z /\
       fst out = Ok (data resp) /\
       cache (snd out) =
       <[sha256_hex url :=
           {| entryUrl := url; timestamp := now (snd out);
              entryHeaders := {| etag := etag (headers resp);
                                 lastModified := lastModified (headers resp);
                                 contentType := contentType (headers resp);
                                 contentLength := contentLength (headers resp);
                                 retryAfter := None |};
              entryData := data resp |}]> (cache w)).
Proof.
  induction remaining as [|remaining IH]; intros attempt w; cbv zeta;
    rewrite HttpFacts.attemptLoop_unfold; unfold clientRequest; cbv zeta;
    destruct (answer (network (length (sent w)) req)) as [resp|error].
  1, 3: exists 0%nat, []; split; [lia|];
        destruct (if (status resp =? 304)%Z then _ else None); cbn [fst snd];
        [ rewrite app_nil_r; cbn [sent slept now cache];
          repeat (split; [first [lia | reflexivity | constructor]|]); left; reflexivity
        | destruct (isGet method) eqn:Hget;
          destruct (Z.eqb_spec (status resp) 200) as [H200|H200]; cbn [andb];
          rewrite ?app_nil_r; cbn [sent slept now cache Http.saveToCache];
          repeat (split; [first [lia | reflexivity | constructor]|]);
          first [ left; reflexivity
                | right; exists resp; repeat (split; [first [reflexivity|assumption]|]);
                  reflexivity ] ].
  - exists 0%nat, []. rewrite app_nil_r. cbn [fst snd sent slept now cache].
    repeat (split; [first [lia | reflexivity | constructor]|]). left. reflexivity.
  - destruct (negb (isRetryableError error)).
    + exists 0%nat, []. rewrite app_nil_r. cbn [fst snd sent slept now cache].
      repeat (split; [first [lia | reflexivity | constructor]|]). left. reflexivity.
    + cbv zeta.
      match goal with |- context [Http.attemptLoop _ _ _ _ _ _ _ _ ?a ?w'] =>
        specialize (IH a w'); set (w1 := w') in * end.
      cbv zeta in IH.
      destruct IH as (n & delays & Hn & Hsent & Hslept & Hlen & Hcap & Hnow & Hcache).
      assert (sent w1 = sent w ++ [req])%list as Hs1
        by (unfold w1; rewrite HttpFacts.sent_sleep, HttpFacts.sent_drawRandom;
            reflexivity).
      assert (exists d, slept w1 = (slept w ++ [d])%list /\
                ~ exceeds d (maxRetryDelay c)) as (d & Hd & Hdcap).
      { eexists. split.
        - unfold w1. cbn [sleep slept]. destruct (usesRandom error); reflexivity.
        - apply HttpFacts.retryDelayFor_capped. }
      assert (now w <= now w1)%Z as Hn1.
      { unfold w1. cbn [sleep now]. destruct (usesRandom error); cbn [drawRandom now];
          (assert (1 <= timerMs (retryDelayFor c attempt error
                                    (random (draws w))))%Z
             by (unfold timerMs; repeat case_match; lia)); cbn [draws] in *; lia. }
      assert (cache w1 = cache w) as Hc1
        by (unfold w1; cbn [sleep cache]; destruct (usesRandom error); reflexivity).
      exists (S n), (d :: delays). split; [lia|].
      rewrite Hsent, Hs1, Hslept, Hd, <- !app_assoc. cbn [app replicate].
      split; [reflexivity|]. split; [reflexivity|]. split; [simpl; lia|].
      split; [constructor; assumption|]. split; [lia|].
      rewrite Hc1 in Hcache. exact Hcache.
Qed.

Lemma withConditionalHeader_not_get method url options w :
  isGet method = false ->
  withConditionalHeader sha256_hex method url options w = options.
Proof. unfold withConditionalHeader. intros ->. reflexivity. Qed.

(** X6.  A call of [request] changes the cache only when it is a GET
    that is answered 200: the payload it then returns is the one stored
    under the key of the URL.  A call with another method sends the
    caller's options untouched and leaves the cache as it is, and so
    does every call that throws. *)
Theorem request_cache_discipline (c : HttpClient) (method url : string)
    (options : RequestOptions) (w : World) :
  let out := request c method url options w in
  (isGet method = false ->
   cache (snd out) = cache w /\
   exists n, sent (snd out)
             = (sent w ++ replicate (S n) (requestOf method url options))%list) /\
  (forall error, fst out = Throw error -> cache (snd out) = cache w) /\
  (cache (snd out) <> cache w ->
   exists resp,
     isGet method = true /\ status resp = 200%Z /\
     fst out = Ok (data resp) /\
     cache (snd out) !! getCacheKey sha256_hex url =
     Some {| entryUrl := url; timestamp := now (snd out);
             entryHeaders := {| etag := etag (headers resp);
                                lastModified := lastModified (headers resp);
                                contentType := contentType (headers resp);
                                contentLength := contentLength (headers resp);
                                retryAfter := None |};
             entryData := data resp |}).
Proof.
  cbv zeta. unfold Http.request.
  set (req := requestOf method url _).
  destruct (attemptLoop_effects c method url req (maxRetries c) 0%nat w)
    as (n & delays & _ & Hsent & _ & _ & _ & _ & Hcache).
  split; [|split].
  - intros Hget. split.
    + destruct Hcache as [H|(resp & Hg & _)]; [exact H|congruence].
    + exists n. rewrite Hsent. unfold req.
      rewrite (withConditionalHeader_not_get _ _ _ _ Hget). reflexivity.
  - intros error Herr.
    destruct Hcache as [H|(resp & _ & _ & Hok & _)]; [exact H|congruence].
  - intros Hchanged.
    destruct Hcache as [H|(resp & Hg & H200 & Hok & Hc)]; [contradiction|].
    exists resp. repeat (split; [assumption|]).
    rewrite Hc. unfold getCacheKey. apply lookup_insert_eq.
Qed.

(** X7.  In one call of [request] a delay is slept between two
    consecutive attempts and at no other time: the number of delays is
    the number of requests sent minus one, at most [maxRetries]; none of
    them exceeds the configured cap; and the clock never goes back. *)
Theorem request_sleeps_between_attempts (c : HttpClient) (method url : string)
    (options : RequestOptions) (w : World) :
  let out := request c method url options w in
  exists n delays,
    (n <= maxRetries c)%nat /\
    length (sent (snd out)) = (length (sent w) + n + 1)%nat /\
    slept (snd out) = (slept w ++ delays)%list /\
    length delays = n /\
    Forall (fun d => ~ exceeds d (maxRetryDelay c)) delays /\
    (now w <= now (snd out))%Z.
Proof.
  cbv zeta. unfold Http.request.
  set (req := requestOf method url _).
  destruct (attemptLoop_effects c method url req (maxRetries c) 0%nat w)
    as (n & delays & Hn & Hsent & Hslept & Hlen & Hcap & Hnow & _).
  exists n, delays. split; [exact Hn|]. split.
  - rewrite Hsent, length_app, length_replicate. lia.
  - auto.
Qed.

(** X8.  A cached entry older than 24 hours counts for nothing: the GET
    goes out with the caller's own headers and no ETag of the cache, as
    a single request.  An answer that the underlying client resolves is
    returned; with status 200 it replaces the entry under the time of
    the answer, with another status it leaves the cache as it is.  An
    answer 304, which the underlying client rejects, is thrown to the
    caller after that one request, without a pause or a retry, and
    leaves the cache as it is. *)
Theorem expired_entry_is_ignored (c : HttpClient) (url : string)
    (options : RequestOptions) (w : World) (cached : CacheEntry) :
  let req := requestOf "GET" url options in
  let out := request c "GET" url options w in
  cache w !! getCacheKey sha256_hex url = Some cached ->
  (24 * 60 * 60 * 1000 < now w - timestamp cached)%Z ->
  withConditionalHeader sha256_hex "GET" url options w = options /\
  (forall resp,
     answer (network (length (sent w)) req) = Ok resp ->
     validateStatus (status resp) = true ->
     sent (snd out) = (sent w ++ [req])%list /\
     fst out = Ok (data resp) /\
     (status resp = 200%Z ->
      exists entry,
        loadFromCache url (snd out) = Some entry /\
        entryData entry = data resp /\
        timestamp entry = (now w + Z.of_N (took (network (length (sent w)) req)))%Z) /\
     (status resp <> 200%Z -> cache (snd out) = cache w)) /\
  (forall error resp,
     answer (network (length (sent w)) req) = Throw error ->
     response error = Some resp -> status resp = 304%Z ->
     fst out = Throw error /\
     sent (snd out) = (sent w ++ [req])%list /\
     cache (snd out) = cache w /\
     slept (snd out) = slept w).
Proof.
  cbv zeta. intros Hcached Hold.
  assert (loadFromCache url w = None) as Hexpired.
  { unfold Http.loadFromCache. rewrite Hcached.
    destruct (Z.ltb_spec CACHE_VALIDITY (now w - timestamp cached)) as [_|H];
      [reflexivity|unfold CACHE_VALIDITY in H; lia]. }
  assert (withConditionalHeader sha256_hex "GET" url options w = options) as Hopt.
  { unfold withConditionalHeader. rewrite Hexpired.
    destruct (isGet "GET" && negb (ignoreCache options)); reflexivity. }
  split; [exact Hopt|]. split.
  - intros resp Hans Hvalid.
    unfold Http.request. rewrite Hopt, HttpFacts.attemptLoop_unfold.
    unfold clientRequest. cbv zeta. rewrite Hans.
    assert ((status resp =? 304)%Z = false) as ->
      by (unfold validateStatus in Hvalid; lia).
    change (isGet "GET") with true. cbn [andb].
    destruct (Z.eqb_spec (status resp) 200) as [H200|H200]; cbn [fst snd].
    + split; [reflexivity|]. split; [reflexivity|]. split; [|contradiction].
      intros _. eexists. split.
      * unfold Http.loadFromCache, Http.saveToCache, Http.getCacheKey.
        cbn [cache now]. rewrite lookup_insert_eq. cbn [timestamp].
        rewrite Z.sub_diag. reflexivity.
      * split; reflexivity.
    + split; [reflexivity|]. split; [reflexivity|]. split; [contradiction|].
      intros _. reflexivity.
  - intros error resp Hans Hresp Hstatus.
    pose proof (HttpFacts.request_rejected_304 sha256_hex network random c "GET" url
                  options w error resp) as H.
    cbv zeta in H. rewrite Hopt in H. rewrite (H Hans Hresp Hstatus).
    unfold clientRequest. cbn [fst snd sent cache slept]. auto.
Qed.

End WithEnvironment.

(** X9.  After a 429 the delay does not depend on the number of the
    attempt.  Without a [retry-after] header, or with an empty one, it
    is the delay of attempt 0, so that it does not grow from one retry
    to the next; with a header that [parseInt] cannot read, such as an
    HTTP date, it is [NaN], which the timer turns into one
    millisecond. *)
Theorem rate_limit_delay (c : HttpClient) (msg : string) (resp : Response) :
  status resp = 429%Z ->
  let error := {| message := msg; response := Some resp |} in
  (forall k k' r, retryDelayFor c k error r = retryDelayFor c k' error r) /\
  (truthy (retryAfter (headers resp)) = false ->
   forall k r, retryDelayFor c k error r = Some (calculateRetryDelay c 0 r)) /\
  (forall s, retryAfter (headers resp) = Some s -> s <> "" -> parseInt s = None ->
   forall k r w,
     retryDelayFor c k error r = None /\
     now (sleep (retryDelayFor c k error r) w) = (now w + 1)%Z).
Proof.
  intros H429. cbv zeta. unfold retryDelayFor. cbn [response]. rewrite H429.
  change (429 =? 429)%Z with true. cbv iota.
  split; [reflexivity|]. split.
  - intros Hno k r. unfold getRetryAfterDelay. rewrite Hno. reflexivity.
  - intros s Hs Hne Hparse k r w. unfold getRetryAfterDelay.
    rewrite Hs, (HttpFacts.truthy_Some _ Hne). simpl. rewrite Hparse.
    split; reflexivity.
Qed.

End HttpMore.

(** * Further properties of the Sourcify client *)

Module SourcifyMore.

Import Sourcify SourcifyLookup.

(** ** Runs of tries *)

Section Tries.

Context {W A B : Type}.
Variable try : A -> W -> Result B * W.

Lemma firstSuccess_found pre x post :
  forall le w le1 w1 r w2,
  allFail try pre le w = Some (le1, w1) ->
  try x w1 = (Ok r, w2) ->
  firstSuccess try (pre ++ x :: post)%list le w = (Return r, w2).
Proof.
  induction pre as [|y pre IH]; intros le w le1 w1 r w2 Hpre Hx; cbn in *.
  - injection Hpre as -> ->. rewrite Hx. reflexivity.
  - destruct (try y w) as [[?|e] wy]; [discriminate|]. eauto.
Qed.

Lemma firstSuccess_exhausted items :
  forall le w le1 w1,
  allFail try items le w = Some (le1, w1) ->
  firstSuccess try items le w = (Next le1, w1).
Proof.
  induction items as [|y items IH]; intros le w le1 w1 H; cbn in *.
  - injection H as -> ->. reflexivity.
  - destruct (try y w) as [[?|e] wy]; [discriminate|]. eauto.
Qed.

Lemma firstSuccess_cases items :
  forall le w,
  (exists pre x post le1 w1 r w2,
     items = (pre ++ x :: post)%list /\
     allFail try pre le w = Some (le1, w1) /\
     try x w1 = (Ok r, w2) /\
     firstSuccess try items le w = (Return r, w2)) \/
  (exists le1 w1,
     allFail try items le w = Some (le1, w1) /\
     firstSuccess try items le w = (Next le1, w1)).
Proof.
  induction items as [|y items IH]; intros le w.
  - right. exists le, w. split; reflexivity.
  - cbn [firstSuccess allFail]. destruct (try y w) as [[r|e] wy] eqn:Hy.
    + left. exists [], y, items, le, w, r, wy. cbn. rewrite Hy. auto.
    + destruct (IH (Some e) wy)
        as [(pre & x & post & le1 & w1 & r & w2 & -> & Hpre & Hx & Hr)
           |(le1 & w1 & Hall & Hr)].
      * left. exists (y :: pre), x, post, le1, w1, r, w2. cbn. rewrite Hy. auto.
      * right. exists le1, w1. auto.
Qed.

Lemma allFail_last items :
  forall le w le1 w1,
  allFail try items le w = Some (le1, w1) ->
  items <> [] -> exists e, le1 = Some e.
Proof.
  induction items as [|y items IH]; intros le w le1 w1 H Hne; [congruence|].
  cbn in H. destruct (try y w) as [[?|e] wy]; [discriminate|].
  destruct items as [|z items]; [cbn in H; injection H as <- _; eauto|].
  eapply IH; [exact H|discriminate].
Qed.

Lemma firstSuccess_app l1 l2 :
  forall le w,
  firstSuccess try (l1 ++ l2)%list le w =
  match firstSuccess try l1 le w with
  | (Return r, w1) => (Return r, w1)
  | (Next le1, w1) => firstSuccess try l2 le1 w1
  end.
Proof.
  induction l1 as [|y l1 IH]; intros le w; cbn; [reflexivity|].
  destruct (try y w) as [[r|e] wy]; [reflexivity|apply IH].
Qed.

(** A budget [I n] on what a run may do, which composes: the run of a
    list of tries that each keep to [I K] keeps to [I (length * K)]. *)
Variable I : nat -> W -> W -> Prop.
Hypothesis I_refl : forall w, I 0 w w.
Hypothesis I_trans :
  forall n m w1 w2 w3, I n w1 w2 -> I m w2 w3 -> I (n + m) w1 w3.
Hypothesis I_mono : forall n m w1 w2, (n <= m)%nat -> I n w1 w2 -> I m w1 w2.

Lemma firstSuccess_budget K :
  (forall x w, I K w (snd (try x w))) ->
  forall items le w,
  I (length items * K) w (snd (firstSuccess try items le w)).
Proof.
  intros Htry. induction items as [|y items IH]; intros le w; cbn; [apply I_refl|].
  pose proof (Htry y w) as Hy. destruct (try y w) as [[r|e] wy]; cbn [snd] in *.
  - eapply I_mono; [|exact Hy]. lia.
  - eapply I_trans; [exact Hy|apply IH].
Qed.

End Tries.

(** ** The loops of the client are runs of tries *)

Section WithClient.

Variable keccak256_hex : string -> string.
Variable encodeURIComponent : string -> string.
Variable manifestOf : string -> option (list string).
Variable W : Type.
Variable httpGet : string -> W -> Result string * W.
Variable httpHead : string -> W -> Result string * W.
Variable clock : W -> Z.
Variable baseUrls : list string.
Variable ipfsGateways : list string.
Variable settles : nat -> nat.

Local Abbreviation toChecksumAddress := (Address.toChecksumAddress keccak256_hex).
Local Abbreviation isValidChecksumAddress := (Address.isValidChecksumAddress keccak256_hex).
Local Abbreviation fetchMetadata := (fetchMetadata keccak256_hex W httpGet clock baseUrls).
Local Abbreviation trySourceFile :=
  (trySourceFile keccak256_hex encodeURIComponent W httpGet).
Local Abbreviation sourceMirrorLoop :=
  (sourceMirrorLoop keccak256_hex encodeURIComponent W httpGet).
Local Abbreviation fetchSourceFile :=
  (fetchSourceFile keccak256_hex encodeURIComponent W httpGet baseUrls).
Local Abbreviation settleAll :=
  (settleAll keccak256_hex encodeURIComponent W httpGet baseUrls settles).
Local Abbreviation fetchAllSources :=
  (fetchAllSources keccak256_hex encodeURIComponent manifestOf W httpGet baseUrls settles).
Local Abbreviation tryExists := (tryExists keccak256_hex W httpHead).
Local Abbreviation existsMirrorLoop := (existsMirrorLoop keccak256_hex W httpHead).
Local Abbreviation existsMatchTypeLoop :=
  (existsMatchTypeLoop keccak256_hex W httpHead baseUrls).
Local Abbreviation checkContractExists :=
  (checkContractExists keccak256_hex W httpHead baseUrls).
Local Abbreviation tryCandidate := (tryCandidate keccak256_hex W httpHead).
Local Abbreviation gatewayLoop := (gatewayLoop W httpGet).
Local Abbreviation fetchFromIpfs := (fetchFromIpfs W httpGet ipfsGateways).

Lemma mirrorLoop_tries chainId address m urls :
  forall le w,
  mirrorLoop keccak256_hex W httpGet clock chainId address m urls le w =
  firstSuccess (tryMetadata keccak256_hex W httpGet clock chainId address m) urls le w.
Proof.
  induction urls as [|b urls IH]; intros le w; cbn [mirrorLoop firstSuccess];
    [reflexivity|].
  destruct (tryMetadata _ _ _ _ _ _ _ _ _) as [[r|e] w1]; [reflexivity|].
  destruct (is404 e); apply IH.
Qed.

Lemma sourceMirrorLoop_tries chainId address filePath m urls :
  forall le w,
  sourceMirrorLoop chainId address filePath m urls le w =
  firstSuccess (trySourceFile chainId address filePath m) urls le w.
Proof.
  induction urls as [|b urls IH]; intros le w;
    cbn [Sourcify.sourceMirrorLoop firstSuccess]; [reflexivity|].
  destruct (trySourceFile _ _ _ _ _ _) as [[r|e] w1]; [reflexivity|].
  destruct (is404 e); apply IH.
Qed.

Lemma gatewayLoop_tries cid gateways :
  forall le w,
  gatewayLoop cid gateways le w =
  firstSuccess (fun gateway => httpGet (gateway ++ "/" ++ cid)) gateways le w.
Proof.
  induction gateways as [|g gateways IH]; intros le w;
    cbn [SourcifyLookup.gatewayLoop firstSuccess]; [reflexivity|].
  destruct (httpGet _ _) as [[r|e] w1]; [reflexivity|apply IH].
Qed.

Lemma existsMirrorLoop_tries chainId address m urls :
  forall le w,
  existsMirrorLoop chainId address m urls w =
  forget (firstSuccess (tryExists chainId address m) urls le w).
Proof.
  induction urls as [|b urls IH]; intros le w;
    cbn [SourcifyLookup.existsMirrorLoop firstSuccess]; [reflexivity|].
  destruct (tryExists _ _ _ _ _) as [[r|e] w1]; [reflexivity|apply IH].
Qed.

Lemma firstSuccess_pair chainId address m urls :
  forall le w,
  firstSuccess (tryExists chainId address m) urls le w =
  firstSuccess (tryCandidate chainId address) (map (pair m) urls) le w.
Proof.
  induction urls as [|b urls IH]; intros le w; cbn [firstSuccess map];
    [reflexivity|].
  unfold SourcifyLookup.tryCandidate at 1. cbn [fst snd].
  destruct (tryExists _ _ _ _ _) as [[r|e] w1]; [reflexivity|apply IH].
Qed.

Lemma existsMatchTypeLoop_tries chainId address w :
  existsMatchTypeLoop chainId address [full; partial] w =
  forget (firstSuccess (tryCandidate chainId address) (candidates baseUrls) None w).
Proof.
  unfold candidates, candidatesOf. cbn [flat_map SourcifyLookup.existsMatchTypeLoop].
  rewrite app_nil_r, firstSuccess_app.
  rewrite (existsMirrorLoop_tries chainId address full baseUrls None w).
  rewrite firstSuccess_pair.
  destruct (firstSuccess _ (map (pair full) baseUrls) None w) as [[r|le1] w1];
    cbn [forget]; [reflexivity|].
  rewrite (existsMirrorLoop_tries chainId address partial baseUrls le1 w1).
  rewrite firstSuccess_pair.
  destruct (firstSuccess _ (map (pair partial) baseUrls) le1 w1) as [[r|le2] w2];
    reflexivity.
Qed.

Lemma sourceMirrorLoop_rejected chainId address filePath m e :
  toChecksumAddress (Address.VString address) = Throw e ->
  forall urls le w,
  sourceMirrorLoop chainId address filePath m urls le w =
  (Next (match urls with [] => le | _ => Some e end), w).
Proof.
  intros He. induction urls as [|b urls IH]; intros le w;
    cbn [Sourcify.sourceMirrorLoop]; [reflexivity|].
  unfold Sourcify.trySourceFile, getFileUrl. rewrite He.
  destruct (is404 e); rewrite IH; destruct urls; reflexivity.
Qed.

Lemma settleAll_rejected chainId address m e :
  toChecksumAddress (Address.VString address) = Throw e ->
  forall files w,
    (settleAll chainId address m files w).1.2 = ∅ /\
    (settleAll chainId address m files w).2 = w.
Proof.
  intros He files w. unfold Sourcify.settleAll.
  apply (SourcifyFacts.promiseAll_preserves keccak256_hex encodeURIComponent W httpGet
           settles chainId address m
           (fun _ sources w' => sources = ∅ /\ w' = w)); [|auto].
  intros closures sources w' i c [-> ->] _ _.
  destruct c as [f [|b rest] le|f content|f e0]; cbn [Sourcify.resume fst snd]; auto.
  unfold Sourcify.trySourceFile, getFileUrl. rewrite He. auto.
Qed.

(** X10.  An address that is rejected costs no request.  [fetchMetadata]
    and [checkContractExists] throw at once, in the state they were
    called in, for every address that is not in checksummed form.
    [fetchSourceFile] converts the address itself: when the conversion
    throws, every mirror fails before a request is made and the error
    of the conversion is the one reported (with no mirror configured
    the report reads [undefined]); [fetchAllSources] then swallows these
    errors and returns an empty map for every non-null metadata
    document. *)
Theorem rejected_address_sends_nothing (chainId : N) (address filePath md : string)
    (m : MatchType) (w : W) :
  (isValidChecksumAddress (Address.VString address) = false ->
   fetchMetadata chainId address w =
     (Throw (plainError ("Invalid address format: " ++ address)), w) /\
   checkContractExists chainId address w =
     (Throw (plainError ("Invalid address format: " ++ address)), w)) /\
  (forall e, toChecksumAddress (Address.VString address) = Throw e ->
   e = plainError "Invalid address format" /\
   isValidChecksumAddress (Address.VString address) = false /\
   fetchSourceFile chainId address filePath m w =
     (Throw (plainError
        ("Failed to fetch source file " ++ filePath ++ " for " ++ address
           ++ " on chain " ++ pretty chainId ++ ": "
           ++ match baseUrls with
              | [] => "undefined"
              | _ => "Invalid address format"
              end)), w) /\
   (isNull md = false ->
    fetchAllSources chainId address md m w = (Ok ∅, w))).
Proof.
  split.
  - intros Hv. unfold Sourcify.fetchMetadata, SourcifyLookup.checkContractExists.
    rewrite Hv. split; reflexivity.
  - intros e He. assert (e = plainError "Invalid address format") as Hmsg.
    { revert He. unfold Address.toChecksumAddress. cbv zeta.
      destruct (negb _); congruence. }
    split; [exact Hmsg|]. split.
    { unfold Address.isValidChecksumAddress. rewrite He. reflexivity. }
    split.
    + unfold Sourcify.fetchSourceFile.
      rewrite (sourceMirrorLoop_rejected _ _ _ _ _ He). subst e.
      destruct baseUrls; reflexivity.
    + intros Hnull. unfold Sourcify.fetchAllSources. rewrite Hnull.
      destruct (manifestOf md) as [files|]; [|reflexivity].
      destruct (settleAll_rejected chainId address m e He files w) as [Hs Hw].
      destruct (settleAll chainId address m files w) as [[closures sources] w1].
      cbn [fst snd] in Hs, Hw. rewrite Hs, Hw. reflexivity.
Qed.

(** X11.  [fetchSourceFile] asks the mirrors in their configured order
    for the one match type it is given: the content of the first mirror
    that answers with a non-null body is returned and no later mirror is
    asked; when every mirror fails it throws an error that reports the
    message of the last failure.  One of the two always applies, and a
    returned content is never the null body. *)
Theorem fetchSourceFile_scan (chainId : N) (address filePath : string)
    (m : MatchType) (w : W) :
  let try := trySourceFile chainId address filePath m in
  (forall pre b post le w1 content w2,
     baseUrls = (pre ++ b :: post)%list ->
     allFail try pre None w = Some (le, w1) ->
     try b w1 = (Ok content, w2) ->
     fetchSourceFile chainId address filePath m w = (Ok content, w2)) /\
  (forall le w1,
     allFail try baseUrls None w = Some (le, w1) ->
     fetchSourceFile chainId address filePath m w =
       (Throw (plainError
          ("Failed to fetch source file " ++ filePath ++ " for " ++ address
             ++ " on chain " ++ pretty chainId ++ ": "
             ++ messageOrUndefined le)), w1)) /\
  ((exists pre b post le w1 content w2,
      baseUrls = (pre ++ b :: post)%list /\
      allFail try pre None w = Some (le, w1) /\
      try b w1 = (Ok content, w2)) \/
   (exists le w1, allFail try baseUrls None w = Some (le, w1))) /\
  (forall content w',
     fetchSourceFile chainId address filePath m w = (Ok content, w') ->
     isNull content = false).
Proof.
  cbv zeta. unfold Sourcify.fetchSourceFile. rewrite sourceMirrorLoop_tries.
  split; [|split; [|split]].
  - intros pre b post le w1 content w2 -> Hpre Hb.
    rewrite (firstSuccess_found _ _ _ _ _ _ _ _ _ _ Hpre Hb). reflexivity.
  - intros le w1 Hall. rewrite (firstSuccess_exhausted _ _ _ _ _ _ Hall). reflexivity.
  - destruct (firstSuccess_cases (trySourceFile chainId address filePath m)
                baseUrls None w)
      as [(pre & b & post & le & w1 & r & w2 & Heq & Hpre & Hb & _)
         |(le & w1 & Hall & _)].
    + left. exists pre, b, post, le, w1, r, w2. auto.
    + right. exists le, w1. exact Hall.
  - intros content w'.
    destruct (firstSuccess_cases (trySourceFile chainId address filePath m)
                baseUrls None w)
      as [(pre & b & post & le & w1 & r & w2 & Heq & Hpre & Hb & ->)
         |(le & w1 & Hall & ->)]; [|discriminate].
    intros [= <- <-]. revert Hb. unfold Sourcify.trySourceFile.
    destruct (getFileUrl _ _ _ _ _ _ _) as [url|?]; [|discriminate].
    destruct (httpGet url w1) as [[c|?] w3]; [|discriminate].
    destruct (isNull c) eqn:Hc; [discriminate|]. intros [= <- _]. exact Hc.
Qed.

(** X12.  For a checksummed address [checkContractExists] never throws.
    It sends HEAD requests for the metadata document, every mirror for
    a full match and then every mirror for a partial match, and answers
    with the match type and the mirror of the first request that
    succeeds, asking none after it; it answers [null] when every one
    fails, whatever the errors were. *)
Theorem checkContractExists_scan (chainId : N) (address : string) (w : W) :
  isValidChecksumAddress (Address.VString address) = true ->
  let try := tryCandidate chainId address in
  (forall pre m b post le w1 r w2,
     candidates baseUrls = (pre ++ (m, b) :: post)%list ->
     allFail try pre None w = Some (le, w1) ->
     try (m, b) w1 = (Ok r, w2) ->
     checkContractExists chainId address w =
       (Ok (Some {| exists_ := true; foundMatchType := m; foundSourceUrl := b |}),
        w2)) /\
  (forall le w1,
     allFail try (candidates baseUrls) None w = Some (le, w1) ->
     checkContractExists chainId address w = (Ok None, w1)) /\
  ((exists pre c post le w1 r w2,
      candidates baseUrls = (pre ++ c :: post)%list /\
      allFail try pre None w = Some (le, w1) /\
      try c w1 = (Ok r, w2)) \/
   (exists le w1, allFail try (candidates baseUrls) None w = Some (le, w1))) /\
  (exists found w', checkContractExists chainId address w = (Ok found, w')).
Proof.
  intros Hv. cbv zeta. unfold SourcifyLookup.checkContractExists. rewrite Hv.
  cbn [negb]. rewrite existsMatchTypeLoop_tries.
  split; [|split; [|split]].
  - intros pre m b post le w1 r w2 Heq Hpre Hb. rewrite Heq.
    rewrite (firstSuccess_found _ _ _ _ _ _ _ _ _ _ Hpre Hb). cbn [forget].
    revert Hb. unfold SourcifyLookup.tryCandidate, SourcifyLookup.tryExists.
    cbn [fst snd]. destruct (getMetadataUrl _ _ _ _ _) as [url|?]; [|discriminate].
    destruct (httpHead url w1) as [[c|?] w3]; [|discriminate].
    intros [= <- <-]. reflexivity.
  - intros le w1 Hall. rewrite (firstSuccess_exhausted _ _ _ _ _ _ Hall). reflexivity.
  - destruct (firstSuccess_cases (tryCandidate chainId address)
                (candidates baseUrls) None w)
      as [(pre & c & post & le & w1 & r & w2 & Heq & Hpre & Hb & _)
         |(le & w1 & Hall & _)].
    + left. exists pre, c, post, le, w1, r, w2. auto.
    + right. exists le, w1. exact Hall.
  - destruct (firstSuccess _ (candidates baseUrls) None w) as [[r|le] w1];
      cbn [forget]; eauto.
Qed.

(** X13.  [fetchFromIpfs] asks the gateways in their configured order
    for [gateway/cid]: what the first gateway that answers returns is
    handed on as it is (a null body included) and no later gateway is
    asked; when every gateway fails it throws an error that reports the
    message of the last failure, and [undefined] when no gateway is
    configured. *)
Theorem fetchFromIpfs_scan (cid : string) (w : W) :
  let try := fun gateway => httpGet (gateway ++ "/" ++ cid) in
  (forall pre g post le w1 payload w2,
     ipfsGateways = (pre ++ g :: post)%list ->
     allFail try pre None w = Some (le, w1) ->
     httpGet (g ++ "/" ++ cid) w1 = (Ok payload, w2) ->
     fetchFromIpfs cid w = (Ok payload, w2)) /\
  (forall le w1,
     allFail try ipfsGateways None w = Some (le, w1) ->
     fetchFromIpfs cid w =
       (Throw (plainError ("Failed to fetch CID " ++ cid ++ " from IPFS: "
                             ++ messageOrUndefined le)), w1) /\
     (ipfsGateways = [] <-> le = None)) /\
  ((exists pre g post le w1 payload w2,
      ipfsGateways = (pre ++ g :: post)%list /\
      allFail try pre None w = Some (le, w1) /\
      httpGet (g ++ "/" ++ cid) w1 = (Ok payload, w2)) \/
   (exists le w1, allFail try ipfsGateways None w = Some (le, w1))).
Proof.
  cbv zeta. unfold SourcifyLookup.fetchFromIpfs. rewrite gatewayLoop_tries.
  split; [|split].
  - intros pre g post le w1 payload w2 -> Hpre Hg.
    rewrite (firstSuccess_found (fun gateway => httpGet (gateway ++ "/" ++ cid))
               pre g post None w le w1 payload w2 Hpre Hg).
    reflexivity.
  - intros le w1 Hall. rewrite (firstSuccess_exhausted _ _ _ _ _ _ Hall).
    split; [reflexivity|]. split.
    + intros Hnil. rewrite Hnil in Hall. cbn in Hall. congruence.
    + intros ->. destruct ipfsGateways as [|g gs] eqn:Hg; [reflexivity|].
      destruct (allFail_last _ _ _ _ _ _ Hall) as [e He]; [discriminate|].
      discriminate.
  - destruct (firstSuccess_cases (fun gateway => httpGet (gateway ++ "/" ++ cid))
                ipfsGateways None w)
      as [(pre & g & post & le & w1 & r & w2 & Heq & Hpre & Hg & _)
         |(le & w1 & Hall & _)].
    + left. exists pre, g, post, le, w1, r, w2. auto.
    + right. exists le, w1. exact Hall.
Qed.

End WithClient.

(** ** The client on top of the HTTP client *)

Section Wired.

Variable keccak256_hex : string -> string.
Variable encodeURIComponent : string -> string.
Variable manifestOf : string -> option (list string).
Variable sha256_hex : string -> string.
Variable network : nat -> Http.Request -> Http.Exchange.
Variable random : nat -> Q.
Variable http : Http.HttpClient.
Variable baseUrls : list string.
Variable ipfsGateways : list string.
Variable settles : nat -> nat.

Local Abbreviation httpGet := (httpGet sha256_hex network random http).
Local Abbreviation httpHead := (httpHead sha256_hex network random http).
Local Abbreviation K := (S (Http.maxRetries http)).

Lemma Sends_refl method w : Sends method 0 w w.
Proof.
  exists []. rewrite app_nil_r. split; [reflexivity|]. split; [cbn; lia|constructor].
Qed.

Lemma Sends_trans method n k w1 w2 w3 :
  Sends method n w1 w2 -> Sends method k w2 w3 -> Sends method (n + k) w1 w3.
Proof.
  intros (l1 & H1 & Hn & F1) (l2 & H2 & Hk & F2). exists (l1 ++ l2)%list.
  split; [rewrite H2, H1, app_assoc; reflexivity|].
  split; [rewrite length_app; lia|]. apply Forall_app. split; assumption.
Qed.

Lemma Sends_mono method n k w1 w2 :
  (n <= k)%nat -> Sends method n w1 w2 -> Sends method k w1 w2.
Proof. intros Hle (l & H & Hn & F). exists l. split; [exact H|]. split; [lia|exact F]. Qed.

Lemma withConditionalHeader_body method url options w :
  Http.body (Http.withConditionalHeader sha256_hex method url options w)
  = Http.body options.
Proof.
  unfold Http.withConditionalHeader. destruct (_ && _); [|reflexivity].
  destruct (Http.loadFromCache _ _ _) as [cached|]; [|reflexivity].
  destruct (_ && _); reflexivity.
Qed.

Lemma request_sends method url w :
  Sends method K w
    (snd (Http.request sha256_hex network random http method url
            Http.noRequestOptions w)).
Proof.
  unfold Http.request. cbv zeta.
  destruct (HttpMore.attemptLoop_effects sha256_hex network random http method url
              (Http.requestOf method url
                 (Http.withConditionalHeader sha256_hex method url
                    Http.noRequestOptions w))
              (Http.maxRetries http) 0%nat w)
    as (n & delays & Hn & Hsent & _).
  eexists. split; [exact Hsent|]. split; [rewrite length_replicate; lia|].
  apply Forall_replicate. cbn [Http.requestOf Http.reqMethod Http.reqBody].
  rewrite withConditionalHeader_body. split; reflexivity.
Qed.

Lemma httpGet_sends url w : Sends "GET" K w (snd (httpGet url w)).
Proof. apply request_sends. Qed.

Lemma httpHead_keeps url w :
  Sends "HEAD" K w (snd (httpHead url w)) /\
  Http.cache (snd (httpHead url w)) = Http.cache w.
Proof.
  split; [apply request_sends|].
  unfold SourcifyLookup.httpHead, Http.request. cbv zeta.
  destruct (HttpMore.attemptLoop_effects sha256_hex network random http "HEAD" url
              (Http.requestOf "HEAD" url
                 (Http.withConditionalHeader sha256_hex "HEAD" url
                    Http.noRequestOptions w))
              (Http.maxRetries http) 0%nat w)
    as (n & delays & _ & _ & _ & _ & _ & _ & [Hc|(resp & Hget & _)]);
    [exact Hc|discriminate Hget].
Qed.

Lemma tryMetadata_sends chainId address m b w :
  Sends "GET" K w
    (snd (tryMetadata keccak256_hex Http.World httpGet Http.now chainId address m b w)).
Proof.
  unfold tryMetadata. destruct (getMetadataUrl _ _ _ _ _) as [url|e].
  - pose proof (httpGet_sends url w) as H.
    destruct (httpGet url w) as [[md|e] w1]; [destruct (isNull md)|]; exact H.
  - eapply Sends_mono; [|apply Sends_refl]. lia.
Qed.

Lemma trySourceFile_sends chainId address filePath m b w :
  Sends "GET" K w
    (snd (trySourceFile keccak256_hex encodeURIComponent Http.World httpGet
            chainId address filePath m b w)).
Proof.
  unfold trySourceFile. destruct (getFileUrl _ _ _ _ _ _ _) as [url|e].
  - pose proof (httpGet_sends url w) as H.
    destruct (httpGet url w) as [[md|e] w1]; [destruct (isNull md)|]; exact H.
  - eapply Sends_mono; [|apply Sends_refl]. lia.
Qed.

Lemma fetchSourceFile_sends chainId address filePath m w :
  Sends "GET" (length baseUrls * K) w
    (snd (wiredFetchSourceFile keccak256_hex encodeURIComponent sha256_hex network
            random http baseUrls chainId address filePath m w)).
Proof.
  unfold wiredFetchSourceFile, fetchSourceFile. rewrite sourceMirrorLoop_tries.
  pose proof (firstSuccess_budget _ (Sends "GET") (Sends_refl "GET")
                (Sends_trans "GET") (Sends_mono "GET") K
                (trySourceFile_sends chainId address filePath m)
                baseUrls None w) as H.
  destruct (firstSuccess _ baseUrls None w) as [[r|le] w1]; exact H.
Qed.

(** Every answer that a closure receives is one call of the client. *)
Lemma promiseAll_sends chainId address m :
  forall fuel k closures sources w,
  Sends "GET" (fuel * K) w
    (promiseAll keccak256_hex encodeURIComponent Http.World httpGet settles
       chainId address m fuel k closures sources w).2.
Proof.
  induction fuel as [|fuel IH]; intros k closures sources w;
    cbn [Sourcify.promiseAll]; [apply Sends_refl|]. cbv zeta.
  assert (forall w', Sends "GET" (S fuel * K) w' w') as Hidle
    by (intros w'; eapply Sends_mono; [|apply Sends_refl]; lia).
  destruct (waitingFrom 0 closures !! _) as [i|]; [|apply Hidle].
  destruct (closures !! i) as [c|]; [|apply Hidle].
  assert (Sends "GET" K w
            (resume keccak256_hex encodeURIComponent Http.World httpGet
               chainId address m c sources w).2) as Hstep.
  { destruct c as [f [|b rest] le|f content|f e]; cbn [Sourcify.resume snd];
      try (eapply Sends_mono; [|apply Sends_refl]; lia).
    pose proof (trySourceFile_sends chainId address f m b w) as H.
    destruct (trySourceFile _ _ _ _ _ _ _ _ _ _) as [[content|e] w1]; exact H. }
  destruct (resume _ _ _ _ _ _ _ c sources w) as [[c' sources'] w'].
  cbn [snd] in Hstep. change (S fuel * K)%nat with (K + fuel * K)%nat.
  eapply Sends_trans; [exact Hstep|apply IH].
Qed.

(** X14.  The request budget of the client wired to the HTTP client.
    With [n] mirrors and [maxRetries] retries per call, [fetchMetadata]
    sends at most [2 * n * (maxRetries + 1)] requests, [fetchSourceFile]
    at most [n * (maxRetries + 1)], [fetchAllSources] at most that many
    per file of the manifest, and [fetchFromIpfs] at most
    [maxRetries + 1] per gateway; all of them are GET requests without a
    body.  [checkContractExists] sends at most
    [2 * n * (maxRetries + 1)] requests, all of them HEAD requests, and
    leaves the response cache as it found it. *)
Theorem wired_request_budget (chainId : N) (address filePath md cid : string)
    (m : MatchType) (w : Http.World) :
  Sends "GET" (2 * length baseUrls * S (Http.maxRetries http)) w
    (snd (wiredFetchMetadata keccak256_hex sha256_hex network random http baseUrls
            chainId address w)) /\
  Sends "GET" (length baseUrls * S (Http.maxRetries http)) w
    (snd (wiredFetchSourceFile keccak256_hex encodeURIComponent sha256_hex network
            random http baseUrls chainId address filePath m w)) /\
  Sends "GET"
    (length (default [] (manifestOf md))
       * (length baseUrls * S (Http.maxRetries http))) w
    (snd (wiredFetchAllSources keccak256_hex encodeURIComponent manifestOf
            sha256_hex network random http baseUrls settles chainId address md m w)) /\
  Sends "GET" (length ipfsGateways * S (Http.maxRetries http)) w
    (snd (wiredFetchFromIpfs sha256_hex network random http ipfsGateways cid w)) /\
  Sends "HEAD" (2 * length baseUrls * S (Http.maxRetries http)) w
    (snd (wiredCheckContractExists keccak256_hex sha256_hex network random http
            baseUrls chainId address w)) /\
  Http.cache
    (snd (wiredCheckContractExists keccak256_hex sha256_hex network random http
            baseUrls chainId address w)) = Http.cache w.
Proof.
  split; [|split; [|split; [|split]]].
  - unfold wiredFetchMetadata, fetchMetadata.
    destruct (negb _); [eapply Sends_mono; [|apply Sends_refl]; lia|].
    cbn [matchTypeLoop]. rewrite !mirrorLoop_tries.
    pose proof (firstSuccess_budget _ (Sends "GET") (Sends_refl "GET")
                  (Sends_trans "GET") (Sends_mono "GET") K
                  (tryMetadata_sends chainId address full) baseUrls None w) as H1.
    destruct (firstSuccess _ baseUrls None w) as [[r|le] w1]; cbn [snd] in *.
    + eapply Sends_mono; [|exact H1]. lia.
    + pose proof (firstSuccess_budget _ (Sends "GET") (Sends_refl "GET")
                    (Sends_trans "GET") (Sends_mono "GET") K
                    (tryMetadata_sends chainId address partial) baseUrls le w1) as H2.
      rewrite mirrorLoop_tries.
      destruct (firstSuccess _ baseUrls le w1) as [[r|le2] w2]; cbn [snd] in *;
        (eapply Sends_mono; [|eapply Sends_trans; [exact H1|exact H2]]; lia).
  - apply fetchSourceFile_sends.
  - unfold wiredFetchAllSources, fetchAllSources.
    destruct (isNull md); [eapply Sends_mono; [|apply Sends_refl]; lia|].
    destruct (manifestOf md) as [files|]; cbn [default];
      [|eapply Sends_mono; [|apply Sends_refl]; cbn; lia].
    unfold settleAll.
    pose proof (promiseAll_sends chainId address m (length files * length baseUrls) 0
                  (map (startClosure baseUrls chainId address) files) ∅ w) as H.
    rewrite <- Nat.mul_assoc in H.
    destruct (promiseAll _ _ _ _ _ _ _ _ _ _ _ _ _) as [[closures sources] w1].
    exact H.
  - unfold wiredFetchFromIpfs, fetchFromIpfs. rewrite gatewayLoop_tries.
    pose proof (firstSuccess_budget _ (Sends "GET") (Sends_refl "GET")
                  (Sends_trans "GET") (Sends_mono "GET") K
                  (fun g w => httpGet_sends (g ++ "/" ++ cid) w)
                  ipfsGateways None w) as H.
    destruct (firstSuccess _ ipfsGateways None w) as [[r|le] w1]; exact H.
  - set (I := fun n w1 w2 => Sends "HEAD" n w1 w2 /\ Http.cache w2 = Http.cache w1).
    assert (forall c w0, I K w0
              (snd (tryCandidate keccak256_hex Http.World httpHead chainId address
                      c w0))) as Htry.
    { intros c w0. unfold tryCandidate, tryExists, I.
      destruct (getMetadataUrl _ _ _ _ _) as [url|e].
      - pose proof (httpHead_keeps url w0) as H.
        destruct (httpHead url w0) as [[r|e] w1]; exact H.
      - split; [eapply Sends_mono; [|apply Sends_refl]; lia|reflexivity]. }
    assert (I (2 * length baseUrls * K)%nat w
              (snd (wiredCheckContractExists keccak256_hex sha256_hex network random
                      http baseUrls chainId address w))) as [H1 H2]; [|split; assumption].
    unfold wiredCheckContractExists, checkContractExists.
    destruct (negb _);
      [split; [eapply Sends_mono; [|apply Sends_refl]; lia|reflexivity]|].
    rewrite existsMatchTypeLoop_tries.
    pose proof (firstSuccess_budget
                  (tryCandidate keccak256_hex Http.World httpHead chainId address)
                  I) as HB.
    specialize (HB (fun w0 => conj (Sends_refl "HEAD" w0) eq_refl)).
    assert (forall n k w1 w2 w3, I n w1 w2 -> I k w2 w3 -> I (n + k)%nat w1 w3) as Ht.
    { intros n k w1 w2 w3 [A1 A2] [B1 B2].
      split; [eapply Sends_trans; eassumption|congruence]. }
    assert (forall n k w1 w2, (n <= k)%nat -> I n w1 w2 -> I k w1 w2) as Hm.
    { intros n k w1 w2 Hle [A1 A2]. split; [eapply Sends_mono; eassumption|exact A2]. }
    specialize (HB Ht Hm K Htry (candidates baseUrls) None w).
    assert (length (candidates baseUrls) = (2 * length baseUrls)%nat) as Hlen.
    { unfold candidates, candidatesOf. cbn [flat_map].
      rewrite !length_app, !length_map. cbn. lia. }
    rewrite Hlen in HB.
    destruct (firstSuccess _ (candidates baseUrls) None w) as [[r|le] w1];
      cbn [forget snd] in *; exact HB.
Qed.

End Wired.

End SourcifyMore.

(** * Further properties of the archive *)

Module ArchiveMore.

Import Archive.

Section WithHash.

Variable keccak256_hex : string -> string.
Variable provenanceErrors : Draft -> string.

Local Abbreviation toChecksumAddress := (Address.toChecksumAddress keccak256_hex).
Local Abbreviation getArchiveDir := (getArchiveDir keccak256_hex).
Local Abbreviation checkProvenance := (checkProvenance keccak256_hex provenanceErrors).
Local Abbreviation markOrphaned := (markOrphaned keccak256_hex).
Local Abbreviation fetchAddress := (fetchAddress keccak256_hex provenanceErrors).
Local Abbreviation checkProvenance_stored :=
  (ArchiveFacts.checkProvenance_stored keccak256_hex provenanceErrors).

Lemma getArchiveDir_spelling chainName address address' :
  toChecksumAddress (Address.VString address')
  = toChecksumAddress (Address.VString address) ->
  getArchiveDir chainName address' = getArchiveDir chainName address.
Proof. unfold Archive.getArchiveDir. intros ->. reflexivity. Qed.

(** A fetch over a stored record that is not skipped: what it returns
    and what it writes, by what it has in hand. *)
Lemma fetchAddress_over chainName address options acquired suffix w dir p :
  getArchiveDir chainName address = Ok dir ->
  files w !! provenancePathOf dir = Some (Valid p) ->
  optDryRun options = false ->
  (optForce options = true \/ (DAY_MS < now w - lastUpdatedAt p)%Z) ->
  let out := fetchAddress options chainName address acquired suffix w in
  match acquired with
  | Failed e => out = (Throw e, w)
  | FromSourcify errors => out = (Throw (invalidData "metadata" errors), w)
  | FromExplorer data =>
      match jsonErrors (explorerMetadata data), verified data with
      | Some errors, _ => out = (Throw (invalidData "metadata" errors), w)
      | None, Some v =>
          out = (Throw (invalidData "hashes" (hashesErrors v)),
                 writeArtifacts dir (contractDataOf data) w)
      | None, None =>
          exists p',
            out = (Ok (Persisted p'),
                   writeProvenance dir p' (writeArtifacts dir (contractDataOf data) w)) /\
            firstSeenAt p' = firstSeenAt p /\
            lastUpdatedAt p' = now w /\
            sourcesUsed p' = ["explorer"] /\
            orphaned p' = None
      end
  end.
Proof.
  intros Hdir Hp Hdry Hwhy. cbv zeta. unfold Archive.fetchAddress. rewrite Hdry.
  rewrite (checkProvenance_stored _ _ _ _ _ _ Hdir Hp).
  cbn [shouldSkip force staleThreshold].
  assert (negb (Http.orZ None DAY_MS <? now w - lastUpdatedAt p)%Z
          && negb (optForce options) = false) as ->.
  { destruct Hwhy as [->|Hlate]; [apply andb_false_r|].
    cbn [Http.orZ]. destruct (Z.ltb_spec DAY_MS (now w - lastUpdatedAt p)); [reflexivity|lia]. }
  destruct acquired as [errors|data|e]; [reflexivity| |reflexivity].
  unfold Archive.persistContract. rewrite Hdir. unfold validateData.
  cbn [contractDataOf cdMetadata cdHashes].
  destruct (jsonErrors (explorerMetadata data)) as [errors|]; [reflexivity|].
  destruct (verified data) as [v|]; cbn [jsonErrors]; [reflexivity|].
  eexists. split; [reflexivity|]. cbn. auto.
Qed.



End WithHash.

End ArchiveMore.

(** * The address lists and the commands that walk them *)

Module CliMore.

Import Archive Cli.

(** Facts on the set of the addresses seen so far. *)
Lemma seen_nil (seen : gset string) : seen ∪ list_to_set [] = seen.
Proof. rewrite list_to_set_nil. apply union_empty_r_L. Qed.

Lemma seen_again (a : string) (rest : list string) (seen : gset string) :
  a ∈ seen -> seen ∪ list_to_set (a :: rest) = seen ∪ list_to_set rest.
Proof.
  intros Ha. apply set_eq. intros x.
  rewrite !elem_of_union, !elem_of_list_to_set, elem_of_cons.
  intuition (subst; auto).
Qed.

Lemma seen_fresh (a : string) (rest : list string) (seen : gset string) :
  seen ∪ list_to_set (a :: rest) = {[a]} ∪ seen ∪ list_to_set rest.
Proof.
  apply set_eq. intros x.
  rewrite !elem_of_union, !elem_of_list_to_set, elem_of_cons, elem_of_singleton.
  intuition auto.
Qed.

Lemma seen_size (a : string) (seen : gset string) :
  a ∉ seen -> size ({[a]} ∪ seen) = S (size seen).
Proof.
  intros Ha. rewrite size_union.
  - rewrite size_singleton. reflexivity.
  - apply disjoint_singleton_l. exact Ha.
Qed.

Lemma seen_empty (l : list string) : (∅ : gset string) ∪ list_to_set l = list_to_set l.
Proof. apply union_empty_l_L. Qed.

Section Reading.

Variable keccak256_hex : string -> string.
Variable trim : string -> string.
Variable readFile : string -> ReadFile.

Local Abbreviation toChecksumAddress := (Address.toChecksumAddress keccak256_hex).
Local Abbreviation isValidChecksumAddress :=
  (Address.isValidChecksumAddress keccak256_hex).
Local Abbreviation mapChecksum := (mapChecksum keccak256_hex).
Local Abbreviation readAddresses := (readAddresses keccak256_hex trim readFile).
Local Abbreviation validateLoop := (validateLoop keccak256_hex).
Local Abbreviation validateChain := (validateChain keccak256_hex trim readFile).

(** ** Reading the addresses of a chain *)

Lemma mapChecksum_Ok lines :
  forall rs, mapChecksum lines = Ok rs ->
  Forall2 (fun line r => toChecksumAddress (Address.VString line) = Ok r) lines rs.
Proof.
  induction lines as [|l lines IH]; intros rs; cbn [Cli.mapChecksum].
  - intros [= <-]. constructor.
  - destruct (toChecksumAddress (Address.VString l)) as [r|e] eqn:Hl; [|discriminate].
    destruct (mapChecksum lines) as [rs'|e]; [|discriminate].
    intros [= <-]. constructor; auto.
Qed.

Lemma mapChecksum_total lines :
  Forall (fun line => exists r, toChecksumAddress (Address.VString line) = Ok r) lines ->
  exists rs, mapChecksum lines = Ok rs.
Proof.
  induction 1 as [|l lines [r Hr] _ [rs IH]]; cbn [Cli.mapChecksum]; [eauto|].
  rewrite Hr, IH. eauto.
Qed.

Lemma mapChecksum_Throw lines e :
  mapChecksum lines = Throw e ->
  exists line, line ∈ lines /\ toChecksumAddress (Address.VString line) = Throw e.
Proof.
  induction lines as [|l lines IH]; cbn [Cli.mapChecksum]; [discriminate|].
  destruct (toChecksumAddress (Address.VString l)) as [r|e'] eqn:Hl.
  - destruct (mapChecksum lines) as [rs'|e'']; [discriminate|].
    intros [= ->]. destruct IH as (line & Hin & Hline); [reflexivity|].
    exists line. split; [right; exact Hin|exact Hline].
  - intros [= ->]. exists l. split; [left|exact Hl].
Qed.

Lemma toChecksumAddress_Throw a e :
  toChecksumAddress (Address.VString a) = Throw e ->
  e = plainError "Invalid address format".
Proof.
  unfold Address.toChecksumAddress. cbv zeta. destruct (negb _); congruence.
Qed.

Lemma checksummed_length a r :
  toChecksumAddress (Address.VString a) = Ok r -> String.length r = 42%nat.
Proof.
  intros H. apply AddressFacts.toChecksumAddress_Ok in H as [Ht ->].
  change (String.length ("0x" ++ ?s)) with (S (S (String.length s))).
  rewrite AddressFacts.checksumLoop_length.
  apply AddressMore.test40hex_length in Ht. rewrite Ht. reflexivity.
Qed.

(** X17.  [readAddresses] is all or nothing.  The lines of the file are
    trimmed, and the empty ones and those that begin with [#] are
    dropped.  If every line that is left converts, the result lists
    their checksummed forms in the order of the file, duplicates
    included, and each of them is a checksummed address of 42
    characters; if one does not convert, the call throws
    [Invalid address format] and no address of the file is returned.
    A file that does not exist reads as the empty list, any other
    failure to read it is thrown. *)
Theorem readAddresses_all_or_nothing (chainName : string) :
  let file := readFile (getAddressesFilePath chainName) in
  (file = NoEntry -> readAddresses chainName = Ok []) /\
  (forall e, file = ReadFailure e -> readAddresses chainName = Throw e) /\
  (forall content, file = Content content ->
     let kept := List.filter keepLine (map trim (splitLines content)) in
     (Forall (fun line => exists r, toChecksumAddress (Address.VString line) = Ok r)
        kept ->
      exists rs, readAddresses chainName = Ok rs) /\
     (forall rs, readAddresses chainName = Ok rs ->
        Forall2 (fun line r => toChecksumAddress (Address.VString line) = Ok r)
          kept rs /\
        Forall (fun r => isValidChecksumAddress (Address.VString r) = true /\
                         String.length r = 42%nat) rs) /\
     (forall line e,
        line ∈ kept -> toChecksumAddress (Address.VString line) = Throw e ->
        readAddresses chainName = Throw (plainError "Invalid address format")) /\
     (forall line, line ∈ kept -> line <> "" /\ startsWith "#" line = false)).
Proof.
  cbv zeta. unfold Cli.readAddresses. split; [|split].
  - intros ->. reflexivity.
  - intros e ->. reflexivity.
  - intros content ->. split; [|split; [|split]].
    + apply mapChecksum_total.
    + intros rs Hrs. apply mapChecksum_Ok in Hrs. split; [exact Hrs|].
      induction Hrs as [|l r ls rs' Hl _ IH]; constructor; [|exact IH].
      split; [eapply AddressFacts.toChecksumAddress_output_valid; exact Hl
             |eapply checksummed_length; exact Hl].
    + intros line e Hin Hline.
      destruct (mapChecksum _) as [rs|e'] eqn:Hm.
      * apply mapChecksum_Ok in Hm.
        apply list_elem_of_lookup in Hin as [i Hi].
        destruct (Forall2_lookup_l _ _ _ _ _ Hm Hi) as (r & _ & Hr). congruence.
      * apply mapChecksum_Throw in Hm as (l & _ & Hl).
        apply toChecksumAddress_Throw in Hl. rewrite Hl. reflexivity.
    + intros line Hin. apply list_elem_of_In, List.filter_In in Hin as [_ Hk].
      unfold keepLine in Hk. apply andb_true_iff in Hk as [Hne Hc].
      apply negb_true_iff in Hne, Hc. split; [|exact Hc].
      intros ->. discriminate.
Qed.

(** ** The loop of [validate-input] *)

Lemma validateLoop_checksummed addresses :
  Forall (fun a => isValidChecksumAddress (Address.VString a) = true) addresses ->
  forall seen chainErrors printed,
  exists dups,
    validateLoop addresses seen chainErrors printed
    = ((chainErrors + length dups)%nat, (printed ++ map Duplicate dups)%list) /\
    (length dups + size (seen ∪ list_to_set addresses) = length addresses + size seen)%nat /\
    (dups = [] <-> NoDup addresses /\ forall a, a ∈ addresses -> a ∉ seen).
Proof.
  induction 1 as [|a rest Ha _ IH]; intros seen chainErrors printed.
  - exists []. cbn [Cli.validateLoop length map]. rewrite app_nil_r, Nat.add_0_r.
    split; [reflexivity|]. split.
    + rewrite seen_nil. reflexivity.
    + split; [intros _; split; [constructor|]|reflexivity].
      intros a Ha. apply elem_of_nil in Ha as [].
  - cbn [Cli.validateLoop]. rewrite Ha. cbn [negb].
    destruct (bool_decide (a ∈ seen)) eqn:Hseen.
    + apply bool_decide_eq_true in Hseen.
      destruct (IH seen (S chainErrors) (printed ++ [Duplicate a])%list)
        as (dups & Heq & Hsize & Hnil).
      exists (a :: dups). rewrite Heq. cbn [length map].
      split; [rewrite <- app_assoc; f_equal; lia|]. split.
      * rewrite (seen_again a rest seen Hseen). lia.
      * split; [discriminate|]. intros [_ Hfresh]. exfalso.
        apply (Hfresh a); [left|exact Hseen].
    + apply bool_decide_eq_false in Hseen.
      destruct (IH ({[a]} ∪ seen) chainErrors printed) as (dups & Heq & Hsize & Hnil).
      exists dups. rewrite Heq. split; [reflexivity|]. split.
      * rewrite (seen_fresh a rest seen). rewrite (seen_size a seen Hseen) in Hsize.
        cbn [length]. lia.
      * rewrite Hnil, NoDup_cons. split.
        -- intros [Hnd Hfresh]. split; [split; [|exact Hnd]|].
           ++ intros Hin. apply (Hfresh a Hin), elem_of_union_l, elem_of_singleton.
              reflexivity.
           ++ intros x Hx Hxs. apply elem_of_cons in Hx as [->|Hx]; [tauto|].
              apply (Hfresh x Hx), elem_of_union_r, Hxs.
        -- intros [[Hna Hnd] Hfresh]. split; [exact Hnd|].
           intros x Hx Hxs. apply elem_of_union in Hxs as [Hxa|Hxs].
           ++ apply elem_of_singleton in Hxa as ->. tauto.
           ++ apply (Hfresh x); [right; exact Hx|exact Hxs].
Qed.

(** X18.  What [validate-input] can find.  The addresses it is given
    come out of [readAddresses] and are in checksummed form already, so
    the check of the format never fails and nothing but duplicates is
    reported: the number of errors of a chain is the number of addresses
    minus the number of distinct ones, and it is zero exactly when no
    address occurs twice. *)
Theorem validate_input_reports_duplicates (chainName : string) (n errors : nat)
    (printed : list Report) :
  validateChain chainName = Ok (n, errors, printed) ->
  exists addresses dups,
    readAddresses chainName = Ok addresses /\
    n = length addresses /\
    printed = map Duplicate dups /\
    errors = length dups /\
    (errors + size (list_to_set addresses : gset string) = n)%nat /\
    (errors = 0%nat <-> NoDup addresses).
Proof.
  unfold Cli.validateChain.
  destruct (readAddresses chainName) as [addresses|e] eqn:Hread; [|discriminate].
  assert (Forall (fun a => isValidChecksumAddress (Address.VString a) = true)
            addresses) as Hvalid.
  { revert Hread. unfold Cli.readAddresses.
    destruct (readFile _) as [content| |e]; [|intros [= <-]; constructor|discriminate].
    intros Hm. apply mapChecksum_Ok in Hm.
    induction Hm as [|l r ls rs Hl _ IH]; constructor; [|exact IH].
    eapply AddressFacts.toChecksumAddress_output_valid; exact Hl. }
  destruct (validateLoop_checksummed addresses Hvalid ∅ 0%nat [])
    as (dups & Heq & Hsize & Hnil).
  rewrite Heq. cbn [app Nat.add]. intros [= <- <- <-].
  exists addresses, dups. split; [reflexivity|]. split; [reflexivity|].
  split; [reflexivity|]. split; [reflexivity|]. split.
  - rewrite size_empty, Nat.add_0_r in Hsize.
    rewrite (seen_empty addresses) in Hsize. exact Hsize.
  - rewrite length_zero_iff_nil, Hnil. split; [tauto|]. intros Hnd.
    split; [exact Hnd|]. intros a _. apply not_elem_of_empty.
Qed.

End Reading.

(** ** The selection of [fetch] *)

Lemma slice_sublist {A : Type} (l : list A) start end_ :
  slice l start end_ `sublist_of` l.
Proof.
  unfold slice. cbv zeta.
  etransitivity; [apply sublist_take|apply sublist_drop].
Qed.

Lemma slice_from {A : Type} (l : list A) (from : Z) :
  (0 <= from)%Z -> slice l (Some from) None = skipn (Z.to_nat from) l.
Proof.
  intros Hfrom. unfold slice, relativeIndex, toInteger. cbn [default from_option id]. cbv zeta.
  destruct (Z.ltb_spec from 0) as [?|_]; [lia|].
  rewrite firstn_all2 by (rewrite length_skipn; lia).
  destruct (Z.le_gt_cases from (Z.of_nat (length l))) as [Hle|Hgt].
  - rewrite Z.min_l by lia. reflexivity.
  - rewrite Z.min_r by lia. rewrite Nat2Z.id.
    rewrite !skipn_all2 by lia. reflexivity.
Qed.

Lemma slice_to {A : Type} (l : list A) (to : Z) :
  (0 <= to)%Z -> slice l (Some 0%Z) (Some (Some to)) = firstn (Z.to_nat to) l.
Proof.
  intros Hto. unfold slice, relativeIndex, toInteger. cbn [default from_option id]. cbv zeta.
  destruct (Z.ltb_spec to 0) as [?|_]; [lia|]. cbn [Z.ltb Z.compare].
  rewrite (Z.min_l 0) by lia. change (Z.to_nat 0) with 0%nat. change (skipn 0 l) with l.
  rewrite Z.sub_0_r.
  destruct (Z.le_gt_cases to (Z.of_nat (length l))) as [Hle|Hgt].
  - rewrite Z.min_l by lia. reflexivity.
  - rewrite Z.min_r by lia. rewrite Nat2Z.id.
    rewrite !firstn_all2 by lia. reflexivity.
Qed.

Lemma slice_to_negative {A : Type} (l : list A) (to : Z) :
  (to < 0)%Z ->
  slice l (Some 0%Z) (Some (Some to)) = firstn (length l - Z.to_nat (- to)) l.
Proof.
  intros Hto. unfold slice, relativeIndex, toInteger. cbn [default from_option id]. cbv zeta.
  destruct (Z.ltb_spec to 0) as [_|?]; [|lia]. cbn [Z.ltb Z.compare].
  rewrite (Z.min_l 0) by lia. change (Z.to_nat 0) with 0%nat. change (skipn 0 l) with l.
  rewrite Z.sub_0_r.
  f_equal. lia.
Qed.

Lemma slice_to_NaN {A : Type} (l : list A) :
  slice l (Some 0%Z) (Some None) = [].
Proof.
  unfold slice, relativeIndex, toInteger. cbn [default from_option id]. cbv zeta.
  cbn [Z.ltb Z.compare]. rewrite (Z.min_l 0) by lia. reflexivity.
Qed.

Section Selecting.

Variable keccak256_hex : string -> string.

Local Abbreviation toChecksumAddress := (Address.toChecksumAddress keccak256_hex).
Local Abbreviation selectAddresses := (selectAddresses keccak256_hex).

(** X19.  Which addresses [fetch] selects.  With [--from f] and
    [--to t], [0 <= f <= t], these are the addresses at the positions
    [f] to [t - 1] of the list.  With [0 <= t < f] they are the
    addresses from position [f] on without the last [f - t] of them:
    none when the list has at most [2 * f - t] addresses, some
    otherwise.  A [--to] that does not parse selects nothing.  A
    [--limit] of zero, or one that does not parse, is no limit at all,
    and a positive one keeps that many of the addresses selected
    otherwise.  Whatever the options, the selected addresses are
    addresses of the list, in the order of the list. *)
Theorem selectAddresses_ranges (addresses : list string) :
  (forall from to,
     (0 <= from <= to)%Z ->
     selectAddresses {| optAddress := None; optFrom := Some (Some from);
                        optTo := Some (Some to); optLimit := None |} addresses
     = Ok (firstn (Z.to_nat (to - from)) (skipn (Z.to_nat from) addresses))) /\
  (forall from to,
     (0 <= to < from)%Z ->
     selectAddresses {| optAddress := None; optFrom := Some (Some from);
                        optTo := Some (Some to); optLimit := None |} addresses
     = Ok (let rest := skipn (Z.to_nat from) addresses in
           firstn (length rest - Z.to_nat (from - to)) rest) /\
     ((let rest := skipn (Z.to_nat from) addresses in
       firstn (length rest - Z.to_nat (from - to)) rest) = [] <->
      (Z.of_nat (length addresses) <= 2 * from - to)%Z)) /\
  (forall target from,
     selectAddresses {| optAddress := target; optFrom := from;
                        optTo := Some None; optLimit := None |} addresses = Ok [] \/
     exists e,
       selectAddresses {| optAddress := target; optFrom := from;
                          optTo := Some None; optLimit := None |} addresses = Throw e) /\
  (forall target from to limit,
     limit = Some (Some 0%Z) \/ limit = Some None ->
     selectAddresses {| optAddress := target; optFrom := from; optTo := to;
                        optLimit := limit |} addresses
     = selectAddresses {| optAddress := target; optFrom := from; optTo := to;
                          optLimit := None |} addresses) /\
  (forall target from to n selected,
     (0 < n)%Z ->
     selectAddresses {| optAddress := target; optFrom := from; optTo := to;
                        optLimit := None |} addresses = Ok selected ->
     selectAddresses {| optAddress := target; optFrom := from; optTo := to;
                        optLimit := Some (Some n) |} addresses
     = Ok (firstn (Z.to_nat n) selected)) /\
  (forall options selected,
     selectAddresses options addresses = Ok selected ->
     selected `sublist_of` addresses).
Proof.
  split; [|split; [|split; [|split; [|split]]]].
  - intros from to Hft. unfold Cli.selectAddresses.
    cbn [optAddress optFrom optTo optLimit truthy truthyNumber orZero minus].
    rewrite slice_from by lia. rewrite slice_to by lia. reflexivity.
  - intros from to Hft. split.
    + unfold Cli.selectAddresses.
      cbn [optAddress optFrom optTo optLimit truthy truthyNumber orZero minus].
      rewrite slice_from by lia. rewrite slice_to_negative by lia.
      cbv zeta. do 3 f_equal. lia.
    + cbv zeta.
      pose proof (length_skipn (Z.to_nat from) addresses) as Hlen.
      set (rest := skipn (Z.to_nat from) addresses) in *.
      split.
      * intros Hnil. apply (f_equal (@length string)) in Hnil.
        rewrite length_firstn in Hnil. cbn [length] in Hnil. lia.
      * intros Hle. apply nil_length_inv. rewrite length_firstn. lia.
  - intros target from. unfold Cli.selectAddresses.
    cbn [optAddress optFrom optTo optLimit truthyNumber minus].
    destruct (truthy target); [destruct (toChecksumAddress _) as [r|e]|];
      try (right; eexists; reflexivity);
      left; rewrite slice_to_NaN; reflexivity.
  - intros target from to limit [-> | ->]; reflexivity.
  - intros target from to n selected Hn. unfold Cli.selectAddresses.
    cbn [optAddress optFrom optTo optLimit truthyNumber].
    destruct (Z.eqb_spec n 0) as [?|_]; [lia|]. cbn [negb].
    destruct (if truthy target then _ else _) as [a0|e]; [|discriminate].
    intros [= <-]. rewrite slice_to by lia. reflexivity.
  - intros options selected. unfold Cli.selectAddresses.
    assert (forall a0 : list string,
              a0 `sublist_of` addresses ->
              (if truthyNumber (optLimit options)
               then slice
                      match optTo options with
                      | Some to =>
                          slice match optFrom options with
                                | Some from => slice a0 from None
                                | None => a0
                                end (Some 0%Z)
                            (Some (minus to (orZero (optFrom options))))
                      | None => match optFrom options with
                                | Some from => slice a0 from None
                                | None => a0
                                end
                      end (Some 0%Z) (optLimit options)
               else match optTo options with
                    | Some to =>
                        slice match optFrom options with
                              | Some from => slice a0 from None
                              | None => a0
                              end (Some 0%Z)
                          (Some (minus to (orZero (optFrom options))))
                    | None => match optFrom options with
                              | Some from => slice a0 from None
                              | None => a0
                              end
                    end) `sublist_of` addresses) as Hsub.
    { intros a0 H0.
      assert (match optFrom options with
              | Some from => slice a0 from None
              | None => a0
              end `sublist_of` addresses) as H1.
      { destruct (optFrom options); [|exact H0].
        etransitivity; [apply slice_sublist|exact H0]. }
      assert (match optTo options with
              | Some to =>
                  slice match optFrom options with
                        | Some from => slice a0 from None
                        | None => a0
                        end (Some 0%Z) (Some (minus to (orZero (optFrom options))))
              | None => match optFrom options with
                        | Some from => slice a0 from None
                        | None => a0
                        end
              end `sublist_of` addresses) as H2.
      { destruct (optTo options); [|exact H1].
        etransitivity; [apply slice_sublist|exact H1]. }
      destruct (truthyNumber (optLimit options)); [|exact H2].
      etransitivity; [apply slice_sublist|exact H2]. }
    destruct (truthy (optAddress options)).
    + destruct (toChecksumAddress _) as [r|e]; [|discriminate].
      intros [= <-]. apply Hsub, sublist_filter.
    + intros [= <-]. apply Hsub. reflexivity.
Qed.

End Selecting.

(** ** The loop of [fetch] and its exit status *)

Lemma failureRate_high (t : Totals) :
  (1 # 2 < failureRate t)%Q <-> (0 < totalProcessed t < 2 * totalFailed t)%nat.
Proof.
  unfold failureRate. destruct t as [p s f]. cbn [totalProcessed totalFailed].
  destruct p as [|p]; cbn [Nat.ltb Nat.leb].
  - split; [intros H; inversion H|lia].
  - change (Z.of_nat (S p)) with (Z.pos (Pos.of_succ_nat p)).
    unfold Qlt, Qdiv, Qmult, Qinv, inject_Z. cbn [Qnum Qden].
    rewrite Pos.mul_1_l, Zpos_P_of_succ_nat. lia.
Qed.

Section Running.

Variable keccak256_hex : string -> string.
Variable acquire : nat -> Acquired.
Variable suffix : nat -> string.
Variable provenanceErrors : Draft -> string.

Local Abbreviation addressLoop :=
  (addressLoop keccak256_hex acquire suffix provenanceErrors).

Lemma addressLoop_counts options strict chainName addresses :
  forall t w,
  match addressLoop options strict chainName addresses t w with
  | (Ok t', w') =>
      totalProcessed t' = (totalProcessed t + length addresses)%nat /\
      (totalSuccessful t <= totalSuccessful t')%nat /\
      (totalFailed t <= totalFailed t')%nat /\
      ((totalSuccessful t' - totalSuccessful t)
       + (totalFailed t' - totalFailed t) <= length addresses)%nat /\
      (strict = true -> totalFailed t' = totalFailed t) /\
      now w' = now w /\
      (totalSuccessful t' = totalSuccessful t -> files w' = files w)
  | (Throw e, w') => strict = true
  end.
Proof.
  induction addresses as [|a rest IH]; intros t w; cbn [Cli.addressLoop length].
  - repeat split; lia.
  - cbv zeta.
    pose proof (ArchiveFacts.fetchAddress_world keccak256_hex provenanceErrors options
                  chainName a (acquire (totalProcessed t)) (suffix (totalProcessed t)) w)
      as [Hnow Hw].
    destruct (fetchAddress keccak256_hex provenanceErrors options chainName a _ _ w)
      as [[r|e] w1] eqn:Hf; cbn [snd] in Hnow, Hw.
    + assert ((forall p, r <> Persisted p) -> files w1 = files w) as Hfiles.
      { intros Hnot. destruct Hw as [Hw|[p Hp]]; [exact Hw|].
        injection Hp as ->. destruct (Hnot p eq_refl). }
      destruct r as [| |p];
        match goal with
        | |- context [addressLoop _ _ _ _ ?t1 w1] =>
            specialize (IH t1 w1); destruct (addressLoop _ _ _ _ t1 w1) as [[t'|e'] w'];
            cbn [totalProcessed totalSuccessful totalFailed] in IH; [|exact IH]
        end;
        destruct IH as (I1 & I2 & I3 & I4 & I5 & I6 & I7);
        (split; [lia|]); (split; [lia|]); (split; [lia|]); (split; [lia|]);
        (split; [exact I5|]); (split; [congruence|]); intros Hs.
      * rewrite (I7 Hs). apply Hfiles. discriminate.
      * rewrite (I7 Hs). apply Hfiles. discriminate.
      * lia.
    + assert (files w1 = files w) as Hfiles
        by (destruct Hw as [Hw|[p Hp]]; [exact Hw|discriminate Hp]).
      destruct strict; [reflexivity|].
      match goal with
      | |- context [addressLoop _ _ _ _ ?t1 w1] =>
          specialize (IH t1 w1); destruct (addressLoop _ _ _ _ t1 w1) as [[t'|e'] w'];
          cbn [totalProcessed totalSuccessful totalFailed] in IH; [|exact IH]
      end.
      destruct IH as (I1 & I2 & I3 & I4 & I5 & I6 & I7).
      (split; [lia|]); (split; [lia|]); (split; [lia|]); (split; [lia|]).
      split; [discriminate|]. split; [congruence|]. intros Hs.
      rewrite (I7 Hs). exact Hfiles.
Qed.


End Running.

End CliMore.

(** * Properties of the contract verifier *)

Module VerificationFacts.

Import Verification.

Lemma startsWith_drop pat : forall s,
  startsWith pat s = true -> (pat ++ JS.drop (String.length pat) s)%string = s.
Proof.
  induction pat as [|a pat IH]; intros s H; [reflexivity|].
  destruct s as [|b s]; [discriminate|]. cbn [startsWith] in H.
  apply andb_true_iff in H as [Hab Hs]. apply Ascii.eqb_eq in Hab as ->.
  change (String b (pat ++ JS.drop (String.length pat) s)%string = String b s).
  f_equal. apply IH, Hs.
Qed.

Lemma replace_prefix pat rep s :
  startsWith pat s = true ->
  JS.replace pat rep s = (rep ++ JS.drop (String.length pat) s)%string.
Proof. intros H. destruct s; cbn [JS.replace]; rewrite H; reflexivity. Qed.

Lemma noBytecode_spec bytecode :
  noBytecode bytecode = true <->
  bytecode = None \/ bytecode = Some ""%string \/ bytecode = Some "0x"%string.
Proof.
  unfold noBytecode. destruct bytecode as [s|]; cbn [truthy default from_option id].
  - destruct (String.eqb_spec s "") as [->|Hne]; cbn [negb orb].
    + split; auto.
    + destruct (String.eqb_spec s "0x") as [->|Hne']; split; auto.
      * discriminate.
      * intros [?|[[= ?]|[= ?]]]; [discriminate|contradiction..].
  - split; auto.
Qed.

Section WithEnvironment.

Variable digestOfHex : string -> string.
Variable W : Type.
Variable ethGetCode : string -> string -> W -> Result (option RpcResponse) * W.

Local Abbreviation fetchDeployedBytecode := (fetchDeployedBytecode W ethGetCode).
Local Abbreviation calculateBytecodeHash := (calculateBytecodeHash digestOfHex).
Local Abbreviation fetchOnChain := (fetchOnChain digestOfHex W ethGetCode).
Local Abbreviation readMetadata := (readMetadata digestOfHex).
Local Abbreviation verifyContract := (verifyContract digestOfHex W ethGetCode).
Local Abbreviation createHashesRecord := (createHashesRecord digestOfHex).

Lemma fetchDeployedBytecode_some url addr w b w1 :
  fetchDeployedBytecode url addr w = (Ok (Some b), w1) ->
  noBytecode (Some b) = false.
Proof.
  unfold Verification.fetchDeployedBytecode. destruct (negb (truthy url)); [discriminate|].
  destruct (ethGetCode _ addr w) as [[[response|]|e] w2]; try discriminate.
  destruct (rpcError response); [discriminate|].
  destruct (noBytecode (rpcResult response)) eqn:Hn; [discriminate|].
  intros [= Hb _]. rewrite Hb in Hn. exact Hn.
Qed.

(** X21.  The hash of a byte code.  [calculateBytecodeHash] answers
    [null] exactly for a missing byte code, the empty string and [0x];
    otherwise it answers the lower-cased digest of the byte code without
    its leading [0x], so that a non-empty byte code that does not itself
    begin with [0x] hashes the same with and without the prefix, and
    its answer is in lower case.  Every byte code that
    [fetchDeployedBytecode] returns has a hash. *)
Theorem calculateBytecodeHash_prefix (bytecode : option string) :
  (calculateBytecodeHash bytecode = None <->
   bytecode = None \/ bytecode = Some ""%string \/ bytecode = Some "0x"%string) /\
  (forall s,
     s <> ""%string -> startsWith "0x" s = false ->
     calculateBytecodeHash (Some ("0x" ++ s)%string) = calculateBytecodeHash (Some s) /\
     calculateBytecodeHash (Some s) = Some (toLowerCase (digestOfHex s))) /\
  (forall h, calculateBytecodeHash bytecode = Some h -> toLowerCase h = h) /\
  (forall url addr w b w1,
     fetchDeployedBytecode url addr w = (Ok (Some b), w1) ->
     exists h, calculateBytecodeHash (Some b) = Some h).
Proof.
  split; [|split; [|split]].
  - rewrite <- noBytecode_spec. unfold Verification.calculateBytecodeHash.
    destruct (noBytecode bytecode); split; congruence.
  - intros s Hne Hs. unfold Verification.calculateBytecodeHash.
    assert (noBytecode (Some s) = false) as ->.
    { destruct (noBytecode (Some s)) eqn:Hn; [|reflexivity].
      apply noBytecode_spec in Hn as [?|[[= ->]|[= ->]]];
        [discriminate|congruence|discriminate Hs]. }
    assert (noBytecode (Some ("0x" ++ s)%string) = false) as ->.
    { destruct (noBytecode (Some ("0x" ++ s)%string)) eqn:Hn; [|reflexivity].
      apply noBytecode_spec in Hn as [?|[[= ?]|[= H]]]; [discriminate..|].
      change (s = ""%string) in H. contradiction. }
    cbn [default from_option id]. unfold stripPrefix. rewrite Hs.
    split; reflexivity.
  - intros h. unfold Verification.calculateBytecodeHash.
    destruct (noBytecode bytecode); [discriminate|]. intros [= <-].
    apply AddressMore.toLowerCase_idempotent.
  - intros url addr w b w1 Hf. apply fetchDeployedBytecode_some in Hf.
    unfold Verification.calculateBytecodeHash. rewrite Hf. eauto.
Qed.

Lemma truthy_eqb_nonempty (h h' : option string) :
  truthy h = true -> truthy h' = true ->
  String.eqb (default "" h) (default "" h') = true ->
  exists x, x <> ""%string /\ h = Some x /\ h' = Some x.
Proof.
  destruct h as [x|]; [|discriminate]. destruct h' as [y|]; [|discriminate].
  cbn [truthy default from_option id]. intros Hx _ Heq.
  apply String.eqb_eq in Heq as <-. exists x. split; [|auto].
  intros ->. discriminate.
Qed.

Lemma compareHashes_verdict (r : VerificationResult) :
  verified r = false -> hashMatch r = false -> errors r = [] ->
  let r' := compareHashes r in
  address r' = address r /\
  resultChainId r' = resultChainId r /\
  onChainHash r' = onChainHash r /\
  metadataHash r' = metadataHash r /\
  verified r' = hashMatch r' /\
  (verified r' = true ->
   errors r' = [] /\
   exists h, h <> ""%string /\ onChainHash r = Some h /\ metadataHash r = Some h) /\
  (length (errors r') <= 1)%nat /\
  (verified r' = false -> errors r' = [] ->
   last (warnings r')
   = Some "Cannot verify bytecode - missing on-chain data or metadata bytecode"%string) /\
  (warnings r <> [] -> warnings r' <> []).
Proof.
  intros Hv Hh He. cbv zeta. unfold compareHashes.
  destruct (truthy (onChainHash r)) eqn:Ha;
    [destruct (truthy (metadataHash r)) eqn:Hm|]; cbn [andb].
  1: destruct (String.eqb (default "" (onChainHash r)) (default "" (metadataHash r)))
       eqn:Heq.
  all: cbn [address resultChainId verified onChainBytecode onChainHash metadataHash
            hashMatch errors warnings pushWarning pushError].
  all: rewrite ?He, ?Hv, ?Hh.
  all: repeat split; try reflexivity; try (cbn; lia); try discriminate;
    try (intros; discriminate); try (intros _ _; apply last_snoc);
    try (intros _ Hl; apply app_eq_nil in Hl as [_ Hl]; discriminate Hl);
    try (intros Hw; exact Hw).
  destruct (truthy_eqb_nonempty _ _ Ha Hm Heq) as (x & Hx & Hon & Hmd).
  exists x. auto.
Qed.

Lemma readMetadata_keeps (md : Metadata) (r : VerificationResult) :
  let r' := readMetadata md r in
  address r' = address r /\
  resultChainId r' = resultChainId r /\
  onChainHash r' = onChainHash r /\
  verified r' = verified r /\
  hashMatch r' = hashMatch r /\
  errors r' = errors r /\
  (truthy (deployedBytecodeObject md) = false -> metadataHash r' = metadataHash r) /\
  (warnings r <> [] -> warnings r' <> []).
Proof.
  cbv zeta. unfold Verification.readMetadata.
  destruct (truthy (deployedBytecodeObject md));
    [|destruct (compilationTarget md && present (sources md))];
    cbn [address resultChainId verified onChainBytecode onChainHash metadataHash
         hashMatch errors warnings pushWarning pushError];
    repeat split; try reflexivity; try discriminate; try (intros H; exact H);
    intros _ Hl; apply app_eq_nil in Hl as [_ Hl]; discriminate Hl.
Qed.

(** X22.  The verdict of [verifyContract].  The result carries the
    address and the chain it was asked about; [verified] equals
    [hashMatch]; a contract is verified only if an RPC endpoint is
    configured, the metadata carries a deployed byte code, and the two
    hashes are present, non-empty and equal, and then no error is
    reported.  At most one error is reported.  A result that is neither
    verified nor in error ends with the warning that the byte code
    could not be verified.  Without an RPC endpoint no request is made
    and the contract is never verified. *)
Theorem verifyContract_verdict (chainConfig : ChainConfig) (addr : string)
    (metadata : option Metadata) (w : W) :
  let r := fst (verifyContract chainConfig addr metadata w) in
  address r = addr /\
  resultChainId r = chainId chainConfig /\
  verified r = hashMatch r /\
  (verified r = true ->
   errors r = [] /\
   truthy (rpcUrl chainConfig) = true /\
   exists h md,
     metadata = Some md /\
     truthy (deployedBytecodeObject md) = true /\
     h <> ""%string /\
     onChainHash r = Some h /\
     metadataHash r = Some h) /\
  (length (errors r) <= 1)%nat /\
  (verified r = false -> errors r = [] ->
   last (warnings r)
   = Some "Cannot verify bytecode - missing on-chain data or metadata bytecode"%string) /\
  (truthy (rpcUrl chainConfig) = false ->
   snd (verifyContract chainConfig addr metadata w) = w /\
   verified r = false /\
   onChainHash r = None /\
   warnings r <> []).
Proof.
  cbv zeta. unfold Verification.verifyContract.
  set (result := {| address := addr; resultChainId := chainId chainConfig;
                    verified := false; onChainBytecode := None; onChainHash := None;
                    metadataHash := None; hashMatch := false; errors := [];
                    warnings := [] |}).
  assert (forall r1 w1,
            fetchOnChain chainConfig result w = (Ok r1, w1) ->
            address r1 = addr /\ resultChainId r1 = chainId chainConfig /\
            verified r1 = false /\ hashMatch r1 = false /\ errors r1 = [] /\
            metadataHash r1 = None /\
            (onChainHash r1 <> None -> truthy (rpcUrl chainConfig) = true) /\
            (truthy (rpcUrl chainConfig) = false ->
             w1 = w /\ onChainHash r1 = None /\ warnings r1 <> [])) as Hstep.
  { intros r1 w1. unfold Verification.fetchOnChain.
    destruct (truthy (rpcUrl chainConfig)).
    - destruct (fetchDeployedBytecode _ _ w) as [[bytecode|e] w2]; [|discriminate].
      destruct (truthy bytecode); intros [= <- <-];
        cbn [address resultChainId verified onChainBytecode onChainHash metadataHash
             hashMatch errors warnings pushWarning result];
        repeat split; try reflexivity; discriminate.
    - intros [= <- <-].
      cbn [address resultChainId verified onChainBytecode onChainHash metadataHash
           hashMatch errors warnings pushWarning result].
      repeat split; try reflexivity; try discriminate. congruence. }
  destruct (fetchOnChain chainConfig result w) as [[r1|e] w1] eqn:Hfetch.
  - destruct (Hstep r1 w1 eq_refl)
      as (Haddr & Hchain & Hv & Hh & He & Hmh & Hon & Hnorpc).
    destruct metadata as [md|]; cbn [fst snd].
    + pose proof (readMetadata_keeps md r1)
        as (Ka & Kc & Ko & Kv & Kh & Ke & Km & Kw). cbv zeta in *.
      destruct (compareHashes_verdict (readMetadata md r1))
        as (Ca & Cc & Co & Cm & Cv & Ct & Cl & Cf & Cw); [congruence..|].
      cbv zeta in *.
      split; [congruence|]. split; [congruence|]. split; [exact Cv|].
      split; [|split; [exact Cl|split; [exact Cf|]]].
      * intros Ht. destruct (Ct Ht) as (Hnil & h & Hne & Hoh & Hmd).
        split; [exact Hnil|]. split; [apply Hon; congruence|].
        exists h, md. split; [reflexivity|].
        destruct (truthy (deployedBytecodeObject md)) eqn:Hobj.
        -- split; [reflexivity|]. split; [exact Hne|]. split; congruence.
        -- rewrite (Km eq_refl), Hmh in Hmd. discriminate.
      * intros Hno. destruct (Hnorpc Hno) as (-> & Hnone & Hwarn).
        split; [reflexivity|]. split; [|split; [congruence|auto]].
        destruct (verified (compareHashes (readMetadata md r1))) eqn:Hver;
          [|reflexivity].
        destruct (Ct eq_refl) as (_ & h & _ & Hoh & _). congruence.
    + cbn [address resultChainId verified onChainBytecode onChainHash metadataHash
           hashMatch errors warnings pushError].
      rewrite He, Hv, Hh. cbn [app length].
      split; [exact Haddr|]. split; [exact Hchain|]. split; [reflexivity|].
      split; [discriminate|]. split; [lia|]. split; [discriminate|].
      intros Hno. destruct (Hnorpc Hno) as (-> & Hnone & Hwarn). auto.
  - cbn [fst snd address resultChainId verified onChainBytecode onChainHash
         metadataHash hashMatch errors warnings pushError result app length].
    split; [reflexivity|]. split; [reflexivity|]. split; [reflexivity|].
    split; [discriminate|]. split; [lia|]. split; [discriminate|].
    intros Hno. revert Hfetch. unfold Verification.fetchOnChain. rewrite Hno.
    discriminate.
Qed.

Lemma startsWith_append pat s : startsWith pat (pat ++ s)%string = true.
Proof.
  induction pat as [|a pat IH]; [reflexivity|].
  change (startsWith (String a pat) (String a (pat ++ s)%string) = true).
  cbn [startsWith]. rewrite Ascii.eqb_refl. exact IH.
Qed.

Lemma drop_append pat s : JS.drop (String.length pat) (pat ++ s)%string = s.
Proof. induction pat as [|a pat IH]; [reflexivity|exact IH]. Qed.

Lemma collectCids_spec entries :
  forall cids c,
  c ∈ collectCids entries cids <->
  c ∈ cids \/
  exists fileName sourceInfo us,
    (fileName, sourceInfo) ∈ entries /\ urls sourceInfo = Some us /\
    ("ipfs://" ++ c)%string ∈ us.
Proof.
  induction entries as [|[fileName sourceInfo] rest IH]; intros cids c;
    cbn [collectCids].
  - split; [auto|]. intros [H|(f & i & us & Hin & _)]; [exact H|].
    apply elem_of_nil in Hin as [].
  - destruct (urls sourceInfo) as [us|] eqn:Hus; rewrite IH.
    + rewrite elem_of_app. split.
      * intros [[Hc|Hc]|(f & i & us' & Hin & Hrest)]; [auto| |].
        -- right. exists fileName, sourceInfo, us. split; [left|]. split; [exact Hus|].
           apply list_elem_of_fmap in Hc as (url & -> & Hurl).
           apply list_elem_of_In, List.filter_In in Hurl as [Hurl Hp].
           rewrite (replace_prefix _ _ _ Hp).
           change ("" ++ JS.drop (String.length "ipfs://") url)%string
             with (JS.drop (String.length "ipfs://") url).
           rewrite (startsWith_drop _ _ Hp). apply list_elem_of_In. exact Hurl.
        -- right. exists f, i, us'. split; [right; exact Hin|exact Hrest].
      * intros [Hc|(f & i & us' & Hin & Hi & Hc)]; [auto|].
        apply elem_of_cons in Hin as [[= -> ->]|Hin].
        -- left. right. rewrite Hus in Hi. injection Hi as <-.
           apply list_elem_of_fmap. exists ("ipfs://" ++ c)%string. split.
           ++ rewrite (replace_prefix _ _ _ (startsWith_append "ipfs://" c)).
              change ("" ++ JS.drop (String.length "ipfs://") ("ipfs://" ++ c))%string
                with (JS.drop (String.length "ipfs://") ("ipfs://" ++ c)%string).
              rewrite (drop_append "ipfs://" c). reflexivity.
           ++ apply list_elem_of_In, List.filter_In. split;
                [apply list_elem_of_In; exact Hc|apply startsWith_append].
        -- right. exists f, i, us'. auto.
    + split.
      * intros [Hc|(f & i & us' & Hin & Hrest)]; [auto|].
        right. exists f, i, us'. split; [right; exact Hin|exact Hrest].
      * intros [Hc|(f & i & us' & Hin & Hi & Hc)]; [auto|].
        apply elem_of_cons in Hin as [[= -> ->]|Hin]; [congruence|].
        right. exists f, i, us'. auto.
Qed.

(** X23.  The record of hashes.  [ipfsCids] is set exactly when the
    metadata has sources, and then a string [c] is listed iff one of
    the source entries has the URL [ipfs://c]: URLs of other schemes
    are left out and the prefix is the only thing removed.
    [creationHash] is set exactly when the metadata carries a non-empty
    creation byte code, and it is set to [null] exactly when that byte
    code is [0x]. *)
Theorem createHashesRecord_cids (t : Z) (r : VerificationResult) (md : Metadata) :
  let h := createHashesRecord t r md in
  (ipfsCids h = None <-> sources md = None) /\
  (forall entries,
     sources md = Some entries ->
     exists cids,
       ipfsCids h = Some cids /\
       forall c,
         c ∈ cids <->
         exists fileName sourceInfo us,
           (fileName, sourceInfo) ∈ entries /\ urls sourceInfo = Some us /\
           ("ipfs://" ++ c)%string ∈ us) /\
  (creationHash h = None <->
   bytecodeObject md = None \/ bytecodeObject md = Some ""%string) /\
  (creationHash h = Some None <-> bytecodeObject md = Some "0x"%string).
Proof.
  cbv zeta. unfold Verification.createHashesRecord.
  cbn [ipfsCids creationHash]. split; [|split; [|split]].
  - destruct (sources md); split; congruence.
  - intros entries ->. eexists. split; [reflexivity|]. intros c.
    rewrite collectCids_spec. split; [intros [Hc|H]; [|exact H]|auto].
    apply elem_of_nil in Hc as [].
  - destruct (bytecodeObject md) as [s|]; cbn [truthy].
    + destruct (String.eqb_spec s "") as [->|Hne]; cbn [negb].
      * split; auto.
      * split; [discriminate|]. intros [?|[= ?]]; [discriminate|contradiction].
    + split; auto.
  - destruct (bytecodeObject md) as [s|] eqn:Hs; cbn [truthy].
    + destruct (String.eqb_spec s "") as [->|Hne]; cbn [negb].
      * split; discriminate.
      * split.
        -- intros [= Hc].
           assert (calculateBytecodeHash (Some s) = None) as Hn by exact Hc.
           unfold Verification.calculateBytecodeHash in Hn.
           destruct (noBytecode (Some s)) eqn:Hno; [|discriminate].
           apply noBytecode_spec in Hno as [?|[[= ?]|?]];
             [discriminate|contradiction|assumption].
        -- intros [= ->]. reflexivity.
    + split; discriminate.
Qed.

(** The address of the metadata differs from the one asked about. *)
Lemma validateContractIntegrity_fields (now : Z) (chainName addr : string)
    (archiveData : ArchiveData) :
  let mismatch :=
    match dataMetadata archiveData with
    | Some md =>
        truthy (metadataAddress md)
        && negb (String.eqb (toLowerCase (default "" (metadataAddress md)))
                            (toLowerCase addr))
    | None => false
    end in
  let r := validateContractIntegrity now chainName addr archiveData in
  valid r = present (dataMetadata archiveData)
            && present (dataProvenance archiveData) && negb mismatch /\
  integrityErrors r =
    ((if present (dataMetadata archiveData) then [] else ["Missing metadata.json"])
     ++ (if present (dataProvenance archiveData) then []
         else ["Missing provenance.json"])
     ++ (if mismatch
         then ["Address mismatch between metadata and archive location"]
         else []))%list /\
  integrityWarnings r =
    (if match dataProvenance archiveData with
        | Some p =>
            match docLastUpdatedAt p with
            | Some lastUpdated => olderThanThirtyDays now lastUpdated
            | None => false
            end
        | None => false
        end
     then ["Data is stale (>30 days old)"] else []) /\
  validSchemas (checks r) = false.
Proof.
  cbv zeta. unfold validateContractIntegrity.
  cbn [hasMetadata hasProvenance].
  destruct (present (dataMetadata archiveData));
    destruct (present (dataProvenance archiveData));
    destruct (match dataMetadata archiveData with Some _ => _ | None => false end);
    repeat split; reflexivity.
Qed.

(** X24.  The integrity check.  An archived contract is valid exactly
    when no error is reported, which is exactly when its metadata and
    its provenance are present and the address of the metadata, if it
    has one, equals the address asked about up to the case of the
    letters.  The ABI, the sources and the age of the data play no part
    in the verdict: data older than 30 days only adds a warning, and the
    check [validSchemas] is never set. *)
Theorem validateContractIntegrity_verdict (now : Z) (chainName addr : string)
    (archiveData : ArchiveData) :
  let r := validateContractIntegrity now chainName addr archiveData in
  (valid r = true <-> integrityErrors r = []) /\
  (valid r = true <->
   present (dataMetadata archiveData) = true /\
   present (dataProvenance archiveData) = true /\
   forall md a,
     dataMetadata archiveData = Some md -> metadataAddress md = Some a ->
     a <> ""%string -> toLowerCase a = toLowerCase addr) /\
  (forall now' abi' sources',
     let r' := validateContractIntegrity now' chainName addr
                 {| dataMetadata := dataMetadata archiveData; dataAbi := abi';
                    dataSources := sources';
                    dataProvenance := dataProvenance archiveData |} in
     valid r' = valid r /\ integrityErrors r' = integrityErrors r) /\
  validSchemas (checks r) = false /\
  (integrityWarnings r <> [] <->
   exists p t,
     dataProvenance archiveData = Some p /\
     docLastUpdatedAt p = Some (Some t) /\
     (30 * 24 * 60 * 60 * 1000 < now - t)%Z).
Proof.
  cbv zeta.
  pose proof (validateContractIntegrity_fields now chainName addr archiveData)
    as (Hv & He & Hw & Hs). cbv zeta in Hv, He.
  split; [|split; [|split; [|split]]].
  - rewrite Hv, He.
    destruct (present (dataMetadata archiveData));
      destruct (present (dataProvenance archiveData));
      destruct (match dataMetadata archiveData with Some _ => _ | None => false end);
      cbn; split; congruence.
  - rewrite Hv. clear Hv He Hw Hs.
    destruct (dataMetadata archiveData) as [md|];
      destruct (dataProvenance archiveData) as [p|]; cbn [present andb negb].
    2-4: split; [try discriminate|intros (? & ? & _); discriminate].
    destruct (metadataAddress md) as [a|] eqn:Ha; cbn [truthy default from_option id].
    + destruct (String.eqb_spec a "") as [->|Hne]; cbn [negb andb].
      * split; [intros _|reflexivity]. split; [reflexivity|]. split; [reflexivity|].
        intros md' a' [= <-]. rewrite Ha. intros [= <-]. contradiction.
      * destruct (String.eqb_spec (toLowerCase a) (toLowerCase addr)) as [Heq|Hneq];
          cbn [negb].
        -- split; [intros _|reflexivity]. split; [reflexivity|]. split; [reflexivity|].
           intros md' a' [= <-]. rewrite Ha. intros [= <-] _. exact Heq.
        -- split; [discriminate|]. intros (_ & _ & H). exfalso.
           apply Hneq, (H md a eq_refl Ha Hne).
    + cbn [andb negb]. split; [intros _|reflexivity].
      split; [reflexivity|]. split; [reflexivity|].
      intros md' a' [= <-]. rewrite Ha. discriminate.
  - intros now' abi' sources'.
    pose proof (validateContractIntegrity_fields now' chainName addr
                  {| dataMetadata := dataMetadata archiveData; dataAbi := abi';
                     dataSources := sources';
                     dataProvenance := dataProvenance archiveData |})
      as (Hv' & He' & _). cbv zeta in Hv', He'.
    cbn [dataMetadata dataProvenance] in Hv', He'.
    rewrite Hv, Hv', He, He'. split; reflexivity.
  - exact Hs.
  - rewrite Hw. clear Hv He Hw Hs.
    destruct (dataProvenance archiveData) as [p|].
    + destruct (docLastUpdatedAt p) as [[t|]|] eqn:Hl; cbn [olderThanThirtyDays].
      * destruct (Z.ltb_spec THIRTY_DAYS (now - t)) as [Hlt|Hge].
        -- split; [intros _; exists p, t; auto|discriminate].
        -- split; [congruence|]. intros (p' & t' & [= <-] & Ht & Hlt).
           rewrite Hl in Ht. injection Ht as <-. unfold THIRTY_DAYS in Hge. lia.
      * split; [congruence|]. intros (p' & t' & [= <-] & Ht & _). congruence.
      * split; [congruence|]. intros (p' & t' & [= <-] & Ht & _). congruence.
    + split; [congruence|]. intros (p' & t' & Hp & _). discriminate.
Qed.

End WithEnvironment.

End VerificationFacts.

(** * Writing and validating the checksums of a contract directory *)

Module ChecksumMore.

Import Checksum ChecksumValidation.

Section WithEnvironment.

Variable hashFile : string -> string.
Variable parseChecksums : string -> ChecksumsJson.
Variable stringify : gmap string string -> string.
Variable notAFile : Entry -> Error.

Local Abbreviation generateChecksums := (generateChecksums hashFile).
Local Abbreviation verifyChecksums := (verifyChecksums hashFile).
Local Abbreviation assignAll := (assignAll hashFile).
Local Abbreviation validateChecksums := (validateChecksums hashFile parseChecksums notAFile).
Local Abbreviation writeFile := (writeFile notAFile).
Local Abbreviation sealContract := (sealContract hashFile stringify notAFile).

(** ** When a directory verifies *)

Lemma checkMissing_valid current l :
  forall results,
  valid (foldl (checkMissing current) results l) = true ->
  valid results = true /\
  forall k, k ∈ l -> PlainObject.truthyValue (PlainObject.read current k) = true.
Proof.
  induction l as [|k l IH]; intros results H; cbn [foldl] in H.
  - split; [exact H|]. intros k Hk. apply elem_of_nil in Hk as [].
  - apply IH in H as [Hv Hl]. unfold checkMissing in Hv.
    destruct (PlainObject.truthyValue (PlainObject.read current k)) eqn:Hk;
      cbn [negb] in Hv; [|discriminate Hv].
    split; [exact Hv|]. intros k' Hk'. apply elem_of_cons in Hk' as [->|Hk']; auto.
Qed.

Lemma checkCurrent_valid expected l :
  forall results,
  valid (foldl (checkCurrent expected) results l) = true ->
  valid results = true /\
  forall k v, (k, v) ∈ l ->
    PlainObject.truthyValue (PlainObject.read expected k) = true ->
    PlainObject.read expected k = PlainObject.Own v.
Proof.
  induction l as [|[k0 v0] l IH]; intros results H; cbn [foldl] in H.
  - split; [exact H|]. intros k v Hk. apply elem_of_nil in Hk as [].
  - apply IH in H as [Hv Hl]. unfold checkCurrent in Hv. cbv zeta in Hv.
    destruct (PlainObject.truthyValue (PlainObject.read expected k0)) eqn:Hk;
      cbn [negb] in Hv.
    + destruct (PlainObject.differs (PlainObject.read expected k0) v0) eqn:Hd;
        [discriminate Hv|].
      split; [exact Hv|]. intros k v Hin Ht.
      apply elem_of_cons in Hin as [[= -> ->]|Hin]; [|auto].
      destruct (PlainObject.read expected k0) as [s| |]; try discriminate Hd.
      cbn [PlainObject.differs] in Hd.
      destruct (String.eqb_spec s v0) as [->|]; [reflexivity|discriminate Hd].
    + split; [exact Hv|]. intros k v Hin Ht.
      apply elem_of_cons in Hin as [[= -> ->]|Hin]; [congruence|auto].
Qed.

Section WithNonEmptyHashes.

Hypothesis hashFile_nonempty : forall content, hashFile content <> ""%string.

(** A directory that holds every file of the manifest unchanged
    verifies, provided that none of its other files is named as a member
    of [Object.prototype] is. *)
Lemma verifyChecksums_held directory expected :
  (forall k v, expected !! k = Some v -> generateChecksums directory !! k = Some v) ->
  (forall k, is_Some (generateChecksums directory !! k) -> expected !! k = None ->
     PlainObject.inherited k = false) ->
  valid (verifyChecksums directory expected) = true.
Proof.
  intros Hheld Hnames. unfold Checksum.verifyChecksums.
  rewrite ChecksumFacts.checkMissing_present.
  - destruct (ChecksumFacts.foldl_checkCurrent_extra expected
                (map_to_list (generateChecksums directory))) with
      (results := initialResults) as (Hval & _).
    { intros k v Hkv. apply elem_of_map_to_list in Hkv.
      split; [apply (ChecksumFacts.generateChecksums_truthy hashFile
                       hashFile_nonempty _ _ _ Hkv)|].
      destruct (expected !! k) as [v'|] eqn:Hexp.
      - right. apply Hheld in Hexp. congruence.
      - left. split; [reflexivity|]. apply Hnames; eauto. }
    exact Hval.
  - intros k Hk. apply list_elem_of_fmap in Hk as ([k' v] & -> & Hkv).
    apply elem_of_map_to_list in Hkv. cbn [fst].
    rewrite (ChecksumFacts.read_own _ _ _ (Hheld _ _ Hkv)).
    apply ChecksumFacts.truthy_own.
    apply (ChecksumFacts.generateChecksums_truthy hashFile hashFile_nonempty
             directory k' v), Hheld, Hkv.
Qed.

(** When a directory verifies, for a manifest whose files are there or
    are not named as a member of [Object.prototype] is, and likewise for
    the files of the directory that the manifest does not list. *)
Lemma verifyChecksums_valid_iff directory expected :
  (forall k v, expected !! k = Some v -> v <> ""%string) ->
  (forall k, is_Some (expected !! k) ->
     is_Some (generateChecksums directory !! k) \/ PlainObject.inherited k = false) ->
  (forall k, is_Some (generateChecksums directory !! k) -> expected !! k = None ->
     PlainObject.inherited k = false) ->
  valid (verifyChecksums directory expected) = true <->
  forall k v, expected !! k = Some v -> generateChecksums directory !! k = Some v.
Proof.
  intros Hexp Hthere Hnames. split; [|intros H; apply verifyChecksums_held; assumption].
  unfold Checksum.verifyChecksums. intros H.
  apply checkCurrent_valid in H as [H Hcur].
  apply checkMissing_valid in H as [_ Hmiss].
  intros k v Hk.
  assert (PlainObject.truthyValue
            (PlainObject.read (generateChecksums directory) k) = true) as Ht.
  { apply Hmiss, list_elem_of_fmap. exists (k, v). split; [reflexivity|].
    apply elem_of_map_to_list, Hk. }
  destruct (generateChecksums directory !! k) as [v'|] eqn:Hv'.
  - f_equal. symmetry.
    assert (PlainObject.read expected k = PlainObject.Own v') as Hd.
    { apply Hcur; [apply elem_of_map_to_list, Hv'|].
      rewrite (ChecksumFacts.read_own _ _ _ Hk).
      apply ChecksumFacts.truthy_own, (Hexp k v Hk). }
    rewrite (ChecksumFacts.read_own _ _ _ Hk) in Hd. congruence.
  - exfalso. destruct (Hthere k) as [[v' Hsome]|Hno]; [eauto|congruence|].
    unfold PlainObject.read in Ht. rewrite Hv', Hno in Ht. discriminate Ht.
Qed.

End WithNonEmptyHashes.

(** X25.  The verdict of [validateChecksums].  A directory is valid
    only if it holds a regular file [checksums.json] that parses to a
    manifest against which the directory verifies, and a valid result
    carries neither errors nor warnings; an invalid result always names
    at least one error; warnings are only given with an invalid
    result.  A directory that holds every file of its manifest
    unchanged is valid without any remark, whatever other files it
    holds, as long as none of these is named as a member of
    [Object.prototype] is (digests being non-empty); with an unlisted
    file of such a name, [constructor] or [toString] for one, it is
    invalid, and the error is a checksum mismatch of that file against
    the inherited member. *)
Theorem validateChecksums_verdict (contractDir : list Entry) :
  let r := validateChecksums contractDir in
  (Validator.valid r = true ->
   Validator.errors r = [] /\ Validator.warnings r = [] /\
   exists name content files,
     findEntry "checksums.json" contractDir = Some (File name content) /\
     parseChecksums content = Files files /\
     valid (verifyChecksums contractDir files) = true) /\
  (Validator.valid r = false -> Validator.errors r <> []) /\
  (Validator.warnings r <> [] -> Validator.valid r = false) /\
  ((forall content, hashFile content <> ""%string) ->
   forall name content files,
     findEntry "checksums.json" contractDir = Some (File name content) ->
     parseChecksums content = Files files ->
     (forall k v, files !! k = Some v -> generateChecksums contractDir !! k = Some v) ->
     ((forall k, is_Some (generateChecksums contractDir !! k) -> files !! k = None ->
         PlainObject.inherited k = false) ->
      r = {| Validator.valid := true; Validator.errors := [];
             Validator.warnings := [] |}) /\
     (forall extra hash,
        generateChecksums contractDir !! extra = Some hash ->
        files !! extra = None ->
        PlainObject.inherited extra = true ->
        Validator.valid r = false /\
        mismatchMessage {| file := extra; expected := PlainObject.Inherited extra;
                           actual := hash |} ∈ Validator.errors r)).
Proof.
  cbv zeta. unfold ChecksumValidation.validateChecksums.
  split; [|split; [|split]].
  - destruct (findEntry "checksums.json" contractDir) as [[name content|name es|name]|];
      try discriminate.
    destruct (parseChecksums content) as [e| |files] eqn:Hparse; try discriminate.
    destruct (valid (verifyChecksums contractDir files)) eqn:Hvalid;
      cbn [negb Validator.valid Validator.errors Validator.warnings];
      [|discriminate].
    intros _. split; [reflexivity|]. split; [reflexivity|].
    exists name, content, files. auto.
  - destruct (findEntry "checksums.json" contractDir) as [[name content|name es|name]|];
      try discriminate.
    destruct (parseChecksums content) as [e| |files]; try discriminate.
    pose proof (ChecksumFacts.verifyChecksums_coherent hashFile contractDir files)
      as Hcoh. unfold Coherent in Hcoh.
    destruct (valid (verifyChecksums contractDir files)) eqn:Hvalid;
      cbn [negb Validator.valid Validator.errors Validator.warnings];
      [discriminate|].
    intros _ Hnil. apply app_eq_nil in Hnil as [Hm Hx].
    apply map_eq_nil in Hm, Hx. assert (false = true) by (apply Hcoh; auto).
    discriminate.
  - destruct (findEntry "checksums.json" contractDir) as [[name content|name es|name]|];
      cbn [Validator.warnings]; try congruence.
    destruct (parseChecksums content) as [e| |files]; cbn [Validator.warnings];
      try congruence.
    destruct (valid (verifyChecksums contractDir files));
      cbn [negb Validator.valid Validator.warnings]; congruence.
  - intros Hne name content files -> -> Hheld. split.
    + intros Hnames.
      rewrite (verifyChecksums_held Hne contractDir files Hheld Hnames). reflexivity.
    + intros extra hash Hcur Hexp Hinh.
      destruct (ChecksumFacts.verifyChecksums_inherited hashFile contractDir files
                  extra hash Hcur Hexp Hinh) as (Hinvalid & Hmismatch & _).
      rewrite Hinvalid. cbn [negb Validator.valid Validator.errors].
      split; [reflexivity|]. apply elem_of_app. right.
      apply list_elem_of_fmap. eexists. split; [reflexivity|exact Hmismatch].
Qed.

(** ** Writing into the directory *)

Lemma joinRel_root name : joinRel "" name = name.
Proof. reflexivity. Qed.

Lemma writeFile_cases name content dir :
  forall dir',
  writeFile name content dir = Ok dir' ->
  (findEntry name dir = None /\ dir' = (dir ++ [File name content])%list) \/
  (exists before old after,
     dir = (before ++ File name old :: after)%list /\
     dir' = (before ++ File name content :: after)%list /\
     findEntry name dir = Some (File name old)).
Proof.
  induction dir as [|entry rest IH]; intros dir'; cbn [ChecksumValidation.writeFile findEntry].
  - intros [= <-]. left. auto.
  - destruct (String.eqb_spec (entryName entry) name) as [Heq|Hne].
    + destruct entry as [n old|n es|n]; try discriminate.
      cbn [entryName] in Heq. subst n. intros [= <-]. right.
      exists [], old, rest. auto.
    + destruct (writeFile name content rest) as [rest'|e]; [|discriminate].
      intros [= <-]. destruct (IH rest' eq_refl)
        as [[Hnone ->]|(before & old & after & -> & -> & Hfind)].
      * left. auto.
      * right. exists (entry :: before), old, after. auto.
Qed.

Lemma findEntry_writeFile name content dir :
  forall dir' other,
  writeFile name content dir = Ok dir' ->
  findEntry other dir' =
  if String.eqb name other then Some (File name content) else findEntry other dir.
Proof.
  induction dir as [|entry rest IH]; intros dir' other;
    cbn [ChecksumValidation.writeFile].
  - intros [= <-]. cbn [findEntry entryName]. reflexivity.
  - destruct (String.eqb_spec (entryName entry) name) as [Heq|Hne].
    + destruct entry as [n old|n es|n]; try discriminate.
      cbn [entryName] in Heq. subst n. intros [= <-]. cbn [findEntry entryName].
      destruct (String.eqb name other); reflexivity.
    + destruct (writeFile name content rest) as [rest'|e]; [|discriminate].
      intros [= <-]. cbn [findEntry]. rewrite (IH rest' other eq_refl).
      destruct (String.eqb_spec (entryName entry) other) as [Heo|Hneo];
        [|reflexivity].
      destruct (String.eqb_spec name other) as [Hno|_]; [congruence|reflexivity].
Qed.

(** A file written into the directory is the one change of its
    checksums. *)
Lemma generateChecksums_writeFile name content dir dir' :
  name <> "__proto__"%string ->
  writeFile name content dir = Ok dir' ->
  NoDup (listFiles "" dir).*1 \/ findEntry name dir = None ->
  generateChecksums dir' = <[name := hashFile content]> (generateChecksums dir) /\
  (findEntry name dir <> None -> (listFiles "" dir').*1 = (listFiles "" dir).*1).
Proof.
  intros Hname Hw Hwhy.
  destruct (writeFile_cases _ _ _ _ Hw)
    as [[Hnone ->]|(before & old & after & -> & -> & Hfind)].
  - split; [|congruence].
    rewrite !ChecksumFacts.generateChecksums_assign, ChecksumFacts.listFiles_app.
    rewrite ChecksumFacts.assignAll_app. cbn [listFiles filesOfEntry app].
    rewrite joinRel_root. cbn [Checksum.assignAll foldl fst snd].
    apply ChecksumFacts.assign_ne, Hname.
  - destruct Hwhy as [Hnd|Hnone]; [|congruence].
    assert (Mutated old content "" (before ++ File name old :: after)
              (before ++ File name content :: after) (joinRel "" name)) as Hmut
      by constructor.
    destruct (ChecksumFacts.generateChecksums_Mutated hashFile _ _ _ _ _ Hmut Hnd)
      as (others & H1 & H2); [rewrite joinRel_root; exact Hname|].
    rewrite joinRel_root in H1, H2. rewrite H1, H2. split.
    + rewrite insert_insert_eq. reflexivity.
    + intros _. rewrite !ChecksumFacts.listFiles_app, !fmap_app. reflexivity.
Qed.

Lemma assignAll_is_Some l :
  forall checksums k,
  k <> "__proto__"%string ->
  k ∈ l.*1 \/ is_Some (checksums !! k) -> is_Some (assignAll checksums l !! k).
Proof.
  induction l as [|[k0 c0] l IH]; intros checksums k Hname;
    cbn [Checksum.assignAll foldl].
  - intros [Hk|Hk]; [apply elem_of_nil in Hk as []|exact Hk].
  - intros Hk. apply (IH _ _ Hname). rewrite fmap_cons in Hk. cbn [fst snd] in *.
    destruct (decide (k0 = k)) as [->|Hne].
    + right. rewrite ChecksumFacts.assign_ne by exact Hname.
      rewrite lookup_insert_eq. eauto.
    + destruct Hk as [Hk|Hk];
        [apply elem_of_cons in Hk as [Hk|Hk]; [congruence|auto]|].
      right.
      destruct (ChecksumFacts.assign_cases k0 (hashFile c0) checksums)
        as [(_ & _ & ->)|[_ ->]]; [exact Hk|].
      rewrite lookup_insert_ne by exact Hne. exact Hk.
Qed.

(** A regular file of the root has a checksum under its name, unless
    that name is [__proto__]. *)
Lemma generateChecksums_root before name content after :
  name <> "__proto__"%string ->
  is_Some (generateChecksums (before ++ File name content :: after) !! name).
Proof.
  intros Hname.
  rewrite ChecksumFacts.generateChecksums_assign. apply assignAll_is_Some;
    [exact Hname|]. left.
  rewrite ChecksumFacts.listFiles_app, fmap_app, elem_of_app. right.
  cbn [listFiles filesOfEntry]. rewrite joinRel_root. left.
Qed.

Lemma generateChecksums_writeFile_fresh name content dir dir' :
  name <> "__proto__"%string ->
  writeFile name content dir = Ok dir' ->
  generateChecksums dir !! name = None ->
  generateChecksums dir' = <[name := hashFile content]> (generateChecksums dir).
Proof.
  intros Hname Hw Hnone.
  destruct (writeFile_cases _ _ _ _ Hw)
    as [[Hfind ->]|(before & old & after & -> & -> & Hfind)].
  - rewrite !ChecksumFacts.generateChecksums_assign, ChecksumFacts.listFiles_app.
    rewrite ChecksumFacts.assignAll_app. cbn [listFiles filesOfEntry app].
    rewrite joinRel_root. cbn [Checksum.assignAll foldl fst snd].
    apply ChecksumFacts.assign_ne, Hname.
  - destruct (generateChecksums_root before name old after Hname) as [v Hv].
    congruence.
Qed.

Lemma findEntry_split name dir entry :
  findEntry name dir = Some entry ->
  entryName entry = name /\
  exists before after, dir = (before ++ entry :: after)%list.
Proof.
  induction dir as [|e rest IH]; cbn [findEntry]; [discriminate|].
  destruct (String.eqb_spec (entryName e) name) as [Heq|Hne].
  - intros [= <-]. split; [exact Heq|]. exists [], rest. reflexivity.
  - intros H. destruct (IH H) as (Hn & before & after & ->).
    split; [exact Hn|]. exists (e :: before), after. reflexivity.
Qed.

(** The verdict once [checksums.json] is read. *)
Lemma validateChecksums_read dir name content files :
  findEntry "checksums.json" dir = Some (File name content) ->
  parseChecksums content = Files files ->
  Validator.valid (validateChecksums dir) = valid (verifyChecksums dir files) /\
  (valid (verifyChecksums dir files) = true ->
   validateChecksums dir = {| Validator.valid := true; Validator.errors := [];
                              Validator.warnings := [] |}).
Proof.
  intros Hfind Hparse. unfold ChecksumValidation.validateChecksums.
  rewrite Hfind, Hparse. cbv zeta.
  destruct (valid (verifyChecksums dir files)); cbn [negb Validator.valid];
    split; try reflexivity. discriminate.
Qed.

Lemma generateChecksums_at before name content after :
  name <> "__proto__"%string ->
  NoDup (listFiles "" (before ++ File name content :: after)).*1 ->
  generateChecksums (before ++ File name content :: after) !! name
  = Some (hashFile content).
Proof.
  intros Hname Hnd.
  assert (Mutated content content "" (before ++ File name content :: after)
            (before ++ File name content :: after) (joinRel "" name)) as Hmut
    by constructor.
  destruct (ChecksumFacts.generateChecksums_Mutated hashFile _ _ _ _ _ Hmut Hnd)
    as (others & H1 & _); [rewrite joinRel_root; exact Hname|].
  rewrite H1, joinRel_root. apply lookup_insert_eq.
Qed.

(** X26.  Checksums written by [fetch] and read by the validator
    (digests being non-empty, the written manifest parsing back to
    itself).  The checksums are taken before [checksums.json] and
    [provenance.json] are written.  On a directory that has no file
    under these two names the directory written validates, without
    errors or warnings, the two new files being unlisted extras.  On a
    directory that already holds both, the manifest lists their old
    contents, so the directory written validates exactly when the new
    [checksums.json] and the new [provenance.json] hash to the same
    digests as the old ones. *)
Theorem sealContract_then_validate (contractDir sealed : list Entry)
    (provenanceJson : string) :
  (forall content, hashFile content <> ""%string) ->
  parseChecksums (stringify (generateChecksums contractDir))
  = Files (generateChecksums contractDir) ->
  sealContract contractDir provenanceJson = Ok sealed ->
  let m := generateChecksums contractDir in
  (m !! "checksums.json"%string = None ->
   m !! "provenance.json"%string = None ->
   validateChecksums sealed
   = {| Validator.valid := true; Validator.errors := [];
        Validator.warnings := [] |}) /\
  (forall name1 c1 name2 p1,
     NoDup (listFiles "" contractDir).*1 ->
     findEntry "checksums.json" contractDir = Some (File name1 c1) ->
     findEntry "provenance.json" contractDir = Some (File name2 p1) ->
     (Validator.valid (validateChecksums sealed) = true <->
      hashFile (stringify m) = hashFile c1 /\ hashFile provenanceJson = hashFile p1)).
Proof.
  intros Hne Hparse Hseal. cbv zeta.
  assert ("checksums.json"%string <> "__proto__"%string) as Hcn by discriminate.
  assert ("provenance.json"%string <> "__proto__"%string) as Hpn by discriminate.
  unfold ChecksumValidation.sealContract in Hseal.
  destruct (writeFile "checksums.json" (stringify (generateChecksums contractDir))
              contractDir) as [dir1|e] eqn:Hw1; [|discriminate].
  set (m := generateChecksums contractDir) in *.
  assert (findEntry "checksums.json" sealed
          = Some (File "checksums.json" (stringify m))) as Hfound.
  { rewrite (findEntry_writeFile _ _ _ _ "checksums.json" Hseal).
    rewrite (findEntry_writeFile _ _ _ _ "checksums.json" Hw1). reflexivity. }
  assert (forall k v, m !! k = Some v -> v <> ""%string) as Hm.
  { intros k v Hk. apply (ChecksumFacts.generateChecksums_truthy hashFile Hne _ _ _ Hk). }
  split.
  - intros Hc Hp.
    assert (generateChecksums dir1 = <["checksums.json"%string := hashFile (stringify m)]> m)
      as Hg1
      by (apply (generateChecksums_writeFile_fresh _ _ _ _ Hcn Hw1), Hc).
    assert (generateChecksums sealed
            = <["provenance.json"%string := hashFile provenanceJson]>
                (generateChecksums dir1)) as Hg2.
    { apply (generateChecksums_writeFile_fresh _ _ _ _ Hpn Hseal).
      rewrite Hg1, lookup_insert_ne by discriminate. exact Hp. }
    apply (validateChecksums_read sealed _ _ m Hfound Hparse).
    apply (verifyChecksums_held Hne).
    + intros k v Hk. rewrite Hg2, Hg1.
      rewrite lookup_insert_ne by (intros <-; congruence).
      rewrite lookup_insert_ne by (intros <-; congruence). exact Hk.
    + intros k [v Hk] Hnone. rewrite Hg2, Hg1 in Hk.
      destruct (decide ("provenance.json"%string = k)) as [<-|Hkp]; [reflexivity|].
      rewrite lookup_insert_ne in Hk by exact Hkp.
      destruct (decide ("checksums.json"%string = k)) as [<-|Hkc]; [reflexivity|].
      rewrite lookup_insert_ne in Hk by exact Hkc. congruence.
  - intros name1 c1 name2 p1 Hnd Hf1 Hf2.
    destruct (findEntry_split _ _ _ Hf1) as (Hn1 & b1 & a1 & Hd1).
    destruct (findEntry_split _ _ _ Hf2) as (Hn2 & b2 & a2 & Hd2).
    cbn [entryName] in Hn1, Hn2. subst name1 name2.
    assert (m !! "checksums.json"%string = Some (hashFile c1)) as Hc.
    { unfold m. rewrite Hd1. apply generateChecksums_at; [discriminate|].
      rewrite <- Hd1. exact Hnd. }
    assert (m !! "provenance.json"%string = Some (hashFile p1)) as Hp.
    { unfold m. rewrite Hd2. apply generateChecksums_at; [discriminate|].
      rewrite <- Hd2. exact Hnd. }
    destruct (generateChecksums_writeFile _ _ _ _ Hcn Hw1 (or_introl Hnd)) as [Hg1 Hpaths].
    assert (NoDup (listFiles "" dir1).*1) as Hnd1
      by (rewrite Hpaths; [exact Hnd|congruence]).
    destruct (generateChecksums_writeFile _ _ _ _ Hpn Hseal (or_introl Hnd1)) as [Hg2 _].
    fold m in Hg1.
    assert (forall k, is_Some (generateChecksums sealed !! k) <-> is_Some (m !! k))
      as Hkeys.
    { intros k. rewrite Hg2, Hg1.
      destruct (decide ("provenance.json"%string = k)) as [<-|Hkp];
        [rewrite lookup_insert_eq, Hp; split; eauto|].
      rewrite lookup_insert_ne by exact Hkp.
      destruct (decide ("checksums.json"%string = k)) as [<-|Hkc];
        [rewrite lookup_insert_eq, Hc; split; eauto|].
      rewrite lookup_insert_ne by exact Hkc. reflexivity. }
    rewrite (proj1 (validateChecksums_read sealed _ _ m Hfound Hparse)).
    rewrite (verifyChecksums_valid_iff Hne sealed m Hm);
      [|intros k Hk; left; apply Hkeys, Hk
       |intros k Hk Hnone; apply Hkeys in Hk as [v Hv]; congruence].
    rewrite Hg2, Hg1. split.
    + intros Hall. split.
      * specialize (Hall _ _ Hc).
        rewrite lookup_insert_ne, lookup_insert_eq in Hall by discriminate.
        congruence.
      * specialize (Hall _ _ Hp). rewrite lookup_insert_eq in Hall. congruence.
    + intros [H1 H2] k v Hk.
      destruct (decide ("provenance.json"%string = k)) as [<-|Hkp].
      * rewrite lookup_insert_eq. congruence.
      * rewrite lookup_insert_ne by exact Hkp.
        destruct (decide ("checksums.json"%string = k)) as [<-|Hkc].
        -- rewrite lookup_insert_eq. congruence.
        -- rewrite lookup_insert_ne by exact Hkc. exact Hk.
Qed.

End WithEnvironment.

End ChecksumMore.

(** * The name of an explorer *)

Module ExplorerFacts.

Import Explorer.

Lemma startsWith_append_inv a b : forall s,
  startsWith (a ++ b)%string s = true ->
  startsWith b (JS.drop (String.length a) s) = true.
Proof.
  induction a as [|c a IH]; intros s H; [exact H|].
  destruct s as [|d s]; [discriminate H|].
  change (startsWith (String c (a ++ b)%string) (String d s) = true) in H.
  cbn [startsWith] in H. apply andb_true_iff in H as [_ H].
  cbn [String.length JS.drop]. apply IH, H.
Qed.

Lemma includes_here pat s : startsWith pat s = true -> includes pat s = true.
Proof. intros H. destruct s; cbn [includes]; rewrite H; reflexivity. Qed.

Lemma includes_drop pat n : forall s,
  includes pat (JS.drop n s) = true -> includes pat s = true.
Proof.
  induction n as [|n IH]; intros s H; [exact H|].
  destruct s as [|c s]; [exact H|]. cbn [JS.drop] in H.
  cbn [includes]. rewrite (IH s H). apply orb_true_r.
Qed.

(** A string that includes [a ++ b] includes [b]. *)
Lemma includes_suffix a b : forall s,
  includes (a ++ b)%string s = true -> includes b s = true.
Proof.
  induction s as [|c s IH]; cbn [includes]; intros H.
  - rewrite orb_false_r in H. apply startsWith_append_inv in H.
    apply (includes_drop b (String.length a) ""), includes_here, H.
  - apply orb_true_iff in H as [H|H].
    + apply startsWith_append_inv in H.
      apply (includes_drop b (String.length a) (String c s)), includes_here, H.
    + change (includes b (String c s) = true). cbn [includes].
      rewrite (IH H). apply orb_true_r.
Qed.

(** X27.  [getExplorerName] answers one of five names, and never
    [Optimism Etherscan]: a base URL that includes
    [optimistic.etherscan.io] includes [etherscan.io], which is tested
    first, so that it is named [Etherscan]. *)
Theorem getExplorerName_names (apiBase : string) :
  getExplorerName apiBase <> "Optimism Etherscan"%string /\
  (includes "optimistic.etherscan.io" apiBase = true ->
   getExplorerName apiBase = "Etherscan"%string) /\
  (getExplorerName apiBase = "Etherscan"%string
   <-> includes "etherscan.io" apiBase = true) /\
  In (getExplorerName apiBase)
     ["Etherscan"; "Polygonscan"; "Arbiscan"; "Basescan"; "Unknown Explorer"]%string.
Proof.
  assert (includes "optimistic.etherscan.io" apiBase = true ->
          includes "etherscan.io" apiBase = true) as Hopt
    by apply (includes_suffix "optimistic." "etherscan.io").
  unfold getExplorerName.
  destruct (includes "etherscan.io" apiBase) eqn:He.
  - repeat split; try discriminate; try reflexivity. left. reflexivity.
  - destruct (includes "optimistic.etherscan.io" apiBase) eqn:Ho;
      [discriminate (Hopt eq_refl)|].
    destruct (includes "polygonscan.com" apiBase);
      [|destruct (includes "arbiscan.io" apiBase);
        [|destruct (includes "basescan.org" apiBase)]];
      (split; [discriminate|]); (split; [discriminate|]);
      (split; [split; discriminate|]); cbn; auto 6.
Qed.

End ExplorerFacts.

(** * The explorer fallback *)

Module ExplorerClientFacts.

Import Explorer ExplorerClient.

Lemma runsOr200_nonzero runs : runsOr200 runs <> 0%Z.
Proof.
  unfold runsOr200. destruct (parseInt runs) as [n|]; [|discriminate].
  destruct (Z.eqb_spec n 0); [discriminate|assumption].
Qed.

Section WithEnvironment.

Variable keccak256_hex : string -> string.
Variable env : string -> option string.
Variable encodeParams : list (string * string) -> string.
Variable parseSources : string -> Result (option string).
Variable parseJson : string -> Result string.
Variable W : Type.
Variable httpGet : string -> W -> Result ExplorerResponse * W.
Variable clock : W -> Z.

Local Abbreviation readSources := (readSources parseSources).
Local Abbreviation normalizeExplorerResponse :=
  (normalizeExplorerResponse parseSources parseJson W clock).
Local Abbreviation queryOf := (queryOf env).
Local Abbreviation fetchContractSource :=
  (fetchContractSource keccak256_hex env encodeParams parseSources parseJson W
     httpGet clock).

Lemma normalizeExplorerResponse_Ok r chainConfig address w n :
  normalizeExplorerResponse r chainConfig address w = Ok n ->
  matchType n = "explorer"%string /\
  sourceUrl n = default ""%string (explorerApiBase chainConfig) /\
  explorerRaw n = r /\
  fetchedAt n = clock w /\
  optimizerRuns n <> 0%Z /\
  (optimizerEnabled n = true <-> OptimizationUsed r = "1"%string) /\
  name (explorer n) = getExplorerName (default ""%string (explorerApiBase chainConfig)) /\
  verified (explorer n) = true /\
  sources n = match readSources r with
              | Ok s => s
              | Throw _ => SingleFile (ContractName r ++ ".sol") (SourceCode r)
              end.
Proof.
  unfold ExplorerClient.normalizeExplorerResponse. cbv zeta.
  destruct (if negb (String.eqb (Library r) "") then parseJson (Library r) else Ok _)
    as [libs|e]; [|discriminate].
  intros [= <-].
  cbn [matchType sourceUrl explorerRaw fetchedAt optimizerRuns optimizerEnabled
       explorer name verified sources].
  repeat split; try reflexivity.
  - apply runsOr200_nonzero.
  - apply String.eqb_eq.
  - apply String.eqb_eq.
Qed.

(** X28.  The explorer fallback.  [fetchContractSource] throws before
    any request for an address that is not in checksummed form and for
    a chain without an explorer API.  It returns only for an answer of
    status [1] whose first result has a non-empty source code, and what
    it returns is marked as an [explorer] match from the configured API,
    never names zero optimizer runs (a missing, unreadable or zero
    [Runs] reads as 200), and carries the result as it came.  A source
    code that does not begin with a brace or does not mention [sources],
    and one whose parse throws, becomes the single file
    [<ContractName>.sol]: the text inside the outer braces is tried
    only when the parse of the whole text succeeds without [sources].
    The API key is sent exactly when a key reference is configured and
    the environment holds a non-empty value for it. *)
Theorem fetchContractSource_spec (chainConfig : ChainConfig) (address : string) (w : W) :
  (Address.isValidChecksumAddress keccak256_hex (Address.VString address) = false ->
   fetchContractSource chainConfig address w
   = (Throw (plainError ("Invalid address format: " ++ address)), w)) /\
  (Address.isValidChecksumAddress keccak256_hex (Address.VString address) = true ->
   truthy (explorerApiBase chainConfig) = false ->
   fetchContractSource chainConfig address w
   = (Throw (plainError ("No explorer API configured for chain "
                           ++ chainName chainConfig)), w)) /\
  (forall n w1,
     fetchContractSource chainConfig address w = (Ok n, w1) ->
     exists base response first rest,
       explorerApiBase chainConfig = Some base /\
       httpGet (base ++ "?" ++ encodeParams (queryOf chainConfig address)) w
       = (Ok response, w1) /\
       status response = "1"%string /\
       result response = first :: rest /\
       SourceCode first <> ""%string /\
       matchType n = "explorer"%string /\
       sourceUrl n = base /\
       explorerRaw n = first /\
       optimizerRuns n <> 0%Z /\
       name (explorer n) = getExplorerName base /\
       (startsWith "{" (SourceCode first) && includes "sources" (SourceCode first)
        = false \/
        (exists e, parseSources (SourceCode first) = Throw e) ->
        sources n = SingleFile (ContractName first ++ ".sol") (SourceCode first))) /\
  (forall key,
     In ("apikey"%string, key) (queryOf chainConfig address) <->
     key <> ""%string /\
     exists ref, explorerApiKeyRef chainConfig = Some ref /\ ref <> ""%string /\
                 env ref = Some key).
Proof.
  split; [|split; [|split]].
  - intros Hv. unfold ExplorerClient.fetchContractSource. rewrite Hv. reflexivity.
  - intros Hv Hb. unfold ExplorerClient.fetchContractSource. rewrite Hv, Hb.
    reflexivity.
  - intros n w1. unfold ExplorerClient.fetchContractSource.
    destruct (negb (Address.isValidChecksumAddress _ _)); [discriminate|].
    destruct (explorerApiBase chainConfig) as [base|] eqn:Hbase; [|discriminate].
    cbn [truthy]. destruct (String.eqb base ""); cbn [negb]; [discriminate|].
    cbn [default from_option id]. cbv zeta.
    destruct (httpGet _ w) as [[response|e] w2] eqn:Hget; [|discriminate].
    destruct (String.eqb_spec (status response) "1") as [Hst|_]; cbn [negb];
      [|discriminate].
    destruct (result response) as [|first rest] eqn:Hres; [discriminate|].
    destruct (String.eqb_spec (SourceCode first) "") as [_|Hsrc]; [discriminate|].
    intros [= Hn <-].
    destruct (normalizeExplorerResponse_Ok _ _ _ _ _ Hn)
      as (Hm & Hu & Hraw & _ & Hruns & _ & Hname & _ & Hsources).
    rewrite Hbase in Hu, Hname. cbn [default from_option id] in Hu, Hname.
    exists base, response, first, rest.
    repeat (split; [first [reflexivity|assumption]|]).
    intros Hwhy. rewrite Hsources. unfold ExplorerClient.readSources. cbv zeta.
    destruct Hwhy as [-> |[e He]]; [reflexivity|].
    destruct (startsWith "{" (SourceCode first) && includes "sources" (SourceCode first));
      [|reflexivity].
    rewrite He. reflexivity.
  - intros key. unfold ExplorerClient.queryOf. cbv zeta.
    destruct (explorerApiKeyRef chainConfig) as [ref|]; cbn [truthy].
    + destruct (String.eqb_spec ref "") as [->|Href]; cbn [negb default from_option id].
      * cbn. split; [intros [H|[H|[H|[]]]]; discriminate H|].
        intros (_ & ref' & [= <-] & Hne & _). contradiction.
      * destruct (env ref) as [k|] eqn:Henv; cbn [truthy].
        -- destruct (String.eqb_spec k "") as [->|Hk]; cbn [negb default from_option id].
           ++ cbn. split; [intros [H|[H|[H|[]]]]; discriminate H|].
              intros (Hkey & ref' & [= <-] & _ & Hval).
              rewrite Henv in Hval. injection Hval as <-. contradiction.
           ++ cbn. split.
              ** intros [H|[H|[H|[H|[]]]]]; try discriminate H.
                 injection H as <-. split; [exact Hk|]. exists ref. auto.
              ** intros (_ & ref' & [= <-] & _ & Hval).
                 rewrite Henv in Hval. injection Hval as <-. auto.
        -- cbn. split; [intros [H|[H|[H|[]]]]; discriminate H|].
           intros (_ & ref' & [= <-] & _ & Hval). congruence.
    + cbn. split; [intros [H|[H|[H|[]]]]; discriminate H|].
      intros (_ & ref' & Hr & _). discriminate.
Qed.

End WithEnvironment.

End ExplorerClientFacts.

(** * The further properties at concrete inputs *)

Module ExamplesMore.

Import Scenario ScenarioMore.

(** ** Addresses *)

Lemma toChecksumAddress_normal_form_witness :
  Address.toChecksumAddress highHash (Address.VString wethUpper) = Ok wethUpper /\
  String.length wethUpper = 42%nat /\
  toLowerCase wethUpper = weth.
Proof.
  destruct (AddressMore.toChecksumAddress_normal_form highHash weth wethUpper eq_refl)
    as (Hfix & _ & Hlen & _ & Hlow).
  split; [exact Hfix|]. split; [exact Hlen|exact Hlow].
Defined.

Lemma toChecksumAddress_case_and_prefix_witness :
  Address.toChecksumAddress highHash (Address.VString ("0x" ++ wethDigits))
  = Address.toChecksumAddress highHash (Address.VString wethDigits).
Proof.
  apply (proj2 (AddressMore.toChecksumAddress_case_and_prefix highHash wethDigits)).
  reflexivity.
Defined.

Lemma validators_ordered_witness :
  Address.isValidAddress (Address.VString wethUpper) = true /\
  exists r, Address.toChecksumAddress highHash (Address.VString weth) = Ok r.
Proof.
  split.
  - apply (proj1 (AddressMore.validators_ordered highHash (Address.VString wethUpper))).
    reflexivity.
  - apply (proj2 (AddressMore.validators_ordered highHash (Address.VString weth))).
    reflexivity.
Defined.

Lemma validateAddress_spec_witness :
  Validator.errors (Validator.validateAddress highHash (Address.VString weth)) = [] /\
  length (Validator.errors (Validator.validateAddress highHash (Address.VString tooShort)))
  = 1%nat.
Proof.
  split.
  - pose proof (AddressMore.validateAddress_spec highHash (Address.VString weth)) as H.
    cbv zeta in H. destruct H as (_ & Hvalid & _).
    destruct (Hvalid eq_refl) as [Herr _]. exact Herr.
  - pose proof (AddressMore.validateAddress_spec highHash (Address.VString tooShort))
      as H.
    cbv zeta in H. destruct H as (_ & _ & Hinvalid).
    destruct (Hinvalid eq_refl) as [Herr _]. exact Herr.
Defined.

(** ** The HTTP client *)

Lemma cache_round_trip_witness :
  Http.loadFromCache urlKey metadataUrl
    (Http.elapse 3600000
       (Http.saveToCache urlKey metadataUrl "{}" (headers okWithEtag) freshWorld))
  = Some {| Http.entryUrl := metadataUrl; Http.timestamp := 1700000000000;
            Http.entryHeaders := headers okWithEtag; Http.entryData := "{}" |} /\
  Http.loadFromCache urlKey metadataUrl
    (Http.elapse 90000000
       (Http.saveToCache urlKey metadataUrl "{}" (headers okWithEtag) freshWorld))
  = None.
Proof.
  split.
  - apply (proj1 (HttpMore.cache_round_trip urlKey metadataUrl "{}"
                    (headers okWithEtag) freshWorld
                    (Http.elapse 3600000
                       (Http.saveToCache urlKey metadataUrl "{}" (headers okWithEtag)
                          freshWorld)) eq_refl)).
    vm_compute. discriminate.
  - apply (proj1 (proj2 (HttpMore.cache_round_trip urlKey metadataUrl "{}"
                    (headers okWithEtag) freshWorld
                    (Http.elapse 90000000
                       (Http.saveToCache urlKey metadataUrl "{}" (headers okWithEtag)
                          freshWorld)) eq_refl))).
    vm_compute. reflexivity.
Defined.

Lemma request_cache_discipline_witness :
  Http.cache (snd (Http.request urlKey etagServer noJitter Http.defaultClient "POST"
                     metadataUrl Http.noRequestOptions freshWorld))
  = Http.cache freshWorld /\
  Http.cache (snd (Http.request urlKey alwaysFailing noJitter Http.defaultClient "GET"
                     metadataUrl Http.noRequestOptions freshWorld))
  = Http.cache freshWorld.
Proof.
  split.
  - pose proof (HttpMore.request_cache_discipline urlKey etagServer noJitter
                  Http.defaultClient "POST" metadataUrl Http.noRequestOptions
                  freshWorld) as H.
    cbv zeta in H. destruct H as (Hpost & _). apply Hpost. reflexivity.
  - pose proof (HttpMore.request_cache_discipline urlKey alwaysFailing noJitter
                  Http.defaultClient "GET" metadataUrl Http.noRequestOptions
                  freshWorld) as H.
    cbv zeta in H. destruct H as (_ & Hthrow & _).
    apply (Hthrow serverError). reflexivity.
Defined.

Lemma expired_entry_is_ignored_witness :
  (Http.sent (snd (Http.request urlKey etagServer noJitter Http.defaultClient "GET"
                     metadataUrl Http.noRequestOptions staleCacheWorld))
   = [{| Http.reqMethod := "GET"; Http.reqUrl := metadataUrl;
         Http.reqIfNoneMatch := None; Http.reqBody := None |}] /\
   fst (Http.request urlKey etagServer noJitter Http.defaultClient "GET"
          metadataUrl Http.noRequestOptions staleCacheWorld) = Ok "{}") /\
  (fst (Http.request urlKey unchangedServer noJitter Http.defaultClient "GET"
          metadataUrl Http.noRequestOptions staleCacheWorld)
   = Throw notModifiedError /\
   Http.sent (snd (Http.request urlKey unchangedServer noJitter Http.defaultClient
                     "GET" metadataUrl Http.noRequestOptions staleCacheWorld))
   = [{| Http.reqMethod := "GET"; Http.reqUrl := metadataUrl;
         Http.reqIfNoneMatch := None; Http.reqBody := None |}] /\
   Http.cache (snd (Http.request urlKey unchangedServer noJitter Http.defaultClient
                      "GET" metadataUrl Http.noRequestOptions staleCacheWorld))
   = Http.cache staleCacheWorld).
Proof.
  split.
  - pose proof (HttpMore.expired_entry_is_ignored urlKey etagServer noJitter
                  Http.defaultClient metadataUrl Http.noRequestOptions staleCacheWorld
                  {| Http.entryUrl := metadataUrl; Http.timestamp := 1700000000000;
                     Http.entryHeaders := headers okWithEtag; Http.entryData := "{}" |})
      as H.
    cbv zeta in H.
    destruct H as (_ & Hresolved & _); [reflexivity|vm_compute; reflexivity|].
    destruct (Hresolved okWithEtag eq_refl eq_refl) as (Hsent & Hout & _).
    split; [exact Hsent|exact Hout].
  - pose proof (HttpMore.expired_entry_is_ignored urlKey unchangedServer noJitter
                  Http.defaultClient metadataUrl Http.noRequestOptions staleCacheWorld
                  {| Http.entryUrl := metadataUrl; Http.timestamp := 1700000000000;
                     Http.entryHeaders := headers okWithEtag; Http.entryData := "{}" |})
      as H.
    cbv zeta in H.
    destruct H as (_ & _ & Hrejected); [reflexivity|vm_compute; reflexivity|].
    destruct (Hrejected notModifiedError notModified eq_refl eq_refl eq_refl)
      as (Hout & Hsent & Hcache & _).
    split; [exact Hout|]. split; [exact Hsent|exact Hcache].
Defined.

Lemma rate_limit_delay_witness :
  Http.retryDelayFor Http.defaultClient 3
    {| message := "Request failed with status code 429";
       response := Some retryAtDate |} 0 = None /\
  Http.now (Http.sleep
              (Http.retryDelayFor Http.defaultClient 3
                 {| message := "Request failed with status code 429";
                    response := Some retryAtDate |} 0) freshWorld)
  = (Http.now freshWorld + 1)%Z.
Proof.
  pose proof (HttpMore.rate_limit_delay Http.defaultClient
                "Request failed with status code 429" retryAtDate eq_refl) as H.
  cbv zeta in H. destruct H as (_ & _ & Hdate).
  apply (Hdate "Wed, 21 Oct 2015 07:28:00 GMT");
    [reflexivity|discriminate|reflexivity].
Defined.

(** ** The Sourcify client *)

Lemma rejected_address_sends_nothing_witness :
  Sourcify.fetchMetadata lowHash (list string) (loggingGet partialOnly) noClock
    mirrors 1 wethUpper []
  = (Throw (plainError ("Invalid address format: " ++ wethUpper)), []) /\
  Sourcify.fetchAllSources lowHash noEncoding twoSources (list string)
    (loggingGet onlyA) mirrors inTurn 1 tooShort "{}" Sourcify.full [] = (Ok ∅, []).
Proof.
  split.
  - destruct (SourcifyMore.rejected_address_sends_nothing lowHash noEncoding twoSources
                (list string) (loggingGet partialOnly) (loggingGet partialOnly) noClock
                mirrors inTurn 1 wethUpper "A.sol" "{}" Sourcify.full []) as (Hmeta & _).
    apply Hmeta. reflexivity.
  - destruct (SourcifyMore.rejected_address_sends_nothing lowHash noEncoding twoSources
                (list string) (loggingGet onlyA) (loggingGet onlyA) noClock
                mirrors inTurn 1 tooShort "A.sol" "{}" Sourcify.full []) as (_ & Hsrc).
    destruct (Hsrc (plainError "Invalid address format") eq_refl)
      as (_ & _ & _ & Hall).
    apply Hall. reflexivity.
Defined.

Lemma fetchSourceFile_scan_witness :
  Sourcify.fetchSourceFile lowHash noEncoding (list string) (loggingGet onlyA)
    mirrorFirst 1 weth "A.sol" Sourcify.full []
  = (Ok "contract A {}",
     ["https://mirror.example/contracts/full_match/1/0xc02aaa39b223fe8d0a0e5c4f27ead9083c756cc2/sources/A.sol";
      sourceA]).
Proof.
  pose proof (SourcifyMore.fetchSourceFile_scan lowHash noEncoding (list string)
                (loggingGet onlyA) mirrorFirst 1 weth "A.sol" Sourcify.full []) as H.
  cbv zeta in H. destruct H as (Hfound & _).
  apply (Hfound ["https://mirror.example"] "https://repo.sourcify.dev" []
           (Some notFound)
           ["https://mirror.example/contracts/full_match/1/0xc02aaa39b223fe8d0a0e5c4f27ead9083c756cc2/sources/A.sol"]);
    reflexivity.
Defined.

Lemma checkContractExists_scan_witness :
  fst (SourcifyLookup.checkContractExists lowHash (list string)
         (loggingGet partialOnly) mirrors 1 weth [])
  = Ok (Some {| SourcifyLookup.exists_ := true;
                SourcifyLookup.foundMatchType := Sourcify.partial;
                SourcifyLookup.foundSourceUrl := "https://mirror.example" |}) /\
  length (snd (SourcifyLookup.checkContractExists lowHash (list string)
                 (loggingGet partialOnly) mirrors 1 weth [])) = 4%nat.
Proof.
  pose proof (SourcifyMore.checkContractExists_scan lowHash (list string)
                (loggingGet partialOnly) mirrors 1 weth [] eq_refl) as H.
  cbv zeta in H. destruct H as (Hfound & _).
  rewrite (Hfound [(Sourcify.full, "https://repo.sourcify.dev");
                   (Sourcify.full, "https://mirror.example");
                   (Sourcify.partial, "https://repo.sourcify.dev")]
             Sourcify.partial "https://mirror.example" [] (Some notFound)
             ["https://repo.sourcify.dev/contracts/full_match/1/0xc02aaa39b223fe8d0a0e5c4f27ead9083c756cc2/metadata.json";
              "https://mirror.example/contracts/full_match/1/0xc02aaa39b223fe8d0a0e5c4f27ead9083c756cc2/metadata.json";
              "https://repo.sourcify.dev/contracts/partial_match/1/0xc02aaa39b223fe8d0a0e5c4f27ead9083c756cc2/metadata.json"]
             {| SourcifyLookup.exists_ := true;
                SourcifyLookup.foundMatchType := Sourcify.partial;
                SourcifyLookup.foundSourceUrl := "https://mirror.example" |}
             ["https://repo.sourcify.dev/contracts/full_match/1/0xc02aaa39b223fe8d0a0e5c4f27ead9083c756cc2/metadata.json";
              "https://mirror.example/contracts/full_match/1/0xc02aaa39b223fe8d0a0e5c4f27ead9083c756cc2/metadata.json";
              "https://repo.sourcify.dev/contracts/partial_match/1/0xc02aaa39b223fe8d0a0e5c4f27ead9083c756cc2/metadata.json";
              partialAtMirror]);
    [split; reflexivity|reflexivity..].
Defined.

Lemma fetchFromIpfs_scan_witness :
  SourcifyLookup.fetchFromIpfs (list string) (loggingGet secondGateway) gateways
    "QmYwAPJzv5CZsnA" []
  = (Ok "null",
     ["https://ipfs.io/ipfs/QmYwAPJzv5CZsnA";
      "https://gateway.example/ipfs/QmYwAPJzv5CZsnA"]) /\
  SourcifyLookup.fetchFromIpfs (list string) (loggingGet secondGateway) []
    "QmYwAPJzv5CZsnA" []
  = (Throw (plainError "Failed to fetch CID QmYwAPJzv5CZsnA from IPFS: undefined"), []).
Proof.
  split.
  - pose proof (SourcifyMore.fetchFromIpfs_scan (list string) (loggingGet secondGateway)
                  gateways "QmYwAPJzv5CZsnA" []) as H.
    cbv zeta in H. destruct H as (Hfound & _).
    apply (Hfound ["https://ipfs.io/ipfs"] "https://gateway.example/ipfs" []
             (Some serverError) ["https://ipfs.io/ipfs/QmYwAPJzv5CZsnA"]);
      reflexivity.
  - pose proof (SourcifyMore.fetchFromIpfs_scan (list string) (loggingGet secondGateway)
                  [] "QmYwAPJzv5CZsnA" []) as H.
    cbv zeta in H. destruct H as (_ & Hnone & _).
    destruct (Hnone None [] eq_refl) as [Hthrow _]. exact Hthrow.
Defined.

(** ** The archive *)



(** ** The address lists and the commands *)

Lemma readAddresses_all_or_nothing_witness :
  exists rs, Cli.readAddresses lowHash trimAscii chainsDirectory "ethereum" = Ok rs.
Proof.
  pose proof (CliMore.readAddresses_all_or_nothing lowHash trimAscii chainsDirectory
                "ethereum") as H.
  cbv zeta in H. destruct H as (_ & _ & Hcontent).
  destruct (Hcontent addressesTxt eq_refl) as (Hall & _).
  apply Hall. repeat constructor; eexists; reflexivity.
Defined.

Lemma validate_input_reports_duplicates_witness :
  exists addresses dups,
    Cli.readAddresses lowHash trimAscii chainsDirectory "ethereum" = Ok addresses /\
    2%nat = length addresses /\
    [Cli.Duplicate weth] = map Cli.Duplicate dups /\
    1%nat = length dups /\
    (1 + size (list_to_set addresses : gset string) = 2)%nat /\
    (1%nat = 0%nat <-> NoDup addresses).
Proof.
  apply (CliMore.validate_input_reports_duplicates lowHash trimAscii chainsDirectory
           "ethereum" 2 1 [Cli.Duplicate weth]).
  vm_compute. reflexivity.
Defined.

Lemma selectAddresses_ranges_witness :
  Cli.selectAddresses lowHash
    {| Cli.optAddress := None; Cli.optFrom := Some (Some 1%Z);
       Cli.optTo := Some (Some 3%Z); Cli.optLimit := None |} fiveAddresses
  = Ok ["a1"; "a2"] /\
  Cli.selectAddresses lowHash
    {| Cli.optAddress := None; Cli.optFrom := Some (Some 3%Z);
       Cli.optTo := Some (Some 2%Z); Cli.optLimit := None |} fiveAddresses
  = Ok ["a3"] /\
  Cli.selectAddresses lowHash
    {| Cli.optAddress := None; Cli.optFrom := Some (Some 4%Z);
       Cli.optTo := Some (Some 1%Z); Cli.optLimit := None |} fiveAddresses
  = Ok [].
Proof.
  destruct (CliMore.selectAddresses_ranges lowHash fiveAddresses)
    as (Hrange & Hbelow & _).
  split; [|split].
  - apply (Hrange 1%Z 3%Z). lia.
  - apply (Hbelow 3%Z 2%Z). lia.
  - destruct (Hbelow 4%Z 1%Z) as [Hselected Hempty]; [lia|].
    assert (Z.of_nat (length fiveAddresses) <= 2 * 4 - 1)%Z as Hshort
      by (simpl; lia).
    apply Hempty in Hshort. rewrite Hselected. exact (f_equal Ok Hshort).
Defined.


(** ** The verifier *)

Lemma calculateBytecodeHash_prefix_witness :
  Verification.calculateBytecodeHash tagHash (Some "0x6080")
  = Verification.calculateBytecodeHash tagHash (Some "6080") /\
  Verification.calculateBytecodeHash tagHash (Some "6080") = Some "sha256:6080".
Proof.
  destruct (VerificationFacts.calculateBytecodeHash_prefix tagHash (list string) node
              (Some "6080")) as (_ & Hprefix & _).
  apply (Hprefix "6080"); [discriminate|reflexivity].
Defined.

Lemma verifyContract_verdict_witness :
  Verification.errors
    (fst (Verification.verifyContract tagHash (list string) node mainnet weth
            (Some wethMetadata) [])) = [] /\
  snd (Verification.verifyContract tagHash (list string) node withoutRpc weth
         (Some wethMetadata) []) = [].
Proof.
  split.
  - pose proof (VerificationFacts.verifyContract_verdict tagHash (list string) node
                  mainnet weth (Some wethMetadata) []) as H.
    cbv zeta in H. destruct H as (_ & _ & _ & Hverified & _).
    destruct (Hverified eq_refl) as (Herrors & _). exact Herrors.
  - pose proof (VerificationFacts.verifyContract_verdict tagHash (list string) node
                  withoutRpc weth (Some wethMetadata) []) as H.
    cbv zeta in H. destruct H as (_ & _ & _ & _ & _ & _ & Hnorpc).
    destruct (Hnorpc eq_refl) as (Hstate & _). exact Hstate.
Defined.

Lemma createHashesRecord_cids_witness :
  exists cids,
    Verification.ipfsCids
      (Verification.createHashesRecord tagHash 1700000000000
         (fst (Verification.verifyContract tagHash (list string) node mainnet weth
                 (Some wethMetadata) []))
         wethMetadata) = Some cids /\
    "QmYwAPJzv5CZsnA" ∈ cids.
Proof.
  pose proof (VerificationFacts.createHashesRecord_cids tagHash 1700000000000
                (fst (Verification.verifyContract tagHash (list string) node mainnet
                        weth (Some wethMetadata) []))
                wethMetadata) as H.
  cbv zeta in H. destruct H as (_ & Hcids & _).
  destruct (Hcids _ eq_refl) as (cids & Heq & Hin).
  exists cids. split; [exact Heq|]. apply Hin.
  exists "WETH9.sol",
    {| Verification.urls := Some ["bzz-raw://8b3f"; "ipfs://QmYwAPJzv5CZsnA"] |},
    ["bzz-raw://8b3f"; "ipfs://QmYwAPJzv5CZsnA"].
  split; [left|]. split; [reflexivity|]. right. left.
Defined.

Lemma validateContractIntegrity_verdict_witness :
  Verification.integrityErrors
    (Verification.validateContractIntegrity 1800000000000 "ethereum" weth archived)
  = [] /\
  Verification.integrityWarnings
    (Verification.validateContractIntegrity 1800000000000 "ethereum" weth archived)
  <> [].
Proof.
  pose proof (VerificationFacts.validateContractIntegrity_verdict 1800000000000
                "ethereum" weth archived) as H.
  cbv zeta in H. destruct H as (Herrors & _ & _ & _ & Hstale).
  split.
  - apply Herrors. reflexivity.
  - apply Hstale.
    exists {| Verification.docLastUpdatedAt := Some (Some 1700000000000%Z) |},
      1700000000000%Z.
    split; [reflexivity|]. split; [reflexivity|]. vm_compute. reflexivity.
Defined.

(** ** The checksums of a contract directory *)

Lemma tagHash_never_empty content : tagHash content <> "".
Proof. discriminate. Qed.

Lemma validateChecksums_verdict_witness :
  Validator.errors
    (ChecksumValidation.validateChecksums tagHash readManifest isADirectory editedDir)
  <> [] /\
  Validator.warnings
    (ChecksumValidation.validateChecksums tagHash readManifest isADirectory sealedDir)
  = [] /\
  ChecksumValidation.validateChecksums tagHash readManifest isADirectory sealedDir
  = {| Validator.valid := true; Validator.errors := []; Validator.warnings := [] |} /\
  Validator.valid
    (ChecksumValidation.validateChecksums tagHash readManifest isADirectory annotatedDir)
  = false.
Proof.
  assert (forall dir,
            (forall k v, k ∈ ["abi.json"; "metadata.json"; "source/Token.sol"] ->
               Checksum.generateChecksums tagHash contractDir !! k = Some v ->
               Checksum.generateChecksums tagHash dir !! k = Some v) ->
            forall k v,
              Checksum.generateChecksums tagHash contractDir !! k = Some v ->
              Checksum.generateChecksums tagHash dir !! k = Some v) as Hlisted.
  { intros dir Hdir k v Hk. apply Hdir; [|exact Hk].
    apply elem_of_map_to_list in Hk. vm_compute in Hk.
    apply elem_of_cons in Hk as [[= -> _]|Hk]; [set_solver|].
    apply elem_of_cons in Hk as [[= -> _]|Hk]; [set_solver|].
    apply elem_of_cons in Hk as [[= -> _]|Hk]; [set_solver|].
    apply elem_of_nil in Hk as []. }
  split; [|split; [|split]].
  - pose proof (ChecksumMore.validateChecksums_verdict tagHash readManifest isADirectory
                  editedDir) as H.
    cbv zeta in H. destruct H as (_ & Hinvalid & _).
    apply Hinvalid. vm_compute. reflexivity.
  - pose proof (ChecksumMore.validateChecksums_verdict tagHash readManifest isADirectory
                  sealedDir) as H.
    cbv zeta in H. destruct H as (Hvalid & _).
    destruct Hvalid as (_ & Hwarnings & _); [vm_compute; reflexivity|].
    exact Hwarnings.
  - pose proof (ChecksumMore.validateChecksums_verdict tagHash readManifest isADirectory
                  sealedDir) as H.
    cbv zeta in H. destruct H as (_ & _ & _ & Hheld).
    destruct (Hheld tagHash_never_empty "checksums.json" manifestJson
                (Checksum.generateChecksums tagHash contractDir) eq_refl eq_refl)
      as [Hplain _].
    + apply Hlisted. intros k v Hk Hv.
      repeat (apply elem_of_cons in Hk as [->|Hk]; [exact Hv|]).
      apply elem_of_nil in Hk as [].
    + apply Hplain. intros k [v Hk] Hnone.
      apply elem_of_map_to_list in Hk. vm_compute in Hk.
      repeat (apply elem_of_cons in Hk as [[= -> _]|Hk]; [reflexivity|]).
      apply elem_of_nil in Hk as [].
  - pose proof (ChecksumMore.validateChecksums_verdict tagHash readManifest isADirectory
                  annotatedDir) as H.
    cbv zeta in H. destruct H as (_ & _ & _ & Hheld).
    destruct (Hheld tagHash_never_empty "checksums.json" manifestJson
                (Checksum.generateChecksums tagHash contractDir) eq_refl eq_refl)
      as [_ Hnamed].
    + apply Hlisted. intros k v Hk Hv.
      repeat (apply elem_of_cons in Hk as [->|Hk]; [exact Hv|]).
      apply elem_of_nil in Hk as [].
    + apply (Hnamed "constructor" (tagHash "notes")); reflexivity.
Defined.

Lemma sealContract_then_validate_witness :
  ChecksumValidation.validateChecksums tagHash readManifest isADirectory sealedDir
  = {| Validator.valid := true; Validator.errors := []; Validator.warnings := [] |}.
Proof.
  destruct (ChecksumMore.sealContract_then_validate tagHash readManifest writeManifest
              isADirectory contractDir sealedDir "{ records: [] }"
              tagHash_never_empty eq_refl eq_refl) as (Hfirst & _).
  apply Hfirst; vm_compute; reflexivity.
Defined.

(** ** The explorer *)

Lemma getExplorerName_names_witness :
  Explorer.getExplorerName "https://api-optimistic.etherscan.io/api" = "Etherscan".
Proof.
  apply (proj1 (proj2 (ExplorerFacts.getExplorerName_names
                         "https://api-optimistic.etherscan.io/api"))).
  reflexivity.
Defined.

Lemma fetchContractSource_spec_witness :
  exists n w1,
    ExplorerClient.fetchContractSource lowHash environment queryString noJson asText
      (list string) explorerApi noClock etherscan weth [] = (Ok n, w1) /\
    ExplorerClient.optimizerRuns n <> 0%Z /\
    w1 = ["https://api.etherscan.io/api?module=contract&action=getsourcecode&address=0xc02aaa39b223fe8d0a0e5c4f27ead9083c756cc2&apikey=K3Y"].
Proof.
  destruct (ExplorerClientFacts.fetchContractSource_spec lowHash environment queryString
              noJson asText (list string) explorerApi noClock etherscan weth [])
    as (_ & _ & Hreturned & _).
  eexists _, _. split; [reflexivity|].
  destruct (Hreturned _ _ eq_refl)
    as (base & response & first & rest & _ & _ & _ & _ & _ & _ & _ & _ & Hruns & _).
  split; [exact Hruns|reflexivity].
Defined.

End ExamplesMore.
